(* ===== verification/_CoqProject ===== *)
-Q . S2P
Prelude.v
Mathematics.v
Ranges.v
SysInfo.v
Settings.v
Errors.v
Placement.v
Items.v
Headers.v
World.v
ItemOps.v
Platform.v
Kernel32.v
HeaderOps.v
HeaderSpec.v
HeaderWp.v
HeaderInit.v
HeaderNext.v
Text.v
MapParser.v
Posix.v
PosixSpec.v
MemoryMappedFiles.v
Finder.v
MmfSpec.v
MappedFile.v
Buffers.v
Places.v
AllocLinux.v
LinuxMaps.v
AllocWindows.v
AllocOsx.v
AllocMmapRs.v
Allocate.v
Succeeds.v
BuffersSpec.v
ReleaseSpec.v
ItemSpec.v
Sessions.v
ErrorTexts.v
FinderSpec.v
FirstFit.v
Pool.v
Thrift.v
PrivateSessions.v
CExports.v
CSpec.v
HeaderThreads.v
MemoryThreads.v
HeaderRefine.v
HeaderProgress.v
ChainThreads.v
Toy.v
ToyChain.v
Conformance.v
FileTests.v
BufferTheorems.v
SessionTheorems.v
PlatformTheorems.v
SuccessTheorems.v
ThreadTheorems.v
FindingTheorems.v
