(* ===== verification/Prelude.v ===== *)
(** * Verification of reloaded-memory-buffers

    The Rust crate under src-rust/ hands out buffers of executable memory near
    a given address.  This library models its code and proves what it
    guarantees.  Paths below are relative to src-rust/src/.

    ** The program

    A process keeps a chain of _locators_.  A locator is 4096 bytes: a header
    ([LocatorHeader]) and a table of items ([LocatorItem]).  An item describes
    one buffer: where it is, how long, how much of it is used, and whether
    someone has it.  [Buffers::get_buffer] finds the first locator
    ([LocatorHeaderFinder::find]), takes a free item that suits the request or
    has the locator allocate one, and goes to the next locator when the table
    is full.  Memory comes from [allocate], which has one implementation per
    operating system; all of them ask [get_possible_buffer_addresses] where in
    a free range of the address space the buffer may go.  Callers append data
    to their item, and give it back by dropping it.  c/ exports all of this to
    C.

    ** How it is modelled

    Prelude.v (this file) holds what all files share.  An integer is a [Z];
    operations that can leave the range of their type wrap around, as in the
    release profile of the crate, which has no overflow checks and no debug
    assertions.  What [cfg(..)] selects is the class [Target]: a theorem that
    does not fix it holds for all targets.  Effectful code is in the monad
    [M], whose runs end with a value, a panic, undefined behaviour ([Fault])
    or no fuel left; [wp m Q s] says that the run ends with a value and that
    [Q] holds: the theorems exclude the three other outcomes, but for
    [wp_unless bad m Q s], of the code that unwraps a result: it panics exactly
    when [bad] is the case.  [while] loops
    run at most [2 ^ 66] rounds, by doubling, so the definitions evaluate;
    every rule for loops asks for a measure, and no loop has a measure above
    [usize::MAX + 1], so that the fuel is never used up.

    World.v has the state: [World OS] holds the headers and the items by
    address, the bytes of the buffers, the statics, a trace of writes, page
    protections and cache flushes, and the state [OS] of the operating
    system.  System calls and functions of other crates are parameters, in
    one class per platform ([Posix], [Kernel32], [Mach], [MmapRs], ...); what
    the code relies on is in a class of laws beside each ([PosixLaws], ...),
    in terms of [owned], the bytes that are mapped.

    ** Files

    - Mathematics.v, Ranges.v, SysInfo.v, Settings.v, Errors.v: utilities/
      mathematics.rs, address_range.rs, cached.rs; structs/params and
      structs/errors.
    - Placement.v: [get_possible_buffer_addresses] of
      internal/buffer_allocator.rs, with its specification as a filter of four
      candidates.
    - Items.v, Headers.v: the records of structs/internal/locator_item.rs and
      locator_header.rs with the methods that need no pointer; ItemOps.v and
      HeaderOps.v: the methods through a pointer, with
      structs/safe_locator_item.rs, utilities/disable_write_xor_execute.rs and
      utilities/icache_clear.rs.
    - Platform.v: the interface between locators and allocators.  The class
      [PlatformLaws] is proved for each target in Allocate.v from the
      functional correctness of AllocLinux.v, AllocWindows.v, AllocOsx.v and
      AllocMmapRs.v (internal/buffer_allocator_*.rs); everything above it is
      proved against the class.
    - Kernel32.v: the trait of internal/buffer_allocator_windows.rs with its two
      implementors, over the memory functions of Windows.
    - Text.v, MapParser.v, Posix.v: utilities/map_parser_utilities.rs and
      linux_map_parser.rs, with the text operations of the standard library.
      PosixSpec.v: the laws of the Unix calls.
    - MemoryMappedFiles.v, Finder.v: internal/memory_mapped_file_*.rs and
      locator_header_finder.rs; MmfSpec.v: the Unix file and the cleanup of
      its directory.  MappedFile.v: the interface of a mapped file
      ([MappedFileLaws]), which the files of Unix and of Windows implement.
    - Buffers.v: buffers.rs and structs/private_allocation.rs.  CExports.v: c/.
    - HeaderSpec.v: the invariant [inv] of a chain: the locators are linked in
      order and unlocked, every slot below the count holds a well-formed item,
      and no two items share a byte (see Bounds).  HeaderWp.v, HeaderInit.v,
      HeaderNext.v, BuffersSpec.v, ItemSpec.v, FinderSpec.v, ReleaseSpec.v,
      CSpec.v: what the operations do under it.
    - FirstFit.v: the order in which a search takes buffers, on chains whose
      locators fill up in order ([packed]).  Pool.v: the abstract
      specification, a list of buffers that only grows at its end, with what a
      client can rely on ([Pool.sound]); the steps of Sessions.v are steps of
      it.  Thrift.v: the length of the chain.  Places.v, LinuxMaps.v,
      Succeeds.v: when an allocation must succeed: a place that fits, the free
      regions read from the text of the map file, and each allocator on a
      system that grants what is free ([WindowsGrants], [LinuxLaws], ...).
    - Sessions.v: any number of calls of a client, as a step relation.
      PrivateSessions.v: the same with private memory in between.
    - ErrorTexts.v: the texts of the errors of the allocators have no NUL,
      which the C interface needs to make C strings of them.
    - HeaderThreads.v, ChainThreads.v: the operations that several threads run
      at once, as atomic steps in any order.  MemoryThreads.v: the threads of
      any fixed set of locators with the memory behind their items: appends
      store byte by byte.  HeaderRefine.v: the sequential operations are runs of the steps.
      HeaderProgress.v: infinite executions, fairness, and what happens in
      them eventually.
    - Toy.v, ToyChain.v: a small operating system that satisfies all laws and
      grants what is free, and small chains on it: the theorems' hypotheses can
      hold, and the program runs.
    - Conformance.v, FileTests.v: the unit tests of the crate, translated test
      by test and run on the model; FileTests.v has the tests of files that are
      opened twice, and [find] as test builds have it.
    - BufferTheorems.v, SessionTheorems.v, PlatformTheorems.v,
      SuccessTheorems.v, ThreadTheorems.v, FindingTheorems.v: the properties.

    ** What is shown

    - BufferTheorems.v: searching, aligning, appending, overwriting, giving
      back, growing the chain and the C entry point with the function that
      frees its result, each on any chain that satisfies the invariant; the
      invariant is kept.  The first call of a process, with private locators
      and with locators shared through a file, on Unix and on Windows; a
      second copy of the library in the process works on the chain of the
      first and never gets a buffer the first holds.  A search is first-fit.
      Private memory from its allocation to its drop, on every platform, and
      through the C interface, errors included.
    - SessionTheorems.v: over any sequence of calls, on every target, the
      client's buffers are its own and what it wrote stays where it was put
      (the buffers of one granule that overlap excepted, see Bounds); searches
      stay first-fit; every session is a run of the pool of Pool.v; locators
      are added only when all tables are full; every call ends; and private
      memory between the calls lies in no buffer and in no locator, and no call
      of the session changes it.
    - SuccessTheorems.v: a search succeeds when a locator has room and the
      platform can serve it; the allocators of Linux, Windows and macOS succeed
      when there is a place; the map file of Linux is read to exactly the
      unmapped bytes, as long as no read fills the string the file is read into
      ([map_readable]; FindingTheorems.v has a read that does).
    - PlatformTheorems.v: each allocator ends and returns memory that nobody
      had, between the bounds; the placement is sound and finds a place when
      there is one; the free regions are the complement of the mapped ones;
      the parser inverts the kernel's printing; sizes are rounded correctly.
    - ThreadTheorems.v: mutual exclusion and accounting of the locks of a
      locator; concurrent appends on initialised locators meet nowhere but in
      bytes that two items had at the start, and stay; one successor per
      locator; under fairness the lock is free again and again, and operations
      return; the blocking locks end; the sequential
      operations refine the steps; and three orders of steps in which the
      code's checks are not enough.
    - FindingTheorems.v: where the code does not do what it means to.

    ** Bounds

    The theorems on searches ask that the size plus the granularity is at most
    [u32::MAX] (a larger one is sanitized to 0, see FindingTheorems.v), and
    [granule_fits]: the buffers that [initialize] puts into one granule fit the
    table, and a granule is at most 2 MiB (every system has 4 KiB, 16 KiB or
    64 KiB).  Above 20 KiB a locator has several of these buffers, and they
    overlap ([same_chunk], see FindingTheorems.v): disjointness is stated for
    all other pairs, and an append stays unless one to such a buffer of the
    same locator goes over it ([logged] in Sessions.v, [overlap] in
    MemoryThreads.v; twins in Pool.v).  Where a granularity is at most 20 KiB,
    and on Apple silicon, where the rest of a granule holds locators instead
    ([one_chunk]), there are no such pairs, and SessionTheorems.v says that
    nothing is excepted.

    ** Not modelled

    - The branch of [allocate_windows] that picks [RemoteKernel32]: it needs a
      feature that Cargo.toml does not declare.
    - The method [get_allocation_granularity] that the allocator of the mmap-rs
      targets calls and the crate does not define (these targets do not
      compile): a parameter of AllocMmapRs.v.  Nothing is assumed of it; what
      PlatformTheorems.v says of the allocator holds whatever it returns.
    - The packed wrapper [Unaligned]; re-exports (lib.rs).
    - Machine code: the tests that execute the bytes they appended run them
      on a processor that is a parameter (Conformance.v).
    - The C# implementation, the generated C headers, benchmarks.
    - Weak memory: steps of threads are sequentially consistent, as the
      orderings of the atomics are.

    - Two views of one file as one memory: what a view shows of an existing
      file is a parameter ([SharedViews]); [coherent] (FinderSpec.v) says that
      it is what the first view holds.

    ** Limits

    MemoryThreads.v has no step that adds a locator: its threads run on locators
    that are initialised at the start.  [get_next_locator] publishes a locator
    before it initialises it: [uninitialised_locator_returned] in
    ThreadTheorems.v has a thread at a locator whose memory holds no header yet,
    and what it finds there is arbitrary.  The threads of ChainThreads.v, which
    extend the chain, are therefore kept apart from
    those that use the items.  Threads of several copies of the library in a
    process need no theorem of their own beyond [second_copy_shares]: the locks
    and tables they share are in the locators, and a thread of HeaderThreads.v
    or MemoryThreads.v may belong to any copy.  No operation of the crate is
    left out, apart from what is named above. *)

From Stdlib Require Export ZArith Lia.
From stdpp Require Export base list gmap strings numbers.

#[global] Open Scope Z_scope.
(** ** Build targets

    The crate is compiled for several targets; what [cfg(..)] selects at build
    time is data of the model. *)

Inductive width := W32 | W64.

Inductive os := Windows | Linux | MacOS | Android | OtherUnix.

Class Target := {
  ptr_width : width;          (* cfg(target_pointer_width) *)
  target_os : os;             (* cfg(target_os) *)
  target_aarch64 : bool;      (* cfg(target_arch = "aarch64") *)
  target_x86 : bool;          (* cfg(any(target_arch = "x86", target_arch = "x86_64")) *)
  feature_all_private : bool; (* cfg(feature = "all_private") *)
  feature_no_format : bool    (* cfg(feature = "no_format") *)
}.

#[global] Instance width_eq_dec : EqDecision width.
Proof. solve_decision. Defined.
#[global] Instance os_eq_dec : EqDecision os.
Proof. solve_decision. Defined.

(** [cfg!(windows)] and [cfg!(unix)]. *)
Definition cfg_windows `{Target} : bool := bool_decide (target_os = Windows).
Definition cfg_unix `{Target} : bool := negb cfg_windows.

(** [cfg(all(target_os = "macos", target_arch = "aarch64"))] *)
Definition cfg_macos_aarch64 `{Target} : bool :=
  bool_decide (target_os = MacOS) && target_aarch64.

(** ** Machine integers

    A w-bit integer is a [Z]; every operation that can leave the range wraps
    around, as the release profile of the crate does (no overflow checks). *)

Definition size_of_usize `{Target} : Z := match ptr_width with W32 => 4 | W64 => 8 end.
Definition usize_modulus `{Target} : Z :=
  match ptr_width with W32 => 4294967296 | W64 => 18446744073709551616 end.
Definition usize_max `{Target} : Z := usize_modulus - 1.
Definition u32_modulus : Z := 4294967296.
Definition u32_max : Z := u32_modulus - 1.

Definition is_usize `{Target} (z : Z) : Prop := 0 <= z <= usize_max.
Definition is_u32 (z : Z) : Prop := 0 <= z <= u32_max.
Definition is_u8 (z : Z) : Prop := 0 <= z <= 255.

Definition wrap_usize `{Target} (z : Z) : Z := z mod usize_modulus.
Definition add_usize `{Target} (a b : Z) : Z := wrap_usize (a + b).
Definition sub_usize `{Target} (a b : Z) : Z := wrap_usize (a - b).
Definition as_u32 (z : Z) : Z := z mod u32_modulus.
Definition add_u32 (a b : Z) : Z := as_u32 (a + b).
Definition sub_u32 (a b : Z) : Z := as_u32 (a - b).
Definition as_u8 (z : Z) : Z := z mod 256.
Definition add_u8 (a b : Z) : Z := as_u8 (a + b).
(** [as i32]: two's complement. *)
Definition as_i32 (z : Z) : Z :=
  let r := as_u32 z in if r <? 2147483648 then r else r - u32_modulus.

Declare Scope machine_scope.
Delimit Scope machine_scope with machine.
Infix "+u" := add_usize (at level 50, left associativity) : machine_scope.
Infix "-u" := sub_usize (at level 50, left associativity) : machine_scope.
Infix "+u32" := add_u32 (at level 50, left associativity) : machine_scope.
Infix "-u32" := sub_u32 (at level 50, left associativity) : machine_scope.
#[global] Open Scope machine_scope.

Create HintDb machine.
Create Rewrite HintDb machine_rw.

Section machine_lemmas.
Context `{T : Target}.

Lemma usize_modulus_cases :
  usize_modulus = 4294967296 \/ usize_modulus = 18446744073709551616.
Proof. unfold usize_modulus. destruct ptr_width; auto. Qed.

Lemma usize_modulus_pos : 0 < usize_modulus.
Proof. destruct usize_modulus_cases as [-> | ->]; lia. Qed.

Lemma u32_le_usize z : is_u32 z -> is_usize z.
Proof.
  unfold is_u32, is_usize, u32_max, usize_max, u32_modulus.
  destruct usize_modulus_cases as [-> | ->]; lia.
Qed.

Lemma wrap_usize_range z : is_usize (wrap_usize z).
Proof.
  unfold is_usize, wrap_usize, usize_max.
  pose proof (Z.mod_pos_bound z usize_modulus usize_modulus_pos). lia.
Qed.

Lemma wrap_usize_small z : is_usize z -> wrap_usize z = z.
Proof. unfold is_usize, wrap_usize, usize_max. intros. apply Z.mod_small. lia. Qed.

Lemma add_usize_range a b : is_usize (a +u b).
Proof. apply wrap_usize_range. Qed.

Lemma sub_usize_range a b : is_usize (a -u b).
Proof. apply wrap_usize_range. Qed.

Lemma add_usize_small a b : 0 <= a + b <= usize_max -> a +u b = a + b.
Proof. apply wrap_usize_small. Qed.

Lemma sub_usize_small a b : 0 <= a - b <= usize_max -> a -u b = a - b.
Proof. apply wrap_usize_small. Qed.

Lemma as_u32_range z : is_u32 (as_u32 z).
Proof.
  unfold is_u32, as_u32, u32_max.
  pose proof (Z.mod_pos_bound z u32_modulus eq_refl). lia.
Qed.

Lemma as_u32_small z : is_u32 z -> as_u32 z = z.
Proof. unfold is_u32, as_u32, u32_max. intros. apply Z.mod_small. lia. Qed.

Lemma add_u32_small a b : 0 <= a + b <= u32_max -> a +u32 b = a + b.
Proof. apply as_u32_small. Qed.

Lemma sub_u32_small a b : 0 <= a - b <= u32_max -> a -u32 b = a - b.
Proof. apply as_u32_small. Qed.

Lemma add_u32_range a b : is_u32 (a +u32 b).
Proof. apply as_u32_range. Qed.

Lemma sub_u32_range a b : is_u32 (a -u32 b).
Proof. apply as_u32_range. Qed.

Lemma as_u8_range z : is_u8 (as_u8 z).
Proof. unfold is_u8, as_u8. pose proof (Z.mod_pos_bound z 256 eq_refl). lia. Qed.

Lemma add_u8_small a b : 0 <= a + b <= 255 -> add_u8 a b = a + b.
Proof. unfold add_u8, as_u8. intros. apply Z.mod_small. lia. Qed.

End machine_lemmas.

#[export] Hint Resolve wrap_usize_range add_usize_range sub_usize_range
  as_u32_range add_u32_range sub_u32_range as_u8_range usize_modulus_pos : machine.
#[export] Hint Rewrite @add_usize_small @sub_usize_small @add_u32_small @sub_u32_small
  using lia : machine_rw.

(** Case analysis on a boolean comparison of the goal or of the context, with
    the arithmetic fact it reflects. *)
Ltac case_bool :=
  match goal with
  | |- context [?a <? ?b] => destruct (Z.ltb_spec a b)
  | |- context [?a <=? ?b] => destruct (Z.leb_spec a b)
  | |- context [?a >? ?b] => rewrite (Z.gtb_ltb a b)
  | |- context [?a >=? ?b] => rewrite (Z.geb_leb a b)
  | |- context [?a =? ?b] => destruct (Z.eqb_spec a b)
  | H : context [?a <? ?b] |- _ => destruct (Z.ltb_spec a b)
  | H : context [?a <=? ?b] |- _ => destruct (Z.leb_spec a b)
  | H : context [?a >? ?b] |- _ => rewrite (Z.gtb_ltb a b) in H
  | H : context [?a >=? ?b] |- _ => rewrite (Z.geb_leb a b) in H
  | H : context [?a =? ?b] |- _ => destruct (Z.eqb_spec a b)
  end.

(** The bounds of a remainder by a positive number. *)
Ltac mod_bound n m := assert (0 <= n mod m < m) by (apply Z.mod_pos_bound; lia).

(** Membership in a list written with [++] and [::]. *)
Ltac solve_in := rewrite ?elem_of_app, ?elem_of_cons, ?elem_of_nil; tauto.

(** Turns the boolean comparisons of the context into propositions. *)
Ltac bool_props :=
  rewrite ?andb_true_iff, ?orb_true_iff, ?negb_true_iff, ?andb_false_iff, ?orb_false_iff,
    ?negb_false_iff, ?Z.geb_le, ?Z.leb_le, ?Z.ltb_lt, ?Z.gtb_lt, ?Z.eqb_eq,
    ?Z.leb_gt, ?Z.ltb_ge, ?Z.eqb_neq in *.

(** ** Rust results *)

Inductive result (T E : Type) :=
| Ok (t : T)
| Err (e : E).
Arguments Ok {T E} t.
Arguments Err {T E} e.

(** ** The state monad of effectful code

    A run ends with a value, with a panic, with undefined behaviour (an access
    through a pointer no live object is at), or without result because a loop
    ran longer than its fuel. *)

Inductive outcome (S A : Type) :=
| Done (a : A) (s : S)
| Panic (msg : string)
| Fault
| OutOfFuel.
Arguments Done {S A} a s.
Arguments Panic {S A} msg.
Arguments Fault {S A}.
Arguments OutOfFuel {S A}.

Definition M (S A : Type) : Type := S -> outcome S A.

#[global] Instance M_ret {S} : MRet (M S) := fun A a s => Done a s.
#[global] Instance M_bind {S} : MBind (M S) := fun A B f m s =>
  match m s with
  | Done a s' => f a s'
  | Panic msg => Panic msg
  | Fault => Fault
  | OutOfFuel => OutOfFuel
  end.

Definition get_state {S} : M S S := fun s => Done s s.
Definition modify {S} (f : S -> S) : M S unit := fun s => Done tt (f s).
Definition panic {S A} (msg : string) : M S A := fun _ => Panic msg.
Definition fault {S A} : M S A := fun _ => Fault.
Definition out_of_fuel {S A} : M S A := fun _ => OutOfFuel.

(** An external call: it reads and changes the state, and always returns. *)
Definition call {S A} (f : S -> A * S) : M S A := fun s => let '(a, s') := f s in Done a s'.

(** Total correctness: the run ends with a value and a state that satisfy [Q]. *)
Definition wp {S A} (m : M S A) (Q : A -> S -> Prop) (s : S) : Prop :=
  match m s with Done a s' => Q a s' | _ => False end.

(** The same for code that may panic: it does not fault and does not run on. *)
Definition wp_or_panic {S A} (m : M S A) (Q : A -> S -> Prop) (s : S) : Prop :=
  match m s with Done a s' => Q a s' | Panic _ => True | _ => False end.

(** And for code that panics exactly when [bad] is the case. *)
Definition wp_unless (bad : Prop) {S A} (m : M S A) (Q : A -> S -> Prop) (s : S) : Prop :=
  match m s with Done a s' => ~ bad /\ Q a s' | Panic _ => bad | _ => False end.

Section wp_lemmas.
Context {S : Type}.

Lemma wp_wp_unless bad {A} (m : M S A) (Q : A -> S -> Prop) s :
  ~ bad -> wp m Q s -> wp_unless bad m Q s.
Proof. unfold wp, wp_unless. by destruct (m s). Qed.

Lemma wp_unless_or_panic bad {A} (m : M S A) (Q : A -> S -> Prop) s :
  wp_unless bad m Q s -> wp_or_panic m Q s.
Proof. unfold wp_or_panic, wp_unless. destruct (m s); [by intros [_ ?]|done..]. Qed.

Lemma wp_unless_bind bad {A B} (m : M S A) (f : A -> M S B) Q s :
  wp m (fun a s' => wp_unless bad (f a) Q s') s -> wp_unless bad (m ≫= f) Q s.
Proof. unfold wp, wp_unless, mbind, M_bind. by destruct (m s). Qed.

(** The panic is in the first part. *)
Lemma wp_unless_then bad {A B} (m : M S A) (f : A -> M S B) Q s :
  wp_unless bad m (fun a s' => wp (f a) Q s') s -> wp_unless bad (m ≫= f) Q s.
Proof.
  unfold wp, wp_unless, mbind, M_bind. destruct (m s) as [a s'| | |]; try done.
  intros [Hb H]. by destruct (f a s').
Qed.

Lemma wp_or_panic_unless {A} (m : M S A) (Q : A -> S -> Prop) s :
  wp_or_panic m Q s -> wp_unless (exists msg, m s = Panic msg) m Q s.
Proof. unfold wp_or_panic, wp_unless. destruct (m s); [split; [by intros [? ?]|done]|eauto|done..]. Qed.

Lemma wp_unless_mono bad {A} (m : M S A) (P Q : A -> S -> Prop) s :
  wp_unless bad m P s -> (forall a s', P a s' -> Q a s') -> wp_unless bad m Q s.
Proof. unfold wp_unless. destruct (m s); [intros [? ?]; auto|done..]. Qed.

Lemma wp_unless_run bad {A} (m : M S A) (Q : A -> S -> Prop) s :
  wp_unless bad m Q s -> wp_unless bad m (fun a s' => m s = Done a s' /\ Q a s') s.
Proof. unfold wp_unless. destruct (m s); [by intros [? ?]|done..]. Qed.

Lemma wp_wp_or_panic {A} (m : M S A) (Q : A -> S -> Prop) s : wp m Q s -> wp_or_panic m Q s.
Proof. unfold wp, wp_or_panic. by destruct (m s). Qed.

Lemma wp_or_panic_bind {A B} (m : M S A) (f : A -> M S B) Q s :
  wp_or_panic m (fun a s' => wp_or_panic (f a) Q s') s -> wp_or_panic (m ≫= f) Q s.
Proof. unfold wp_or_panic, mbind, M_bind. by destruct (m s). Qed.

Lemma wp_or_panic_mono {A} (m : M S A) (P Q : A -> S -> Prop) s :
  wp_or_panic m P s -> (forall a s', P a s' -> Q a s') -> wp_or_panic m Q s.
Proof. unfold wp_or_panic. destruct (m s); naive_solver. Qed.

(** The run that the outcome is about. *)
Lemma wp_or_panic_run {A} (m : M S A) (Q : A -> S -> Prop) s :
  wp_or_panic m Q s -> wp_or_panic m (fun a s' => m s = Done a s' /\ Q a s') s.
Proof. unfold wp_or_panic. by destruct (m s). Qed.

Lemma wp_ret {A} (a : A) (Q : A -> S -> Prop) s : Q a s -> wp (mret a) Q s.
Proof. done. Qed.

Lemma wp_bind {A B} (m : M S A) (f : A -> M S B) Q s :
  wp m (fun a s' => wp (f a) Q s') s -> wp (m ≫= f) Q s.
Proof. unfold wp, mbind, M_bind. by destruct (m s). Qed.

Lemma wp_mono {A} (m : M S A) (P Q : A -> S -> Prop) s :
  wp m P s -> (forall a s', P a s' -> Q a s') -> wp m Q s.
Proof. unfold wp. destruct (m s); naive_solver. Qed.

Lemma wp_and {A} (m : M S A) (P Q : A -> S -> Prop) s :
  wp m P s -> wp m Q s -> wp m (fun a s' => P a s' /\ Q a s') s.
Proof. unfold wp. by destruct (m s). Qed.

Lemma wp_modify (f : S -> S) (Q : unit -> S -> Prop) s : Q tt (f s) -> wp (modify f) Q s.
Proof. done. Qed.

Lemma wp_get (Q : S -> S -> Prop) s : Q s s -> wp get_state Q s.
Proof. done. Qed.

Lemma wp_call {A} (f : S -> A * S) (Q : A -> S -> Prop) s :
  Q (f s).1 (f s).2 -> wp (call f) Q s.
Proof. unfold wp, call. by destruct (f s). Qed.

Lemma wp_done {A} (m : M S A) Q s : wp m Q s -> exists a s', m s = Done a s' /\ Q a s'.
Proof. unfold wp. destruct (m s); naive_solver. Qed.

Lemma wp_intro {A} (m : M S A) (Q : A -> S -> Prop) s a s' :
  m s = Done a s' -> Q a s' -> wp m Q s.
Proof. unfold wp. by intros ->. Qed.

Lemma wp_ends {A} (m : M S A) (Q : A -> S -> Prop) s : wp m Q s -> exists a s', m s = Done a s'.
Proof. unfold wp. destruct (m s); naive_solver. Qed.

Lemma wp_ran {A} (m : M S A) (Q : A -> S -> Prop) s :
  wp m Q s -> wp m (fun a s' => m s = Done a s' /\ Q a s') s.
Proof. unfold wp. by destruct (m s). Qed.

Lemma bind_done {A B} (m : M S A) (f : A -> M S B) s b s' :
  (m ≫= f) s = Done b s' -> exists a s1, m s = Done a s1 /\ f a s1 = Done b s'.
Proof. unfold mbind, M_bind. destruct (m s); naive_solver. Qed.

Lemma wp_run {A} (m : M S A) (Q : A -> S -> Prop) s a s' : wp m Q s -> m s = Done a s' -> Q a s'.
Proof. unfold wp. by intros H E; rewrite E in H. Qed.

End wp_lemmas.

Create HintDb wp.
#[export] Hint Resolve wp_ret wp_modify wp_get wp_call : wp.

(** One symbolic step of an effectful definition. *)
Ltac wp_step :=
  lazymatch goal with
  | |- wp (mret _) _ _ => apply wp_ret
  | |- wp (_ ≫= _) _ _ => apply wp_bind
  | |- wp (modify _) _ _ => apply wp_modify
  | |- wp get_state _ _ => apply wp_get
  | |- wp (call _) _ _ => apply wp_call
  end.

(** ** Loops

    [while_loop k body x] runs [body] on the loop state until it returns [inr],
    at most [2 ^ k] times; the depth, not the number of rounds, is a [nat], so
    the definition evaluates and its fuel still exceeds the address space. *)

Fixpoint while_loop {S X A} (k : nat) (body : X -> M S (X + A)) (x : X) : M S (X + A) :=
  match k with
  | O => body x
  | Datatypes.S k' =>
      r ← while_loop k' body x;
      match r with
      | inl x' => while_loop k' body x'
      | inr a => mret (inr a)
      end
  end.

Definition loop_depth : nat := 66.

Definition loop {S X A} (body : X -> M S (X + A)) (x : X) : M S A :=
  r ← while_loop loop_depth body x;
  match r with inl _ => out_of_fuel | inr a => mret a end.

Section loop_rules.
Context {S X A : Type}.
Context (body : X -> M S (X + A)) (I : Z -> X -> S -> Prop) (Q : A -> S -> Prop).

(** Each round ends the loop or lowers a natural number. *)
Context (Hround : forall n x s, I n x s -> 0 <= n ->
  wp (body x) (fun r s' => match r with
    | inl x' => exists n', 0 <= n' < n /\ I n' x' s'
    | inr a => Q a s'
    end) s).

Lemma wp_while_loop k : forall n x s, I n x s -> 0 <= n ->
  wp (while_loop k body x) (fun r s' => match r with
    | inl x' => exists n', 0 <= n' <= n - 2 ^ Z.of_nat k /\ I n' x' s'
    | inr a => Q a s'
    end) s.
Proof.
  induction k as [|k IH]; intros n x s HI Hn.
  - eapply wp_mono; [by eapply Hround|]. intros [x'|a] s'; [|done].
    intros (n' & ? & ?). exists n'. split; [|done]. change (2 ^ Z.of_nat 0) with 1. lia.
  - cbn [while_loop]. apply wp_bind. eapply wp_mono; [by apply IH|].
    intros [x'|a] s'; [|by intros; apply wp_ret].
    intros (n' & Hn' & HI'). eapply wp_mono; [apply IH; [done|lia]|].
    intros [x''|a] s''; [|done]. intros (n'' & ? & ?). exists n''. split; [|done].
    rewrite Nat2Z.inj_succ, Z.pow_succ_r by lia. lia.
Qed.

Lemma wp_loop n x s : I n x s -> 0 <= n < 2 ^ Z.of_nat loop_depth ->
  wp (loop body x) Q s.
Proof.
  intros HI Hn. unfold loop. apply wp_bind.
  eapply wp_mono; [apply (wp_while_loop _ n x s); [done|lia]|].
  intros [x'|a] s'; [|done]. intros (n' & ? & _). lia.
Qed.

End loop_rules.

(** A loop whose first round is the last. *)
Lemma wp_loop_once {S X A} (body : X -> M S (X + A)) (Q : A -> S -> Prop) x s :
  wp (body x) (fun r s' => match r with inl _ => False | inr a => Q a s' end) s ->
  wp (loop body x) Q s.
Proof.
  intros H.
  apply (wp_loop body (fun _ x' s' => x' = x /\ s' = s)) with (n := 0); [|done|].
  - intros n ? ? [-> ->] _. eapply wp_mono; [exact H|]. by intros [x'|a].
  - split; [done|]. apply Z.pow_pos_nonneg; lia.
Qed.

(** Every [usize] is a sufficient bound. *)
Lemma usize_lt_loop `{Target} z : is_usize z -> 0 <= z + 1 < 2 ^ Z.of_nat loop_depth.
Proof.
  unfold is_usize, usize_max. change (2 ^ Z.of_nat loop_depth) with 73786976294838206464.
  destruct usize_modulus_cases as [-> | ->]; lia.
Qed.

(** A spin loop: [yield] lets others run until the [n]th time [try] succeeds. *)
Lemma wp_spin {S} (try : M S bool) (yield : S -> S) (Q : unit -> S -> Prop) n s :
  (forall i, (i < n)%nat ->
    wp try (fun ok s' => ok = false /\ s' = Nat.iter i yield s) (Nat.iter i yield s)) ->
  wp try (fun ok s' => ok = true /\ Q tt s') (Nat.iter n yield s) ->
  Z.of_nat n < 2 ^ Z.of_nat loop_depth ->
  wp (loop (fun _ : unit =>
    ok ← try;
    if (ok : bool) then mret (inr tt) else modify yield ;; mret (inl tt)) tt) Q s.
Proof.
  intros Hfail Hok Hn.
  apply (wp_loop _ (fun m _ s' => exists i, (i <= n)%nat /\ m = Z.of_nat n - Z.of_nat i /\
    s' = Nat.iter i yield s)) with (n := Z.of_nat n).
  - intros m [] s' (i & Hi & -> & ->) _. wp_step. destruct (decide (i = n)) as [->|Hne].
    + eapply wp_mono; [exact Hok|]. by intros ok s' [-> HQ].
    + eapply wp_mono; [apply Hfail; lia|]. intros ok s' [-> ->].
      exists (Z.of_nat n - Z.of_nat (Datatypes.S i)). split; [lia|].
      exists (Datatypes.S i). split; [lia|]. split; [lia|done].
  - exists 0%nat. split; [lia|]. split; [lia|done].
  - lia.
Qed.

(** [for _ in 0..n]: the body returns [Some] to leave the function. *)
Fixpoint for_range {S A} (n : nat) (body : M S (option A)) : M S (option A) :=
  match n with
  | O => mret None
  | Datatypes.S n' =>
      r ← body;
      match r with
      | Some a => mret (Some a)
      | None => for_range n' body
      end
  end.

Lemma wp_for_range {S A} (I : S -> Prop) (Q : A -> S -> Prop) (body : M S (option A)) n s :
  (forall s, I s ->
    wp body (fun r s' => match r with Some a => Q a s' | None => I s' end) s) ->
  I s ->
  wp (for_range n body) (fun r s' => match r with Some a => Q a s' | None => I s' end) s.
Proof.
  intros Hbody. revert s. induction n as [|n IH]; intros s Hs; [by apply wp_ret|].
  cbn [for_range]. apply wp_bind. eapply wp_mono; [by apply Hbody|].
  intros [a|] s'; intros; [by apply wp_ret | by apply IH].
Qed.

(** [for x in l], the same way. *)
Fixpoint for_each {S X A} (l : list X) (body : X -> M S (option A)) : M S (option A) :=
  match l with
  | [] => mret None
  | x :: l' =>
      r ← body x;
      match r with
      | Some a => mret (Some a)
      | None => for_each l' body
      end
  end.

Lemma wp_for_each {S X A} (I : S -> Prop) (Q : A -> S -> Prop) (body : X -> M S (option A)) l s :
  (forall x s, x ∈ l -> I s ->
    wp (body x) (fun r s' => match r with Some a => Q a s' | None => I s' end) s) ->
  I s ->
  wp (for_each l body) (fun r s' => match r with Some a => Q a s' | None => I s' end) s.
Proof.
  revert s. induction l as [|x l IH]; intros s Hbody Hs; [by apply wp_ret|].
  cbn [for_each]. apply wp_bind. eapply wp_mono; [apply Hbody; [apply list_elem_of_here|done]|].
  intros [a|] s'; intros; [by apply wp_ret|].
  apply IH; [|done]. intros. apply Hbody; [by apply list_elem_of_further|done].
Qed.
