(* ===== verification/Mathematics.v ===== *)
(** * utilities/mathematics.rs

    Rounding to a multiple and the saturating operations on [usize]. *)

From S2P Require Import Prelude.

Section mathematics.
Context `{T : Target}.

Definition round_up (number multiple : Z) : Z :=
  if multiple =? 0 then number else
  let remainder := number mod multiple in
  if remainder =? 0 then number else
  number +u multiple -u remainder.

Definition round_down (number multiple : Z) : Z :=
  if multiple =? 0 then number else
  let remainder := number mod multiple in
  if remainder =? 0 then number else
  number -u remainder.

Definition min (a b : Z) : Z := Z.min a b.

(** [usize::saturating_add] and [usize::saturating_sub] *)
Definition add_with_overflow_cap (a b : Z) : Z :=
  if a + b >? usize_max then usize_max else a + b.

Definition subtract_with_underflow_cap (a b : Z) : Z :=
  if a - b <? 0 then 0 else a - b.

(** ** Lemmas *)

(** [round_up] without wrap-around: the exact sum is the result. *)
Lemma round_up_eq n m :
  0 <= n -> 0 < m -> n + m <= usize_max ->
  round_up n m = if n mod m =? 0 then n else n + m - n mod m.
Proof.
  intros Hn Hm Hmax. unfold round_up.
  pose proof (Z.mod_pos_bound n m Hm). pose proof (Z.mod_le n m Hn Hm).
  repeat case_bool; try lia.
  rewrite add_usize_small by lia. apply sub_usize_small; lia.
Qed.

Lemma round_down_eq n m :
  is_usize n -> 0 < m -> round_down n m = n - n mod m.
Proof.
  unfold is_usize. intros Hn Hm. unfold round_down.
  pose proof (Z.mod_pos_bound n m Hm). pose proof (Z.mod_le n m ltac:(lia) Hm).
  repeat case_bool; try lia. apply sub_usize_small; lia.
Qed.

(** The multiple below, by division. *)
Lemma mod_multiple n m : 0 < m -> n - n mod m = m * (n / m).
Proof. intros. pose proof (Z.div_mod n m ltac:(lia)). lia. Qed.

Lemma divide_le_round m a n : 0 < m -> (m | a) -> n <= a ->
  (if n mod m =? 0 then n else n + m - n mod m) <= a.
Proof.
  intros Hm [k ->] Hle. pose proof (Z.mod_pos_bound n m Hm).
  pose proof (mod_multiple n m Hm). case_bool; [lia|].
  assert (n / m < k); [|nia].
  apply Z.div_lt_upper_bound; [lia|].
  assert (n <> k * m); [|lia]. intros ->. by rewrite Z.mod_mul in n0 by lia.
Qed.

(** The sum [round_up] would be exact whenever an aligned address above exists. *)
Lemma round_up_wrapped n m :
  is_usize n -> 0 < m <= usize_max ->
  round_up n m = wrap_usize (if n mod m =? 0 then n else n + m - n mod m).
Proof.
  intros Hn Hm. unfold round_up.
  repeat case_bool; try lia.
  - by rewrite wrap_usize_small.
  - unfold sub_usize, add_usize, wrap_usize.
    by rewrite Zminus_mod_idemp_l.
Qed.

Lemma round_up_least n m a :
  is_usize n -> 0 < m <= usize_max -> is_usize a -> (m | a) -> n <= a ->
  n <= round_up n m <= a /\ (m | round_up n m).
Proof.
  intros Hn Hm Ha Hdiv Hle. rewrite round_up_wrapped by done.
  pose proof (divide_le_round m a n ltac:(lia) Hdiv Hle) as Hup.
  pose proof (Z.mod_pos_bound n m ltac:(lia)).
  unfold is_usize in *.
  rewrite wrap_usize_small by (unfold is_usize; case_bool; lia).
  split; [case_bool; lia|]. case_bool.
  - by apply Z.mod_divide; [lia|].
  - replace (n + m - n mod m) with ((n / m + 1) * m) by
      (pose proof (mod_multiple n m ltac:(lia)); nia).
    by apply Z.divide_factor_r.
Qed.

(** Rounding up by less than the multiple, when the result is representable. *)
Lemma round_up_near n m :
  is_usize n -> 0 < m <= usize_max -> n + (m - 1) <= usize_max ->
  n <= round_up n m <= n + (m - 1) /\ (m | round_up n m).
Proof.
  intros Hn Hm Hmax. unfold is_usize in Hn. mod_bound n m.
  pose proof (mod_multiple n m ltac:(lia)) as Hmul.
  assert (Ha : exists a, (m | a) /\ n <= a <= n + (m - 1)).
  { destruct (decide (n mod m = 0)).
    - exists n. split; [by apply Z.mod_divide; [lia|]|lia].
    - exists (n + m - n mod m). split; [|lia]. exists (n / m + 1). lia. }
  destruct Ha as (a & Hdiv & Hle).
  destruct (round_up_least n m a) as [? ?]; try done; unfold is_usize; try lia.
  split; [lia|done].
Qed.

Lemma round_down_multiple n m :
  is_usize n -> 0 < m -> (m | round_down n m) /\ round_down n m <= n /\ n < round_down n m + m.
Proof.
  intros Hn Hm. rewrite round_down_eq by done.
  pose proof (Z.mod_pos_bound n m Hm). split; [|lia].
  rewrite mod_multiple by done. apply Z.divide_factor_l.
Qed.

Lemma round_up_range n m : is_usize n -> is_usize (round_up n m).
Proof. intros. unfold round_up. repeat case_bool; auto with machine. Qed.

Lemma round_down_range n m : is_usize n -> is_usize (round_down n m).
Proof. intros. unfold round_down. repeat case_bool; auto with machine. Qed.

Lemma add_with_overflow_cap_spec a b :
  add_with_overflow_cap a b = Z.min (a + b) usize_max.
Proof. unfold add_with_overflow_cap. repeat case_bool; lia. Qed.

Lemma subtract_with_underflow_cap_spec a b :
  subtract_with_underflow_cap a b = Z.max (a - b) 0.
Proof. unfold subtract_with_underflow_cap. repeat case_bool; lia. Qed.

End mathematics.
