(* ===== verification/Ranges.v ===== *)
(** * Ranges of addresses: utilities/address_range.rs *)

From S2P Require Import Prelude.

Module AddressRange.

Record AddressRange := { start_pointer : Z; end_pointer : Z }.

Section range.
Context `{T : Target}.

Definition new (start_pointer end_pointer : Z) : AddressRange :=
  {| start_pointer := start_pointer; end_pointer := end_pointer |}.

Definition size (self : AddressRange) : Z := end_pointer self -u start_pointer self.

Definition contains (self other : AddressRange) : bool :=
  (start_pointer other >=? start_pointer self) && (end_pointer other <=? end_pointer self).

Definition point_in_range (self : AddressRange) (point : Z) : bool :=
  (point >=? start_pointer self) && (point <=? end_pointer self).

Definition overlaps (self other : AddressRange) : bool :=
  point_in_range self (start_pointer other)
  || point_in_range self (end_pointer other)
  || point_in_range other (start_pointer self)
  || point_in_range other (end_pointer self).

Lemma contains_spec r o :
  contains r o = true <->
  start_pointer r <= start_pointer o /\ end_pointer o <= end_pointer r.
Proof. unfold contains. rewrite andb_true_iff, Z.geb_le, Z.leb_le. done. Qed.

Lemma size_new s e : is_usize s -> is_usize e -> s <= e -> size (new s e) = e - s.
Proof. unfold is_usize. intros. apply sub_usize_small. simpl. lia. Qed.

(** Two non-empty ranges overlap exactly when some point is in both. *)
Lemma overlaps_iff r o :
  start_pointer r <= end_pointer r -> start_pointer o <= end_pointer o ->
  overlaps r o = true <->
  (exists p, point_in_range r p = true /\ point_in_range o p = true).
Proof.
  unfold overlaps, point_in_range. intros Hr Ho.
  rewrite !orb_true_iff. setoid_rewrite andb_true_iff.
  setoid_rewrite Z.geb_le. setoid_rewrite Z.leb_le. split.
  - intros [[[?|?]|?]|?]; [exists (start_pointer o) | exists (end_pointer o)
      | exists (start_pointer r) | exists (end_pointer r)]; lia.
  - intros [p ?]. lia.
Qed.

End range.
End AddressRange.
