(* ===== verification/SysInfo.v ===== *)
(** * utilities/cached.rs

    The cached description of the system.  The operating system and the
    mmap-rs crate answer the queries: they are parameters of the model. *)

From S2P Require Import Prelude.

(** What the system answers: GetSystemInfo and GetCurrentProcessId on Windows,
    MmapOptions (crate mmap-rs) and getpid elsewhere. *)
Class SysQuery := {
  lpMaximumApplicationAddress : Z;
  dwAllocationGranularity : Z;
  dwPageSize : Z;
  GetCurrentProcessId : Z;
  MmapOptions_page_size : Z;
  MmapOptions_allocation_granularity : Z;
  getpid : Z
}.

Module Cached.

Record Cached := {
  max_address : Z;              (* usize *)
  allocation_granularity : Z;   (* i32 *)
  page_size : Z;                (* u32 *)
  this_process_id : Z           (* u32 *)
}.

Section cached.
Context `{T : Target} `{Q : SysQuery}.

Definition get_process_id : Z :=
  if cfg_windows then GetCurrentProcessId else as_u32 getpid.

(** The two functions write through three references; the model returns the
    triple (allocation_granularity, max_address, page_size). *)
Definition get_address_and_allocation_granularity_windows : Z * Z * Z :=
  (as_i32 dwAllocationGranularity, wrap_usize lpMaximumApplicationAddress, as_i32 dwPageSize).

Definition get_address_and_allocation_granularity_mmap_rs : Z * Z * Z :=
  let max_address :=
    match ptr_width with
    | W32 => 0xFFFFFFFF
    | W64 => 0x7FFFFFFFFFFF
    end in
  let page_size := as_i32 MmapOptions_page_size in
  (Z.max (as_i32 MmapOptions_allocation_granularity) page_size, max_address, page_size).

Definition new : Cached :=
  let '(allocation_granularity, max_address, page_size) :=
    if cfg_windows
    then get_address_and_allocation_granularity_windows
    else get_address_and_allocation_granularity_mmap_rs in
  {| max_address := max_address;
     allocation_granularity := allocation_granularity;
     this_process_id := get_process_id;
     page_size := 4096 |}.

(** The static [CACHED] is the state of the two functions. *)
Definition make_sys_info : M (option Cached) unit := modify (fun _ => Some new).

Definition get_sys_info_cached : M (option Cached) Cached :=
  c ← get_state;
  match c with
  | Some v => mret v
  | None =>
      make_sys_info ;;
      c ← get_state;
      match c with Some v => mret v | None => fault end
  end.

(** The static holds nothing or the value [new] computes. *)
Definition cache_ok (c : option Cached) : Prop := c = None \/ c = Some new.

Lemma get_sys_info_cached_new c :
  cache_ok c -> get_sys_info_cached c = Done new (Some new).
Proof. by intros [-> | ->]. Qed.

End cached.
End Cached.

(** The value every call of [get_sys_info()] returns; the rest of the model
    uses it directly (see [Cached.get_sys_info_cached_new]). *)
Section sys_info.
Context `{T : Target} `{Q : SysQuery}.

Definition get_sys_info : Cached.Cached := Cached.new.

(** [get_sys_info().allocation_granularity as usize] *)
Definition granularity : Z := wrap_usize (Cached.allocation_granularity get_sys_info).

(** The documented answers: sizes are positive, small, and multiples of the
    smallest page size; the last granule of the address space is no application
    memory. *)
Class SysQueryOk : Prop := {
  granularity_win : 0 < dwAllocationGranularity < 1073741824 /\ (4096 | dwAllocationGranularity);
  granularity_mmap : 0 < MmapOptions_allocation_granularity < 1073741824 /\
    (4096 | MmapOptions_allocation_granularity) /\
    (MmapOptions_page_size | MmapOptions_allocation_granularity);
  page_size_mmap : 0 < MmapOptions_page_size < 1073741824 /\ (4096 | MmapOptions_page_size);
  max_address_win : 0 < lpMaximumApplicationAddress /\
    lpMaximumApplicationAddress + dwAllocationGranularity <= usize_max
}.

Lemma as_i32_small z : 0 <= z < 1073741824 -> as_i32 z = z.
Proof.
  intros. unfold as_i32. rewrite as_u32_small by (unfold is_u32, u32_max, u32_modulus; lia).
  repeat case_bool; lia.
Qed.

Lemma granularity_i32 `{HQ : SysQueryOk} :
  0 < Cached.allocation_granularity get_sys_info < 1073741824 /\
  (4096 | Cached.allocation_granularity get_sys_info).
Proof.
  destruct HQ as [[? ?] (? & ? & ?) [? ?] ?]. unfold get_sys_info, Cached.new.
  destruct cfg_windows; simpl; rewrite !as_i32_small by lia; [done|].
  split; [lia|]. by apply Z.max_case.
Qed.

Lemma granularity_eq `{HQ : SysQueryOk} :
  granularity = Cached.allocation_granularity get_sys_info.
Proof.
  pose proof granularity_i32 as [? _]. apply wrap_usize_small, u32_le_usize.
  unfold is_u32, u32_max, u32_modulus. lia.
Qed.

Lemma granularity_range `{HQ : SysQueryOk} : 0 < granularity < 1073741824.
Proof. rewrite granularity_eq. apply granularity_i32. Qed.

Lemma granularity_divide `{HQ : SysQueryOk} : (4096 | granularity).
Proof. rewrite granularity_eq. apply granularity_i32. Qed.

Lemma granularity_page `{HQ : SysQueryOk} :
  cfg_windows = false -> (MmapOptions_page_size | granularity).
Proof.
  intros Hw. rewrite granularity_eq. destruct HQ as [_ (? & ? & Hd) [? ?] _].
  unfold get_sys_info, Cached.new. rewrite Hw. simpl. rewrite !as_i32_small by lia.
  apply Z.max_case; [done|apply Z.divide_refl].
Qed.

Lemma max_address_granularity `{HQ : SysQueryOk} :
  cfg_windows = true ->
  Cached.max_address get_sys_info = lpMaximumApplicationAddress /\
  granularity = dwAllocationGranularity.
Proof.
  intros Hw. rewrite granularity_eq. destruct HQ as [[? ?] _ _ [? ?]].
  unfold get_sys_info, Cached.new. rewrite Hw. simpl.
  rewrite as_i32_small by lia. split; [|done].
  apply wrap_usize_small. unfold is_usize. lia.
Qed.

Lemma max_address_range `{HQ : SysQueryOk} : is_usize (Cached.max_address get_sys_info).
Proof.
  unfold get_sys_info, Cached.new. destruct cfg_windows; simpl; auto with machine.
  unfold is_usize, usize_max, usize_modulus. destruct ptr_width; lia.
Qed.

End sys_info.
