(* ===== verification/Settings.v ===== *)
(** * structs/params and structs/errors

    The settings of the two entry points and the error values. *)

From S2P Require Import Prelude Mathematics SysInfo.

Module BufferAllocatorSettings.

Record BufferAllocatorSettings := {
  min_address : Z;         (* usize *)
  max_address : Z;         (* usize *)
  size : Z;                (* u32 *)
  target_process_id : Z;   (* u32 *)
  retry_count : Z;         (* i32 *)
  brute_force : bool
}.

Section settings.
Context `{T : Target} `{Q : SysQuery}.

Definition new : BufferAllocatorSettings :=
  let sys_info := get_sys_info in
  {| min_address := 0;
     max_address := Cached.max_address sys_info;
     size := 4096;
     target_process_id := Cached.this_process_id sys_info;
     retry_count := 8;
     brute_force := true |}.
Definition default : BufferAllocatorSettings := new.

(** [..Self::new()]: the other fields come from [new]. *)
Definition from_proximity (proximity target size : Z) : BufferAllocatorSettings :=
  let base := new in
  {| max_address := add_with_overflow_cap target proximity;
     min_address := subtract_with_underflow_cap target proximity;
     size := as_u32 size;
     target_process_id := target_process_id base;
     retry_count := retry_count base;
     brute_force := brute_force base |}.

Definition set_min_address (v : Z) (s : BufferAllocatorSettings) : BufferAllocatorSettings :=
  {| min_address := v; max_address := max_address s; size := size s;
     target_process_id := target_process_id s; retry_count := retry_count s;
     brute_force := brute_force s |}.
Definition set_max_address (v : Z) (s : BufferAllocatorSettings) : BufferAllocatorSettings :=
  {| min_address := min_address s; max_address := v; size := size s;
     target_process_id := target_process_id s; retry_count := retry_count s;
     brute_force := brute_force s |}.
Definition set_size (v : Z) (s : BufferAllocatorSettings) : BufferAllocatorSettings :=
  {| min_address := min_address s; max_address := max_address s; size := v;
     target_process_id := target_process_id s; retry_count := retry_count s;
     brute_force := brute_force s |}.

(** [sanitize(&mut self)] returns the changed settings. *)
Definition sanitize (self : BufferAllocatorSettings) : BufferAllocatorSettings :=
  let sys_info := get_sys_info in
  let self :=
    if cfg_windows && (min_address self <? wrap_usize (Cached.allocation_granularity sys_info))
    then set_min_address (wrap_usize (Cached.allocation_granularity sys_info)) self
    else self in
  let self := set_size (Z.max (size self) 1) self in
  set_size (as_u32 (round_up (size self) (wrap_usize (Cached.allocation_granularity sys_info)))) self.

(** The fields are integers of their types. *)
Record wf (s : BufferAllocatorSettings) : Prop := {
  wf_min : is_usize (min_address s);
  wf_max : is_usize (max_address s);
  wf_size : is_u32 (size s)
}.

Lemma new_wf `{HQ : !SysQueryOk} : wf new.
Proof.
  constructor; simpl; [| apply max_address_range | done].
  unfold is_usize, usize_max. pose proof usize_modulus_pos. lia.
Qed.

Lemma sanitize_size s : size (sanitize s) = as_u32 (round_up (Z.max (size s) 1) granularity).
Proof. unfold sanitize. by destruct (cfg_windows && _). Qed.

Lemma sanitize_max s : max_address (sanitize s) = max_address s.
Proof. unfold sanitize. by destruct (cfg_windows && _). Qed.

Lemma sanitize_pid s : target_process_id (sanitize s) = target_process_id s.
Proof. unfold sanitize. by destruct (cfg_windows && _). Qed.

Lemma sanitize_min s :
  min_address (sanitize s) =
  if cfg_windows then Z.max (min_address s) granularity else min_address s.
Proof.
  unfold sanitize, granularity. destruct cfg_windows; simpl; [|done].
  case_bool; simpl; lia.
Qed.

(** When the rounded size is representable, it is the least positive multiple
    of the granularity that covers the request. *)
Lemma sanitize_size_covers `{HQ : !SysQueryOk} s :
  wf s -> size s + granularity <= u32_max ->
  size s <= size (sanitize s) < Z.max (size s) 1 + granularity /\
  (granularity | size (sanitize s)) /\ 0 < size (sanitize s).
Proof.
  intros [_ _ Hs] Hle. pose proof granularity_range as Hg. rewrite sanitize_size.
  unfold is_u32 in Hs. mod_bound (Z.max (size s) 1) granularity.
  assert (u32_max <= usize_max) by
    (apply (u32_le_usize u32_max); unfold is_u32, u32_max, u32_modulus; lia).
  assert (1 + granularity <= u32_max) by (unfold u32_max, u32_modulus; lia).
  rewrite round_up_eq by lia.
  rewrite as_u32_small by (unfold is_u32; case_bool; lia).
  pose proof (mod_multiple (Z.max (size s) 1) granularity (proj1 Hg)).
  repeat split; try (case_bool; lia).
  case_bool.
  - by apply Z.mod_divide; [lia|].
  - exists (Z.max (size s) 1 / granularity + 1). lia.
Qed.

Lemma sanitize_wf `{HQ : !SysQueryOk} s : wf s -> wf (sanitize s).
Proof.
  intros [? ? ?]. constructor.
  - rewrite sanitize_min. destruct cfg_windows; [|done].
    apply Z.max_case; [done|]. apply wrap_usize_range.
  - by rewrite sanitize_max.
  - rewrite sanitize_size. apply as_u32_range.
Qed.

End settings.
End BufferAllocatorSettings.
Abbreviation BufferAllocatorSettings := BufferAllocatorSettings.BufferAllocatorSettings.

Module BufferSearchSettings.

Record BufferSearchSettings := {
  min_address : Z;   (* usize *)
  max_address : Z;   (* usize *)
  size : Z           (* u32 *)
}.

Section settings.
Context `{T : Target} `{Q : SysQuery}.

Definition new : BufferSearchSettings :=
  {| min_address := 0; max_address := Cached.max_address get_sys_info; size := 4096 |}.
Definition default : BufferSearchSettings := new.

Definition from_proximity (proximity target size : Z) : BufferSearchSettings :=
  {| max_address := add_with_overflow_cap target proximity;
     min_address := subtract_with_underflow_cap target proximity;
     size := as_u32 size |}.

Definition set_size (v : Z) (s : BufferSearchSettings) : BufferSearchSettings :=
  {| min_address := min_address s; max_address := max_address s; size := v |}.

Record wf (s : BufferSearchSettings) : Prop := {
  wf_min : is_usize (min_address s);
  wf_max : is_usize (max_address s);
  wf_size : is_u32 (size s)
}.

End settings.
End BufferSearchSettings.
Abbreviation BufferSearchSettings := BufferSearchSettings.BufferSearchSettings.

(** ** Errors *)

Module ItemAllocationError.

Inductive ItemAllocationError := NoSpaceInHeader | CannotAllocateMemory.

#[global] Instance eq_dec : EqDecision ItemAllocationError.
Proof. solve_decision. Defined.

Definition as_string (self : ItemAllocationError) : string :=
  match self with
  | NoSpaceInHeader => "No more space in locator header"
  | CannotAllocateMemory => "Could not allocate memory"
  end.

End ItemAllocationError.
Abbreviation ItemAllocationError := ItemAllocationError.ItemAllocationError.
