(* ===== verification/Errors.v ===== *)
(** * structs/errors: the error values and their text *)

From stdpp Require Import pretty.
From S2P Require Import Prelude SysInfo Settings.

(** [nanokit::string_concat::concat_2], of another crate. *)
Class Nanokit := { concat_2 : string -> string -> string }.

(** [{:?}] of the integer and boolean fields. *)
Definition debug_int (z : Z) : string := pretty z.
Definition debug_bool (b : bool) : string := if b then "true" else "false".

(** The derived [Debug] of the two settings records. *)
Definition debug_allocator_settings (s : BufferAllocatorSettings) : string :=
  "BufferAllocatorSettings { min_address: " +:+ debug_int (BufferAllocatorSettings.min_address s)
  +:+ ", max_address: " +:+ debug_int (BufferAllocatorSettings.max_address s)
  +:+ ", size: " +:+ debug_int (BufferAllocatorSettings.size s)
  +:+ ", target_process_id: " +:+ debug_int (BufferAllocatorSettings.target_process_id s)
  +:+ ", retry_count: " +:+ debug_int (BufferAllocatorSettings.retry_count s)
  +:+ ", brute_force: " +:+ debug_bool (BufferAllocatorSettings.brute_force s) +:+ " }".

Definition debug_search_settings (s : BufferSearchSettings) : string :=
  "BufferSearchSettings { min_address: " +:+ debug_int (BufferSearchSettings.min_address s)
  +:+ ", max_address: " +:+ debug_int (BufferSearchSettings.max_address s)
  +:+ ", size: " +:+ debug_int (BufferSearchSettings.size s) +:+ " }".

(** [fmt] writes to a formatter: the model returns the text written so far
    with the piece appended. *)

Module BufferAllocationError.

Record BufferAllocationError := { settings : BufferAllocatorSettings; text : string }.

Definition new (settings : BufferAllocatorSettings) (text : string) : BufferAllocationError :=
  {| settings := settings; text := text |}.

Section error.
Context `{T : Target} `{N : Nanokit}.

Definition to_string (self : BufferAllocationError) : string :=
  if feature_no_format then concat_2 "Buffer Allocation Error: " (text self)
  else "Buffer Allocation Error: " +:+ text self +:+ ". Settings: "
    +:+ debug_allocator_settings (settings self).

Definition fmt (self : BufferAllocationError) (f : string) : string :=
  if feature_no_format then (f +:+ "Buffer Allocation Error: ") +:+ text self
  else f +:+ ("Buffer Allocation Error: " +:+ text self +:+ ". Settings: "
    +:+ debug_allocator_settings (settings self)).

End error.
End BufferAllocationError.
Abbreviation BufferAllocationError := BufferAllocationError.BufferAllocationError.

Module BufferSearchError.

Record BufferSearchError := { settings : BufferSearchSettings; text : string }.

Definition new (settings : BufferSearchSettings) (text : string) : BufferSearchError :=
  {| settings := settings; text := text |}.

Section error.
Context `{T : Target} `{N : Nanokit}.

Definition to_string (self : BufferSearchError) : string :=
  if feature_no_format then concat_2 "Buffer Search Error: " (text self)
  else "Buffer Search Error: " +:+ text self +:+ ". Settings: "
    +:+ debug_search_settings (settings self).

Definition fmt (self : BufferSearchError) (f : string) : string :=
  if feature_no_format then (f +:+ "Buffer Search Error: ") +:+ text self
  else f +:+ ("Buffer Search Error: " +:+ text self +:+ ". Settings: "
    +:+ debug_search_settings (settings self)).

End error.
End BufferSearchError.
Abbreviation BufferSearchError := BufferSearchError.BufferSearchError.
