(* ===== verification/Placement.v ===== *)
(** * internal/buffer_allocator.rs: [get_possible_buffer_addresses]

    Where a buffer can be placed inside a free page range so that it also lies
    between the minimum and the maximum address. *)

From S2P Require Import Prelude Mathematics Ranges.
Import AddressRange.

Section placement.
Context `{T : Target}.

(** The caller's array [results] of four addresses is passed in; the slice
    returned is a prefix of the changed array. *)
Definition get_possible_buffer_addresses
    (minimum_ptr maximum_ptr page_start page_end buf_size allocation_granularity : Z)
    (results : list Z) : list Z :=
  let min_max_range := AddressRange.new minimum_ptr maximum_ptr in
  let page_range := AddressRange.new page_start page_end in
  if negb (overlaps page_range min_max_range) then take 0 results else
  if buf_size >? AddressRange.size page_range then take 0 results else
  let num_items := 0%nat in
  let page_min_aligned := round_up (start_pointer page_range) allocation_granularity in
  let page_min_range :=
    AddressRange.new page_min_aligned (add_with_overflow_cap page_min_aligned buf_size) in
  let '(results, num_items) :=
    if contains page_range page_min_range && contains min_max_range page_min_range
    then (<[num_items := start_pointer page_min_range]> results, S num_items)
    else (results, num_items) in
  let page_max_aligned :=
    round_down (subtract_with_underflow_cap (end_pointer page_range) buf_size)
      allocation_granularity in
  let page_max_range := AddressRange.new page_max_aligned (page_max_aligned +u buf_size) in
  let '(results, num_items) :=
    if contains page_range page_max_range && contains min_max_range page_max_range
    then (<[num_items := start_pointer page_max_range]> results, S num_items)
    else (results, num_items) in
  let ptr_min_aligned := round_up minimum_ptr allocation_granularity in
  let ptr_min_range :=
    AddressRange.new ptr_min_aligned (add_with_overflow_cap ptr_min_aligned buf_size) in
  let '(results, num_items) :=
    if contains page_range ptr_min_range && contains min_max_range ptr_min_range
    then (<[num_items := start_pointer ptr_min_range]> results, S num_items)
    else (results, num_items) in
  let ptr_max_aligned :=
    round_down (subtract_with_underflow_cap maximum_ptr buf_size) allocation_granularity in
  let ptr_max_range := AddressRange.new ptr_max_aligned (ptr_max_aligned +u buf_size) in
  let '(results, num_items) :=
    if contains page_range ptr_max_range && contains min_max_range ptr_max_range
    then (<[num_items := start_pointer ptr_max_range]> results, S num_items)
    else (results, num_items) in
  take num_items results.

(** [&mut [0; 4]] *)
Definition results_buffer : list Z := [0; 0; 0; 0].

(** ** Specification *)

(** A buffer of [size] bytes at [a] lies in the page and between the bounds. *)
Record fits (minimum_ptr maximum_ptr page_start page_end size a : Z) : Prop := {
  fits_page_start : page_start <= a;
  fits_page_end : a + size <= page_end;
  fits_min : minimum_ptr <= a;
  fits_max : a + size <= maximum_ptr
}.

(** The four ranges tried, in order. *)
Definition candidates (lo hi ps pe size g : Z) : list AddressRange :=
  let up p := AddressRange.new (round_up p g) (add_with_overflow_cap (round_up p g) size) in
  let down p :=
    let a := round_down (subtract_with_underflow_cap p size) g in
    AddressRange.new a (a +u size) in
  [up ps; down pe; up lo; down hi].

Definition acceptable (lo hi ps pe : Z) (r : AddressRange) : bool :=
  contains (AddressRange.new ps pe) r && contains (AddressRange.new lo hi) r.

(** Reference definition: the acceptable candidates, by [filter]. *)
Definition placements (lo hi ps pe size g : Z) : list Z :=
  if overlaps (AddressRange.new ps pe) (AddressRange.new lo hi)
     && (size <=? AddressRange.size (AddressRange.new ps pe))
  then start_pointer <$> List.filter (acceptable lo hi ps pe) (candidates lo hi ps pe size g)
  else [].

Lemma get_possible_placements lo hi ps pe size g results :
  length results = 4%nat ->
  get_possible_buffer_addresses lo hi ps pe size g results = placements lo hi ps pe size g.
Proof.
  intros Hlen. destruct results as [|r1 [|r2 [|r3 [|r4 [|]]]]]; try done.
  unfold get_possible_buffer_addresses, placements, candidates.
  destruct (overlaps _ _); simpl; [|done].
  rewrite Z.gtb_ltb, Z.ltb_antisym. destruct (size <=? _); simpl; [|done].
  unfold acceptable.
  repeat match goal with
  | |- context [contains ?a ?b && contains ?c ?d] =>
      destruct (contains a b && contains c d); simpl
  end; reflexivity.
Qed.

(** *** Each candidate *)

Lemma acceptable_iff lo hi ps pe r :
  acceptable lo hi ps pe r = true <->
  ps <= start_pointer r /\ end_pointer r <= pe /\ lo <= start_pointer r /\ end_pointer r <= hi.
Proof. unfold acceptable. rewrite andb_true_iff, !contains_spec. simpl. tauto. Qed.

Section candidate.
Context (lo hi ps pe size g : Z).
Context (Hlo : is_usize lo) (Hhi : is_usize hi) (Hps : is_usize ps) (Hpe : is_usize pe).
Context (Hsize : is_usize size) (Hg : 0 <= g <= usize_max).

(** Rounding up past the end of the address space lands below the start, so
    the candidate is refused. *)
Lemma round_up_above p : 0 < g -> is_usize p -> p <= round_up p g ->
  (g | round_up p g).
Proof.
  intros Hpos Hp. rewrite round_up_wrapped by (done || lia).
  pose proof (Z.mod_pos_bound p g ltac:(lia)). pose proof (mod_multiple p g ltac:(lia)).
  unfold is_usize in *. intros Hle. case_bool.
  - rewrite wrap_usize_small by done. by apply Z.mod_divide; [lia|].
  - destruct (Z.le_gt_cases (p + g - p mod g) usize_max).
    + rewrite wrap_usize_small by (unfold is_usize; lia). exists (p / g + 1). lia.
    + exfalso. revert Hle. unfold wrap_usize.
      rewrite <- (Z_mod_plus_full _ (-1)).
      unfold usize_max in *. rewrite Z.mod_small; lia.
Qed.

Lemma round_up_fits p r :
  is_usize p -> (p = ps \/ p = lo) ->
  r = AddressRange.new (round_up p g) (add_with_overflow_cap (round_up p g) size) ->
  (pe < usize_max \/ hi < usize_max \/ start_pointer r + size <= usize_max) ->
  acceptable lo hi ps pe r = true ->
  fits lo hi ps pe size (start_pointer r).
Proof.
  intros Hp Hor -> Hcap [? [Hend [? ?]]]%acceptable_iff. simpl in *.
  rewrite add_with_overflow_cap_spec in *. constructor; lia.
Qed.

Lemma round_down_fits p r :
  is_usize p -> p = pe \/ p = hi -> size <= pe ->
  r = AddressRange.new (round_down (subtract_with_underflow_cap p size) g)
        (round_down (subtract_with_underflow_cap p size) g +u size) ->
  acceptable lo hi ps pe r = true ->
  fits lo hi ps pe size (start_pointer r).
Proof.
  intros Hp Hor Hsz -> Hacc. rewrite acceptable_iff in Hacc. simpl in *. unfold is_usize in *.
  rewrite subtract_with_underflow_cap_spec in *.
  assert (0 <= round_down (Z.max (p - size) 0) g <= Z.max (p - size) 0) as [? ?].
  { destruct (decide (g = 0)) as [->|]; [unfold round_down; simpl; lia|].
    split; [apply round_down_range; unfold is_usize; lia|].
    apply round_down_multiple; unfold is_usize; lia. }
  rewrite add_usize_small in Hacc by (destruct Hor; subst; lia). constructor; lia.
Qed.

End candidate.

(** Whatever the addresses are rounded to. *)
Lemma placements_inside lo hi ps pe size g a :
  is_usize lo -> is_usize hi -> is_usize ps -> is_usize pe -> is_usize size ->
  0 <= g <= usize_max -> ps <= pe ->
  (pe < usize_max \/ hi < usize_max \/ a + size <= usize_max) ->
  a ∈ placements lo hi ps pe size g -> fits lo hi ps pe size a.
Proof.
  intros Hlo Hhi Hps Hpe Hsize Hg Hle Hcap. unfold placements.
  destruct (overlaps _ _); cbn [andb]; [|by rewrite elem_of_nil].
  rewrite size_new by done.
  destruct (Z.leb_spec size (pe - ps)) as [Hsz|]; [|by rewrite elem_of_nil].
  intros [r [-> Hr]]%list_elem_of_fmap. rewrite list_elem_of_In in Hr.
  apply List.filter_In in Hr as [Hin Hacc]. apply list_elem_of_In in Hin. unfold candidates in Hin. rewrite !elem_of_cons, elem_of_nil in Hin.
  assert (size <= pe) by (unfold is_usize in *; lia).
  destruct Hin as [->|[->|[->|[->|[]]]]];
    [ eapply round_up_fits with (p := ps) | eapply round_down_fits with (p := pe)
    | eapply round_up_fits with (p := lo) | eapply round_down_fits with (p := hi) ];
    eauto.
Qed.

(** Every address returned is a multiple of the granularity. *)
Lemma placements_aligned lo hi ps pe size g a :
  is_usize lo -> is_usize hi -> is_usize ps -> is_usize pe -> is_usize size ->
  0 < g <= usize_max -> a ∈ placements lo hi ps pe size g -> (g | a).
Proof.
  intros Hlo Hhi Hps Hpe Hsize Hg. unfold placements.
  destruct (_ && _); [|by rewrite elem_of_nil].
  intros [r [-> Hr]]%list_elem_of_fmap. rewrite list_elem_of_In in Hr.
  apply List.filter_In in Hr as [Hin Hacc%acceptable_iff].
  apply list_elem_of_In in Hin. unfold candidates in Hin.
  rewrite !elem_of_cons, elem_of_nil in Hin. destruct Hacc as [? [_ [? _]]].
  destruct Hin as [->|[->|[->|[->|[]]]]]; simpl in *;
    first [apply round_up_above; done || lia | apply round_down_multiple; [|lia]].
  all: rewrite subtract_with_underflow_cap_spec; unfold is_usize in *; lia.
Qed.

Lemma placements_sound lo hi ps pe size g a :
  is_usize lo -> is_usize hi -> is_usize ps -> is_usize pe -> is_usize size ->
  0 < g <= usize_max -> ps <= pe ->
  (pe < usize_max \/ hi < usize_max \/ a + size <= usize_max) ->
  a ∈ placements lo hi ps pe size g ->
  fits lo hi ps pe size a /\ (g | a).
Proof.
  intros ? ? ? ? ? Hg ? ? ?.
  split; [eapply (placements_inside lo hi ps pe size g); eauto; lia|by eapply (placements_aligned lo hi ps pe size)].
Qed.

Lemma placements_usize lo hi ps pe size g a :
  is_usize lo -> is_usize hi -> is_usize ps -> is_usize pe -> is_usize size ->
  a ∈ placements lo hi ps pe size g -> is_usize a.
Proof.
  intros Hlo Hhi Hps Hpe Hsize. unfold placements.
  destruct (_ && _); [|by rewrite elem_of_nil].
  intros [r [-> Hr]]%list_elem_of_fmap. rewrite list_elem_of_In in Hr.
  apply List.filter_In in Hr as [Hin _]. apply list_elem_of_In in Hin.
  unfold candidates in Hin. rewrite !elem_of_cons, elem_of_nil in Hin.
  destruct Hin as [->|[->|[->|[->|[]]]]]; simpl;
    first [by apply round_up_range | apply round_down_range];
    rewrite subtract_with_underflow_cap_spec; unfold is_usize in *; lia.
Qed.

(** If the buffer fits anywhere at an aligned address, the least aligned
    address above both lower bounds is acceptable. *)
Lemma placements_complete lo hi ps pe size g a :
  is_usize lo -> is_usize hi -> is_usize ps -> is_usize pe -> is_usize size ->
  0 < g <= usize_max ->
  fits lo hi ps pe size a -> (g | a) ->
  round_up (Z.max ps lo) g ∈ placements lo hi ps pe size g.
Proof.
  intros Hlo Hhi Hps Hpe Hsize Hg [? ? ? ?] Hdiv. unfold is_usize in *. unfold placements.
  replace (overlaps _ _) with true; cycle 1.
  { symmetry. apply overlaps_iff; simpl; [lia..|].
    exists a. unfold point_in_range. simpl. bool_props. lia. }
  rewrite size_new by (unfold is_usize; lia). cbn [andb].
  destruct (Z.leb_spec size (pe - ps)); [|lia].
  destruct (round_up_least (Z.max ps lo) g a) as [Hup _]; [unfold is_usize; lia | done |
    unfold is_usize; lia | done | lia |].
  apply list_elem_of_fmap.
  exists (AddressRange.new (round_up (Z.max ps lo) g)
       (add_with_overflow_cap (round_up (Z.max ps lo) g) size)).
  split; [done|]. apply list_elem_of_In, List.filter_In. split.
  2: { apply acceptable_iff. simpl. rewrite add_with_overflow_cap_spec. lia. }
  - apply list_elem_of_In. unfold candidates. apply Z.max_case; rewrite !elem_of_cons; tauto.
Qed.

End placement.
