(* ===== verification/Items.v ===== *)
(** * structs/internal/locator_item.rs: the record and its pure operations

    A method that takes [&mut self] returns the changed item beside its result. *)

From S2P Require Import Prelude Mathematics.

Module LocatorItem.

Record LocatorItem := {
  base_address : Z;   (* Unaligned<usize> *)
  size : Z;           (* u32 *)
  position : Z;       (* u32 *)
  is_taken : Z        (* AtomicI32 *)
}.

#[global] Instance eq_dec : EqDecision LocatorItem.
Proof. solve_decision. Defined.

Section item.
Context `{T : Target}.

(** [size_of::<LocatorItem>()]: repr(C), no field needs padding. *)
Definition size_of_LocatorItem : Z := size_of_usize + 4 + 4 + 4.

Definition new (base_address size : Z) : LocatorItem :=
  {| base_address := base_address; size := size; position := 0; is_taken := 0 |}.

Definition set_position (v : Z) (self : LocatorItem) : LocatorItem :=
  {| base_address := base_address self; size := size self; position := v;
     is_taken := is_taken self |}.
Definition set_is_taken (v : Z) (self : LocatorItem) : LocatorItem :=
  {| base_address := base_address self; size := size self; position := position self;
     is_taken := v |}.

Definition bytes_left (self : LocatorItem) : Z := size self -u32 position self.

Definition min_address (self : LocatorItem) : Z := base_address self.

Definition max_address (self : LocatorItem) : Z := base_address self +u size self.

Definition is_allocated (self : LocatorItem) : bool := negb (base_address self =? 0).

(** The method [is_taken()]. *)
Definition taken (self : LocatorItem) : bool := is_taken self =? 1.

(** One atomic swap. *)
Definition try_lock (self : LocatorItem) : bool * LocatorItem :=
  let was_taken := is_taken self in
  (was_taken =? 0, set_is_taken 1 self).

Definition unlock (self : LocatorItem) : LocatorItem := set_is_taken 0 self.

Definition can_use (self : LocatorItem) (size_ min_address max_address : Z) : bool :=
  if negb (is_allocated self) || (bytes_left self <? size_) then false else
  let start_available_address := base_address self +u position self in
  let end_available_address := add_with_overflow_cap (base_address self) (size self) in
  (start_available_address >=? min_address) && (end_available_address <=? max_address).

(** ** Well-formed items *)

Record wf (it : LocatorItem) : Prop := {
  wf_base : 0 < base_address it;
  wf_size : is_u32 (size it);
  wf_position : 0 <= position it <= size it;
  wf_end : base_address it + size it <= usize_max
}.

(** The bytes of the buffer, and the bytes not yet handed out. *)
Definition in_buffer (it : LocatorItem) (x : Z) : Prop :=
  base_address it <= x < base_address it + size it.
Definition in_free_part (it : LocatorItem) (x : Z) : Prop :=
  base_address it + position it <= x < base_address it + size it.

(** The guarantee an item gives to the caller that asked for [n] bytes. *)
Record provides (it : LocatorItem) (n lo hi : Z) : Prop := {
  provides_room : n <= size it - position it;
  provides_min : lo <= base_address it + position it;
  provides_max : base_address it + size it <= hi
}.

Lemma bytes_left_eq it : wf it -> bytes_left it = size it - position it.
Proof. intros [? Hs ? ?]. unfold is_u32 in Hs. apply sub_u32_small. lia. Qed.

Lemma max_address_eq it : wf it -> max_address it = base_address it + size it.
Proof. intros [? Hs ? ?]. unfold is_u32 in Hs. apply add_usize_small. lia. Qed.

Lemma can_use_provides it n lo hi :
  wf it -> can_use it n lo hi = true <-> provides it n lo hi.
Proof.
  intros Hwf. pose proof (bytes_left_eq it Hwf) as Hleft. destruct Hwf as [? Hs ? ?].
  unfold is_u32 in Hs. unfold can_use, is_allocated. rewrite Hleft.
  rewrite add_with_overflow_cap_spec, add_usize_small by lia.
  destruct (Z.eqb_spec (base_address it) 0); [lia|]. simpl.
  split.
  - case_bool; [done|]. rewrite andb_true_iff, Z.geb_le, Z.leb_le. intros.
    constructor; lia.
  - intros [? ? ?]. case_bool; [lia|]. rewrite andb_true_iff, Z.geb_le, Z.leb_le. lia.
Qed.

Lemma new_item_wf b n : 0 < b -> is_u32 n -> b + n <= usize_max -> wf (new b n).
Proof. unfold is_u32. constructor; simpl; [lia | done | lia | lia]. Qed.

Lemma set_is_taken_wf v it : wf it -> wf (set_is_taken v it).
Proof. by intros []. Qed.

Lemma set_position_wf v it : wf it -> 0 <= v <= size it -> wf (set_position v it).
Proof. intros [] ?. by constructor. Qed.

Lemma set_is_taken_provides v it n lo hi :
  provides (set_is_taken v it) n lo hi <-> provides it n lo hi.
Proof. split; intros []; by constructor. Qed.

(** [try_lock] succeeds exactly on a free item and leaves it taken. *)
Lemma try_lock_spec it :
  (try_lock it).2 = set_is_taken 1 it /\ ((try_lock it).1 = true <-> is_taken it = 0).
Proof. split; [done|]. apply Z.eqb_eq. Qed.

Lemma set_is_taken_id it : set_is_taken (is_taken it) it = it.
Proof. by destruct it. Qed.

End item.
End LocatorItem.
Abbreviation LocatorItem := LocatorItem.LocatorItem.

#[export] Hint Resolve LocatorItem.new_item_wf LocatorItem.set_is_taken_wf
  LocatorItem.set_position_wf : machine.
