(* ===== verification/Headers.v ===== *)
(** * structs/internal/locator_header.rs: the record and its pure operations *)

From S2P Require Import Prelude Items.

Module LocatorHeader.

Record LocatorHeader := {
  this_address : Z;       (* Unaligned<*mut LocatorHeader> *)
  next_locator_ptr : Z;   (* Unaligned<*mut LocatorHeader>, 0 is null *)
  is_locked : Z;          (* AtomicI32 *)
  flags : Z;              (* u8 *)
  num_items : Z;          (* u8 *)
  padding : Z * Z         (* [u8; 2] *)
}.

(** [LENGTH] and [LENGTH_OF_PREALLOCATED_CHUNKS] *)
Definition LENGTH : Z := 4096.
Definition LENGTH_OF_PREALLOCATED_CHUNKS : Z := 16384.

Section header.
Context `{T : Target}.

(** [size_of::<LocatorHeader>()]: repr(C, align(1)), no field needs padding. *)
Definition size_of_LocatorHeader : Z := size_of_usize + size_of_usize + 4 + 1 + 1 + 2.

Definition MAX_ITEM_COUNT : Z :=
  as_u32 ((LENGTH - size_of_LocatorHeader) / LocatorItem.size_of_LocatorItem).

Definition set_next_locator_ptr (v : Z) (h : LocatorHeader) : LocatorHeader :=
  {| this_address := this_address h; next_locator_ptr := v; is_locked := is_locked h;
     flags := flags h; num_items := num_items h; padding := padding h |}.
Definition set_is_locked (v : Z) (h : LocatorHeader) : LocatorHeader :=
  {| this_address := this_address h; next_locator_ptr := next_locator_ptr h; is_locked := v;
     flags := flags h; num_items := num_items h; padding := padding h |}.
Definition set_flags (v : Z) (h : LocatorHeader) : LocatorHeader :=
  {| this_address := this_address h; next_locator_ptr := next_locator_ptr h;
     is_locked := is_locked h; flags := v; num_items := num_items h; padding := padding h |}.
Definition set_num_items (v : Z) (h : LocatorHeader) : LocatorHeader :=
  {| this_address := this_address h; next_locator_ptr := next_locator_ptr h;
     is_locked := is_locked h; flags := flags h; num_items := v; padding := padding h |}.

(** [LocatorHeader::new], of the test build. *)
Definition new : LocatorHeader :=
  {| this_address := 0; next_locator_ptr := 0; is_locked := 0; flags := 0;
     num_items := 0; padding := (0, 0) |}.

(** [set_default_values(&mut self)]; [self_] is the address of [self]. *)
Definition set_default_values (self_ : Z) (self : LocatorHeader) : LocatorHeader :=
  {| this_address := self_; next_locator_ptr := 0; is_locked := 0; flags := 0;
     num_items := 0; padding := padding self |}.

Definition version (self : LocatorHeader) : Z := Z.land (flags self) 0x07.

Definition set_version (value : Z) (self : LocatorHeader) : LocatorHeader :=
  set_flags (Z.lor (Z.land (flags self) 0xF8) (Z.land value 0x07)) self.

Definition has_next_locator (self : LocatorHeader) : bool := negb (next_locator_ptr self =? 0).

Definition is_full (self : LocatorHeader) : bool := num_items self >=? MAX_ITEM_COUNT.

(** One atomic compare-exchange of 0 by 1. *)
Definition try_lock (self : LocatorHeader) : bool * LocatorHeader :=
  if is_locked self =? 0 then (true, set_is_locked 1 self) else (false, self).

(** The swap; the debug assertion is not part of a release build. *)
Definition unlock (self : LocatorHeader) : LocatorHeader := set_is_locked 0 self.

(** Addresses of the items behind the header at address [self]. *)
Definition get_first_item (self : Z) : Z := self + size_of_LocatorHeader.

Definition get_item (self index : Z) : Z :=
  get_first_item self + index * LocatorItem.size_of_LocatorItem.

(** ** Lemmas *)

Lemma MAX_ITEM_COUNT_value :
  MAX_ITEM_COUNT = match ptr_width with W32 => 255 | W64 => 203 end.
Proof.
  unfold MAX_ITEM_COUNT, size_of_LocatorHeader, LocatorItem.size_of_LocatorItem, size_of_usize.
  by destruct ptr_width.
Qed.

Lemma MAX_ITEM_COUNT_range : 0 < MAX_ITEM_COUNT <= 255.
Proof. rewrite MAX_ITEM_COUNT_value. destruct ptr_width; lia. Qed.

(** The table of items ends inside the 4096 bytes of the locator. *)
Lemma get_item_inside self i :
  0 <= i < MAX_ITEM_COUNT ->
  self + size_of_LocatorHeader <= get_item self i /\
  get_item self i + LocatorItem.size_of_LocatorItem <= self + LENGTH.
Proof.
  rewrite MAX_ITEM_COUNT_value.
  unfold get_item, get_first_item, size_of_LocatorHeader, LocatorItem.size_of_LocatorItem,
    size_of_usize, LENGTH. destruct ptr_width; lia.
Qed.

(** Slots do not overlap. *)
Lemma get_item_step self i j :
  i < j -> get_item self i + LocatorItem.size_of_LocatorItem <= get_item self j.
Proof.
  unfold get_item, LocatorItem.size_of_LocatorItem, size_of_usize. destruct ptr_width; nia.
Qed.

Lemma size_of_item_pos : 0 < LocatorItem.size_of_LocatorItem.
Proof. unfold LocatorItem.size_of_LocatorItem, size_of_usize. destruct ptr_width; lia. Qed.

Lemma get_item_inj self i j : get_item self i = get_item self j -> i = j.
Proof.
  unfold get_item, LocatorItem.size_of_LocatorItem, size_of_usize. destruct ptr_width; lia.
Qed.

(** Slots of locators whose blocks are disjoint are different. *)
Lemma get_item_other_block h1 h2 i j :
  h1 + LENGTH <= h2 \/ h2 + LENGTH <= h1 ->
  0 <= i < MAX_ITEM_COUNT -> 0 <= j < MAX_ITEM_COUNT -> get_item h1 i <> get_item h2 j.
Proof.
  intros Hd [? ?]%(get_item_inside h1) [? ?]%(get_item_inside h2) Heq.
  pose proof size_of_item_pos.
  assert (0 < size_of_LocatorHeader) by
    (unfold size_of_LocatorHeader, size_of_usize; destruct ptr_width; lia).
  lia.
Qed.

Lemma version_set_version v h : version (set_version v h) = Z.land v 7.
Proof.
  unfold version, set_version; simpl. rewrite Z.land_lor_distr_l, <- !Z.land_assoc.
  change (Z.land 248 7) with 0. by rewrite Z.land_0_r, Z.lor_0_l.
Qed.

End header.
End LocatorHeader.
Abbreviation LocatorHeader := LocatorHeader.LocatorHeader.
