(* ===== verification/World.v ===== *)
(** * The memory of the process

    Locators and their items are reached through raw pointers, and several
    users share them: they live in stores indexed by address.  [OS] is the
    state of the operating system, which the crate only changes by system
    calls. *)

From S2P Require Import Prelude Items Headers.

(** ** internal/memory_mapped_file.rs: the trait and its two implementors *)

Module MemoryMappedFile.

Record UnixMemoryMappedFile := {
  file_descriptor : Z;
  u_already_existed : bool;
  u_data : Z;
  u_length : Z;
  file_path : string
}.

Record WindowsMemoryMappedFile := {
  w_already_existed : bool;
  w_data : Z;
  w_length : Z;
  map_handle : Z
}.

(** [Box<dyn MemoryMappedFile>] *)
Inductive MemoryMappedFile :=
| Unix (f : UnixMemoryMappedFile)
| Win (f : WindowsMemoryMappedFile).

(** What each implementor defines of the trait: its three getters. *)
Record Getters (Self : Type) := {
  get_already_existed : Self -> bool;
  get_data : Self -> Z;
  get_length : Self -> Z
}.
Arguments get_already_existed {Self} _ _.
Arguments get_data {Self} _ _.
Arguments get_length {Self} _ _.

Definition unix_getters : Getters UnixMemoryMappedFile :=
  {| get_already_existed := u_already_existed; get_data := u_data; get_length := u_length |}.
Definition windows_getters : Getters WindowsMemoryMappedFile :=
  {| get_already_existed := w_already_existed; get_data := w_data; get_length := w_length |}.

(** Calls through the trait object. *)
Definition already_existed (self : MemoryMappedFile) : bool :=
  match self with
  | Unix f => get_already_existed unix_getters f
  | Win f => get_already_existed windows_getters f
  end.
Definition data (self : MemoryMappedFile) : Z :=
  match self with Unix f => get_data unix_getters f | Win f => get_data windows_getters f end.
Definition length (self : MemoryMappedFile) : Z :=
  match self with Unix f => get_length unix_getters f | Win f => get_length windows_getters f end.

End MemoryMappedFile.

(** ** Effects on memory that matter to code pages, in program order *)

Inductive Event :=
| EvProtect (address size : Z) (executable : bool)   (* mach_vm_protect *)
| EvWrite (address size : Z)                         (* a store of buffer bytes *)
| EvFlush (start size : Z).                          (* instruction cache *)

Record World (OS : Type) := mkWorld {
  w_os : OS;
  w_headers : gmap Z LocatorHeader;
  w_items : gmap Z LocatorItem;
  w_bytes : gmap Z Z;
  w_trace : list Event;
  w_locator_header_address : Z;                       (* static LOCATOR_HEADER_ADDRESS *)
  w_mmf : option MemoryMappedFile.MemoryMappedFile    (* static MMF *)
}.
Arguments mkWorld {OS}.
Arguments w_os {OS} _.
Arguments w_headers {OS} _.
Arguments w_items {OS} _.
Arguments w_bytes {OS} _.
Arguments w_trace {OS} _.
Arguments w_locator_header_address {OS} _.
Arguments w_mmf {OS} _.

(** What [libc::sched_yield], [SwitchToThread] and [std::thread::yield_now]
    let the other threads do. *)
Class Scheduler (OS : Type) := { sched_yield : World OS -> World OS }.

Section world.
Context {OS : Type}.
Implicit Types w : World OS.

Definition set_os (os : OS) w : World OS :=
  mkWorld os (w_headers w) (w_items w) (w_bytes w) (w_trace w)
    (w_locator_header_address w) (w_mmf w).
Definition set_headers (hs : gmap Z LocatorHeader) w : World OS :=
  mkWorld (w_os w) hs (w_items w) (w_bytes w) (w_trace w)
    (w_locator_header_address w) (w_mmf w).
Definition set_items (its : gmap Z LocatorItem) w : World OS :=
  mkWorld (w_os w) (w_headers w) its (w_bytes w) (w_trace w)
    (w_locator_header_address w) (w_mmf w).
Definition set_bytes (bs : gmap Z Z) w : World OS :=
  mkWorld (w_os w) (w_headers w) (w_items w) bs (w_trace w)
    (w_locator_header_address w) (w_mmf w).
Definition set_trace (t : list Event) w : World OS :=
  mkWorld (w_os w) (w_headers w) (w_items w) (w_bytes w) t
    (w_locator_header_address w) (w_mmf w).
Definition set_locator_header_address (a : Z) w : World OS :=
  mkWorld (w_os w) (w_headers w) (w_items w) (w_bytes w) (w_trace w) a (w_mmf w).
Definition set_mmf (m : option MemoryMappedFile.MemoryMappedFile) w : World OS :=
  mkWorld (w_os w) (w_headers w) (w_items w) (w_bytes w) (w_trace w)
    (w_locator_header_address w) m.

(** Access through a pointer: undefined behaviour when nothing lives there. *)
Definition load_item (p : Z) : M (World OS) LocatorItem := fun w =>
  match w_items w !! p with Some it => Done it w | None => Fault end.
Definition store_item (p : Z) (it : LocatorItem) : M (World OS) unit :=
  modify (fun w => set_items (<[p := it]> (w_items w)) w).
Definition load_header (p : Z) : M (World OS) LocatorHeader := fun w =>
  match w_headers w !! p with Some h => Done h w | None => Fault end.
Definition store_header (p : Z) (h : LocatorHeader) : M (World OS) unit :=
  modify (fun w => set_headers (<[p := h]> (w_headers w)) w).

(** A method call through a pointer. *)
Definition item_method {A} (p : Z) (f : LocatorItem -> A * LocatorItem) : M (World OS) A :=
  it ← load_item p;
  let '(a, it') := f it in
  store_item p it' ;;
  mret a.
Definition header_method {A} (p : Z) (f : LocatorHeader -> A * LocatorHeader) : M (World OS) A :=
  h ← load_header p;
  let '(a, h') := f h in
  store_header p h' ;;
  mret a.

Definition log_event (e : Event) : M (World OS) unit :=
  modify (fun w => set_trace (w_trace w ++ [e]) w).

(** A system call that only touches the system's state. *)
Definition lift_os {A} (m : M OS A) : M (World OS) A := fun w =>
  match m (w_os w) with
  | Done a os' => Done a (set_os os' w)
  | Panic msg => Panic msg
  | Fault => Fault
  | OutOfFuel => OutOfFuel
  end.

(** ** Rules *)

Lemma set_headers_id w : set_headers (w_headers w) w = w.
Proof. by destruct w. Qed.
Lemma set_items_id w : set_items (w_items w) w = w.
Proof. by destruct w. Qed.
Lemma set_os_id w : set_os (w_os w) w = w.
Proof. by destruct w. Qed.

Lemma wp_load_item p it (Q : LocatorItem -> World OS -> Prop) w :
  w_items w !! p = Some it -> Q it w -> wp (load_item p) Q w.
Proof. unfold wp, load_item. by intros ->. Qed.

Lemma wp_store_item p it (Q : unit -> World OS -> Prop) w :
  Q tt (set_items (<[p := it]> (w_items w)) w) -> wp (store_item p it) Q w.
Proof. done. Qed.

Lemma wp_load_header p h (Q : LocatorHeader -> World OS -> Prop) w :
  w_headers w !! p = Some h -> Q h w -> wp (load_header p) Q w.
Proof. unfold wp, load_header. by intros ->. Qed.

Lemma wp_store_header p h (Q : unit -> World OS -> Prop) w :
  Q tt (set_headers (<[p := h]> (w_headers w)) w) -> wp (store_header p h) Q w.
Proof. done. Qed.

Lemma wp_item_method {A} p it (f : LocatorItem -> A * LocatorItem) Q w :
  w_items w !! p = Some it ->
  Q (f it).1 (set_items (<[p := (f it).2]> (w_items w)) w) ->
  wp (item_method p f) Q w.
Proof.
  intros Hp HQ. unfold item_method. wp_step. eapply wp_load_item; [done|].
  destruct (f it) as [a it']. done.
Qed.

Lemma wp_header_method {A} p h (f : LocatorHeader -> A * LocatorHeader) Q w :
  w_headers w !! p = Some h ->
  Q (f h).1 (set_headers (<[p := (f h).2]> (w_headers w)) w) ->
  wp (header_method p f) Q w.
Proof.
  intros Hp HQ. unfold header_method. wp_step. eapply wp_load_header; [done|].
  destruct (f h) as [a h']. done.
Qed.

Lemma wp_lift_os {A} (m : M OS A) Q w :
  wp m (fun a os' => Q a (set_os os' w)) (w_os w) -> wp (lift_os m) Q w.
Proof. unfold wp, lift_os. by destruct (m (w_os w)). Qed.

Lemma wp_unless_lift_os bad {A} (m : M OS A) Q w :
  wp_unless bad m (fun a os' => Q a (set_os os' w)) (w_os w) -> wp_unless bad (lift_os m) Q w.
Proof. unfold wp_unless, lift_os. by destruct (m (w_os w)). Qed.

Lemma wp_or_panic_lift_os {A} (m : M OS A) Q w :
  wp_or_panic m (fun a os' => Q a (set_os os' w)) (w_os w) -> wp_or_panic (lift_os m) Q w.
Proof. unfold wp_or_panic, lift_os. by destruct (m (w_os w)). Qed.

End world.

(** ** Bytes *)

Fixpoint write_bytes (a : Z) (data : list Z) (m : gmap Z Z) : gmap Z Z :=
  match data with
  | [] => m
  | b :: data' => <[a := b]> (write_bytes (a + 1) data' m)
  end.

(** [None] when some byte of the source is not readable. *)
Fixpoint read_bytes (a : Z) (n : nat) (m : gmap Z Z) : option (list Z) :=
  match n with
  | O => Some []
  | S n' =>
      match m !! a, read_bytes (a + 1) n' m with
      | Some b, Some bs => Some (b :: bs)
      | _, _ => None
      end
  end.

Lemma write_bytes_outside data : forall a m x,
  ~ (a <= x < a + Z.of_nat (length data)) -> write_bytes a data m !! x = m !! x.
Proof.
  induction data as [|b data IH]; intros a m x Hx; [done|].
  simpl in *. rewrite lookup_insert_ne by lia. apply IH. lia.
Qed.

Lemma write_bytes_inside data : forall a m i,
  (i < length data)%nat -> write_bytes a data m !! (a + Z.of_nat i) = data !! i.
Proof.
  induction data as [|b data IH]; intros a m i Hi; simpl in *; [lia|].
  destruct i as [|i].
  - rewrite Z.add_0_r. apply lookup_insert_eq.
  - rewrite lookup_insert_ne by lia. change ((b :: data) !! S i) with (data !! i).
    rewrite <- (IH (a + 1) m i) by lia. f_equal. lia.
Qed.

Lemma read_write_bytes data : forall a m,
  read_bytes a (length data) (write_bytes a data m) = Some data.
Proof.
  intros a m.
  cut (forall m', (forall i, (i < length data)%nat -> m' !! (a + Z.of_nat i) = data !! i) ->
    read_bytes a (length data) m' = Some data).
  { intros H. apply H. intros. by apply write_bytes_inside. }
  revert a. induction data as [|b data IH]; intros a m' H; [done|]. simpl.
  pose proof (H 0%nat ltac:(simpl; lia)) as H0. rewrite Z.add_0_r in H0. rewrite H0. simpl.
  rewrite IH; [done|]. intros i Hi.
  assert (H1 : m' !! (a + Z.of_nat (S i)) = (b :: data) !! S i) by (apply H; simpl; lia).
  change ((b :: data) !! S i) with (data !! i) in H1. rewrite <- H1. f_equal. lia.
Qed.

Lemma read_bytes_ext a n m m' :
  (forall x, a <= x < a + Z.of_nat n -> m !! x = m' !! x) ->
  read_bytes a n m = read_bytes a n m'.
Proof.
  revert a. induction n as [|n IH]; intros a H; [done|]. cbn [read_bytes].
  rewrite (H a), (IH (a + 1)) by (lia || (intros; apply H; lia)). done.
Qed.

#[global] Opaque write_bytes read_bytes.
