(* ===== verification/ItemOps.v ===== *)
(** * The effectful part of structs/internal/locator_item.rs, with
    structs/safe_locator_item.rs, utilities/disable_write_xor_execute.rs and
    utilities/icache_clear.rs *)

From S2P Require Import Prelude Mathematics Items Headers World.

(** ** Code pages *)

Module CodePages.
Section code_pages.
Context `{T : Target} {OS : Type}.

Definition disable_write_xor_execute (address size : Z) : M (World OS) unit :=
  if cfg_macos_aarch64 then log_event (EvProtect address size false) else mret tt.

Definition restore_write_xor_execute (address size : Z) : M (World OS) unit :=
  if cfg_macos_aarch64 then log_event (EvProtect address size true) else mret tt.

(** Nothing on x86; FlushInstructionCache(start, end - start) on Windows; the
    crate clf elsewhere. *)
Definition clear_instruction_cache (start end_ : Z) : M (World OS) unit :=
  if target_x86 then mret tt
  else if cfg_windows then log_event (EvFlush start (end_ -u start))
  else log_event (EvFlush start (end_ - start)).

(** [core::ptr::copy_nonoverlapping] from a slice whose contents are [data]. *)
Definition copy_slice (data : list Z) (address : Z) : M (World OS) unit :=
  modify (fun w => set_bytes (write_bytes address data (w_bytes w)) w) ;;
  log_event (EvWrite address (Z.of_nat (length data))).

(** The same from memory. *)
Definition copy_nonoverlapping (source target size : Z) : M (World OS) unit :=
  w ← get_state;
  match read_bytes source (Z.to_nat size) (w_bytes w) with
  | Some data => copy_slice data target
  | None => fault
  end.

End code_pages.
End CodePages.
Import CodePages.

(** ** Methods of [LocatorItem] through a pointer *)

Module ItemPtr.
Import LocatorItem.
Section item_ptr.
Context `{T : Target} {OS : Type} `{Sch : Scheduler OS}.

Definition try_lock (self : Z) : M (World OS) bool := item_method self LocatorItem.try_lock.

Definition lock (self : Z) : M (World OS) unit :=
  loop (fun _ : unit =>
    ok ← try_lock self;
    if (ok : bool) then mret (inr tt)
    else modify sched_yield ;; mret (inl tt)) tt.

Definition unlock (self : Z) : M (World OS) unit :=
  item_method self (fun it => (tt, LocatorItem.unlock it)).

Definition append_code (self : Z) (data : list Z) : M (World OS) Z :=
  it ← load_item self;
  disable_write_xor_execute (base_address it) (Z.of_nat (length data)) ;;
  let address := base_address it +u position it in
  let data_len := Z.of_nat (length data) in
  copy_slice data address ;;
  store_item self (set_position (position it +u32 as_u32 data_len) it) ;;
  restore_write_xor_execute (base_address it) (Z.of_nat (length data)) ;;
  clear_instruction_cache address (address +u data_len) ;;
  mret address.

Definition append_bytes (self : Z) (data : list Z) : M (World OS) Z :=
  it ← load_item self;
  disable_write_xor_execute (base_address it) (Z.of_nat (length data)) ;;
  let address := base_address it +u position it in
  let data_len := Z.of_nat (length data) in
  copy_slice data address ;;
  store_item self (set_position (position it +u32 as_u32 data_len) it) ;;
  restore_write_xor_execute (base_address it) (Z.of_nat (length data)) ;;
  mret address.

(** A value of a [Copy] type is the list of its [size_of::<T>()] bytes. *)
Definition append_copy (self : Z) (data : list Z) : M (World OS) Z :=
  it ← load_item self;
  disable_write_xor_execute (base_address it) (Z.of_nat (length data)) ;;
  let address := base_address it +u position it in
  copy_slice data address ;;
  store_item self (set_position (position it +u32 as_u32 (Z.of_nat (length data))) it) ;;
  restore_write_xor_execute (base_address it) (Z.of_nat (length data)) ;;
  mret address.

End item_ptr.
End ItemPtr.

(** ** [SafeLocatorItem] *)

Module SafeLocatorItem.

(** [Cell<*mut LocatorItem>] *)
Record SafeLocatorItem := { item : Z }.

Section safe.
Context `{T : Target} {OS : Type}.

(** Little-endian bytes of a pointer: what [data] is when [T] is a reference. *)
Definition pointer_bytes (p : Z) : list Z :=
  match ptr_width with
  | W32 => (fun i => Z.land (Z.shiftr p (8 * Z.of_nat i)) 255) <$> seq 0 4
  | W64 => (fun i => Z.land (Z.shiftr p (8 * Z.of_nat i)) 255) <$> seq 0 8
  end.

Definition append_code (self : SafeLocatorItem) (data : list Z) : M (World OS) Z :=
  ItemPtr.append_code (item self) data.

Definition append_bytes (self : SafeLocatorItem) (data : list Z) : M (World OS) Z :=
  ItemPtr.append_bytes (item self) data.

(** [append_copy(&self, data: &T)] hands the reference itself to
    [LocatorItem::append_copy], which copies a value of type [&T]. *)
Definition append_copy (self : SafeLocatorItem) (data : Z) : M (World OS) Z :=
  ItemPtr.append_copy (item self) (pointer_bytes data).

(** [Drop] *)
Definition drop (self : SafeLocatorItem) : M (World OS) unit := ItemPtr.unlock (item self).

End safe.
End SafeLocatorItem.
Abbreviation SafeLocatorItem := SafeLocatorItem.SafeLocatorItem.

(** ** Lemmas *)

Section item_lemmas.
Context `{T : Target} {OS : Type} `{Sch : Scheduler OS}.
Implicit Types w : World OS.

(** Steps that only write to the trace. *)
Definition same_memory w w' : Prop :=
  w_os w' = w_os w /\ w_headers w' = w_headers w /\ w_items w' = w_items w /\
  w_bytes w' = w_bytes w /\ w_locator_header_address w' = w_locator_header_address w /\
  w_mmf w' = w_mmf w.

Lemma wp_lock_free p it (Q : unit -> World OS -> Prop) w :
  w_items w !! p = Some it -> LocatorItem.is_taken it = 0 ->
  Q tt (set_items (<[p := LocatorItem.set_is_taken 1 it]> (w_items w)) w) ->
  wp (ItemPtr.lock p) Q w.
Proof.
  intros Hp Hfree HQ. unfold ItemPtr.lock. apply wp_loop_once. wp_step.
  eapply wp_item_method; [done|]. simpl. rewrite Hfree. simpl. by wp_step.
Qed.

End item_lemmas.
