(* ===== verification/Platform.v ===== *)
(** * What the locators ask of the platform

    The class [Platform] is the interface between the locators and the code
    that obtains memory; [PlatformLaws] is what it promises.  The platform
    allocators implement it (AllocLinux.v and its siblings). *)

From S2P Require Import Prelude Mathematics SysInfo Settings Errors Placement Items.

Class Platform (OS : Type) := {
  (** the function [allocate] of buffer_allocator.rs calls after sanitizing *)
  allocate_platform :
    BufferAllocatorSettings -> M OS (result LocatorItem BufferAllocationError);
  (** [alloc::alloc::alloc] of a layout: an address, or 0 *)
  heap_alloc (size align : Z) : OS -> Z * OS
}.

(** The memory of the process, as the laws of the platform interfaces see it:
    the states the system can be in, and the bytes of live mappings. *)
Class Memory (OS : Type) := {
  os_ok : OS -> Prop;
  owned : OS -> Z -> Prop
}.

(** [Layout::from_size_align(size, align).is_ok()] *)
Definition layout_ok `{Target} (size align : Z) : bool :=
  (0 <? align) && (Z.land align (align - 1) =? 0)
  && (size <=? usize_max / 2 - (align - 1)).

Section platform.
Context `{T : Target} `{Q : SysQuery} {OS : Type}.

(** buffer_allocator.rs: the settings are sanitized in place, then the
    allocator of the platform runs. *)
Definition allocate `{P : Platform OS} (settings : BufferAllocatorSettings)
    : M OS (BufferAllocatorSettings * result LocatorItem BufferAllocationError) :=
  let settings := BufferAllocatorSettings.sanitize settings in
  r ← allocate_platform settings;
  mret (settings, r).

(** A fresh item for the settings. *)
Record placed (s : BufferAllocatorSettings) (it : LocatorItem) : Prop := {
  placed_base : 0 < LocatorItem.base_address it;
  placed_min : BufferAllocatorSettings.min_address s <= LocatorItem.base_address it;
  placed_max : LocatorItem.base_address it + LocatorItem.size it
               <= BufferAllocatorSettings.max_address s;
  placed_size : LocatorItem.size it = BufferAllocatorSettings.size s;
  placed_position : LocatorItem.position it = 0;
  placed_free : LocatorItem.is_taken it = 0
}.

(** A run that leaves the mappings alone, and one that only adds mappings. *)
Definition keeps `{Memory OS} (os os' : OS) : Prop :=
  os_ok os' /\ forall x, owned os' x <-> owned os x.
Definition grows `{Memory OS} (os os' : OS) : Prop :=
  os_ok os' /\ forall x, owned os x -> owned os' x.

(** A run that gives back memory: no byte outside the [n] bytes at [a] changes
    hands, and nothing is mapped; if [released], those bytes are gone. *)
Record frees `{Memory OS} (a n : Z) (released : Prop) (os os' : OS) : Prop := {
  fr_ok : os_ok os';
  fr_less x : owned os' x -> owned os x;
  fr_rest x : owned os x -> ~ (a <= x < a + n) -> owned os' x;
  fr_gone : released -> forall x, a <= x < a + n -> ~ owned os' x
}.

(** What a successful allocation promises: a fresh item in memory that was not
    owned before. *)
Definition got `{Memory OS} (s : BufferAllocatorSettings) (os : OS) (it : LocatorItem) (os' : OS)
    : Prop :=
  grows os os' /\ placed s it /\
  (forall x, LocatorItem.in_buffer it x -> ~ owned os x /\ owned os' x).

(** The platforms are asked for whole granules only. *)
Definition sanitized (s : BufferAllocatorSettings) : Prop :=
  0 < BufferAllocatorSettings.size s /\ (granularity | BufferAllocatorSettings.size s).

Class PlatformLaws `{P : Platform OS} `{Mem : Memory OS} := {
  (** the processes the platform can allocate for; a process can for itself *)
  reachable : Z -> Prop;
  reachable_self : reachable (Cached.this_process_id get_sys_info);
  allocate_platform_spec s os :
    os_ok os -> BufferAllocatorSettings.wf s -> sanitized s ->
    reachable (BufferAllocatorSettings.target_process_id s) ->
    wp (allocate_platform s) (fun r os' => match r with
      | Ok it => got s os it os'
      | Err e => grows os os' /\ BufferAllocationError.settings e = s
      end) os;
  heap_alloc_spec size align os :
    os_ok os -> 0 < size -> layout_ok size align = true ->
    let '(addr, os') := heap_alloc size align os in
    os_ok os' /\ (forall x, owned os x -> owned os' x) /\
    (addr <> 0 ->
      0 < addr /\ addr + size <= usize_max /\
      (forall x, addr <= x < addr + size -> ~ owned os x /\ owned os' x))
}.

(** A candidate address of a free region makes a well-placed item. *)
Lemma candidate_spec `{HQ : !SysQueryOk} s ps pe addr :
  BufferAllocatorSettings.wf s -> is_usize ps -> is_usize pe -> ps <= pe ->
  addr ∈ get_possible_buffer_addresses (BufferAllocatorSettings.min_address s)
    (BufferAllocatorSettings.max_address s) ps pe (BufferAllocatorSettings.size s)
    (wrap_usize (Cached.allocation_granularity get_sys_info)) results_buffer ->
  (granularity | addr) /\
  (addr + BufferAllocatorSettings.size s <= usize_max ->
   fits (BufferAllocatorSettings.min_address s) (BufferAllocatorSettings.max_address s) ps pe
     (BufferAllocatorSettings.size s) addr).
Proof.
  intros [? ? Hu] Hps Hpe Hle. rewrite get_possible_placements by done.
  change (wrap_usize (Cached.allocation_granularity get_sys_info)) with granularity.
  intros Hin. pose proof granularity_range as Hg.
  assert (1073741824 <= usize_max) by
    (unfold usize_max, usize_modulus; destruct ptr_width; lia).
  split.
  - eapply placements_aligned; [..|exact Hin]; eauto using u32_le_usize; lia.
  - intros Hend. eapply placements_sound; [..|exact Hin]; eauto using u32_le_usize; lia.
Qed.

Lemma candidate_usize s ps pe g addr :
  BufferAllocatorSettings.wf s -> is_usize ps -> is_usize pe ->
  addr ∈ get_possible_buffer_addresses (BufferAllocatorSettings.min_address s)
    (BufferAllocatorSettings.max_address s) ps pe (BufferAllocatorSettings.size s) g
    results_buffer ->
  is_usize addr.
Proof.
  intros [] Hps Hpe. rewrite get_possible_placements by done.
  apply placements_usize; eauto using u32_le_usize.
Qed.

Lemma fits_placed s ps pe addr :
  fits (BufferAllocatorSettings.min_address s) (BufferAllocatorSettings.max_address s) ps pe
     (BufferAllocatorSettings.size s) addr -> 0 < addr ->
  placed s (LocatorItem.new addr (BufferAllocatorSettings.size s)).
Proof. intros [] Hpos. by constructor. Qed.

Section contract.
Context `{Mem : Memory OS}.
Implicit Types os : OS.

Lemma keeps_grows os os' : keeps os os' -> grows os os'.
Proof. intros [? H]. split; [done|]. intros x. apply H. Qed.

Lemma grows_refl os : os_ok os -> grows os os.
Proof. by split. Qed.

Lemma grows_trans os1 os2 os3 : grows os1 os2 -> grows os2 os3 -> grows os1 os3.
Proof. intros [_ H1] [? H2]. split; [done|]. auto. Qed.

Lemma keeps_trans os1 os2 os3 : keeps os1 os2 -> keeps os2 os3 -> keeps os1 os3.
Proof. intros [_ H1] [? H2]. split; [done|]. intros x. by rewrite H2, H1. Qed.

Lemma got_before s os1 os2 os3 it : grows os1 os2 -> got s os2 it os3 -> got s os1 it os3.
Proof.
  intros H12 (H23 & Hp & Hf). split; [by eapply grows_trans|]. split; [done|].
  intros x Hx. destruct (Hf x Hx). split; [|done]. intros Ho. by apply (proj2 H12) in Ho.
Qed.

End contract.

(** [allocate] meets its contract: the item covers the request. *)
Lemma allocate_spec `{P : Platform OS} `{Mem : Memory OS} `{L : !PlatformLaws} `{HQ : !SysQueryOk} s os :
  os_ok os -> BufferAllocatorSettings.wf s ->
  BufferAllocatorSettings.size s + granularity <= u32_max ->
  reachable (BufferAllocatorSettings.target_process_id s) ->
  wp (allocate s) (fun r os' =>
    os_ok os' /\ (forall x, owned os x -> owned os' x) /\
    r.1 = BufferAllocatorSettings.sanitize s /\
    match r.2 with
    | Ok it => placed r.1 it /\ LocatorItem.wf it /\
        (forall x, LocatorItem.in_buffer it x -> ~ owned os x /\ owned os' x)
    | Err _ => True
    end) os.
Proof.
  intros Hok Hwf Hbig Hpid. pose proof (BufferAllocatorSettings.sanitize_wf s Hwf) as Hsan.
  pose proof (BufferAllocatorSettings.sanitize_size_covers s Hwf Hbig) as (_ & Hdiv & Hsz0).
  unfold allocate. wp_step. eapply wp_mono; [apply allocate_platform_spec; try done|].
  { by rewrite BufferAllocatorSettings.sanitize_pid. }
  intros [it|e] os' H; wp_step; simpl; [|by destruct H as [[? ?] _]].
  destruct H as ([? ?] & Hp & Hown). split; [done|]. split; [done|]. split; [done|].
  split; [done|]. split; [|done].
  destruct Hp as [? ? ? Hsz Hpos ?], Hsan as [? Hmax Hs].
  unfold is_usize, is_u32 in *.
  constructor; [lia | unfold is_u32; lia | lia | lia].
Qed.

End platform.
