(* ===== verification/Kernel32.v ===== *)
(** * The trait [Kernel32] of internal/buffer_allocator_windows.rs

    The memory functions of Windows are parameters with the flags the code
    passes; [LocalKernel32] and [RemoteKernel32] implement the trait with
    them.  [WindowsMemoryLaws] is the documented behaviour of the functions,
    [Kernel32Laws] what the allocator relies on, and the first gives the
    second for [LocalKernel32]. *)

From S2P Require Import Prelude SysInfo Settings Items Platform.

(** MEMORY_BASIC_INFORMATION, the fields the crate reads *)
Record MEMORY_BASIC_INFORMATION := {
  BaseAddress : Z;
  RegionSize : Z;
  State : Z
}.
(** [size_of::<MEMORY_BASIC_INFORMATION>()] *)
Definition size_of_memory_basic_information `{Target} : Z :=
  match ptr_width with W32 => 28 | W64 => 48 end.

Definition MEM_COMMIT : Z := 0x1000.
Definition MEM_RESERVE : Z := 0x2000.
Definition MEM_RELEASE : Z := 0x8000.
Definition MEM_FREE : Z := 0x10000.
Definition PAGE_EXECUTE_READWRITE : Z := 0x40.

(** The functions on the memory of this process.  A query gives the number of
    bytes it wrote and what it wrote. *)
Class WindowsMemory (OS : Type) := {
  VirtualQuery (lpAddress dwLength : Z) : OS -> (Z * MEMORY_BASIC_INFORMATION) * OS;
  VirtualAlloc (lpAddress dwSize flAllocationType flProtect : Z) : OS -> Z * OS;
  VirtualFree (lpAddress dwSize dwFreeType : Z) : OS -> Z * OS
}.

(** The same functions on the memory of any process. *)
Class WindowsRemoteMemory (OS : Type) := {
  VirtualQueryEx (hProcess lpAddress dwLength : Z) : OS -> (Z * MEMORY_BASIC_INFORMATION) * OS;
  VirtualAllocEx (hProcess lpAddress dwSize flAllocationType flProtect : Z) : OS -> Z * OS;
  VirtualFreeEx (hProcess lpAddress dwSize dwFreeType : Z) : OS -> Z * OS
}.

(** trait Kernel32; a [virtual_query] that returns 0 is [None] *)
Class Kernel32 (OS : Type) := {
  virtual_query (lp_address : Z) : OS -> option MEMORY_BASIC_INFORMATION * OS;
  virtual_alloc (lp_address dw_size : Z) : OS -> Z * OS;
  virtual_free (lp_address dw_size : Z) : OS -> bool * OS
}.

Section kernel32.
Context `{T : Target} {OS : Type}.

Definition query_result (r : (Z * MEMORY_BASIC_INFORMATION) * OS)
    : option MEMORY_BASIC_INFORMATION * OS :=
  let '((written, info), os) := r in (if written =? 0 then None else Some info, os).

Definition LocalKernel32 `{WindowsMemory OS} : Kernel32 OS := {|
  virtual_query lp_address os :=
    query_result (VirtualQuery lp_address size_of_memory_basic_information os);
  virtual_alloc lp_address dw_size os :=
    VirtualAlloc lp_address dw_size (Z.lor MEM_RESERVE MEM_COMMIT) PAGE_EXECUTE_READWRITE os;
  virtual_free lp_address dw_size os :=
    let '(r, os) := VirtualFree lp_address dw_size MEM_RELEASE os in (negb (r =? 0), os)
|}.

(** Behind the feature external_process. *)
Definition RemoteKernel32 `{WindowsRemoteMemory OS} (handle : Z) : Kernel32 OS := {|
  virtual_query lp_address os :=
    query_result (VirtualQueryEx handle lp_address size_of_memory_basic_information os);
  virtual_alloc lp_address dw_size os :=
    VirtualAllocEx handle lp_address dw_size (Z.lor MEM_RESERVE MEM_COMMIT)
      PAGE_EXECUTE_READWRITE os;
  virtual_free lp_address dw_size os :=
    let '(r, os) := VirtualFreeEx handle lp_address dw_size MEM_RELEASE os in (negb (r =? 0), os)
|}.

End kernel32.

(** ** What the allocator relies on *)

(** The pages of an answer: the one of the address, with those behind it in
    the same state; nothing above the last application address. *)
Definition page_answer `{SysQuery} (addr : Z) (info : MEMORY_BASIC_INFORMATION) : Prop :=
  0 <= BaseAddress info <= addr /\ addr < BaseAddress info + 4096 /\
  4096 <= RegionSize info /\
  BaseAddress info + RegionSize info <= lpMaximumApplicationAddress + 1.

(** Nothing, or memory that nobody had; [allocation] for whole pages. *)
Definition alloc_answer `{Target} {OS} `{Memory OS} (allocation : OS -> Z -> Z -> Prop)
    (len : Z) (os : OS) (a : Z) (os' : OS) : Prop :=
  os_ok os' /\
  ((a = 0 /\ forall x, owned os' x <-> owned os x) \/
   (0 < a /\ a + len <= usize_max /\
    (forall x, a <= x < a + len -> ~ owned os x) /\
    (forall x, owned os x \/ a <= x < a + len -> owned os' x) /\
    ((4096 | len) -> allocation os' a len))).

(** A fresh item which, when it is whole pages, is one allocation. *)
Definition taken {OS} `{Memory OS} (allocation : OS -> Z -> Z -> Prop) (s : BufferAllocatorSettings)
    (os : OS) (it : LocatorItem) (os' : OS) : Prop :=
  got s os it os' /\
  ((4096 | LocatorItem.size it) ->
   allocation os' (LocatorItem.base_address it) (LocatorItem.size it)).

Lemma taken_before {OS} `{Memory OS} allocation s (os os1 : OS) it os2 :
  grows os os1 -> taken allocation s os1 it os2 -> taken allocation s os it os2.
Proof. intros Hg [Hgot ?]. split; [by eapply got_before|done]. Qed.

Class Kernel32Laws `{T : Target} `{Q : SysQuery} {OS : Type} `{Mem : Memory OS}
    `{K : Kernel32 OS} := {
  (** the ranges that were allocated as one and are still allocated *)
  k_allocation : OS -> Z -> Z -> Prop;
  virtual_query_spec addr os :
    os_ok os -> keeps os (virtual_query addr os).2 /\
    match (virtual_query addr os).1 with Some info => page_answer addr info | None => True end;
  virtual_alloc_spec addr len os :
    os_ok os ->
    alloc_answer k_allocation len os (virtual_alloc addr len os).1 (virtual_alloc addr len os).2;
  (** MEM_RELEASE with a size is an error *)
  virtual_free_spec addr len os :
    os_ok os -> len <> 0 ->
    (virtual_free addr len os).1 = false /\ keeps os (virtual_free addr len os).2
}.

(** The documented behaviour of the functions, for the flags that are used. *)
Class WindowsMemoryLaws `{T : Target} `{Q : SysQuery} {OS : Type} `{Mem : Memory OS}
    `{WM : WindowsMemory OS} := {
  wm_allocation : OS -> Z -> Z -> Prop;
  wm_query addr n os :
    os_ok os -> keeps os (VirtualQuery addr n os).2 /\
    ((VirtualQuery addr n os).1.1 <> 0 -> page_answer addr (VirtualQuery addr n os).1.2);
  wm_alloc addr len os :
    os_ok os ->
    let '(a, os') := VirtualAlloc addr len (Z.lor MEM_RESERVE MEM_COMMIT)
      PAGE_EXECUTE_READWRITE os in
    alloc_answer wm_allocation len os a os';
  wm_free_sized addr len os :
    os_ok os -> len <> 0 ->
    let '(r, os') := VirtualFree addr len MEM_RELEASE os in r = 0 /\ keeps os os';
  (** MEM_RELEASE with the size 0 releases the whole allocation *)
  wm_free_all base n os :
    os_ok os -> wm_allocation os base n ->
    frees base n True os (VirtualFree base 0 MEM_RELEASE os).2;
  (** nothing is allocated at the null pointer *)
  wm_free_null n os : os_ok os -> keeps os (VirtualFree 0 n MEM_RELEASE os).2
}.

Section local.
Context `{T : Target} `{Q : SysQuery} {OS : Type} `{Mem : Memory OS} `{WM : WindowsMemory OS}
  `{WML : !WindowsMemoryLaws}.

#[global] Instance local_kernel32_laws : Kernel32Laws (K := LocalKernel32).
Proof.
  refine {| k_allocation := wm_allocation |}.
  - intros addr os Hok. cbn [virtual_query LocalKernel32].
    destruct (wm_query addr size_of_memory_basic_information os Hok) as [Hk Ha].
    destruct (VirtualQuery _ _ os) as [[n info] os']. simpl in *. split; [done|].
    destruct (Z.eqb_spec n 0); auto.
  - intros addr len os Hok. cbn [virtual_alloc LocalKernel32].
    pose proof (wm_alloc addr len os Hok) as H. by destruct (VirtualAlloc _ _ _ _ os).
  - intros addr len os Hok Hlen. cbn [virtual_free LocalKernel32].
    pose proof (wm_free_sized addr len os Hok Hlen) as H.
    destruct (VirtualFree _ _ _ os) as [r os']. destruct H as [-> Hk]. done.
Defined.

End local.

(** A platform whose memory, on Windows, can be released as a whole. *)
Class TracksAllocations `{T : Target} `{Q : SysQuery} {OS : Type} `{Mem : Memory OS}
    `{WM : WindowsMemory OS} `{WML : !WindowsMemoryLaws} `{P : Platform OS} := {
  windows_allocation s os :
    target_os = Windows -> os_ok os -> BufferAllocatorSettings.wf s -> sanitized s ->
    wp (allocate_platform s) (fun r os' => match r with
      | Ok it => wm_allocation os' (LocatorItem.base_address it) (LocatorItem.size it)
      | Err _ => True
      end) os
}.
