(* ===== verification/HeaderOps.v ===== *)
(** * The effectful part of structs/internal/locator_header.rs *)

From S2P Require Import Prelude Mathematics SysInfo Settings Errors Items Headers World ItemOps.
From S2P Require Import Platform.
Import LocatorHeader.

Module HeaderPtr.
Section header_ptr.
Context `{T : Target} `{Q : SysQuery} {OS : Type} `{Sch : Scheduler OS} `{P : Platform OS}.

(** The header at an address whose memory may be fresh: a fresh page reads as
    zeros, and the callers below overwrite every field but the padding.  Any
    access through the null pointer is a fault. *)
Definition load_raw_header (self : Z) : M (World OS) LocatorHeader := fun w =>
  if self =? 0 then Fault else Done (default LocatorHeader.new (w_headers w !! self)) w.

Definition set_default_values (self : Z) : M (World OS) unit :=
  h ← load_raw_header self;
  store_header self (LocatorHeader.set_default_values self h).

(** The loop state: (current_item, remaining_bytes, num_items). *)
Definition initialize_remaining_space_as_buffers (self remaining_bytes : Z)
    : M (World OS) unit :=
  h ← load_header self;
  let buffer_address := this_address h + LENGTH in
  num_items ← loop (fun '(current_item, remaining_bytes, num_items) =>
    if remaining_bytes >? 0 then
      let this_length := Z.min LENGTH_OF_PREALLOCATED_CHUNKS remaining_bytes in
      store_item current_item (LocatorItem.new buffer_address this_length) ;;
      mret (inl (current_item + LocatorItem.size_of_LocatorItem,
                 remaining_bytes -u32 this_length, add_u8 num_items 1))
    else mret (inr num_items)) (get_first_item self, remaining_bytes, 0);
  h ← load_header self;
  store_header self (set_num_items num_items h).

Definition initialize_remaining_space_as_headers (header remaining_bytes : Z)
    : M (World OS) unit :=
  loop (fun '(current_header, remaining_bytes) =>
    if remaining_bytes >=? LENGTH then
      let next_header := current_header + LENGTH in
      set_default_values next_header ;;
      h ← load_header current_header;
      store_header current_header (set_next_locator_ptr next_header h) ;;
      mret (inl (next_header, remaining_bytes -u32 LENGTH))
    else mret (inr tt)) (header, remaining_bytes).

Definition initialize (self length : Z) : M (World OS) unit :=
  set_default_values self ;;
  let remaining_bytes := as_u32 (length -u LENGTH) in
  if cfg_macos_aarch64 then initialize_remaining_space_as_headers self remaining_bytes
  else initialize_remaining_space_as_buffers self remaining_bytes.

Definition try_lock (self : Z) : M (World OS) bool := header_method self LocatorHeader.try_lock.

Definition lock (self : Z) : M (World OS) unit :=
  loop (fun _ : unit =>
    ok ← try_lock self;
    if (ok : bool) then mret (inr tt)
    else modify sched_yield ;; mret (inl tt)) tt.

Definition unlock (self : Z) : M (World OS) unit :=
  header_method self (fun h => (tt, LocatorHeader.unlock h)).

Definition get_first_available_item_locked (self size min_address max_address : Z)
    : M (World OS) (option SafeLocatorItem) :=
  h ← load_header self;
  let final_item := get_first_item self + num_items h * LocatorItem.size_of_LocatorItem in
  loop (fun current_item =>
    if current_item <? final_item then
      item_ref ← load_item current_item;
      locked ← (if LocatorItem.can_use item_ref size min_address max_address
                then ItemPtr.try_lock current_item else mret false);
      if (locked : bool) then mret (inr (Some {| SafeLocatorItem.item := current_item |}))
      else mret (inl (current_item + LocatorItem.size_of_LocatorItem))
    else mret (inr None)) (get_first_item self).

Definition try_allocate_item (self size min_address max_address : Z)
    : M (World OS) (result SafeLocatorItem ItemAllocationError) :=
  h ← load_header self;
  if is_full h then mret (Err ItemAllocationError.NoSpaceInHeader) else
  lock self ;;
  h ← load_header self;
  if is_full h then
    unlock self ;;
    mret (Err ItemAllocationError.NoSpaceInHeader)
  else
  let settings :=
    BufferAllocatorSettings.set_size size
      (BufferAllocatorSettings.set_max_address max_address
        (BufferAllocatorSettings.set_min_address min_address BufferAllocatorSettings.new)) in
  '(_, result) ← lift_os (allocate settings);
  match result with
  | Ok allocated_memory =>
      (* [allocated_memory.lock()]: a local that nobody else can unlock *)
      match LocatorItem.try_lock allocated_memory with
      | (false, _) => out_of_fuel
      | (true, allocated_memory) =>
          h ← load_header self;
          let target := get_item self (num_items h) in
          store_item target allocated_memory ;;
          let item := {| SafeLocatorItem.item := target |} in
          store_header self (set_num_items (add_u8 (num_items h) 1) h) ;;
          unlock self ;;
          mret (Ok item)
      end
  | Err _ =>
      unlock self ;;
      mret (Err ItemAllocationError.CannotAllocateMemory)
  end.

Definition get_next_locator (self : Z) : M (World OS) (result Z string) :=
  h ← load_header self;
  if has_next_locator h then mret (Ok (next_locator_ptr h)) else
  lock self ;;
  h ← load_header self;
  if has_next_locator h then
    unlock self ;;
    h ← load_header self;
    mret (Ok (next_locator_ptr h))
  else
  let sys_info := get_sys_info in
  let alloc_size := Cached.allocation_granularity sys_info in
  if layout_ok (wrap_usize alloc_size) (Cached.page_size sys_info) then
    addr ← lift_os (call (heap_alloc (wrap_usize alloc_size) (Cached.page_size sys_info)));
    if addr =? 0 then
      unlock self ;;
      mret (Err "Failed to allocate memory for LocatorHeader. Is this process out of memory?")
    else
      h ← load_header self;
      store_header self (set_next_locator_ptr addr h) ;;
      h ← load_header self;
      initialize (next_locator_ptr h) (wrap_usize alloc_size) ;;
      unlock self ;;
      h ← load_header self;
      mret (Ok (next_locator_ptr h))
  else panic "called `Result::unwrap()` on an `Err` value: LayoutError".

End header_ptr.
End HeaderPtr.
