(* ===== verification/HeaderSpec.v ===== *)
(** * What the locator operations guarantee

    The invariant of a chain of locators and what keeps it: changing an item
    or a header, adding an item, growing the chain.  The operations of
    HeaderOps.v are specified with it in HeaderWp.v and HeaderNext.v. *)

From stdpp Require Import sorting.
From S2P Require Import Prelude Mathematics SysInfo Settings Errors Items Headers World ItemOps.
From S2P Require Import Platform HeaderOps.
Import LocatorHeader.

(** ** Chains of locators *)

Inductive chain (hs : gmap Z LocatorHeader) : Z -> list Z -> Prop :=
| chain_last a h :
    hs !! a = Some h -> next_locator_ptr h = 0 -> chain hs a [a]
| chain_cons a h l :
    hs !! a = Some h -> next_locator_ptr h <> 0 -> chain hs (next_locator_ptr h) l ->
    chain hs a (a :: l).

(** The 4096 bytes of a locator. *)
Definition in_block (a x : Z) : Prop := a <= x < a + LENGTH.

(** The slots in use of the locators of [l]. *)
Definition registered `{Target} (hs : gmap Z LocatorHeader) (l : list Z) (p : Z) : Prop :=
  exists a h i, a ∈ l /\ hs !! a = Some h /\ 0 <= i < num_items h /\ p = get_item a i.

(** How many slots the locator at [b] uses. *)
Definition count (hs : gmap Z LocatorHeader) (b : Z) : Z := default 0 (num_items <$> hs !! b).

(** The locators fill up in order: behind one that is not full, all are empty. *)
Definition packed `{Target} (hs : gmap Z LocatorHeader) (l : list Z) : Prop :=
  StronglySorted (fun b c => MAX_ITEM_COUNT <= count hs b \/ count hs c = 0) l.

Lemma count_lookup hs b h : hs !! b = Some h -> count hs b = num_items h.
Proof. unfold count. by intros ->. Qed.

Record header_ok `{Target} (a : Z) (h : LocatorHeader) : Prop := {
  ok_address : 0 < a;
  ok_this : this_address h = a;
  ok_end : a + LENGTH <= usize_max;
  ok_unlocked : is_locked h = 0;
  ok_num_items : 0 <= num_items h <= MAX_ITEM_COUNT
}.

Definition flag (v : Z) : Prop := v = 0 \/ v = 1.

(** Two of the buffers that [initialize] registers in one locator: they start
    at the same byte.  A locator has two of them only when the granularity
    leaves more than one chunk behind it. *)
Definition same_chunk `{Target, SysQuery} (l : list Z) (it jt : LocatorItem) : Prop :=
  cfg_macos_aarch64 = false /\ LENGTH + LENGTH_OF_PREALLOCATED_CHUNKS < granularity /\
  exists b, b ∈ l /\ LocatorItem.base_address it = b + LENGTH /\
    LocatorItem.base_address jt = b + LENGTH.

Lemma same_chunk_mono `{Target, SysQuery} l k it jt :
  same_chunk l it jt -> same_chunk (l ++ k) it jt.
Proof.
  intros (? & ? & b & ? & ? & ?). split; [done|]. split; [done|]. exists b.
  rewrite elem_of_app. auto.
Qed.

Section invariant.
Context `{T : Target} `{Q : SysQuery} {OS : Type} `{P : Platform OS} `{Mem : Memory OS} `{L : !PlatformLaws}.
Implicit Types w : World OS.

(** The locators from [a] on are [l]: well-formed, unlocked, in blocks that do
    not overlap; every registered item is a well-formed buffer of mapped
    memory, outside every locator and disjoint from every other buffer (but
    for the buffers that [initialize] put into one locator). *)
Record inv (a : Z) (l : list Z) w : Prop := {
  inv_os : os_ok (w_os w);
  inv_chain : chain (w_headers w) a l;
  inv_nodup : NoDup l;
  inv_header b h : b ∈ l -> w_headers w !! b = Some h -> header_ok b h;
  inv_block b x : b ∈ l -> in_block b x -> owned (w_os w) x;
  inv_blocks b c : b ∈ l -> c ∈ l -> b <> c -> b + LENGTH <= c \/ c + LENGTH <= b;
  inv_item p : registered (w_headers w) l p ->
    exists it, w_items w !! p = Some it /\ LocatorItem.wf it /\ flag (LocatorItem.is_taken it);
  inv_buffer p it x :
    registered (w_headers w) l p -> w_items w !! p = Some it -> LocatorItem.in_buffer it x ->
    owned (w_os w) x /\ (forall b, b ∈ l -> ~ in_block b x);
  inv_disjoint p q it jt x :
    registered (w_headers w) l p -> registered (w_headers w) l q -> p <> q ->
    w_items w !! p = Some it -> w_items w !! q = Some jt -> ~ same_chunk l it jt ->
    LocatorItem.in_buffer it x -> ~ LocatorItem.in_buffer jt x
}.

Lemma chain_head hs a l : chain hs a l -> exists l', l = a :: l'.
Proof. intros []; eauto. Qed.

Lemma chain_lookup hs a l b : chain hs a l -> b ∈ l -> exists h, hs !! b = Some h.
Proof.
  induction 1 as [a h Ha _|a h l Ha _ _ IH]; rewrite elem_of_cons;
    intros [->|Hin]; eauto. by apply elem_of_nil in Hin.
Qed.

(** One chain starts at a locator. *)
Lemma chain_unique hs b l1 l2 : chain hs b l1 -> chain hs b l2 -> l1 = l2.
Proof.
  intros H1. revert l2. induction H1 as [b h Hb Hz|b h l Hb Hz Hl IH]; intros l2 H2;
    inversion H2; subst; try congruence.
  f_equal. apply IH. by replace h with h0 by congruence.
Qed.

(** Headers that keep their successor keep the chain. *)
Lemma chain_insert hs a l b h h' :
  chain hs a l -> hs !! b = Some h -> next_locator_ptr h' = next_locator_ptr h ->
  chain (<[b := h']> hs) a l.
Proof.
  intros Hc Hb Hn. induction Hc as [a g Ha Hz|a g l Ha Hz Hc IH].
  - destruct (decide (a = b)) as [->|].
    + apply chain_last with h'; [apply lookup_insert_eq|congruence].
    + apply chain_last with g; [by rewrite lookup_insert_ne|done].
  - destruct (decide (a = b)) as [->|].
    + assert (g = h) as -> by congruence. rewrite <- Hn in Hz, IH.
      apply chain_cons with h'; [apply lookup_insert_eq|done|done].
    + apply chain_cons with g; [by rewrite lookup_insert_ne|done|done].
Qed.

Lemma chain_insert_other hs a l b h' :
  chain hs a l -> b ∉ l -> chain (<[b := h']> hs) a l.
Proof.
  induction 1 as [a g Ha Hz|a g l Ha Hz Hc IH]; rewrite not_elem_of_cons; intros [? ?].
  - apply chain_last with g; [by rewrite lookup_insert_ne|done].
  - apply chain_cons with g; [by rewrite lookup_insert_ne|done|by apply IH].
Qed.

(** Two positions on the chain: the rest of it is the chain from the second. *)
Lemma chain_suffix hs a pre b suf : chain hs a (pre ++ b :: suf) -> chain hs b (b :: suf).
Proof.
  revert a. induction pre as [|c pre IH]; intros a Hc; simpl in Hc.
  - by destruct (chain_head _ _ _ Hc) as [? [= <- _]].
  - inversion Hc as [? ? ? ? [Heq ?]|a' h l Ha Hz Hrest]; subst.
    + by destruct pre.
    + eauto.
Qed.

Lemma chain_next hs b suf h :
  chain hs b (b :: suf) -> hs !! b = Some h ->
  (suf = [] /\ next_locator_ptr h = 0) \/
  (next_locator_ptr h <> 0 /\ exists suf', suf = next_locator_ptr h :: suf').
Proof.
  intros Hc Hb. inversion Hc as [? g Hg Hz|? g l Hg Hz Hrest]; subst;
    assert (g = h) as -> by congruence; [by left|].
  right. split; [done|]. by apply chain_head in Hrest.
Qed.

(** Appending a chain of locators to the last one. *)
Lemma chain_append hs hs' a l b h c ks :
  chain hs a (l ++ [b]) -> hs !! b = Some h -> NoDup (l ++ [b]) ->
  (forall d, d ∈ l -> hs' !! d = hs !! d) -> hs' !! b = Some (set_next_locator_ptr c h) ->
  c <> 0 -> chain hs' c ks -> chain hs' a (l ++ b :: ks).
Proof.
  intros Hc Hb Hnd Hold Hb' Hc0 Hks. revert a Hc.
  induction l as [|d l IH]; intros a Hc; simpl in *.
  - destruct (chain_head _ _ _ Hc) as [? [= <- _]]. by apply chain_cons with (set_next_locator_ptr c h).
  - apply list.NoDup_cons in Hnd as [_ Hnd].
    inversion Hc as [? ? ? ? [Heq ?]|a' g l' Hg Hz Hrest]; subst; [by destruct l|].
    apply chain_cons with g; [rewrite Hold; [done|by left]|done|].
    apply IH; [done| |done]. intros e He. apply Hold. by right.
Qed.

Lemma registered_bound a l w b h i :
  inv a l w -> b ∈ l -> w_headers w !! b = Some h -> 0 <= i < num_items h ->
  0 <= i < MAX_ITEM_COUNT.
Proof. intros Hi Hb Hh ?. destruct (inv_header _ _ _ Hi b h Hb Hh). lia. Qed.

(** The slot behind the last registered item of a locator is not registered. *)
Lemma registered_fresh a l w b h n :
  inv a l w -> b ∈ l -> w_headers w !! b = Some h -> num_items h <= n < MAX_ITEM_COUNT ->
  ~ registered (w_headers w) l (get_item b n).
Proof.
  intros Hi Hb Hh Hn (c & g & i & Hc & Hg & Hbnd & Heq).
  pose proof (registered_bound _ _ _ _ _ _ Hi Hc Hg Hbnd).
  destruct (inv_header _ _ _ Hi b h Hb Hh).
  destruct (decide (b = c)) as [->|Hne].
  - apply get_item_inj in Heq. assert (g = h) as -> by congruence. lia.
  - by apply (get_item_other_block b c n i) in Heq; [|by apply (inv_blocks _ _ _ Hi)|lia|lia].
Qed.

(** ** Preservation *)

(** The bytes the chain uses: its locators and the buffers they register. *)
Definition used (l : list Z) w (x : Z) : Prop :=
  (exists b, b ∈ l /\ in_block b x) \/
  (exists p it, registered (w_headers w) l p /\ w_items w !! p = Some it /\ LocatorItem.in_buffer it x).

Lemma used_owned a l w x : inv a l w -> used l w x -> owned (w_os w) x.
Proof.
  intros Hi [(b & Hb & Hx)|(p & it & Hp & Hit & Hx)]; [by eapply inv_block|].
  by eapply inv_buffer.
Qed.

Lemma used_update_item l w p it it' x :
  w_items w !! p = Some it -> LocatorItem.base_address it' = LocatorItem.base_address it ->
  LocatorItem.size it' = LocatorItem.size it ->
  used l (set_items (<[p := it']> (w_items w)) w) x -> used l w x.
Proof.
  intros Hp Hb Hs [?|(q & jt & Hq & Hj & Hx)]; [by left|right]. exists q. simpl in *.
  destruct (decide (p = q)) as [<-|]; [|rewrite lookup_insert_ne in Hj by done; eauto].
  rewrite lookup_insert_eq in Hj. injection Hj as <-. exists it.
  unfold LocatorItem.in_buffer in *. by rewrite <- Hb, <- Hs.
Qed.

(** Changing the position or the lock of an item. *)
Lemma inv_update_item a l w p it it' :
  inv a l w -> w_items w !! p = Some it -> LocatorItem.wf it' ->
  flag (LocatorItem.is_taken it') ->
  LocatorItem.base_address it' = LocatorItem.base_address it ->
  LocatorItem.size it' = LocatorItem.size it ->
  inv a l (set_items (<[p := it']> (w_items w)) w).
Proof.
  intros [] Hp Hwf Hflag Hbase Hsize.
  assert (Hbuf : forall x, LocatorItem.in_buffer it' x <-> LocatorItem.in_buffer it x).
  { intros x. unfold LocatorItem.in_buffer. by rewrite Hbase, Hsize. }
  assert (Hold : forall q jt, <[p := it']> (w_items w) !! q = Some jt ->
    exists kt, w_items w !! q = Some kt /\
      LocatorItem.base_address jt = LocatorItem.base_address kt /\
      forall x, LocatorItem.in_buffer jt x <-> LocatorItem.in_buffer kt x).
  { intros q jt. destruct (decide (p = q)) as [<-|].
    - rewrite lookup_insert_eq. intros [= <-]. eauto.
    - rewrite lookup_insert_ne by done. eauto. }
  constructor; simpl; try done.
  - intros q Hq. destruct (decide (p = q)) as [<-|].
    + exists it'. by rewrite lookup_insert_eq.
    + rewrite lookup_insert_ne by done. by apply inv_item0.
  - intros q jt x Hq (kt & Hk & _ & Heq)%Hold Hx%Heq. by apply (inv_buffer0 q kt x).
  - intros q r jt kt x Hq Hr Hne (jt' & Hj & Hbj & Heqj)%Hold (kt' & Hk & Hbk & Heqk)%Hold Hs Hx%Heqj.
    rewrite Heqk. apply (inv_disjoint0 q r jt' kt' x); try done.
    unfold same_chunk in *. by rewrite <- Hbj, <- Hbk.
Qed.

Lemma inv_set_headers_id a l w hs :
  hs = w_headers w -> inv a l w -> inv a l (set_headers hs w).
Proof. intros -> []. by constructor. Qed.

(** A locator gets one more item, in memory that was not owned before. *)
Lemma inv_push_item a l w b h it os' :
  inv a l w -> b ∈ l -> w_headers w !! b = Some h -> num_items h < MAX_ITEM_COUNT ->
  LocatorItem.wf it -> flag (LocatorItem.is_taken it) ->
  os_ok os' -> (forall x, owned (w_os w) x -> owned os' x) ->
  (forall x, LocatorItem.in_buffer it x -> ~ owned (w_os w) x /\ owned os' x) ->
  inv a l (set_headers (<[b := set_num_items (num_items h + 1) h]> (w_headers w))
    (set_items (<[get_item b (num_items h) := it]> (w_items w)) (set_os os' w))).
Proof.
  intros Hi Hb Hh Hroom Hwf Hflag Hok Hmono Hfresh.
  destruct (inv_header _ _ _ Hi b h Hb Hh) as [? ? ? Hnum].
  pose proof (registered_fresh _ _ _ _ _ (num_items h) Hi Hb Hh ltac:(lia)) as Hnreg.
  set (p := get_item b (num_items h)) in *.
  assert (Hreg : forall q, registered (<[b := set_num_items (num_items h + 1) h]> (w_headers w)) l q ->
    q = p \/ (q <> p /\ registered (w_headers w) l q)).
  { intros q (c & g & i & Hc & Hg & Hbnd & ->). destruct (decide (b = c)) as [<-|Hne].
    - rewrite lookup_insert_eq in Hg. injection Hg as <-. simpl in Hbnd.
      destruct (decide (i = num_items h)) as [->|]; [by left|]. right. split.
      + intros Heq%get_item_inj. done.
      + exists b, h, i. repeat split; auto; lia.
    - rewrite lookup_insert_ne in Hg by done. right.
      assert (registered (w_headers w) l (get_item c i)) by (exists c, g, i; auto).
      split; [congruence | done]. }
  assert (Hblk : forall x c, LocatorItem.in_buffer it x -> c ∈ l -> ~ in_block c x).
  { intros x c Hx Hc Hbx. apply (Hfresh x Hx). by apply (inv_block _ _ _ Hi c). }
  destruct Hi. constructor; simpl.
  - done.
  - by eapply chain_insert.
  - done.
  - intros c g Hc. destruct (decide (b = c)) as [<-|].
    + rewrite lookup_insert_eq. intros [= <-]. constructor; simpl; try done. lia.
    + rewrite lookup_insert_ne by done. by apply inv_header0.
  - eauto.
  - done.
  - intros q [->|[Hne Hq]]%Hreg.
    + exists it. by rewrite lookup_insert_eq.
    + rewrite lookup_insert_ne by done. by apply inv_item0.
  - intros q jt x [->|[Hne Hq]]%Hreg.
    + rewrite lookup_insert_eq. intros [= <-] Hx. split; [by apply Hfresh|]. eauto.
    + rewrite lookup_insert_ne by done. intros Hj Hx.
      destruct (inv_buffer0 q jt x Hq Hj Hx). eauto.
  - intros q r jt kt x [->|[Hq Hqr]]%Hreg [->|[Hr Hrr]]%Hreg Hne; try done.
    + rewrite lookup_insert_eq, lookup_insert_ne by done. intros [= <-] Hk _ Hx Hx'.
      apply (Hfresh x Hx). by apply (inv_buffer0 r kt x).
    + rewrite lookup_insert_eq, lookup_insert_ne by done. intros Hj [= <-] _ Hx Hx'.
      apply (Hfresh x Hx'). by apply (inv_buffer0 q jt x).
    + rewrite !lookup_insert_ne by done. intros Hj Hk. by apply (inv_disjoint0 q r jt kt x).
Qed.

(** ** The part of the invariant that does not speak of the chain *)

Record sound (l : list Z) w : Prop := {
  sound_os : os_ok (w_os w);
  sound_header b h : b ∈ l -> w_headers w !! b = Some h -> header_ok b h;
  sound_block b x : b ∈ l -> in_block b x -> owned (w_os w) x;
  sound_blocks b c : b ∈ l -> c ∈ l -> b <> c -> b + LENGTH <= c \/ c + LENGTH <= b;
  sound_item p : registered (w_headers w) l p ->
    exists it, w_items w !! p = Some it /\ LocatorItem.wf it /\ flag (LocatorItem.is_taken it);
  sound_buffer p it x :
    registered (w_headers w) l p -> w_items w !! p = Some it -> LocatorItem.in_buffer it x ->
    owned (w_os w) x /\ (forall b, b ∈ l -> ~ in_block b x);
  sound_disjoint p q it jt x :
    registered (w_headers w) l p -> registered (w_headers w) l q -> p <> q ->
    w_items w !! p = Some it -> w_items w !! q = Some jt -> ~ same_chunk l it jt ->
    LocatorItem.in_buffer it x -> ~ LocatorItem.in_buffer jt x
}.

Lemma inv_sound a l w : inv a l w -> sound l w.
Proof. by intros []; constructor. Qed.

Lemma sound_inv a l w : sound l w -> chain (w_headers w) a l -> NoDup l -> inv a l w.
Proof. by intros [] ? ?; constructor. Qed.

Lemma registered_nil hs p : ~ registered hs [] p.
Proof. by intros (a & h & i & Ha%elem_of_nil & _). Qed.

Lemma sound_nil w : os_ok (w_os w) -> sound [] w.
Proof.
  intros Hok. constructor; [done|..]; intros;
    match goal with
    | H : _ ∈ [] |- _ => by apply elem_of_nil in H
    | H : registered _ [] _ |- _ => by apply registered_nil in H
    end.
Qed.

(** ** What the operations leave alone

    Every item registered before is registered with the same contents; new
    items are free and unused, their buffers in memory that was not owned
    before. *)
Record evolves (l : list Z) w (l' : list Z) w' : Prop := {
  ev_prefix : exists k, l' = l ++ k;
  ev_bytes : w_bytes w' = w_bytes w;
  ev_static : w_locator_header_address w' = w_locator_header_address w;
  ev_owned x : owned (w_os w) x -> owned (w_os w') x;
  ev_old p : registered (w_headers w) l p ->
    registered (w_headers w') l' p /\ w_items w' !! p = w_items w !! p;
  ev_new p it x : registered (w_headers w') l' p -> ~ registered (w_headers w) l p ->
    w_items w' !! p = Some it -> LocatorItem.in_buffer it x -> ~ owned (w_os w) x;
  ev_used x : used l' w' x -> used l w x \/ ~ owned (w_os w) x;
  ev_free p it : registered (w_headers w') l' p -> ~ registered (w_headers w) l p ->
    w_items w' !! p = Some it -> LocatorItem.is_taken it = 0 /\ LocatorItem.position it = 0
}.

Lemma evolves_refl l w : evolves l w l w.
Proof. constructor; try done; [exists []; by rewrite app_nil_r|by left]. Qed.

Lemma evolves_set_os l w os' :
  (forall x, owned (w_os w) x -> owned os' x) -> evolves l w l (set_os os' w).
Proof. intros Hm. constructor; try done; [exists []; by rewrite app_nil_r|by left]. Qed.

End invariant.
