(* ===== verification/HeaderWp.v ===== *)
(** * Specifications of the locator operations

    Each operation of HeaderOps.v, run on a chain that satisfies [inv], ends
    (no fault, no panic, no endless wait) and keeps the invariant. *)

From S2P Require Import Prelude Mathematics SysInfo Settings Errors Items Headers World ItemOps.
From S2P Require Import Platform HeaderOps HeaderSpec.
Import LocatorHeader.

Section header_wp.
Context `{T : Target} `{Q : SysQuery} {OS : Type} `{Sch : Scheduler OS} `{P : Platform OS}.
Implicit Types w : World OS.

(** ** Locks *)

(** [n] times [sched_yield]. *)
Definition yielded (n : nat) w : World OS := Nat.iter n sched_yield w.

(** The lock waits while others have it, and takes it the first time it is
    free. *)
Lemma header_lock_spec b n h w :
  (forall i, (i < n)%nat -> exists g, w_headers (yielded i w) !! b = Some g /\ is_locked g <> 0) ->
  w_headers (yielded n w) !! b = Some h -> is_locked h = 0 -> Z.of_nat n < 2 ^ Z.of_nat loop_depth ->
  wp (HeaderPtr.lock b) (fun _ w' =>
    w' = set_headers (<[b := set_is_locked 1 h]> (w_headers (yielded n w))) (yielded n w)) w.
Proof.
  intros Hbusy Hb Hfree Hn. apply (wp_spin _ _ _ n); [|eapply wp_header_method; [exact Hb|]|done].
  - intros i Hi. destruct (Hbusy i Hi) as (g & Hg & Hl%Z.eqb_neq).
    eapply wp_header_method; [exact Hg|]. unfold try_lock. rewrite Hl. split; [done|].
    simpl. by rewrite insert_id, set_headers_id.
  - unfold try_lock. by rewrite Hfree.
Qed.

Lemma item_lock_spec p n it w :
  (forall i, (i < n)%nat -> exists jt, w_items (yielded i w) !! p = Some jt /\
     LocatorItem.is_taken jt = 1) ->
  w_items (yielded n w) !! p = Some it -> LocatorItem.is_taken it = 0 ->
  Z.of_nat n < 2 ^ Z.of_nat loop_depth ->
  wp (ItemPtr.lock p) (fun _ w' =>
    w' = set_items (<[p := LocatorItem.set_is_taken 1 it]> (w_items (yielded n w))) (yielded n w)) w.
Proof.
  intros Hbusy Hp Hfree Hn. apply (wp_spin _ _ _ n); [|eapply wp_item_method; [exact Hp|]|done].
  - intros i Hi. destruct (Hbusy i Hi) as (jt & Hj & Hl).
    eapply wp_item_method; [exact Hj|]. unfold LocatorItem.try_lock. simpl. rewrite Hl.
    split; [done|]. rewrite <- Hl, LocatorItem.set_is_taken_id. by rewrite insert_id, set_items_id.
  - simpl. by rewrite Hfree.
Qed.

Lemma set_is_locked_again h : is_locked h = 0 -> set_is_locked 0 (set_is_locked 1 h) = h.
Proof. destruct h; simpl. by intros ->. Qed.

Lemma wp_lock b h (R : unit -> World OS -> Prop) w :
  w_headers w !! b = Some h -> is_locked h = 0 ->
  R tt (set_headers (<[b := set_is_locked 1 h]> (w_headers w)) w) ->
  wp (HeaderPtr.lock b) R w.
Proof.
  intros Hb Hfree HR. unfold HeaderPtr.lock. apply wp_loop_once. wp_step.
  eapply wp_header_method; [done|]. unfold LocatorHeader.try_lock. rewrite Hfree. simpl.
  by wp_step.
Qed.

Lemma wp_unlock b h (R : unit -> World OS -> Prop) w :
  w_headers w !! b = Some h ->
  R tt (set_headers (<[b := set_is_locked 0 h]> (w_headers w)) w) ->
  wp (HeaderPtr.unlock b) R w.
Proof. intros Hb HR. by eapply wp_header_method. Qed.

(** Taking and releasing the lock leaves the memory as it was. *)
Lemma lock_unlock_id b h w :
  w_headers w !! b = Some h -> is_locked h = 0 ->
  set_headers (<[b := set_is_locked 0 (set_is_locked 1 h)]>
    (<[b := set_is_locked 1 h]> (w_headers w))) w = w.
Proof.
  intros Hb Hfree. rewrite set_is_locked_again by done.
  rewrite insert_insert_eq, insert_id by done. apply set_headers_id.
Qed.

End header_wp.

Section header_spec.
Context `{T : Target} `{Q : SysQuery} {OS : Type} `{Sch : Scheduler OS} `{P : Platform OS}
  `{Mem : Memory OS} `{L : !PlatformLaws}.
Implicit Types w : World OS.

(** ** [get_first_available_item_locked] *)

(** No item of the locator at [b] is both free and usable. *)
Definition none_available (b n lo hi : Z) w : Prop :=
  forall h i it, w_headers w !! b = Some h -> 0 <= i < num_items h ->
    w_items w !! get_item b i = Some it -> LocatorItem.provides it n lo hi ->
    LocatorItem.is_taken it = 1.

(** The item is locked in place and nothing else changes. *)
Definition took_item (l : list Z) (n lo hi : Z) w (s : SafeLocatorItem) w' : Prop :=
  exists it, registered (w_headers w) l (SafeLocatorItem.item s) /\
    w_items w !! SafeLocatorItem.item s = Some it /\
    LocatorItem.is_taken it = 0 /\ LocatorItem.provides it n lo hi /\
    w' = set_items (<[SafeLocatorItem.item s := LocatorItem.set_is_taken 1 it]> (w_items w)) w.

(** *** One locator, whatever else there is *)

(** The slots in use hold well-formed items. *)
Record table_ok (b : Z) (h : LocatorHeader) w : Prop := {
  tb_header : w_headers w !! b = Some h;
  tb_count : 0 <= num_items h <= MAX_ITEM_COUNT;
  tb_item i : 0 <= i < num_items h -> exists it, w_items w !! get_item b i = Some it /\
    LocatorItem.wf it /\ flag (LocatorItem.is_taken it)
}.

(** The suitable items before slot [i] are taken. *)
Definition taken_before (b i n lo hi : Z) w : Prop := forall j it, 0 <= j < i ->
  w_items w !! get_item b j = Some it -> LocatorItem.provides it n lo hi ->
  LocatorItem.is_taken it = 1.

Lemma taken_before_next b i n lo hi w it :
  taken_before b i n lo hi w -> w_items w !! get_item b i = Some it ->
  (LocatorItem.provides it n lo hi -> LocatorItem.is_taken it = 1) ->
  taken_before b (i + 1) n lo hi w.
Proof.
  intros Hprev Hit Hlast j jt Hj Hjt Hp. destruct (decide (j = i)) as [->|].
  - assert (jt = it) as -> by congruence. by apply Hlast.
  - by apply (Hprev j jt); [lia|..].
Qed.

(** The item in slot [i] is the first free one that suits. *)
Record first_free (b : Z) (h : LocatorHeader) (n lo hi i : Z) (it : LocatorItem) w : Prop := {
  ff_index : 0 <= i < num_items h;
  ff_item : w_items w !! get_item b i = Some it;
  ff_free : LocatorItem.is_taken it = 0;
  ff_suits : LocatorItem.provides it n lo hi;
  ff_first : taken_before b i n lo hi w
}.

Lemma scan_spec b h w n lo hi :
  table_ok b h w ->
  wp (HeaderPtr.get_first_available_item_locked b n lo hi) (fun r w' =>
    match r with
    | Some s => exists i it, SafeLocatorItem.item s = get_item b i /\
        first_free b h n lo hi i it w /\
        w' = set_items (<[get_item b i := LocatorItem.set_is_taken 1 it]> (w_items w)) w
    | None => w' = w /\ taken_before b (num_items h) n lo hi w
    end) w.
Proof.
  intros [Hh Hnum Htab]. unfold HeaderPtr.get_first_available_item_locked. wp_step.
  eapply wp_load_header; [done|].
  apply (wp_loop _ (fun m cur w' => w' = w /\ exists i, m = num_items h - i /\
    0 <= i <= num_items h /\ cur = get_item b i /\ taken_before b i n lo hi w))
    with (n := num_items h).
  - intros m cur w' (-> & i & -> & Hbnd & -> & Hprev) _.
    change (get_first_item b + num_items h * LocatorItem.size_of_LocatorItem)
      with (get_item b (num_items h)).
    destruct (Z.ltb_spec (get_item b i) (get_item b (num_items h))) as [Hlt|Hge].
    2: { wp_step. split; [done|]. assert (i = num_items h) as <-; [|done].
         destruct (Z.lt_ge_cases i (num_items h)) as [Hlt|]; [|lia].
         pose proof (get_item_step b i (num_items h) Hlt). pose proof size_of_item_pos. lia. }
    assert (i < num_items h) by (destruct (decide (i = num_items h)) as [->|]; lia).
    destruct (Htab i) as (it & Hit & Hwf & Hflag); [lia|].
    wp_step. eapply wp_load_item; [done|].
    assert (Hgo : (LocatorItem.provides it n lo hi -> LocatorItem.is_taken it = 1) ->
      exists m', 0 <= m' < num_items h - i /\ w = w /\ exists i', m' = num_items h - i' /\
        0 <= i' <= num_items h /\
        get_item b i + LocatorItem.size_of_LocatorItem = get_item b i' /\
        taken_before b i' n lo hi w).
    { intros Hlast. exists (num_items h - (i + 1)). split; [lia|]. split; [done|]. exists (i + 1).
      split; [done|]. split; [lia|]. split; [unfold get_item; lia|]. by eapply taken_before_next. }
    destruct (LocatorItem.can_use it n lo hi) eqn:Hcan.
    + apply LocatorItem.can_use_provides in Hcan; [|done].
      wp_step. eapply wp_item_method; [done|]. cbn [LocatorItem.try_lock fst snd].
      destruct (Z.eqb_spec (LocatorItem.is_taken it) 0) as [Hz|Hnz].
      * wp_step. exists i, it. split; [done|]. split; [|done]. constructor; [lia|done..].
      * assert (Htk : LocatorItem.is_taken it = 1) by (destruct Hflag; [done|done]).
        replace (LocatorItem.set_is_taken 1 it) with it by (destruct it; simpl in *; by subst).
        rewrite insert_id, set_items_id by done. wp_step. by apply Hgo.
    + wp_step. wp_step. wp_step. apply Hgo. intros Hp.
      apply LocatorItem.can_use_provides in Hp; [congruence|done].
  - split; [done|]. exists 0. split; [lia|]. split; [lia|].
    split; [unfold get_item; lia|]. intros j it Hj. lia.
  - pose proof MAX_ITEM_COUNT_range. change (2 ^ Z.of_nat loop_depth) with 73786976294838206464.
    lia.
Qed.

(** The slot that a scan takes. *)
Lemma scan_takes b h w n lo hi i it :
  table_ok b h w -> first_free b h n lo hi i it w ->
  wp (HeaderPtr.get_first_available_item_locked b n lo hi) (fun r w' =>
    r = Some {| SafeLocatorItem.item := get_item b i |} /\
    w' = set_items (<[get_item b i := LocatorItem.set_is_taken 1 it]> (w_items w)) w) w.
Proof.
  intros Ht [Hi Hit Hfree Hsuit Hfirst]. eapply wp_mono; [by apply scan_spec|].
  intros [[p]|] w'; simpl.
  - intros (j & jt & -> & [Hj Hjt Hjf Hjs Hjfirst] & ->).
    assert (j = i) as ->; [|assert (jt = it) as -> by congruence; done].
    destruct (Z.lt_trichotomy j i) as [Hlt|[->|Hlt]]; [exfalso|done|exfalso].
    + specialize (Hfirst j jt). rewrite Hfirst in Hjf; [done|lia|done|done].
    + specialize (Hjfirst i it). rewrite Hjfirst in Hfree; [done|lia|done|done].
  - intros [_ Hnone]. specialize (Hnone i it). rewrite Hnone in Hfree; done.
Qed.

Lemma table_take b h w i it :
  table_ok b h w -> w_items w !! get_item b i = Some it -> LocatorItem.wf it ->
  table_ok b h (set_items (<[get_item b i := LocatorItem.set_is_taken 1 it]> (w_items w)) w).
Proof.
  intros [Hh Hn Htab] Hit Hwf. constructor; [done|done|]. intros j Hj. simpl.
  destruct (decide (get_item b i = get_item b j)) as [<-|Hne].
  - rewrite lookup_insert_eq. eexists. split; [done|].
    split; [by apply LocatorItem.set_is_taken_wf|by right].
  - rewrite lookup_insert_ne by done. by apply Htab.
Qed.

Lemma inv_table a l w b h : inv a l w -> b ∈ l -> w_headers w !! b = Some h -> table_ok b h w.
Proof.
  intros Hi Hb Hh. destruct (inv_header _ _ _ Hi b h Hb Hh). constructor; [done|done|].
  intros i Hn. apply (inv_item _ _ _ Hi). exists b, h, i. auto.
Qed.

Lemma get_first_available_item_locked_spec a l w b n lo hi :
  inv a l w -> b ∈ l ->
  wp (HeaderPtr.get_first_available_item_locked b n lo hi) (fun r w' =>
    match r with
    | Some s => took_item l n lo hi w s w'
    | None => w' = w /\ none_available b n lo hi w
    end) w.
Proof.
  intros Hi Hb. destruct (chain_lookup _ _ _ b (inv_chain _ _ _ Hi) Hb) as [h Hh].
  eapply wp_mono; [by eapply scan_spec, inv_table|]. intros [s|] w'.
  - intros (i & it & Hs & [? ? ? ? _] & ->). exists it. rewrite Hs.
    split; [by exists b, h, i|]. done.
  - intros [-> Hnone]. split; [done|]. intros h' i it Hh' Hin Hit.
    assert (h' = h) as -> by congruence. by apply (Hnone i it).
Qed.

Lemma took_item_inv a l n lo hi w s w' :
  inv a l w -> took_item l n lo hi w s w' -> inv a l w'.
Proof.
  intros Hi (it & Hreg & Hit & Hfree & Hp & ->).
  destruct (inv_item _ _ _ Hi _ Hreg) as (it' & Hit' & Hwf & _).
  assert (it' = it) as -> by congruence.
  eapply inv_update_item; eauto with machine. by right.
Qed.

(** ** [try_allocate_item] *)

(** A new item is registered behind the others of the locator: locked, in
    memory that nobody owned, and large enough. *)
Definition allocated_item (b n lo hi : Z) w (s : SafeLocatorItem) w' : Prop :=
  exists h it os', w_headers w !! b = Some h /\ is_full h = false /\
    SafeLocatorItem.item s = get_item b (num_items h) /\
    LocatorItem.wf it /\ LocatorItem.is_taken it = 1 /\ LocatorItem.position it = 0 /\
    LocatorItem.provides it n lo hi /\
    (forall x, LocatorItem.in_buffer it x -> ~ owned (w_os w) x /\ owned os' x) /\
    os_ok os' /\ (forall x, owned (w_os w) x -> owned os' x) /\
    w' = set_headers (<[b := set_num_items (num_items h + 1) h]> (w_headers w))
      (set_items (<[SafeLocatorItem.item s := it]> (w_items w)) (set_os os' w)).

Lemma placed_provides `{HQ : !SysQueryOk} s it n lo hi :
  BufferAllocatorSettings.wf s -> BufferAllocatorSettings.size s = n ->
  BufferAllocatorSettings.min_address s = lo -> BufferAllocatorSettings.max_address s = hi ->
  n + granularity <= u32_max ->
  placed (BufferAllocatorSettings.sanitize s) it -> LocatorItem.provides it n lo hi.
Proof.
  intros Hwf <- <- <- Hn [].
  destruct (BufferAllocatorSettings.sanitize_size_covers s Hwf Hn) as [[? _] _].
  rewrite BufferAllocatorSettings.sanitize_max in *.
  assert (BufferAllocatorSettings.min_address s <=
    BufferAllocatorSettings.min_address (BufferAllocatorSettings.sanitize s)).
  { rewrite BufferAllocatorSettings.sanitize_min. destruct cfg_windows; lia. }
  constructor; lia.
Qed.

(** The settings of the allocation for a new item, and that it failed. *)
Definition item_request (n lo hi : Z) : BufferAllocatorSettings :=
  BufferAllocatorSettings.set_size n
    (BufferAllocatorSettings.set_max_address hi
      (BufferAllocatorSettings.set_min_address lo BufferAllocatorSettings.new)).
Definition refused (n lo hi : Z) (os : OS) : Prop :=
  exists s e os', allocate (item_request n lo hi) os = Done (s, Err e) os'.

Lemma item_request_wf `{HQ : !SysQueryOk} n lo hi :
  0 <= n -> n + granularity <= u32_max -> is_usize lo -> is_usize hi ->
  BufferAllocatorSettings.wf (item_request n lo hi).
Proof.
  intros. pose proof granularity_range. constructor; simpl; [done|done|]. unfold is_u32. lia.
Qed.

Lemma try_allocate_item_spec `{HQ : !SysQueryOk} a l w b n lo hi :
  inv a l w -> b ∈ l -> 0 <= n -> n + granularity <= u32_max -> is_usize lo -> is_usize hi ->
  wp (HeaderPtr.try_allocate_item b n lo hi) (fun r w' =>
    match r with
    | Ok s => allocated_item b n lo hi w s w'
    | Err ItemAllocationError.NoSpaceInHeader =>
        w' = w /\ exists h, w_headers w !! b = Some h /\ is_full h = true
    | Err ItemAllocationError.CannotAllocateMemory =>
        ((exists h, w_headers w !! b = Some h /\ is_full h = false) /\
         refused n lo hi (w_os w)) /\
        exists os', w' = set_os os' w /\ os_ok os' /\
          (forall x, owned (w_os w) x -> owned os' x)
    end) w.
Proof.
  intros Hi Hb Hn0 Hn Hlo Hhi.
  destruct (chain_lookup _ _ _ b (inv_chain _ _ _ Hi) Hb) as [h Hh].
  destruct (inv_header _ _ _ Hi b h Hb Hh) as [? _ ? Hfree Hnum].
  unfold HeaderPtr.try_allocate_item. wp_step. eapply wp_load_header; [done|].
  destruct (is_full h) eqn:Hfull; [wp_step; eauto|].
  wp_step. eapply wp_lock; [done..|]. wp_step.
  eapply wp_load_header; [apply lookup_insert_eq|].
  change (is_full (set_is_locked 1 h)) with (is_full h). rewrite Hfull.
  pose proof (item_request_wf n lo hi Hn0 Hn Hlo Hhi) as Hs0. fold (item_request n lo hi).
  set (s0 := item_request n lo hi) in *. wp_step. apply wp_lift_os.
  eapply wp_mono; [apply wp_ran, allocate_spec; [apply (inv_os _ _ _ Hi)|done|done|apply reachable_self]|].
  intros [s' r] os' (Eall & Hok & Hmono & Heq & Hr). simpl in Eall, Heq, Hr. subst s'.
  destruct r as [it|e].
  - destruct Hr as (Hpl & Hwf & Hfresh).
    pose proof (placed_provides s0 it n lo hi Hs0 eq_refl eq_refl eq_refl Hn Hpl) as Hprov.
    unfold LocatorItem.try_lock. rewrite (placed_free _ _ Hpl). cbn [Z.eqb].
    wp_step. eapply wp_load_header; [apply lookup_insert_eq|].
    wp_step. apply wp_store_item. wp_step. apply wp_store_header. wp_step.
    eapply wp_unlock; [apply lookup_insert_eq|]. wp_step.
    assert (num_items h < MAX_ITEM_COUNT).
    { unfold is_full in Hfull. rewrite Z.geb_leb in Hfull. bool_props. lia. }
    exists h, (LocatorItem.set_is_taken 1 it), os'. split; [done|]. split; [done|]. split; [done|].
    split; [by apply LocatorItem.set_is_taken_wf|]. split; [done|].
    split; [by destruct Hpl|]. split; [by apply LocatorItem.set_is_taken_provides|].
    split; [done|]. split; [done|]. split; [done|].
    simpl. rewrite !insert_insert_eq. pose proof MAX_ITEM_COUNT_range.
    rewrite add_u8_small by lia. unfold set_headers, set_items, set_os. simpl.
    do 2 f_equal. destruct h; simpl in *. by subst.
  - wp_step. eapply wp_unlock; [apply lookup_insert_eq|]. wp_step.
    split; [split; [eauto|by eexists _, e, os']|]. exists os'. split; [|done].
    change (set_headers _ (set_os os' _)) with
      (set_os os' (set_headers (<[b:=set_is_locked 0 (set_is_locked 1 h)]>
         (<[b:=set_is_locked 1 h]> (w_headers w))) w)).
    by rewrite lock_unlock_id.
Qed.

Lemma allocated_item_inv a l b n lo hi w s w' :
  inv a l w -> b ∈ l -> allocated_item b n lo hi w s w' -> inv a l w'.
Proof.
  intros Hi Hb (h & it & os' & Hh & Hfull & -> & ? & Htk & _ & _ & ? & ? & ? & ->).
  apply inv_push_item; try done; [|by right].
  unfold is_full in Hfull. rewrite Z.geb_leb in Hfull. bool_props. lia.
Qed.

Lemma set_os_inv a l w os' :
  inv a l w -> os_ok os' -> (forall x, owned (w_os w) x -> owned os' x) ->
  inv a l (set_os os' w).
Proof.
  intros Hi Hok Hmono. constructor; simpl; try apply Hi; try done.
  - intros b x Hb Hx. apply Hmono. by apply (inv_block _ _ _ Hi b).
  - intros p it x Hp Hit Hx. destruct (inv_buffer _ _ _ Hi p it x Hp Hit Hx). eauto.
Qed.

End header_spec.
