(* ===== verification/HeaderInit.v ===== *)
(** * What [initialize] writes

    A block of memory becomes a locator with preallocated buffers behind it,
    or, on Apple silicon, a row of locators. *)

From S2P Require Import Prelude Mathematics SysInfo Settings Errors Items Headers World ItemOps.
From S2P Require Import Platform HeaderOps HeaderSpec.
Import LocatorHeader.

(** ** [initialize], space used as buffers *)

Section initialize.
Context `{T : Target} {OS : Type}.
Implicit Types w : World OS.

(** The number of items for [rem] bytes behind the locator at [c], and the
    item in slot [i]. *)
Definition prealloc_count (rem : Z) : Z :=
  (rem + (LENGTH_OF_PREALLOCATED_CHUNKS - 1)) / LENGTH_OF_PREALLOCATED_CHUNKS.
Definition prealloc_item (c rem i : Z) : LocatorItem :=
  LocatorItem.new (c + LENGTH)
    (Z.min LENGTH_OF_PREALLOCATED_CHUNKS (rem - LENGTH_OF_PREALLOCATED_CHUNKS * i)).

(** [its'] is [its] with the first [k] slots of [c] preallocated. *)
Definition preallocated (c rem k : Z) (its its' : gmap Z LocatorItem) : Prop :=
  (forall i, 0 <= i < k -> its' !! get_item c i = Some (prealloc_item c rem i)) /\
  (forall p, (forall i, 0 <= i < k -> p <> get_item c i) -> its' !! p = its !! p).

Lemma preallocated_nil c rem its : preallocated c rem 0 its its.
Proof. split; [lia|done]. Qed.

Lemma preallocated_snoc c rem k its its' :
  0 <= k -> preallocated c rem k its its' ->
  preallocated c rem (k + 1) its (<[get_item c k := prealloc_item c rem k]> its').
Proof.
  intros Hk [Hin Hout]. split.
  - intros i Hi. destruct (decide (i = k)) as [->|]; [apply lookup_insert_eq|].
    rewrite lookup_insert_ne; [apply Hin; lia|]. intros Heq%get_item_inj. done.
  - intros p Hp. rewrite lookup_insert_ne by (intros Heq; apply (Hp k); [lia|done]).
    apply Hout. intros i Hi. apply Hp. lia.
Qed.

(** The header [initialize] leaves at [c]. *)
Definition initialized (c k : Z) (h : LocatorHeader) : LocatorHeader :=
  set_num_items k (LocatorHeader.set_default_values c h).

Lemma prealloc_count_bounds rem :
  0 <= rem ->
  0 <= prealloc_count rem /\ rem <= 16384 * prealloc_count rem < rem + 16384.
Proof.
  intros. unfold prealloc_count, LENGTH_OF_PREALLOCATED_CHUNKS.
  pose proof (Z.div_mod (rem + (16384 - 1)) 16384 ltac:(lia)).
  mod_bound (rem + (16384 - 1)) 16384. lia.
Qed.

Lemma initialize_buffers_spec c rem h w :
  0 <= rem <= 255 * LENGTH_OF_PREALLOCATED_CHUNKS -> w_headers w !! c = Some h ->
  this_address h = c -> num_items h = 0 ->
  wp (HeaderPtr.initialize_remaining_space_as_buffers c rem) (fun _ w' => exists its',
    preallocated c rem (prealloc_count rem) (w_items w) its' /\
    w' = set_headers (<[c := set_num_items (prealloc_count rem) h]> (w_headers w))
           (set_items its' w)) w.
Proof.
  intros Hrem Hc Hthis Hnum. unfold LENGTH_OF_PREALLOCATED_CHUNKS in Hrem.
  destruct (prealloc_count_bounds rem ltac:(lia)) as [Hk0 Hk].
  unfold HeaderPtr.initialize_remaining_space_as_buffers. wp_step.
  eapply wp_load_header; [done|]. wp_step. rewrite Hthis.
  apply (wp_loop _ (fun m '(cur, rem', n) w' => exists its i,
    m = prealloc_count rem - i /\ 0 <= i <= prealloc_count rem /\ cur = get_item c i /\
    rem' = Z.max 0 (rem - 16384 * i) /\ n = i /\
    preallocated c rem i (w_items w) its /\ w' = set_items its w))
    with (n := prealloc_count rem).
  - intros m [[cur rem'] n] w' (its & i & -> & Hi & -> & -> & -> & Hpre & ->) _.
    rewrite Z.gtb_ltb. destruct (Z.ltb_spec 0 (Z.max 0 (rem - 16384 * i))) as [Hpos|Hz].
    + assert (i < prealloc_count rem) by nia.
      replace (Z.max 0 (rem - 16384 * i)) with (rem - 16384 * i) in * by lia.
      wp_step. apply wp_store_item. wp_step.
      exists (prealloc_count rem - (i + 1)). split; [lia|].
      exists (<[get_item c i := prealloc_item c rem i]> its), (i + 1).
      split; [done|]. split; [lia|]. split; [unfold get_item; lia|]. split.
      { unfold LENGTH_OF_PREALLOCATED_CHUNKS.
        rewrite sub_u32_small by (unfold u32_max, u32_modulus; lia). lia. }
      split; [apply add_u8_small; lia|].
      split; [apply preallocated_snoc; [lia|done]|]. done.
    + wp_step. assert (i = prealloc_count rem) as -> by lia.
      wp_step. eapply wp_load_header; [done|]. apply wp_store_header. eauto.
  - exists (w_items w), 0. split; [lia|]. split; [lia|].
    split; [unfold get_item; lia|]. split; [lia|]. split; [done|].
    split; [apply preallocated_nil|]. by rewrite set_items_id.
  - change (2 ^ Z.of_nat loop_depth) with 73786976294838206464. lia.
Qed.

Lemma initialize_spec c len w :
  cfg_macos_aarch64 = false -> c <> 0 ->
  LENGTH <= len <= LENGTH + 255 * LENGTH_OF_PREALLOCATED_CHUNKS ->
  wp (HeaderPtr.initialize c len) (fun _ w' => exists its',
    let k := prealloc_count (len - LENGTH) in
    preallocated c (len - LENGTH) k (w_items w) its' /\
    w' = set_headers (<[c := initialized c k (default LocatorHeader.new (w_headers w !! c))]>
           (w_headers w)) (set_items its' w)) w.
Proof.
  intros Hmac Hc Hlen. unfold LENGTH, LENGTH_OF_PREALLOCATED_CHUNKS in Hlen.
  assert (u32_max <= usize_max) by
    (apply (u32_le_usize u32_max); unfold is_u32, u32_max, u32_modulus; lia).
  assert (Hu : u32_max = 4294967295) by done.
  unfold HeaderPtr.initialize, HeaderPtr.set_default_values. wp_step. wp_step.
  eapply (wp_intro _ _ _ (default LocatorHeader.new (w_headers w !! c)) w).
  { unfold HeaderPtr.load_raw_header. by destruct (Z.eqb_spec c 0). }
  apply wp_store_header. rewrite Hmac.
  unfold LENGTH. rewrite sub_usize_small by lia.
  rewrite as_u32_small by (unfold is_u32; lia).
  eapply wp_mono; [eapply initialize_buffers_spec|].
  - unfold LENGTH_OF_PREALLOCATED_CHUNKS. lia.
  - apply lookup_insert_eq.
  - done.
  - done.
  - intros [] w' (its' & Hpre & ->). exists its'. split; [done|]. simpl.
    by rewrite insert_insert_eq.
Qed.

(** ** [initialize], space used as headers *)

(** The address of locator [i] of the block at [c], and the header it has when
    the block holds [n] locators, the first of them with [k] items. *)
Definition block_locator (c i : Z) : Z := c + i * LENGTH.

Record fresh_header (c n k i : Z) (h : LocatorHeader) : Prop := {
  fh_this : this_address h = block_locator c i;
  fh_next : next_locator_ptr h = if i + 1 <? n then block_locator c (i + 1) else 0;
  fh_unlocked : is_locked h = 0;
  fh_flags : flags h = 0;
  fh_items : num_items h = k
}.

(** [hs'] is [hs] with the [n] locators of the block at [c]. *)
Record row (c n k : Z) (hs hs' : gmap Z LocatorHeader) : Prop := {
  row_in i : 0 <= i < n -> exists h, hs' !! block_locator c i = Some h /\ fresh_header c n k i h;
  row_out b : (forall i, 0 <= i < n -> b <> block_locator c i) -> hs' !! b = hs !! b
}.

Lemma block_locator_inj c i j : block_locator c i = block_locator c j -> i = j.
Proof. unfold block_locator, LENGTH. lia. Qed.

Lemma row_one c k hs h :
  this_address h = c -> next_locator_ptr h = 0 -> is_locked h = 0 -> flags h = 0 ->
  num_items h = k -> row c 1 k hs (<[c := h]> hs).
Proof.
  intros Ht Hn Hl Hf Hk. assert (Hc : block_locator c 0 = c) by (unfold block_locator; lia).
  constructor.
  - intros i Hi. assert (i = 0) as -> by lia. exists h. rewrite Hc, lookup_insert_eq.
    split; [done|]. by constructor; rewrite ?Hc.
  - intros b Hb. rewrite lookup_insert_ne; [done|]. rewrite <- Hc. intros Heq. by apply (Hb 0).
Qed.

(** One more locator: the last one so far gets a successor. *)
Lemma row_snoc c i k hs hs1 h hn :
  0 <= i -> row c (i + 1) k hs hs1 -> hs1 !! block_locator c i = Some h ->
  fresh_header c (i + 1 + 1) k (i + 1) hn ->
  row c (i + 1 + 1) k hs (<[block_locator c i := set_next_locator_ptr (block_locator c (i + 1)) h]>
    (<[block_locator c (i + 1) := hn]> hs1)).
Proof.
  intros Hn [Hin Hout] Hh Hhn. constructor.
  - intros j Hj. destruct (decide (j = i + 1)) as [->|Hne].
    { exists hn. rewrite lookup_insert_ne by (intros ?%block_locator_inj; lia).
      by rewrite lookup_insert_eq. }
    destruct (Hin j) as (g & Hg & [Ht Hx Hl Hf Hk]); [lia|].
    destruct (decide (j = i)) as [->|Hne'].
    + assert (g = h) as -> by congruence. eexists. rewrite lookup_insert_eq. split; [done|].
      constructor; simpl; try done. by destruct (Z.ltb_spec (i + 1) (i + 1 + 1)); [|lia].
    + exists g. rewrite !lookup_insert_ne by (intros ?%block_locator_inj; lia).
      split; [done|]. constructor; try done. rewrite Hx.
      by destruct (Z.ltb_spec (j + 1) (i + 1)), (Z.ltb_spec (j + 1) (i + 1 + 1)); try lia.
  - intros b Hb. rewrite !lookup_insert_ne; [|intros <-; apply (Hb (i + 1)); [lia|done]
      |intros <-; apply (Hb i); [lia|done]].
    apply Hout. intros j Hj. apply Hb. lia.
Qed.

Lemma initialize_headers_spec c rem hs w :
  0 < c -> 0 <= rem <= u32_max -> row c 1 0 hs (w_headers w) ->
  wp (HeaderPtr.initialize_remaining_space_as_headers c rem) (fun _ w' => exists hs',
    row c (rem / LENGTH + 1) 0 hs hs' /\ w' = set_headers hs' w) w.
Proof.
  intros Hc Hrem Hrow. unfold HeaderPtr.initialize_remaining_space_as_headers.
  assert (Hu : u32_max = 4294967295) by done. assert (HL : LENGTH = 4096) by done.
  apply (wp_loop _ (fun m (x : Z * Z) w' => let (cur, rem') := x in exists hs' i,
    m = rem' /\ 0 <= i /\ rem' = rem - i * LENGTH /\ 0 <= rem' /\ cur = block_locator c i /\
    row c (i + 1) 0 hs hs' /\ w' = set_headers hs' w)) with (n := rem).
  - intros m [cur rem'] w' (hs' & i & -> & Hi & -> & Hpos & -> & Hr & ->) _.
    rewrite Z.geb_leb. destruct (Z.leb_spec LENGTH (rem - i * LENGTH)) as [Hgo|Hstop].
    2: { wp_step. exists hs'. split; [|done].
         replace (rem / LENGTH) with i; [done|]. rewrite HL in *.
         apply Z.div_unique with (rem - i * 4096); lia. }
    destruct (row_in _ _ _ _ _ Hr i) as (h & Hh & _); [lia|].
    assert (Hnext : block_locator c i + LENGTH = block_locator c (i + 1)).
    { unfold block_locator. lia. }
    rewrite Hnext. wp_step. unfold HeaderPtr.set_default_values. wp_step.
    eapply (wp_intro _ _ _ (default LocatorHeader.new (hs' !! block_locator c (i + 1)))).
    { unfold HeaderPtr.load_raw_header. destruct (Z.eqb_spec (block_locator c (i + 1)) 0); [|done].
      unfold block_locator in *. lia. }
    apply wp_store_header. wp_step. eapply wp_load_header.
    { simpl. rewrite lookup_insert_ne by (intros ?%block_locator_inj; lia). exact Hh. }
    wp_step. apply wp_store_header. wp_step. rewrite sub_u32_small by lia.
    exists (rem - i * LENGTH - LENGTH). split; [lia|].
    eexists _, (i + 1). split; [done|]. split; [lia|]. split; [lia|]. split; [lia|].
    split; [done|]. split; [|reflexivity]. simpl.
    apply row_snoc; [lia|done|done|].
    constructor; simpl; try done. by rewrite Z.ltb_irrefl.
  - exists (w_headers w), 0. split; [done|]. split; [lia|]. split; [lia|]. split; [lia|].
    split; [unfold block_locator; lia|]. split; [done|]. by rewrite set_headers_id.
  - change (2 ^ Z.of_nat loop_depth) with 73786976294838206464. lia.
Qed.

(** ** Both layouts

    How many locators and how many items of the first a block of [len] bytes
    has. *)

Definition block_count (len : Z) : Z := if cfg_macos_aarch64 then len / LENGTH else 1.
Definition item_count (len : Z) : Z :=
  if cfg_macos_aarch64 then 0 else prealloc_count (len - LENGTH).
Definition block_locators (c len : Z) : list Z := block_locator c <$> seqZ 0 (block_count len).

Lemma initialize_block_spec c len w :
  0 < c -> LENGTH <= len <= u32_max ->
  (cfg_macos_aarch64 = false -> len <= LENGTH + 255 * LENGTH_OF_PREALLOCATED_CHUNKS) ->
  wp (HeaderPtr.initialize c len) (fun _ w' => exists hs' its',
    row c (block_count len) (item_count len) (w_headers w) hs' /\
    preallocated c (len - LENGTH) (item_count len) (w_items w) its' /\
    w' = set_headers hs' (set_items its' w)) w.
Proof.
  intros Hc Hlen Hbuf. unfold block_count, item_count. destruct cfg_macos_aarch64 eqn:Hmac.
  2: { eapply wp_mono; [apply initialize_spec; [done|lia|split; [lia|by apply Hbuf]]|].
       intros [] w' (its' & Hpre & ->). eexists _, its'. split; [|done]. by apply row_one. }
  assert (Hu : u32_max <= usize_max) by
    (apply (u32_le_usize u32_max); unfold is_u32, u32_max, u32_modulus; lia).
  unfold HeaderPtr.initialize, HeaderPtr.set_default_values. wp_step. wp_step.
  eapply (wp_intro _ _ _ (default LocatorHeader.new (w_headers w !! c)) w).
  { unfold HeaderPtr.load_raw_header. by destruct (Z.eqb_spec c 0); [lia|]. }
  apply wp_store_header. rewrite Hmac. unfold LENGTH in *. rewrite sub_usize_small by lia.
  rewrite as_u32_small by (unfold is_u32; lia).
  eapply wp_mono; [eapply (initialize_headers_spec c (len - 4096) (w_headers w))|].
  - done.
  - lia.
  - simpl. by apply row_one.
  - intros [] w' (hs' & Hr & ->). exists hs', (w_items w).
    split; [|split; [apply preallocated_nil|by rewrite set_items_id]].
    unfold LENGTH in Hr. replace (len / 4096) with ((len - 4096) / 4096 + 1); [done|].
    rewrite <- Z.div_add by lia. f_equal. lia.
Qed.

End initialize.
