(* ===== verification/HeaderNext.v ===== *)
(** * Growing the chain

    [get_next_locator] and the memory of fresh locators. *)

From stdpp Require Import sorting.
From S2P Require Import Prelude Mathematics SysInfo Settings Errors Items Headers World ItemOps.
From S2P Require Import Platform HeaderOps HeaderSpec HeaderWp HeaderInit.
Import LocatorHeader.

Section next.
Context `{T : Target} `{Q : SysQuery} {OS : Type} `{Sch : Scheduler OS} `{P : Platform OS}
  `{Mem : Memory OS} `{L : !PlatformLaws}.
Implicit Types w : World OS.

(** *** A fresh block

    [c] is the address of one granule that nobody owned; it becomes the
    locators [block_locators c granularity]. *)

(** The table of a locator holds the preallocated buffers of a granule and
    one more: granules up to 2 MiB. *)
Definition granule_fits : Prop :=
  cfg_macos_aarch64 = false -> prealloc_count (granularity - LENGTH) < MAX_ITEM_COUNT.

Definition with_block (hs' : gmap Z LocatorHeader) (its' : gmap Z LocatorItem) (os' : OS) w
    : World OS :=
  set_headers hs' (set_items its' (set_os os' w)).

Record fresh_block (c : Z) (hs' : gmap Z LocatorHeader) (its' : gmap Z LocatorItem) (os' : OS) w
    : Prop := {
  fb_pos : 0 < c;
  fb_end : c + granularity <= usize_max;
  fb_fresh x : c <= x < c + granularity -> ~ owned (w_os w) x /\ owned os' x;
  fb_ok : os_ok os';
  fb_mono x : owned (w_os w) x -> owned os' x;
  fb_headers : row c (block_count granularity) (item_count granularity) (w_headers w) hs';
  fb_items : preallocated c (granularity - LENGTH) (item_count granularity) (w_items w) its'
}.

Lemma granularity_length `{HQ : !SysQueryOk} : LENGTH <= granularity.
Proof.
  destruct granularity_divide as [q Hq]. pose proof granularity_range. unfold LENGTH. lia.
Qed.

Lemma elem_of_block c len b :
  b ∈ block_locators c len <-> exists i, 0 <= i < block_count len /\ b = block_locator c i.
Proof.
  unfold block_locators. rewrite list_elem_of_fmap. setoid_rewrite elem_of_seqZ.
  split.
  - intros (i & -> & ?). exists i. split; [lia|done].
  - intros (i & ? & ->). exists i. split; [done|lia].
Qed.

Lemma initialize_granule `{HQ : !SysQueryOk} c w :
  granule_fits -> 0 < c ->
  wp (HeaderPtr.initialize c granularity) (fun _ w' => exists hs' its',
    row c (block_count granularity) (item_count granularity) (w_headers w) hs' /\
    preallocated c (granularity - LENGTH) (item_count granularity) (w_items w) its' /\
    w' = set_headers hs' (set_items its' w)) w.
Proof.
  intros Hfits Hc. pose proof granularity_length. pose proof granularity_range.
  apply initialize_block_spec; [done|unfold u32_max, u32_modulus; lia|].
  intros Hmac. specialize (Hfits Hmac). pose proof MAX_ITEM_COUNT_range.
  destruct (prealloc_count_bounds (granularity - LENGTH)) as [_ Hb]; [lia|].
  unfold LENGTH_OF_PREALLOCATED_CHUNKS. lia.
Qed.

Section fresh.
Context `{HQ : !SysQueryOk} (Hfits : granule_fits).
Context (l : list Z) (c : Z) (hs' : gmap Z LocatorHeader) (its' : gmap Z LocatorItem) (os' : OS)
  (w : World OS).
Context (Hs : sound l w) (Hf : fresh_block c hs' its' os' w).

Let n := block_count granularity.
Let k := item_count granularity.
Let cs := block_locators c granularity.
Let w' := with_block hs' its' os' w.

Lemma fresh_count : 0 < n /\ 0 <= k < MAX_ITEM_COUNT /\ (0 < k -> cfg_macos_aarch64 = false /\ n = 1).
Proof using Hfits HQ.
  unfold n, k, block_count, item_count. pose proof granularity_length. pose proof MAX_ITEM_COUNT_range.
  destruct cfg_macos_aarch64 eqn:Hmac.
  - split; [|lia]. unfold LENGTH in *. apply Z.div_str_pos. lia.
  - specialize (Hfits Hmac). destruct (prealloc_count_bounds (granularity - LENGTH)); lia.
Qed.

Lemma fresh_range b : b ∈ cs -> c <= b /\ b + LENGTH <= c + granularity.
Proof using HQ.
  intros (i & Hi & ->)%elem_of_block. pose proof granularity_length.
  unfold block_count, block_locator, LENGTH in *. destruct cfg_macos_aarch64; [|lia].
  pose proof (Z.mul_div_le granularity 4096). lia.
Qed.

Lemma fresh_head : c ∈ cs.
Proof using Hfits HQ.
  apply elem_of_block. exists 0. destruct fresh_count as [? _].
  split; [fold n; lia|unfold block_locator; lia].
Qed.

Lemma fresh_not_in b : b ∈ cs -> b ∉ l.
Proof using Hs Hf HQ.
  intros Hb Hin. destruct (fresh_range b Hb). unfold LENGTH in *.
  destruct (fb_fresh _ _ _ _ _ Hf b) as [Hno _]; [lia|]. apply Hno.
  apply (sound_block _ _ Hs b); [done|]. unfold in_block, LENGTH. lia.
Qed.

Lemma fresh_blocks d b : d ∈ l -> b ∈ cs -> b + LENGTH <= d \/ d + LENGTH <= b.
Proof using Hs Hf HQ.
  intros Hd Hb. destruct (fresh_range b Hb). unfold LENGTH in *.
  destruct (Z.le_gt_cases (b + 4096) d); [by left|].
  destruct (Z.le_gt_cases (d + 4096) b); [by right|]. exfalso.
  destruct (fb_fresh _ _ _ _ _ Hf (Z.max b d)) as [Hno _]; [lia|]. apply Hno.
  apply (sound_block _ _ Hs d); [done|]. unfold in_block, LENGTH. lia.
Qed.

Lemma fresh_headers_old d : d ∈ l -> hs' !! d = w_headers w !! d.
Proof using Hs Hf HQ.
  intros Hd. apply (row_out _ _ _ _ _ (fb_headers _ _ _ _ _ Hf)). intros i Hi ->.
  apply (fresh_not_in (block_locator c i)); [|done]. apply elem_of_block. eauto.
Qed.

(** Items registered before keep their slots. *)
Lemma fresh_old p :
  registered (w_headers w) l p ->
  its' !! p = w_items w !! p /\ registered (w_headers w') (l ++ cs) p /\
  (forall i, 0 <= i < k -> p <> get_item c i).
Proof using Hs Hf HQ Hfits.
  intros (d & g & i & Hd & Hg & Hbnd & ->). destruct fresh_count as (_ & Hk & _).
  destruct (sound_header _ _ Hs d g Hd Hg).
  assert (Hne : forall j, 0 <= j < k -> get_item d i <> get_item c j).
  { intros j Hj. apply get_item_other_block; [|lia|lia].
    destruct (fresh_blocks d c Hd fresh_head); auto. }
  split; [|split; [|done]].
  - destruct (fb_items _ _ _ _ _ Hf) as [_ Hout]. by apply Hout.
  - exists d, g, i. split; [solve_in|]. simpl. by rewrite fresh_headers_old.
Qed.

(** A preallocated item of the block. *)
Definition fresh_item (p : Z) (it : LocatorItem) : Prop :=
  cfg_macos_aarch64 = false /\ exists i, 0 <= i < k /\ p = get_item c i /\
    it = prealloc_item c (granularity - LENGTH) i.

(** The only new slots are the first of the fresh locator. *)
Lemma fresh_registered p :
  registered (w_headers w') (l ++ cs) p ->
  registered (w_headers w) l p \/ exists it, its' !! p = Some it /\ fresh_item p it.
Proof using Hs Hf HQ Hfits.
  intros (d & g & i & Hd & Hg & Hbnd & ->). simpl in Hg.
  apply elem_of_app in Hd as [Hd|Hd].
  - left. rewrite fresh_headers_old in Hg by done. by exists d, g, i.
  - right. apply elem_of_block in Hd as (j & Hj & ->).
    destruct (row_in _ _ _ _ _ (fb_headers _ _ _ _ _ Hf) j Hj) as (g' & Hg' & [_ _ _ _ Hk]).
    assert (g' = g) as -> by congruence. fold k in Hk. rewrite Hk in Hbnd.
    destruct fresh_count as (_ & _ & Hbuf). destruct Hbuf as [Hmac Hn]; [lia|].
    fold n in Hj. assert (j = 0) as -> by lia.
    replace (block_locator c 0) with c by (unfold block_locator; lia).
    exists (prealloc_item c (granularity - LENGTH) i). split.
    + destruct (fb_items _ _ _ _ _ Hf) as [Hin _]. by apply Hin.
    + split; [done|]. by exists i.
Qed.

Lemma fresh_item_spec p it :
  fresh_item p it ->
  LocatorItem.wf it /\ LocatorItem.is_taken it = 0 /\ LocatorItem.base_address it = c + LENGTH /\
  (forall x, LocatorItem.in_buffer it x -> c + LENGTH <= x < c + granularity).
Proof using Hf HQ.
  intros (Hmac & i & Hi & _ & ->). unfold k, item_count in Hi. rewrite Hmac in Hi.
  pose proof granularity_length. pose proof granularity_range. pose proof (fb_pos _ _ _ _ _ Hf).
  pose proof (fb_end _ _ _ _ _ Hf).
  destruct (prealloc_count_bounds (granularity - LENGTH)) as [_ Hb]; [lia|].
  unfold prealloc_item, LocatorItem.in_buffer, LENGTH, LENGTH_OF_PREALLOCATED_CHUNKS in *. simpl.
  split; [|split; [done|split; [done|intros x Hx; lia]]].
  apply LocatorItem.new_item_wf; [lia| |lia]. unfold is_u32, u32_max, u32_modulus. lia.
Qed.

Lemma fresh_item_unowned p it x :
  fresh_item p it -> LocatorItem.in_buffer it x -> ~ owned (w_os w) x.
Proof using Hf HQ.
  intros Hnew Hx. destruct (fresh_item_spec p it Hnew) as (_ & _ & _ & Hb). specialize (Hb x Hx).
  apply (fb_fresh _ _ _ _ _ Hf). unfold LENGTH in Hb. lia.
Qed.

(** Two preallocated items only exist in one chunk too large for one. *)
Lemma fresh_items_apart p q it jt :
  fresh_item p it -> fresh_item q jt -> p <> q -> same_chunk (l ++ cs) it jt.
Proof using Hf HQ Hfits.
  intros Hit Hjt Hne.
  destruct (fresh_item_spec p it Hit) as (_ & _ & Hb & _), (fresh_item_spec q jt Hjt) as (_ & _ & Hb' & _).
  destruct Hit as (Hmac & i & Hi & -> & _), Hjt as (_ & j & Hj & -> & _).
  split; [done|]. split; [|exists c; split; [|done]].
  - unfold k, item_count in *. rewrite Hmac in *. pose proof granularity_length.
    destruct (prealloc_count_bounds (granularity - LENGTH)) as [_ Hc]; [lia|].
    assert (i <> j) by congruence. unfold LENGTH_OF_PREALLOCATED_CHUNKS. lia.
  - apply elem_of_app. right. apply fresh_head.
Qed.

Lemma sound_fresh : sound (l ++ cs) w'.
Proof using Hs Hf HQ Hfits.
  destruct fresh_count as (_ & Hk & _).
  constructor; simpl.
  - apply (fb_ok _ _ _ _ _ Hf).
  - intros d g [Hd|Hd]%elem_of_app Hg.
    + rewrite fresh_headers_old in Hg by done. by apply (sound_header _ _ Hs).
    + destruct (fresh_range d Hd). apply elem_of_block in Hd as (i & Hi & ->).
      destruct (row_in _ _ _ _ _ (fb_headers _ _ _ _ _ Hf) i Hi) as (g' & Hg' & [Hth _ Hl _ Hn]).
      assert (g' = g) as -> by congruence. fold k in Hn.
      pose proof (fb_pos _ _ _ _ _ Hf). pose proof (fb_end _ _ _ _ _ Hf).
      constructor; [lia|congruence|lia|done|lia].
  - intros d x [Hd|Hd]%elem_of_app Hx.
    + apply (fb_mono _ _ _ _ _ Hf). by apply (sound_block _ _ Hs d).
    + destruct (fresh_range d Hd). apply (fb_fresh _ _ _ _ _ Hf). unfold in_block in Hx. lia.
  - intros d e [Hd|Hd]%elem_of_app [He|He]%elem_of_app Hne.
    + by apply (sound_blocks _ _ Hs).
    + destruct (fresh_blocks d e); auto.
    + by apply fresh_blocks.
    + apply elem_of_block in Hd as (i & Hi & ->), He as (j & Hj & ->).
      assert (i <> j) by congruence. unfold block_locator, LENGTH in *. lia.
  - intros p [Hp|(it & Hit & Hnew)]%fresh_registered.
    + destruct (fresh_old p Hp) as [-> _]. by apply (sound_item _ _ Hs).
    + destruct (fresh_item_spec p it Hnew) as (? & ? & _). exists it.
      split; [done|]. split; [done|by left].
  - intros p it x [Hp|(it' & Hit & Hnew)]%fresh_registered Hp' Hx.
    + destruct (fresh_old p Hp) as [Heq _]. rewrite Heq in Hp'.
      destruct (sound_buffer _ _ Hs p it x Hp Hp' Hx) as [Hown Hnb].
      split; [by apply (fb_mono _ _ _ _ _ Hf)|]. intros d [Hd|Hd]%elem_of_app; [by apply Hnb|].
      intros Hx'. destruct (fresh_range d Hd). unfold in_block in Hx'.
      destruct (fb_fresh _ _ _ _ _ Hf x) as [Hno _]; [lia|]. by apply Hno.
    + assert (it' = it) as -> by congruence.
      destruct (fresh_item_spec p it Hnew) as (_ & _ & _ & Hb). specialize (Hb x Hx).
      assert (Hc : c + LENGTH > c) by (unfold LENGTH; lia).
      destruct (fb_fresh _ _ _ _ _ Hf x) as [Hno Hown]; [lia|]. split; [done|].
      intros d [Hd|Hd]%elem_of_app Hx'; [apply Hno; by apply (sound_block _ _ Hs d)|].
      destruct Hnew as [Hmac _]. apply elem_of_block in Hd as (i & Hi & ->).
      unfold block_count in Hi. rewrite Hmac in Hi.
      unfold in_block, block_locator, LENGTH in *. lia.
  - intros p q it jt x [Hp|(it' & Hit & Hnew)]%fresh_registered
      [Hq|(jt' & Hjt & Hnew')]%fresh_registered Hne Hpi Hqj Hnc Hx Hx'.
    + destruct (fresh_old p Hp) as [Heq _], (fresh_old q Hq) as [Heq' _].
      rewrite Heq in Hpi. rewrite Heq' in Hqj.
      apply (sound_disjoint _ _ Hs p q it jt x); try done. intros Hc. by apply Hnc, same_chunk_mono.
    + destruct (fresh_old p Hp) as [Heq _]. rewrite Heq in Hpi.
      assert (jt' = jt) as -> by congruence. apply (fresh_item_unowned q jt x Hnew' Hx').
      by destruct (sound_buffer _ _ Hs p it x Hp Hpi Hx).
    + destruct (fresh_old q Hq) as [Heq _]. rewrite Heq in Hqj.
      assert (it' = it) as -> by congruence. apply (fresh_item_unowned p it x Hnew Hx).
      by destruct (sound_buffer _ _ Hs q jt x Hq Hqj Hx').
    + assert (it' = it) as -> by congruence. assert (jt' = jt) as -> by congruence.
      by apply Hnc, (fresh_items_apart p q).
Qed.

Lemma evolves_fresh : evolves l w (l ++ cs) w'.
Proof using Hs Hf HQ Hfits.
  constructor; simpl.
  - eauto.
  - done.
  - done.
  - apply (fb_mono _ _ _ _ _ Hf).
  - intros p Hp. destruct (fresh_old p Hp) as (? & ? & _). done.
  - intros p it x [Hp|(it' & Hit & Hnew)]%fresh_registered Hn; [done|].
    rewrite Hit. intros [= <-] Hx. by apply (fresh_item_unowned p it').
  - intros x [(b & [Hb|Hb]%elem_of_app & Hx)|(p & it & [Hp|(it' & Hit' & Hnew)]%fresh_registered & Hit & Hx)].
    + left. left. by exists b.
    + right. apply (fb_fresh _ _ _ _ _ Hf). destruct (fresh_range b Hb). unfold in_block in Hx. lia.
    + left. right. exists p, it. simpl in Hit. by rewrite (proj1 (fresh_old p Hp)) in Hit.
    + right. simpl in Hit. assert (it' = it) as -> by congruence. by eapply fresh_item_unowned.
  - intros p it [Hp|(it' & Hit & Hnew)]%fresh_registered Hn; [done|]. rewrite Hit. intros [= <-].
    split; [apply (fresh_item_spec p it' Hnew)|]. by destruct Hnew as (_ & i & _ & _ & ->).
Qed.

(** The first of the fresh locators has room for an item. *)
Lemma fresh_not_full : exists h, hs' !! c = Some h /\ is_full h = false.
Proof using Hf HQ Hfits.
  destruct fresh_count as (Hn & Hk & _).
  destruct (row_in _ _ _ _ _ (fb_headers _ _ _ _ _ Hf) 0) as (h & Hh & [_ _ _ _ Hnum]).
  { fold n. lia. }
  exists h. split; [by rewrite <- Hh; f_equal; unfold block_locator; lia|].
  unfold is_full. rewrite Z.geb_leb, Hnum. apply Z.leb_gt. fold k. lia.
Qed.

(** The locators of the block use as many slots as it has items; the others
    use as many as before. *)
Definition grown_counts : Prop :=
  (forall d, d ∈ l -> count hs' d = count (w_headers w) d) /\ (forall d, d ∈ cs -> count hs' d = k).

Lemma fresh_counts : grown_counts.
Proof using Hs Hf HQ Hfits.
  split; intros d Hd.
  - unfold count. by rewrite fresh_headers_old.
  - apply elem_of_block in Hd as (i & Hi & ->).
    destruct (row_in _ _ _ _ _ (fb_headers _ _ _ _ _ Hf) i Hi) as (g & Hg & [_ _ _ _ Hk]).
    by rewrite (count_lookup _ _ g).
Qed.

Lemma fresh_packed : packed hs' cs.
Proof using Hs Hf HQ Hfits.
  destruct fresh_count as (_ & Hk & Hone), fresh_counts as [_ Hc]. unfold packed.
  destruct (decide (k = 0)) as [Hz|Hnz].
  - assert (Hall : forall d, d ∈ cs -> count hs' d = 0) by (intros d Hd; by rewrite Hc).
    clear -Hall. induction cs as [|d ds IH]; [constructor|]. apply StronglySorted_cons. split.
    + apply list.Forall_forall. intros e He. right. apply Hall. by right.
    + apply IH. intros e He. apply Hall. by right.
  - destruct Hone as [_ Hn1]; [lia|]. unfold cs, block_locators. fold n. rewrite Hn1.
    repeat constructor.
Qed.

(** The locators of the block are linked in order. *)
Lemma fresh_chain : chain hs' c cs.
Proof using Hf HQ Hfits.
  assert (Hpos : 0 < c) by apply (fb_pos _ _ _ _ _ Hf). destruct fresh_count as (Hn & _ & _).
  assert (Hrow : forall m i, 0 <= i -> n - i = Z.of_nat (S m) ->
    chain hs' (block_locator c i) (block_locator c <$> seqZ i (n - i))).
  { intros m. induction m as [|m IH]; intros i Hi Hm;
      (destruct (row_in _ _ _ _ _ (fb_headers _ _ _ _ _ Hf) i) as (h & Hh & [_ Hx _ _ _]);
        [fold n; lia|]); rewrite seqZ_cons by lia; csimpl.
    - replace (Z.pred (n - i)) with 0 by lia. apply chain_last with h; [done|].
      rewrite Hx. destruct (Z.ltb_spec (i + 1) (block_count granularity)); [unfold n in Hm; lia|done].
    - destruct (Z.ltb_spec (i + 1) (block_count granularity)); [|unfold n in Hm; lia].
      apply chain_cons with h; [done|rewrite Hx; unfold block_locator, LENGTH; lia|].
      rewrite Hx. replace (Z.pred (n - i)) with (n - (i + 1)) by lia.
      replace (Z.succ i) with (i + 1) by lia. apply IH; lia. }
  specialize (Hrow (Z.to_nat (n - 1)) 0). unfold cs, block_locators. fold n.
  replace (block_locator c 0) with c in Hrow by (unfold block_locator; lia).
  replace (n - 0) with n in Hrow by lia. apply Hrow; lia.
Qed.

Lemma fresh_nodup : NoDup cs.
Proof using Type. apply NoDup_fmap_2; [intros i j; apply block_locator_inj|apply NoDup_seqZ]. Qed.

End fresh.

(** *** Linking a locator behind another *)

Section link.
Context (l : list Z) (b c : Z) (h : LocatorHeader) (w : World OS).
Context (Hb : w_headers w !! b = Some h).

Let w' := set_headers (<[b := set_next_locator_ptr c h]> (w_headers w)) w.

Lemma link_registered p :
  registered (w_headers w') l p <-> registered (w_headers w) l p.
Proof using Hb.
  simpl. split; intros (d & g & i & Hd & Hg & Hbnd & ->).
  - destruct (decide (b = d)) as [<-|].
    + rewrite lookup_insert_eq in Hg. injection Hg as <-. by exists b, h, i.
    + rewrite lookup_insert_ne in Hg by done. by exists d, g, i.
  - destruct (decide (b = d)) as [<-|].
    + assert (g = h) as -> by congruence.
      exists b, (set_next_locator_ptr c h), i. by rewrite lookup_insert_eq.
    + exists d, g, i. by rewrite lookup_insert_ne.
Qed.

Lemma sound_link : sound l w -> sound l w'.
Proof using Hb.
  intros Hs. constructor; simpl.
  - apply (sound_os _ _ Hs).
  - intros d g Hd. destruct (decide (b = d)) as [Heq|].
    + subst d. rewrite lookup_insert_eq. intros [= <-].
      by destruct (sound_header _ _ Hs b h Hd Hb).
    + rewrite lookup_insert_ne by done. by apply (sound_header _ _ Hs).
  - apply (sound_block _ _ Hs).
  - apply (sound_blocks _ _ Hs).
  - intros p Hp%link_registered. by apply (sound_item _ _ Hs).
  - intros p it x Hp%link_registered. by apply (sound_buffer _ _ Hs).
  - intros p q it jt x Hp%link_registered Hq%link_registered. by apply (sound_disjoint _ _ Hs).
Qed.

Lemma evolves_link l' w2 : evolves l w' l' w2 -> evolves l w l' w2.
Proof using Hb.
  intros Hev. constructor.
  - apply (ev_prefix _ _ _ _ Hev).
  - apply (ev_bytes _ _ _ _ Hev).
  - apply (ev_static _ _ _ _ Hev).
  - apply (ev_owned _ _ _ _ Hev).
  - intros p Hp. apply (ev_old _ _ _ _ Hev). by apply link_registered.
  - intros p it x Hp Hn. apply (ev_new _ _ _ _ Hev); [done|]. by rewrite link_registered.
  - intros x [[?|(p & it & Hp%link_registered & Hrest)]|?]%(ev_used _ _ _ _ Hev);
      [left; by left|left; right; by exists p, it|by right].
  - intros p it Hp Hn. apply (ev_free _ _ _ _ Hev); [done|]. by rewrite link_registered.
Qed.

End link.

Lemma layout_granularity `{HQ : !SysQueryOk} :
  layout_ok (wrap_usize (Cached.allocation_granularity get_sys_info))
    (Cached.page_size get_sys_info) = true.
Proof.
  change (wrap_usize (Cached.allocation_granularity get_sys_info)) with granularity.
  pose proof granularity_range.
  assert (Hp : Cached.page_size get_sys_info = 4096).
  { unfold get_sys_info, Cached.new. by destruct cfg_windows. }
  rewrite Hp. unfold layout_ok. change (Z.land 4096 (4096 - 1)) with 0. simpl.
  apply Z.leb_le.
  assert (usize_max / 2 >= 2147483647); [|lia].
  unfold usize_max, usize_modulus. by destruct ptr_width.
Qed.

Definition out_of_memory_text : string :=
  "Failed to allocate memory for LocatorHeader. Is this process out of memory?".

(** The block of a successor, as the stores of [get_next_locator] leave it. *)
Lemma row_unlock b h c n k hs hs1 :
  is_locked h = 0 -> (forall i, 0 <= i < n -> b <> block_locator c i) ->
  row c n k (<[b := set_next_locator_ptr c (set_is_locked 1 h)]> hs) hs1 ->
  row c n k (<[b := set_next_locator_ptr c h]> hs)
    (<[b := set_is_locked 0 (set_next_locator_ptr c (set_is_locked 1 h))]> hs1).
Proof.
  intros Hfree Hb [Hin Hout]. constructor.
  - intros i Hi. rewrite lookup_insert_ne by (by apply Hb). by apply Hin.
  - intros d Hd. destruct (decide (b = d)) as [<-|].
    + rewrite !lookup_insert_eq. f_equal. destruct h; simpl in *; by subst.
    + rewrite !lookup_insert_ne by done. by rewrite Hout, lookup_insert_ne.
Qed.

(** The chain grew: the locators of [l] use as many slots as before, and the
    new ones fill up in order. *)
Definition filled_behind (l : list Z) (c : Z) (hs hs' : gmap Z LocatorHeader) : Prop :=
  (forall d, d ∈ l -> count hs' d = count hs d) /\ packed hs' (block_locators c granularity).

Lemma inv_extended `{HQ : !SysQueryOk} a pre b h c hs' its' os' w :
  granule_fits -> inv a (pre ++ [b]) w -> w_headers w !! b = Some h ->
  fresh_block c hs' its' os' (set_headers (<[b := set_next_locator_ptr c h]> (w_headers w)) w) ->
  let l' := pre ++ b :: block_locators c granularity in
  inv a l' (with_block hs' its' os' w) /\
  evolves (pre ++ [b]) w l' (with_block hs' its' os' w) /\ c ∈ l' /\
  (exists hc, hs' !! c = Some hc /\ is_full hc = false) /\
  filled_behind (pre ++ [b]) c (w_headers w) hs'.
Proof.
  intros Hfits Hi Hh. set (w1 := set_headers _ w). intros Hf l'.
  pose proof (inv_sound _ _ _ Hi) as Hs.
  pose proof (sound_link (pre ++ [b]) b c h w Hh Hs) as Hs1. fold w1 in Hs1.
  assert (Hl : l' = (pre ++ [b]) ++ block_locators c granularity) by (by rewrite <- app_assoc).
  assert (Hold : forall d, d ∈ pre ++ [b] -> hs' !! d = w_headers w1 !! d).
  { intros d Hd. by eapply (fresh_headers_old (pre ++ [b]) c hs' its' os' w1). }
  change (with_block hs' its' os' w) with (with_block hs' its' os' w1). rewrite Hl.
  split; [|split; [|split; [|split]]].
  - apply sound_inv; [by apply sound_fresh| |].
    + rewrite <- Hl. eapply (chain_append (w_headers w)); [apply (inv_chain _ _ _ Hi)|done
        |apply (inv_nodup _ _ _ Hi)| | | |by eapply fresh_chain].
      * intros d Hd. rewrite Hold by solve_in. apply lookup_insert_ne. intros ->.
        pose proof (inv_nodup _ _ _ Hi) as Hnd. apply list.NoDup_app in Hnd as (_ & Hnd & _).
        apply (Hnd d Hd). solve_in.
      * rewrite Hold by solve_in. apply lookup_insert_eq.
      * pose proof (fb_pos _ _ _ _ _ Hf). lia.
    + apply list.NoDup_app. split; [apply (inv_nodup _ _ _ Hi)|].
      split; [|apply fresh_nodup]. intros d Hd Hd'.
      by eapply (fresh_not_in (pre ++ [b]) c hs' its' os' w1).
  - eapply (evolves_link _ b c h); [done|]. by apply evolves_fresh.
  - apply elem_of_app. right. by apply fresh_head.
  - by eapply fresh_not_full.
  - split; [|by eapply fresh_packed].
    destruct (fresh_counts Hfits (pre ++ [b]) c hs' its' os' w1 Hs1 Hf) as [Hc _].
    intros d Hd. rewrite Hc by done. unfold count. simpl.
    destruct (decide (b = d)) as [<-|]; [by rewrite lookup_insert_eq, Hh|by rewrite lookup_insert_ne].
Qed.

(** What [get_next_locator] does at [b] on the chain [pre ++ b :: suf]. *)
Definition next_locator_outcome (a : Z) (pre : list Z) (b : Z) (suf : list Z) w
    (r : result Z string) w' : Prop :=
  match r with
  | Ok c =>
      (w' = w /\ exists suf', suf = c :: suf') \/
      (suf = [] /\ exists l', l' = pre ++ b :: block_locators c granularity /\
       inv a l' w' /\ evolves (pre ++ [b]) w l' w' /\ c ∈ l' /\
       (exists hc, w_headers w' !! c = Some hc /\ is_full hc = false) /\
       filled_behind (pre ++ [b]) c (w_headers w) (w_headers w'))
  | Err msg => msg = out_of_memory_text /\ suf = [] /\ inv a (pre ++ [b]) w' /\
      evolves (pre ++ [b]) w (pre ++ [b]) w' /\ w_headers w' = w_headers w
  end.

Lemma get_next_locator_spec `{HQ : !SysQueryOk} a pre b suf w :
  granule_fits -> inv a (pre ++ b :: suf) w ->
  wp (HeaderPtr.get_next_locator b) (next_locator_outcome a pre b suf w) w.
Proof.
  intros Hfits Hi. assert (Hbl : b ∈ pre ++ b :: suf) by solve_in.
  destruct (chain_lookup _ _ _ b (inv_chain _ _ _ Hi) Hbl) as [h Hh].
  destruct (inv_header _ _ _ Hi b h Hbl Hh) as [? _ ? Hfree Hnum].
  pose proof (chain_next _ _ _ _ (chain_suffix _ _ _ _ _ (inv_chain _ _ _ Hi)) Hh) as Hnext.
  unfold HeaderPtr.get_next_locator. wp_step. eapply wp_load_header; [done|].
  unfold has_next_locator. destruct Hnext as [[-> Hz]|[Hnz [suf' ->]]].
  2: { destruct (Z.eqb_spec (next_locator_ptr h) 0); [done|]. simpl. wp_step. left. eauto. }
  rewrite Hz. simpl. wp_step. eapply wp_lock; [done..|].
  wp_step. eapply wp_load_header; [apply lookup_insert_eq|]. simpl. rewrite Hz. simpl.
  rewrite layout_granularity.
  change (wrap_usize (Cached.allocation_granularity get_sys_info)) with granularity.
  wp_step. apply wp_lift_os, wp_call. simpl.
  pose proof granularity_length as Hgran. pose proof granularity_range as Hg0.
  destruct Hg0 as [Hg0 _].
  pose proof (heap_alloc_spec granularity (Cached.page_size get_sys_info) (w_os w)
    (inv_os _ _ _ Hi) Hg0 layout_granularity) as Halloc.
  destruct (heap_alloc _ _ _) as [c os']. simpl. destruct Halloc as (Hok & Hmono & Hc).
  destruct (Z.eqb_spec c 0) as [->|Hc0].
  - wp_step. eapply wp_unlock; [apply lookup_insert_eq|]. wp_step. split; [done|]. split; [done|].
    change (set_headers _ (set_os os' _)) with
      (set_os os' (set_headers (<[b:=set_is_locked 0 (set_is_locked 1 h)]>
         (<[b:=set_is_locked 1 h]> (w_headers w))) w)).
    rewrite lock_unlock_id by done.
    split; [by apply set_os_inv|by split; [apply evolves_set_os|]].
  - destruct (Hc Hc0) as (Hcpos & Hcend & Hfresh).
    wp_step. eapply wp_load_header; [apply lookup_insert_eq|]. wp_step. apply wp_store_header.
    wp_step. eapply wp_load_header; [apply lookup_insert_eq|]. simpl.
    wp_step. eapply wp_mono; [by apply initialize_granule|].
    intros [] w1 (hs1 & its' & Hrow & Hpre & ->). simpl in Hrow, Hpre.
    rewrite insert_insert_eq in Hrow.
    assert (Hb : forall i, 0 <= i < block_count granularity -> b <> block_locator c i).
    { intros i Hi' Heq. destruct (fresh_range c b); [apply elem_of_block; eauto|].
      destruct (Hfresh b) as [Hno _]; [unfold LENGTH in *; lia|]. apply Hno.
      apply (inv_block _ _ _ Hi b); [done|]. unfold in_block, LENGTH. lia. }
    assert (Hb1 : hs1 !! b = Some (set_next_locator_ptr c (set_is_locked 1 h))).
    { rewrite (row_out _ _ _ _ _ Hrow b Hb). apply lookup_insert_eq. }
    wp_step. eapply wp_unlock; [exact Hb1|].
    wp_step. eapply wp_load_header; [simpl; apply lookup_insert_eq|]. simpl. right. split; [done|].
    eexists. split; [done|].
    apply (inv_extended a pre b h c (<[b := set_is_locked 0 (set_next_locator_ptr c (set_is_locked 1 h))]> hs1)
      its' os' w); [done..|]. constructor; try done. by apply row_unlock.
Qed.

End next.
