(* ===== verification/Text.v ===== *)
(** * The text operations of the standard library that the crate uses

    [str::split], [split_ascii_whitespace], [from_str_radix], [parse::<i32>],
    [strip_prefix], [CStr::to_str] and [CString::new], on strings of bytes. *)

From Stdlib Require Import Ascii String.
From stdpp Require Import pretty.
From S2P Require Import Prelude.


(** [s.split(c)]: always at least one piece. *)
Fixpoint split_on (c : ascii) (s : string) : list string :=
  match s with
  | EmptyString => [""]
  | String x s' =>
      if Ascii.eqb x c then "" :: split_on c s' else
      match split_on c s' with
      | p :: ps => String x p :: ps
      | [] => [String x ""]
      end
  end.

Definition is_ascii_whitespace (c : ascii) : bool :=
  match nat_of_ascii c with 9 | 10 | 12 | 13 | 32 => true | _ => false end%nat.

(** [s.split_ascii_whitespace()]: the maximal runs without white space. *)
Fixpoint split_ascii_whitespace_aux (s : string) (cur : string) : list string :=
  match s with
  | EmptyString => if String.eqb cur "" then [] else [cur]
  | String x s' =>
      if is_ascii_whitespace x then
        if String.eqb cur "" then split_ascii_whitespace_aux s' ""
        else cur :: split_ascii_whitespace_aux s' ""
      else split_ascii_whitespace_aux s' (cur +:+ String x "")
  end.
Definition split_ascii_whitespace (s : string) : list string := split_ascii_whitespace_aux s "".

(** [char::to_digit(radix)] for a radix of at most 36. *)
Definition to_digit (radix : Z) (c : ascii) : option Z :=
  let n := Z.of_nat (nat_of_ascii c) in
  let d :=
    if (48 <=? n) && (n <=? 57) then n - 48
    else if (97 <=? n) && (n <=? 122) then n - 97 + 10
    else if (65 <=? n) && (n <=? 90) then n - 65 + 10
    else radix in
  if d <? radix then Some d else None.

(** The digits of a number whose sign was consumed; [None] on a character that
    is no digit and when the value leaves [lo, hi]. *)
Fixpoint parse_digits (radix lo hi : Z) (negative : bool) (s : string) (acc : Z) : option Z :=
  match s with
  | EmptyString => Some acc
  | String c s' =>
      match to_digit radix c with
      | None => None
      | Some d =>
          let acc := acc * radix in
          if (acc <? lo) || (acc >? hi) then None else
          let acc := if negative then acc - d else acc + d in
          if (acc <? lo) || (acc >? hi) then None
          else parse_digits radix lo hi negative s' acc
      end
  end.

(** [uN::from_str_radix] and [iN::from_str_radix]: a leading + is accepted, a
    leading - only for a signed type, and a lone sign is no number. *)
Definition from_str_radix (radix lo hi : Z) (s : string) : option Z :=
  match s with
  | EmptyString => None
  | String c EmptyString =>
      if Ascii.eqb c "+" || Ascii.eqb c "-" then None
      else parse_digits radix lo hi false s 0
  | String c s' =>
      if Ascii.eqb c "+" then parse_digits radix lo hi false s' 0
      else if Ascii.eqb c "-" && (lo <? 0) then parse_digits radix lo hi true s' 0
      else parse_digits radix lo hi false s 0
  end.

(** [usize::from_str_radix(s, 16)] and [s.parse::<i32>()] *)
Definition usize_from_hex `{Target} (s : string) : option Z := from_str_radix 16 0 usize_max s.
Definition parse_i32 (s : string) : option Z :=
  from_str_radix 10 (-2147483648) 2147483647 s.

(** [s.strip_prefix(p)]; [s.starts_with(p)] is [is_Some]. *)
Fixpoint strip_prefix (p s : string) : option string :=
  match p, s with
  | EmptyString, _ => Some s
  | String a p', String b s' => if Ascii.eqb a b then strip_prefix p' s' else None
  | _, _ => None
  end.
Definition starts_with (s p : string) : bool :=
  match strip_prefix p s with Some _ => true | None => false end.

(** [CStr::to_str().is_ok()]: the bytes are UTF-8. *)
Definition is_continuation (lo hi : Z) (c : ascii) : bool :=
  let n := Z.of_nat (nat_of_ascii c) in (lo <=? n) && (n <=? hi).

Fixpoint valid_utf8 (s : string) : bool :=
  match s with
  | EmptyString => true
  | String a s1 =>
      let n := Z.of_nat (nat_of_ascii a) in
      if n <? 0x80 then valid_utf8 s1 else
      match s1 with
      | EmptyString => false
      | String b s2 =>
          if (0xC2 <=? n) && (n <=? 0xDF) then is_continuation 0x80 0xBF b && valid_utf8 s2 else
          match s2 with
          | EmptyString => false
          | String c s3 =>
              let lo := if n =? 0xE0 then 0xA0 else 0x80 in
              let hi := if n =? 0xED then 0x9F else 0xBF in
              if (0xE0 <=? n) && (n <=? 0xEF) then
                is_continuation lo hi b && is_continuation 0x80 0xBF c && valid_utf8 s3
              else
              match s3 with
              | EmptyString => false
              | String d s4 =>
                  let lo := if n =? 0xF0 then 0x90 else 0x80 in
                  let hi := if n =? 0xF4 then 0x8F else 0xBF in
                  (0xF0 <=? n) && (n <=? 0xF4) && is_continuation lo hi b
                  && is_continuation 0x80 0xBF c && is_continuation 0x80 0xBF d && valid_utf8 s4
              end
          end
      end
  end.

(** [CString::new(s)] fails on an interior NUL. *)
Fixpoint has_nul (s : string) : bool :=
  match s with
  | EmptyString => false
  | String c s' => Ascii.eqb c "000" || has_nul s'
  end.
Definition CString_new {S} (s : string) : M S string :=
  if has_nul s then panic "called `Result::unwrap()` on an `Err` value: NulError" else mret s.

(** ** Lemmas *)

Lemma split_on_nonempty c s : split_on c s <> [].
Proof. destruct s as [|x s]; simpl; [done|]. destruct (Ascii.eqb x c); [done|].
  by destruct (split_on c s). Qed.

(** No character of [s] is [c]. *)
Fixpoint avoids (P : ascii -> bool) (s : string) : Prop :=
  match s with EmptyString => True | String x s' => P x = false /\ avoids P s' end.

Lemma split_on_none c s : avoids (fun x => Ascii.eqb x c) s -> split_on c s = [s].
Proof. induction s as [|x s IH]; simpl; [done|]. intros [-> H]. by rewrite IH. Qed.

(** stdpp keeps [append] from being simplified: its equations. *)
Lemma append_cons x (s t : string) : String x s +:+ t = String x (s +:+ t).
Proof. reflexivity. Qed.
Lemma append_nil (t : string) : "" +:+ t = t.
Proof. reflexivity. Qed.

Lemma append_empty_r (s : string) : s +:+ "" = s.
Proof. induction s as [|x s IH]; [done|]. by rewrite append_cons, IH. Qed.

Lemma append_assoc_cons (s : string) x t : (s +:+ String x "") +:+ t = s +:+ String x t.
Proof. induction s as [|y s IH]; [done|]. by rewrite !append_cons, IH. Qed.

Lemma append_not_empty (s : string) x t : s +:+ String x t <> "".
Proof. destruct s; [done|]. by rewrite append_cons. Qed.

Lemma split_on_app c s t :
  avoids (fun x => Ascii.eqb x c) s ->
  split_on c (s +:+ String c t) = s :: split_on c t.
Proof.
  induction s as [|x s IH]; [rewrite append_nil; simpl; by rewrite Ascii.eqb_refl|].
  rewrite append_cons. simpl. intros [-> H]. by rewrite IH.
Qed.

(** A word up to the first white space is the first piece. *)
Lemma split_whitespace_word w cur s sep :
  avoids is_ascii_whitespace w -> is_ascii_whitespace sep = true -> cur +:+ w <> "" ->
  split_ascii_whitespace_aux (w +:+ String sep s) cur
  = (cur +:+ w) :: split_ascii_whitespace_aux s "".
Proof.
  revert cur. induction w as [|x w IH]; intros cur Hw Hsep Hne.
  - rewrite append_nil, append_empty_r in *. simpl. rewrite Hsep.
    by destruct (String.eqb_spec cur "").
  - rewrite append_cons. simpl. destruct Hw as [-> Hw].
    rewrite IH; [by rewrite append_assoc_cons|done|done|by rewrite append_assoc_cons].
Qed.

Lemma split_whitespace_end w cur :
  avoids is_ascii_whitespace w -> cur +:+ w <> "" ->
  split_ascii_whitespace_aux w cur = [cur +:+ w].
Proof.
  revert cur. induction w as [|x w IH]; intros cur Hw Hne.
  - rewrite append_empty_r in *. simpl. by destruct (String.eqb_spec cur "").
  - simpl. destruct Hw as [-> Hw].
    rewrite IH; [by rewrite append_assoc_cons|done|by rewrite append_assoc_cons].
Qed.

(** ** Hexadecimal numbers as the kernel prints them *)

Definition hex_digit (d : Z) : ascii :=
  ascii_of_nat (Z.to_nat (if d <? 10 then 48 + d else 87 + d)).

(** [n] lower-case digits, most significant first. *)
Fixpoint hex_digits (n : nat) (z : Z) : string :=
  match n with
  | O => ""
  | S n' => String (hex_digit (z / 16 ^ Z.of_nat n' mod 16)) (hex_digits n' z)
  end.

Lemma hex_digit_cases (P : Z -> Prop) :
  P 0 -> P 1 -> P 2 -> P 3 -> P 4 -> P 5 -> P 6 -> P 7 -> P 8 -> P 9 -> P 10 -> P 11 ->
  P 12 -> P 13 -> P 14 -> P 15 -> forall d, 0 <= d < 16 -> P d.
Proof.
  intros. assert (d = 0 \/ d = 1 \/ d = 2 \/ d = 3 \/ d = 4 \/ d = 5 \/ d = 6 \/ d = 7 \/ d = 8 \/
    d = 9 \/ d = 10 \/ d = 11 \/ d = 12 \/ d = 13 \/ d = 14 \/ d = 15) as Hd by lia.
  by repeat (destruct Hd as [->|Hd]; [done|]); subst.
Qed.

Lemma to_digit_hex d : 0 <= d < 16 -> to_digit 16 (hex_digit d) = Some d.
Proof. revert d. by apply hex_digit_cases. Qed.

Lemma hex_digit_plain d : 0 <= d < 16 ->
  is_ascii_whitespace (hex_digit d) = false /\ Ascii.eqb (hex_digit d) "-" = false /\
  Ascii.eqb (hex_digit d) "+" = false /\ Ascii.eqb (hex_digit d) "010" = false.
Proof. revert d. by apply hex_digit_cases. Qed.

Lemma hex_digits_avoid (Pr : ascii -> bool) n z :
  (forall d, 0 <= d < 16 -> Pr (hex_digit d) = false) -> avoids Pr (hex_digits n z).
Proof.
  intros H. induction n as [|n IH]; simpl; [done|]. split; [|done].
  apply H. mod_bound (z / 16 ^ Z.of_nat n) 16. lia.
Qed.

(** Reading back the digits of [z mod 16^n] behind an accumulator. *)
Lemma parse_hex_digits hi n z acc :
  0 <= acc -> acc * 16 ^ Z.of_nat n + z mod 16 ^ Z.of_nat n <= hi ->
  parse_digits 16 0 hi false (hex_digits n z) acc
  = Some (acc * 16 ^ Z.of_nat n + z mod 16 ^ Z.of_nat n).
Proof.
  revert acc. induction n as [|n IH]; intros acc Hacc Hhi; simpl hex_digits; simpl parse_digits.
  - change (16 ^ Z.of_nat 0) with 1 in *. rewrite Z.mod_1_r. f_equal. lia.
  - set (p := 16 ^ Z.of_nat n) in *.
    assert (Hp : 0 < p) by (apply Z.pow_pos_nonneg; lia).
    assert (Hsucc : 16 ^ Z.of_nat (S n) = p * 16) by
      (rewrite Nat2Z.inj_succ, Z.pow_succ_r by lia; unfold p; lia).
    rewrite Hsucc in *. rewrite Z.rem_mul_r in * by lia.
    set (d := (z / p) mod 16) in *. assert (Hd : 0 <= d < 16) by (apply Z.mod_pos_bound; lia).
    mod_bound z p. rewrite to_digit_hex by done.
    destruct (Z.ltb_spec (acc * 16) 0); [lia|]. rewrite !Z.gtb_ltb.
    destruct (Z.ltb_spec hi (acc * 16)); [nia|]. simpl.
    destruct (Z.ltb_spec (acc * 16 + d) 0); [lia|].
    destruct (Z.ltb_spec hi (acc * 16 + d)); [nia|]. simpl.
    rewrite IH by (lia || nia). f_equal. nia.
Qed.

(** ** What a parsed number can be *)

Lemma parse_digits_range radix lo hi neg s : forall acc z,
  lo <= acc <= hi -> parse_digits radix lo hi neg s acc = Some z -> lo <= z <= hi.
Proof.
  induction s as [|c s IH]; intros acc z Hacc; simpl; [by intros [= <-]|].
  destruct (to_digit radix c) as [d|]; [|done]. rewrite !Z.gtb_ltb.
  destruct (_ || _); [done|]. destruct (orb _ _) eqn:E; [done|].
  apply IH. bool_props. lia.
Qed.

Lemma from_str_radix_range radix lo hi s z :
  lo <= 0 <= hi -> from_str_radix radix lo hi s = Some z -> lo <= z <= hi.
Proof.
  intros H0. unfold from_str_radix. destruct s as [|c [|c' s]]; [done|..];
    repeat (case_match; [try done; by apply parse_digits_range|]);
    by apply parse_digits_range.
Qed.

Lemma usize_from_hex_range `{Target} s z : usize_from_hex s = Some z -> is_usize z.
Proof. apply from_str_radix_range. unfold usize_max. pose proof usize_modulus_pos. lia. Qed.

(** ** Text without NUL *)

Lemma has_nul_app s t : has_nul (s +:+ t) = has_nul s || has_nul t.
Proof.
  induction s as [|c s IH]; [done|]. rewrite append_cons. simpl. by rewrite IH, orb_assoc.
Qed.

Lemma has_nul_pretty_go x s : has_nul s = false -> has_nul (pretty_N_go x s) = false.
Proof.
  revert s. induction (N.lt_wf_0 x) as [x _ IH]; intros s Hs.
  destruct (decide (x = 0)%N) as [->|]; [by rewrite pretty_N_go_0|].
  rewrite pretty_N_go_step by lia. apply IH; [by apply N.div_lt; lia|].
  simpl. rewrite Hs, orb_false_r. unfold pretty_N_char. by repeat case_match.
Qed.

Lemma has_nul_pretty_N (x : N) : has_nul (pretty x) = false.
Proof. unfold pretty, pretty_N. case_decide; [done|]. by apply has_nul_pretty_go. Qed.

Lemma has_nul_pretty (z : Z) : has_nul (pretty z) = false.
Proof.
  destruct z as [|p|p]; [done| |].
  - exact (has_nul_pretty_N (N.pos p)).
  - change (pretty (Z.neg p)) with ("-" +:+ pretty (N.pos p)).
    rewrite has_nul_app. apply (has_nul_pretty_N (N.pos p)).
Qed.
