(* ===== verification/MapParser.v ===== *)
(** * utilities/map_parser_utilities.rs and utilities/linux_map_parser.rs

    From the text of /proc/<pid>/maps to the free regions between the mapped
    ones.  The system calls that read the file are in Posix.v. *)

From Stdlib Require Import Ascii String.
From S2P Require Import Prelude SysInfo Text.

Module MemoryMapEntry.

Record MemoryMapEntry := { start_address : Z; end_address : Z }.

Definition new (start_address end_address : Z) : MemoryMapEntry :=
  {| start_address := start_address; end_address := end_address |}.

#[global] Instance eq_dec : EqDecision MemoryMapEntry.
Proof. solve_decision. Defined.

End MemoryMapEntry.
Abbreviation MemoryMapEntry := MemoryMapEntry.MemoryMapEntry.

(** trait MemoryMapEntryTrait and its implementation for [MemoryMapEntry] *)
Class MemoryMapEntryTrait (A : Type) := {
  start_address : A -> Z;
  end_address : A -> Z
}.
#[global] Instance MemoryMapEntry_trait : MemoryMapEntryTrait MemoryMapEntry := {
  start_address := MemoryMapEntry.start_address;
  end_address := MemoryMapEntry.end_address
}.

Section regions.
Context `{T : Target} `{Q : SysQuery}.

(** The loop over the regions: the accumulator is the vector of free regions
    and the end of the last region. *)
Fixpoint get_free_regions_loop `{MemoryMapEntryTrait A} (regions : list A)
    (free_regions : list MemoryMapEntry) (last_end_address : Z) : list MemoryMapEntry * Z :=
  match regions with
  | [] => (free_regions, last_end_address)
  | entry :: regions' =>
      let free_regions :=
        if start_address entry >? last_end_address
        then free_regions ++ [MemoryMapEntry.new last_end_address (start_address entry -u 1)]
        else free_regions in
      get_free_regions_loop regions' free_regions (end_address entry)
  end.

Definition get_free_regions `{MemoryMapEntryTrait A} (regions : list A) : list MemoryMapEntry :=
  let '(free_regions, last_end_address) := get_free_regions_loop regions [] 0 in
  if last_end_address <? Cached.max_address get_sys_info
  then free_regions ++
    [MemoryMapEntry.new last_end_address (Cached.max_address get_sys_info)]
  else free_regions.

Definition parse_memory_map_entry (line : string) : option MemoryMapEntry :=
  let parts := split_ascii_whitespace line in
  match parts with
  | address_range :: _ =>
      match split_on "-" address_range with
      | [a0; a1] =>
          match usize_from_hex a0, usize_from_hex a1 with
          | Some start_address, Some end_address =>
              Some (MemoryMapEntry.new start_address end_address)
          | _, _ => None
          end
      | _ => None
      end
  | [] => None
  end.

Fixpoint parse_memory_map_from_lines (lines : list string) : list MemoryMapEntry :=
  match lines with
  | [] => []
  | line :: lines' =>
      match parse_memory_map_entry line with
      | Some entry => entry :: parse_memory_map_from_lines lines'
      | None => parse_memory_map_from_lines lines'
      end
  end.

(** ** Free regions *)

Definition in_entry (e : MemoryMapEntry) (x : Z) : Prop :=
  MemoryMapEntry.start_address e <= x <= MemoryMapEntry.end_address e.
Definition mapped (e : MemoryMapEntry) (x : Z) : Prop :=
  MemoryMapEntry.start_address e <= x < MemoryMapEntry.end_address e.

(** The regions are listed in increasing order, from [lo] on. *)
Fixpoint ordered (lo : Z) (l : list MemoryMapEntry) : Prop :=
  match l with
  | [] => True
  | e :: l' =>
      lo <= MemoryMapEntry.start_address e <= MemoryMapEntry.end_address e
      /\ MemoryMapEntry.end_address e <= usize_max
      /\ ordered (MemoryMapEntry.end_address e) l'
  end.

(** The gaps in front of the regions, and the end of the last region. *)
Fixpoint gaps (last : Z) (l : list MemoryMapEntry) : list MemoryMapEntry :=
  match l with
  | [] => []
  | e :: l' =>
      (if MemoryMapEntry.start_address e >? last
       then [MemoryMapEntry.new last (MemoryMapEntry.start_address e - 1)] else [])
      ++ gaps (MemoryMapEntry.end_address e) l'
  end.
Fixpoint final_end (last : Z) (l : list MemoryMapEntry) : Z :=
  match l with
  | [] => last
  | e :: l' => final_end (MemoryMapEntry.end_address e) l'
  end.

Lemma free_regions_loop_gaps l : forall free last,
  0 <= last -> ordered last l ->
  get_free_regions_loop l free last = (free ++ gaps last l, final_end last l).
Proof.
  induction l as [|e l IH]; intros free last Hlast Hord; simpl; [by rewrite app_nil_r|].
  destruct Hord as ([? ?] & ? & Hord). rewrite IH by (lia || done). f_equal.
  rewrite !Z.gtb_ltb. destruct (Z.ltb_spec last (MemoryMapEntry.start_address e)); [|done].
  rewrite sub_usize_small by lia. by rewrite <- app_assoc.
Qed.

Lemma exists_cons {A} (Pr : A -> Prop) a (l : list A) :
  (exists e, e ∈ a :: l /\ Pr e) <-> Pr a \/ exists e, e ∈ l /\ Pr e.
Proof.
  split.
  - intros (e & [->|He]%elem_of_cons & HP); eauto.
  - intros [HP|(e & He & HP)]; [exists a | exists e]; rewrite elem_of_cons; auto.
Qed.
Lemma exists_nil {A} (Pr : A -> Prop) : (exists e, e ∈ @nil A /\ Pr e) <-> False.
Proof. split; [|done]. by intros (e & He%elem_of_nil & _). Qed.

Lemma final_end_le l : forall last, ordered last l -> last <= final_end last l.
Proof.
  induction l as [|e l IH]; intros last Hord; simpl; [lia|].
  destruct Hord as ([? ?] & ? & Hord). specialize (IH _ Hord). lia.
Qed.

(** Between the first and the last address, a point is in a gap exactly when
    no region maps it; outside, neither holds. *)
Lemma gaps_spec l : forall last x,
  ordered last l ->
  ((exists e, e ∈ gaps last l /\ in_entry e x) \/ (exists e, e ∈ l /\ mapped e x)
     <-> last <= x < final_end last l) /\
  ~ ((exists e, e ∈ gaps last l /\ in_entry e x) /\ (exists e, e ∈ l /\ mapped e x)).
Proof.
  induction l as [|e l IH]; intros last x Hord; simpl.
  - rewrite !exists_nil. split; [lia|tauto].
  - destruct Hord as ([? ?] & ? & Hord). destruct (IH _ x Hord) as [Hiff Hex].
    pose proof (final_end_le l _ Hord).
    destruct (Z.lt_ge_cases x (MemoryMapEntry.start_address e)),
      (Z.lt_ge_cases x (MemoryMapEntry.end_address e));
      rewrite Z.gtb_ltb; destruct (Z.ltb_spec last (MemoryMapEntry.start_address e));
      cbn [app]; rewrite ?exists_cons;
      set (G := exists e0, e0 ∈ gaps _ l /\ in_entry e0 x) in *;
      set (R := exists e0, e0 ∈ l /\ mapped e0 x) in *; clearbody G R;
      destruct Hiff as [Hto Hfrom]; unfold in_entry, mapped; simpl;
      (split; [split|]); intuition lia.
Qed.

Lemma get_free_regions_gaps (l : list MemoryMapEntry) :
  ordered 0 l ->
  get_free_regions l = gaps 0 l ++
    (if final_end 0 l <? Cached.max_address get_sys_info
     then [MemoryMapEntry.new (final_end 0 l) (Cached.max_address get_sys_info)] else []).
Proof.
  intros Hord. unfold get_free_regions. rewrite free_regions_loop_gaps by (lia || done).
  simpl. destruct (_ <? _); [done|]. by rewrite app_nil_r.
Qed.

(** Below the last address, the free regions are the complement of the mapped
    ones. *)
Lemma free_regions_complement (l : list MemoryMapEntry) x :
  ordered 0 l -> 0 <= x < Cached.max_address get_sys_info ->
  (exists e, e ∈ get_free_regions l /\ in_entry e x) <-> ~ (exists e, e ∈ l /\ mapped e x).
Proof.
  intros Hord Hx. rewrite get_free_regions_gaps by done.
  destruct (gaps_spec l 0 x Hord) as [Hiff Hex].
  assert (Htail : (exists e, e ∈ gaps 0 l ++ (if final_end 0 l <? Cached.max_address get_sys_info
      then [MemoryMapEntry.new (final_end 0 l) (Cached.max_address get_sys_info)] else []) /\
      in_entry e x) <-> (exists e, e ∈ gaps 0 l /\ in_entry e x) \/ final_end 0 l <= x).
  { setoid_rewrite elem_of_app. destruct (Z.ltb_spec (final_end 0 l) (Cached.max_address get_sys_info)).
    - setoid_rewrite list_elem_of_singleton. split.
      + intros (e & [He| ->] & Hin); [left; eauto|right]. by destruct Hin.
      + intros [(e & He & Hin)|Hle]; [eauto|]. eexists. split; [by right|]. split; simpl; lia.
    - split; [|intros [(e & He & Hin)|Hle]; [eauto|lia]].
      intros (e & [He|He%elem_of_nil] & Hin); [eauto|done]. }
  rewrite Htail.
  destruct (Z.lt_ge_cases x (final_end 0 l)); split; try tauto; try lia.
  - intros [Hg|]; [tauto|lia].
  - intros _ Hm. assert (0 <= x < final_end 0 l) by tauto. lia.
Qed.

(** The gaps come in increasing order and do not overlap. *)
Lemma gaps_ordered l : forall last, ordered last l -> ordered last (gaps last l).
Proof.
  assert (Hmono : forall l lo lo', lo <= lo' -> ordered lo' l -> ordered lo l).
  { intros [|e l'] lo lo' Hle Ho; [done|]. destruct Ho as ([? ?] & ? & ?).
    split; [lia|done]. }
  induction l as [|e l IH]; intros last Hord; simpl; [done|].
  destruct Hord as ([? ?] & ? & Hord). specialize (IH _ Hord).
  rewrite Z.gtb_ltb. destruct (Z.ltb_spec last (MemoryMapEntry.start_address e)); simpl.
  - split; [lia|]. split; [lia|]. eapply Hmono; [|exact IH]. lia.
  - eapply Hmono; [|exact IH]. lia.
Qed.

Lemma ordered_snoc l e : forall lo,
  ordered lo l -> lo <= MemoryMapEntry.start_address e <= MemoryMapEntry.end_address e ->
  MemoryMapEntry.end_address e <= usize_max ->
  (forall d, d ∈ l -> MemoryMapEntry.end_address d <= MemoryMapEntry.start_address e) ->
  ordered lo (l ++ [e]).
Proof.
  induction l as [|d l IH]; intros lo Hl He Hmax Hd; simpl; [done|].
  destruct Hl as (? & ? & Hl). split; [done|]. split; [done|].
  apply IH; [done| |done|intros; apply Hd; by right]. split; [apply Hd; by left|lia].
Qed.

(** A gap ends in front of a region, before the last of them ends. *)
Lemma gaps_before l : forall last e, ordered last l -> e ∈ gaps last l ->
  MemoryMapEntry.end_address e <= final_end last l /\
  exists d, d ∈ l /\ MemoryMapEntry.end_address e = MemoryMapEntry.start_address d - 1.
Proof.
  induction l as [|d l IH]; intros last e Ho; simpl; [by intros ?%elem_of_nil|].
  destruct Ho as (? & _ & Ho). intros [Hin|Hin]%elem_of_app.
  - destruct (_ >? _); [|by apply elem_of_nil in Hin]. apply list_elem_of_singleton in Hin as ->.
    pose proof (final_end_le l _ Ho). simpl. split; [lia|]. exists d. split; [by left|done].
  - destruct (IH _ _ Ho Hin) as (? & d' & ? & ?). split; [done|]. exists d'. split; [by right|done].
Qed.

Lemma get_free_regions_ordered `{HQ : !SysQueryOk} (l : list MemoryMapEntry) :
  ordered 0 l -> ordered 0 (get_free_regions l).
Proof.
  intros Ho. rewrite get_free_regions_gaps by done. pose proof (gaps_ordered l 0 Ho) as Hg.
  destruct (Z.ltb_spec (final_end 0 l) (Cached.max_address get_sys_info)); [|by rewrite app_nil_r].
  pose proof max_address_range as [_ Hmax]. pose proof (final_end_le l 0 Ho).
  apply ordered_snoc; simpl; [done|lia|done|]. intros d Hd. by apply gaps_before.
Qed.

(** A free region ends in front of a mapped one, or at the last address. *)
Lemma free_region_end (l : list MemoryMapEntry) e :
  ordered 0 l -> e ∈ get_free_regions l ->
  MemoryMapEntry.end_address e = Cached.max_address get_sys_info \/
  exists d, d ∈ l /\ MemoryMapEntry.end_address e = MemoryMapEntry.start_address d - 1.
Proof.
  intros Ho. rewrite get_free_regions_gaps by done. intros [Hin|Hin]%elem_of_app.
  - right. by destruct (gaps_before _ _ _ Ho Hin).
  - left. destruct (_ <? _); [|by apply elem_of_nil in Hin].
    by apply list_elem_of_singleton in Hin as ->.
Qed.

Lemma ordered_start l last e :
  ordered last l -> e ∈ l -> last <= MemoryMapEntry.start_address e.
Proof.
  revert last. induction l as [|e0 l IH]; intros last Ho; [by intros ?%elem_of_nil|].
  destruct Ho as ([? ?] & _ & Ho). intros [->|He]%elem_of_cons; [lia|].
  specialize (IH _ Ho He). lia.
Qed.

(** ** Regions of any input

    Whatever the text holds, a free region is an interval of addresses. *)

Record region_ok (e : MemoryMapEntry) : Prop := {
  region_start : is_usize (MemoryMapEntry.start_address e);
  region_end : is_usize (MemoryMapEntry.end_address e);
  region_order : MemoryMapEntry.start_address e <= MemoryMapEntry.end_address e
}.

Definition usize_entry (e : MemoryMapEntry) : Prop :=
  is_usize (MemoryMapEntry.start_address e) /\ is_usize (MemoryMapEntry.end_address e).

Lemma ordered_usize last l : 0 <= last -> ordered last l -> Forall usize_entry l.
Proof.
  revert last. induction l as [|e l IH]; intros last Hl Hord; [done|].
  destruct Hord as ([? ?] & ? & Hord). constructor; [split; unfold is_usize; lia|].
  eapply IH; [|exact Hord]. lia.
Qed.

Lemma parse_memory_map_entry_range line e :
  parse_memory_map_entry line = Some e -> usize_entry e.
Proof.
  unfold parse_memory_map_entry. destruct (split_ascii_whitespace line) as [|r ?]; [done|].
  destruct (split_on "-" r) as [|a0 [|a1 [|]]]; try done.
  destruct (usize_from_hex a0) as [z0|] eqn:H0; [|done].
  destruct (usize_from_hex a1) as [z1|] eqn:H1; [|done].
  intros [= <-]. split; by eapply usize_from_hex_range.
Qed.

Lemma parse_lines_range lines : Forall usize_entry (parse_memory_map_from_lines lines).
Proof.
  induction lines as [|line lines IH]; [done|]. cbn [parse_memory_map_from_lines].
  destruct (parse_memory_map_entry line) eqn:E; [|done].
  constructor; [by eapply parse_memory_map_entry_range|done].
Qed.

Lemma free_regions_loop_ok l : forall free last,
  Forall usize_entry l -> is_usize last -> Forall region_ok free ->
  Forall region_ok (get_free_regions_loop l free last).1 /\
  is_usize (get_free_regions_loop l free last).2.
Proof.
  induction l as [|e l IH]; intros free last Hl Hlast Hfree; [done|].
  apply list.Forall_cons in Hl as [[Hs He] Hl]. cbn [get_free_regions_loop].
  apply IH; [done|done|]. simpl. rewrite Z.gtb_ltb.
  destruct (Z.ltb_spec last (MemoryMapEntry.start_address e)); [|done].
  unfold is_usize in *. apply Forall_app. split; [done|]. repeat constructor; simpl;
    try (apply Hlast); rewrite ?sub_usize_small by lia; lia.
Qed.

Lemma get_free_regions_ok `{HQ : !SysQueryOk} (l : list MemoryMapEntry) :
  Forall usize_entry l -> Forall region_ok (get_free_regions l).
Proof.
  intros Hl. unfold get_free_regions.
  assert (H0 : is_usize 0) by (unfold is_usize, usize_max; pose proof usize_modulus_pos; lia).
  destruct (free_regions_loop_ok l [] 0 Hl H0) as [Hf Hlast]; [done|].
  destruct (get_free_regions_loop l [] 0) as [free last]. simpl in *.
  destruct (Z.ltb_spec last (Cached.max_address get_sys_info)); [|done].
  apply Forall_app. split; [done|]. pose proof max_address_range.
  repeat constructor; simpl; unfold is_usize in *; lia.
Qed.

(** ** Lines as the kernel writes them *)

(** One line of the file: the range in hexadecimal, then the rest. *)
Record maps_line := {
  ml_entry : MemoryMapEntry;
  ml_digits : nat * nat;      (* width of the two numbers *)
  ml_rest : string
}.

Definition render_line (l : maps_line) : string :=
  hex_digits (ml_digits l).1 (MemoryMapEntry.start_address (ml_entry l)) +:+
  String "-" (hex_digits (ml_digits l).2 (MemoryMapEntry.end_address (ml_entry l)) +:+
  String " " (ml_rest l)).

Record line_ok (l : maps_line) : Prop := {
  lo_digits : (0 < (ml_digits l).1)%nat /\ (0 < (ml_digits l).2)%nat;
  lo_start : 0 <= MemoryMapEntry.start_address (ml_entry l) < 16 ^ Z.of_nat (ml_digits l).1;
  lo_end : 0 <= MemoryMapEntry.end_address (ml_entry l) < 16 ^ Z.of_nat (ml_digits l).2;
  lo_usize : MemoryMapEntry.start_address (ml_entry l) <= usize_max /\
    MemoryMapEntry.end_address (ml_entry l) <= usize_max;
  lo_rest : avoids (fun x => Ascii.eqb x "010") (ml_rest l)
}.

Lemma usize_from_hex_digits n z :
  (0 < n)%nat -> 0 <= z < 16 ^ Z.of_nat n -> z <= usize_max ->
  usize_from_hex (hex_digits n z) = Some z.
Proof.
  intros Hn Hz Hmax. destruct n as [|n]; [lia|].
  pose proof (parse_hex_digits usize_max (S n) z 0 ltac:(lia)) as Hp.
  rewrite Z.mod_small in Hp by lia. specialize (Hp ltac:(lia)).
  unfold usize_from_hex, from_str_radix. cbn [hex_digits] in *.
  assert (Hd : 0 <= z / 16 ^ Z.of_nat n mod 16 < 16) by (apply Z.mod_pos_bound; lia).
  destruct (hex_digit_plain _ Hd) as (_ & Hm & Hpl & _). rewrite Hm, Hpl.
  destruct (hex_digits n z); exact Hp.
Qed.

Lemma avoids_app Pr s t : avoids Pr s -> avoids Pr t -> avoids Pr (s +:+ t).
Proof.
  induction s as [|x s IH]; [done|]. rewrite append_cons. intros [? ?] ?. split; auto.
Qed.

Lemma hex_digits_not_empty n z : (0 < n)%nat -> hex_digits n z <> "".
Proof. destruct n; [lia|done]. Qed.

Lemma append_assoc (s t u : string) : (s +:+ t) +:+ u = s +:+ (t +:+ u).
Proof. induction s as [|x s IH]; [done|]. by rewrite !append_cons, IH. Qed.

Lemma parse_render_line l : line_ok l -> parse_memory_map_entry (render_line l) = Some (ml_entry l).
Proof.
  intros [[Hd1 Hd2] ? ? [? ?] _]. unfold parse_memory_map_entry, render_line, split_ascii_whitespace.
  set (h1 := hex_digits (ml_digits l).1 _). set (h2 := hex_digits (ml_digits l).2 _).
  replace (h1 +:+ String "-" (h2 +:+ String " " (ml_rest l)))
    with ((h1 +:+ String "-" h2) +:+ String " " (ml_rest l)) by
    (rewrite append_assoc, append_cons; done).
  rewrite split_whitespace_word.
  - rewrite append_nil, split_on_app, split_on_none by
      (apply hex_digits_avoid; intros; by apply hex_digit_plain).
    unfold h1, h2. rewrite !usize_from_hex_digits by done. by destruct (ml_entry l).
  - apply avoids_app; [|split; [done|]];
      apply hex_digits_avoid; intros; by apply hex_digit_plain.
  - done.
  - rewrite append_nil. apply append_not_empty.
Qed.

(** The text of the file: every line ends with a newline. *)
Fixpoint render_file (ls : list maps_line) : string :=
  match ls with
  | [] => ""
  | l :: ls' => render_line l +:+ String "010" (render_file ls')
  end.

Lemma render_line_no_newline l :
  line_ok l -> avoids (fun x => Ascii.eqb x "010") (render_line l).
Proof.
  intros [_ _ _ _ Hrest]. unfold render_line.
  apply avoids_app; [|split; [done|apply avoids_app; [|split; [done|done]]]];
    apply hex_digits_avoid; intros; by apply hex_digit_plain.
Qed.

Lemma parse_render_file ls :
  Forall line_ok ls ->
  parse_memory_map_from_lines (split_on "010" (render_file ls)) = ml_entry <$> ls.
Proof.
  induction 1 as [|l ls Hl Hls IH]; [done|]. cbn [render_file].
  rewrite split_on_app by (by apply render_line_no_newline). cbn [parse_memory_map_from_lines].
  rewrite parse_render_line by done. by rewrite IH.
Qed.

End regions.
