(* ===== verification/Posix.v ===== *)
(** * The system calls of Unix platforms, as the crate uses them

    The calls themselves are parameters; a call reads and changes the state of
    the operating system and always returns.  [read_to_string] and
    [parse_memory_map_from_process_id] of linux_map_parser.rs follow. *)

From Stdlib Require Import Ascii String.
From S2P Require Import Prelude SysInfo Text MapParser.

(** The crate itoa. *)
Class Itoa := { itoa_format : Z -> string }.

Inductive open_flags := O_RDONLY | O_RDWR | O_RDWR_CREAT.

(** Protection and flags of [mmap]. *)
Record mmap_flags := {
  prot_exec : bool;         (* PROT_EXEC beside PROT_READ | PROT_WRITE *)
  map_shared : bool;        (* MAP_SHARED, else MAP_PRIVATE | MAP_ANONYMOUS *)
  map_fixed_noreplace : bool
}.

Class Posix (OS : Type) := {
  posix_open (path : string) (flags : open_flags) : OS -> Z * OS;
  posix_close (fd : Z) : OS -> unit * OS;
  (** at most [n] bytes; [None] is an error *)
  posix_read (fd n : Z) : OS -> option string * OS;
  posix_ftruncate (fd len : Z) : OS -> unit * OS;
  posix_mmap (addr len : Z) (flags : mmap_flags) (fd off : Z) : OS -> Z * OS;
  posix_munmap (addr len : Z) : OS -> Z * OS;
  posix_unlink (path : string) : OS -> unit * OS;
  (** [Some st_mode] when the path exists *)
  posix_stat (path : string) : OS -> option Z * OS;
  posix_mkdir (path : string) : OS -> Z * OS;
  posix_opendir (path : string) : OS -> Z * OS;
  (** the name of the next entry, [None] at the end *)
  posix_readdir (dir : Z) : OS -> option string * OS;
  posix_closedir (dir : Z) : OS -> unit * OS;
  posix_kill (pid sig : Z) : OS -> Z * OS;
  posix_errno : OS -> Z * OS
}.

(** [libc::MAP_FAILED] as a [usize] *)
Definition MAP_FAILED `{Target} : Z := usize_max.

Section maps.
Context `{T : Target} `{Q : SysQuery} {OS : Type} `{PX : Posix OS} `{I : Itoa}.

(** The loop state of [read_to_string]: the content, and the capacity of the
    string that holds it.  [grow] is what [String::reserve] makes of the
    capacity; its contract is that the new capacity has room for what was asked. *)
Class StringAlloc := { string_capacity : Z -> Z; string_grow (len capacity additional : Z) : Z }.
Context `{SA : StringAlloc}.

Definition BUFFER_SIZE : Z := 131072.

Definition reserve (len capacity additional : Z) : Z :=
  if capacity - len <? additional then string_grow len capacity additional else capacity.

Definition read_to_string (path : string) : M OS string :=
  c_path ← CString_new path;
  fd ← call (posix_open c_path O_RDONLY);
  if fd <? 0 then panic "Can't read map file! Your Linux system is weird." else
  content ← loop (fun '(content, capacity) =>
    let current_len := Z.of_nat (String.length content) in
    let remaining_capacity := capacity - current_len in
    let capacity := reserve current_len capacity BUFFER_SIZE in
    bytes_read ← call (posix_read fd remaining_capacity);
    match bytes_read with
    | None => call (posix_close fd) ;; panic "Map read error"
    | Some EmptyString => mret (inr content)
    | Some bytes => mret (inl (content +:+ bytes, capacity))
    end) ("", string_capacity BUFFER_SIZE);
  call (posix_close fd) ;;
  mret content.

Definition parse_memory_map_from_process_id (process_id : Z) : M OS (list MemoryMapEntry) :=
  let maps_path := "/proc/" +:+ itoa_format process_id +:+ "/maps" in
  all_lines ← read_to_string maps_path;
  let lines := split_on "010" all_lines in
  mret (parse_memory_map_from_lines lines).

Definition get_free_regions_from_process_id (process_id : Z) : M OS (list MemoryMapEntry) :=
  regions ← parse_memory_map_from_process_id process_id;
  mret (get_free_regions regions).

End maps.
