(* ===== verification/PosixSpec.v ===== *)
(** * Documented behaviour of the Unix system calls

    What the code relies on of the calls of Posix.v, in terms of the bytes of
    live mappings ([owned]). *)

From Stdlib Require Import Ascii String.
From S2P Require Import Prelude SysInfo Text MapParser Posix Platform.

Section laws.
Context `{T : Target} `{Q : SysQuery} {OS : Type} `{Mem : Memory OS} `{PX : Posix OS} `{I : Itoa}.

(** The file that shows the mappings of a process. *)
Definition maps_path (process_id : Z) : string := "/proc/" +:+ itoa_format process_id +:+ "/maps".

(** Mappings, and the map file. *)
Class PosixLaws := {
  (** the processes whose map can be read; a process can read its own *)
  px_readable : Z -> Prop;
  px_self : px_readable (as_i32 (Cached.this_process_id get_sys_info));
  (** descriptors of map files, and the bytes left to read behind them *)
  px_maps : OS -> Z -> Prop;
  px_left : OS -> Z -> Z;
  px_open pid os :
    os_ok os -> px_readable pid ->
    let '(fd, os') := posix_open (maps_path pid) O_RDONLY os in
    0 <= fd /\ px_maps os' fd /\ keeps os os';
  px_left_range os fd : os_ok os -> px_maps os fd -> 0 <= px_left os fd <= usize_max;
  (** a read succeeds; a read of bytes advances in the file *)
  px_read fd n os :
    os_ok os -> px_maps os fd -> exists bytes, (posix_read fd n os).1 = Some bytes /\
      (bytes <> "" -> px_left (posix_read fd n os).2 fd < px_left os fd) /\
      px_maps (posix_read fd n os).2 fd /\ keeps os (posix_read fd n os).2;
  px_close fd os : os_ok os -> keeps os (posix_close fd os).2;
  (** without MAP_FIXED, a mapping is made in memory nobody owns, or the call
      fails; it fails with EINVAL for the length 0 *)
  px_mmap addr len flags fd off os :
    os_ok os -> 0 <= len ->
    let '(a, os') := posix_mmap addr len flags fd off os in
    os_ok os' /\
    ((a = MAP_FAILED /\ forall x, owned os' x <-> owned os x) \/
     (0 <= a /\ (map_fixed_noreplace flags = false -> a <> 0) /\ 0 < len /\ a + len <= usize_max /\
      (forall x, a <= x < a + len -> ~ owned os x) /\
      (forall x, owned os x \/ a <= x < a + len -> owned os' x)));
  (** only the given range is released, and that when the call succeeds;
      EINVAL for an address that is no multiple of the page size *)
  px_munmap addr len os :
    os_ok os ->
    let '(r, os') := posix_munmap addr len os in
    os_ok os' /\ (forall x, owned os' x -> owned os x) /\
    (forall x, owned os x -> ~ (addr <= x < addr + len) -> owned os' x) /\
    (addr mod 4096 <> 0 -> forall x, owned os x -> owned os' x) /\
    (r = 0 -> forall x, addr <= x < addr + len -> ~ owned os' x)
}.

(** Files and directories. *)
Class PosixFileLaws := {
  pf_open path flags os : os_ok os -> keeps os (posix_open path flags os).2;
  pf_ftruncate fd len os : os_ok os -> keeps os (posix_ftruncate fd len os).2;
  pf_stat path os : os_ok os -> keeps os (posix_stat path os).2;
  pf_mkdir path os : os_ok os -> keeps os (posix_mkdir path os).2;
  pf_opendir path os : os_ok os -> keeps os (posix_opendir path os).2;
  pf_closedir dir os : os_ok os -> keeps os (posix_closedir dir os).2;
  (** the entries left to read in an open directory *)
  pf_entries : OS -> Z -> Z;
  pf_entries_range os dir : os_ok os -> 0 <= pf_entries os dir <= usize_max;
  pf_readdir dir os :
    os_ok os -> keeps os (posix_readdir dir os).2 /\
    ((posix_readdir dir os).1 <> None ->
       pf_entries (posix_readdir dir os).2 dir < pf_entries os dir);
  (** nothing else adds entries to it *)
  pf_kill pid sig os :
    os_ok os -> keeps os (posix_kill pid sig os).2 /\
    forall dir, pf_entries (posix_kill pid sig os).2 dir <= pf_entries os dir;
  pf_errno os :
    os_ok os -> keeps os (posix_errno os).2 /\
    forall dir, pf_entries (posix_errno os).2 dir <= pf_entries os dir;
  pf_unlink path os :
    os_ok os -> keeps os (posix_unlink path os).2 /\
    forall dir, pf_entries (posix_unlink path os).2 dir <= pf_entries os dir
}.

(** The text of a number holds no NUL. *)
Definition paths_ok : Prop := forall z, has_nul (itoa_format z) = false.

Context `{PL : !PosixLaws}.

Lemma MAP_FAILED_unaligned : MAP_FAILED mod 4096 <> 0.
Proof. unfold MAP_FAILED, usize_max, usize_modulus. by destruct ptr_width. Qed.

(** A mapping, or nothing. *)
Lemma mmap_grows addr len flags fd off os :
  os_ok os -> 0 <= len -> grows os (posix_mmap addr len flags fd off os).2.
Proof.
  intros Hok Hlen. pose proof (px_mmap addr len flags fd off os Hok Hlen) as Hm.
  destruct (posix_mmap _ _ _ _ _ os) as [a os1]. destruct Hm as [Hok1 Hm]. split; [done|].
  intros x Hx. destruct Hm as [[_ Hm]|(_ & _ & _ & _ & _ & Hm)]; apply Hm; auto.
Qed.

End laws.
