(* ===== verification/MemoryMappedFiles.v ===== *)
(** * internal/memory_mapped_file_unix.rs and memory_mapped_file_windows.rs *)

From Stdlib Require Import Ascii String.
From S2P Require Import Prelude SysInfo Text Items Headers World MapParser Posix.

(** ** Unix *)

Module UnixMemoryMappedFile.
Import MemoryMappedFile.

(** The bytes of the heap that follow the contents of a Rust [String], up to
    the next NUL: a [String] is not NUL-terminated. *)
Class StringTail (OS : Type) := { string_tail (s : string) : OS -> string }.

Section unix.
Context `{T : Target} {OS : Type} `{PX : Posix OS} `{ST : StringTail OS}.

Definition BASE_DIR : string :=
  match target_os with
  | Android => "/sdcard/.reloaded/memory.buffers"
  | _ => "/tmp/.reloaded/memory.buffers"
  end.

(** [libc::S_IFDIR] *)
Definition S_IFDIR : Z := 16384.

(** One component: whether the loop goes on to the next one. *)
Definition create_dir_component (current_path : string) : M OS bool :=
  c_path ← CString_new current_path;
  stat_result ← call (posix_stat c_path);
  match stat_result with
  | None =>
      r ← call (posix_mkdir c_path);
      mret (r =? 0)
  | Some st_mode => mret (negb (Z.land st_mode S_IFDIR =? 0))
  end.

Fixpoint create_dir_components (components : list string) (current_path : string) : M OS unit :=
  match components with
  | [] => mret tt
  | component :: rest =>
      if String.eqb component "" then create_dir_components rest current_path else
      let current_path := current_path +:+ component in
      go_on ← create_dir_component current_path;
      if (go_on : bool) then create_dir_components rest (current_path +:+ "/") else mret tt
  end.

Definition create_dir_all (path : string) : M OS unit :=
  create_dir_components (split_on "/" path) "/".

(** [open_macos] and [open_unix] differ in the type of the mode only. *)
Definition open_unix (file_name : string) : M OS Z :=
  call (posix_open file_name O_RDWR_CREAT).

Definition new (name : string) (length : Z) : M OS UnixMemoryMappedFile :=
  let new_name := BASE_DIR +:+ name in
  file_name ← CString_new new_name;
  fd ← call (posix_open file_name O_RDWR);
  let already_existed := negb (fd =? -1) in
  fd ← (if already_existed then mret fd else
    create_dir_all BASE_DIR ;;
    fd ← open_unix file_name;
    if fd =? -1 then panic "Failed to open shared memory file." else
    call (posix_ftruncate fd length) ;;
    mret fd);
  data ← call (posix_mmap 0 length
    {| prot_exec := false; map_shared := true; map_fixed_noreplace := false |} fd 0);
  if data =? MAP_FAILED then panic "Failed to mmap shared memory file." else
  mret {| file_descriptor := fd; u_already_existed := already_existed; u_data := data;
          u_length := length; file_path := new_name |}.

(** [unlink] reads the path up to a NUL that the [String] does not have. *)
Definition drop (self : UnixMemoryMappedFile) : M OS unit :=
  call (posix_munmap (u_data self) (u_length self)) ;;
  call (posix_close (file_descriptor self)) ;;
  if negb (u_already_existed self) then
    os ← get_state;
    call (posix_unlink (file_path self +:+ string_tail (file_path self) os))
  else mret tt.

End unix.
End UnixMemoryMappedFile.

(** ** Windows *)

Class WindowsFiles (OS : Type) := {
  (** 0 when no file mapping has the name *)
  OpenFileMappingA (name : string) : OS -> Z * OS;
  CreateFileMappingA (size : Z) (name : string) : OS -> Z * OS;
  MapViewOfFile (handle length : Z) : OS -> Z * OS;
  UnmapViewOfFile (addr : Z) : OS -> unit * OS;
  CloseHandle (handle : Z) : OS -> unit * OS
}.

Module WindowsMemoryMappedFile.
Import MemoryMappedFile.
Section windows.
Context {OS : Type} `{WF : WindowsFiles OS}.

Definition new (name : string) (length : Z) : M OS WindowsMemoryMappedFile :=
  file_name ← CString_new name;
  map_handle ← call (OpenFileMappingA file_name);
  '(map_handle, already_existed) ←
    (if map_handle =? 0 then
       h ← call (CreateFileMappingA (as_u32 length) file_name);
       mret (h, false)
     else mret (map_handle, true));
  data ← call (MapViewOfFile map_handle length);
  mret {| w_already_existed := already_existed; w_data := data; w_length := length;
          map_handle := map_handle |}.

Definition drop (self : WindowsMemoryMappedFile) : M OS unit :=
  call (UnmapViewOfFile (w_data self)) ;;
  call (CloseHandle (map_handle self)).

End windows.
End WindowsMemoryMappedFile.
