(* ===== verification/Finder.v ===== *)
(** * internal/locator_header_finder.rs

    How a process finds the first locator.  The lock [GLOBAL_LOCK] is taken
    and released inside [find]; what two threads do to each other there is in
    ChainThreads.v. *)

From Stdlib Require Import Ascii String.
From S2P Require Import Prelude SysInfo Settings Errors Text Items Headers World ItemOps.
From S2P Require Import MapParser Posix MemoryMappedFiles Platform HeaderOps.

(** The header that a view of an existing file shows: the file's contents. *)
Class SharedViews (OS : Type) := { view_header (data : Z) : OS -> option LocatorHeader }.

Module LocatorHeaderFinder.
Section finder.
Context `{T : Target} `{Q : SysQuery} {OS : Type} `{Sch : Scheduler OS} `{P : Platform OS}
  `{PX : Posix OS} `{ST : UnixMemoryMappedFile.StringTail OS} `{WF : WindowsFiles OS}
  `{SV : SharedViews OS} `{I : Itoa}.

Definition open_or_create_memory_mapped_file : M OS MemoryMappedFile.MemoryMappedFile :=
  let name := "/Reloaded.Memory.Buffers.MemoryBuffer, PID "
    +:+ itoa_format (Cached.this_process_id get_sys_info) in
  if cfg_windows then
    f ← WindowsMemoryMappedFile.new name (wrap_usize (Cached.allocation_granularity get_sys_info));
    mret (MemoryMappedFile.Win f)
  else
    f ← UnixMemoryMappedFile.new name (wrap_usize (Cached.allocation_granularity get_sys_info));
    mret (MemoryMappedFile.Unix f).

(** The drop glue of [Box<dyn MemoryMappedFile>]. *)
Definition drop_mmf (f : MemoryMappedFile.MemoryMappedFile) : M OS unit :=
  match f with
  | MemoryMappedFile.Unix f => UnixMemoryMappedFile.drop f
  | MemoryMappedFile.Win f => WindowsMemoryMappedFile.drop f
  end.

Definition MEMORY_MAPPED_FILE_PREFIX : string := "Reloaded.Memory.Buffers.MemoryBuffer, PID ".

Definition EPERM : Z := 1.

Definition is_process_running (pid : Z) : M OS bool :=
  r ← call (posix_kill pid 0);
  if r =? 0 then mret true else
  e ← call posix_errno;
  mret (e =? EPERM).

Definition cleanup_entry (file_name : string) : M OS unit :=
  if negb (valid_utf8 file_name) then mret tt else
  if negb (starts_with file_name MEMORY_MAPPED_FILE_PREFIX) then mret tt else
  match strip_prefix MEMORY_MAPPED_FILE_PREFIX file_name with
  | None => mret tt
  | Some pid_str =>
      match parse_i32 pid_str with
      | None => mret tt
      | Some pid =>
          running ← is_process_running pid;
          if negb running then call (posix_unlink file_name) else mret tt
      end
  end.

Definition cleanup : M OS unit :=
  c_mmf_directory ← CString_new UnixMemoryMappedFile.BASE_DIR;
  dir ← call (posix_opendir c_mmf_directory);
  if dir =? 0 then mret tt else
  loop (fun _ : unit =>
    entry ← call (posix_readdir dir);
    match entry with
    | None => mret (inr tt)
    | Some file_name => cleanup_entry file_name ;; mret (inl tt)
    end) tt ;;
  call (posix_closedir dir).

Definition init_locatorheader_standard : M (World OS) Z :=
  mmf ← lift_os open_or_create_memory_mapped_file;
  if MemoryMappedFile.already_existed mmf then
    w ← get_state;
    match view_header (MemoryMappedFile.data mmf) (w_os w) with
    | None => fault
    | Some header =>
        modify (set_locator_header_address (LocatorHeader.this_address header)) ;;
        w ← get_state;
        let r := w_locator_header_address w in
        lift_os (drop_mmf mmf) ;;
        mret r
    end
  else
    (if cfg_unix then lift_os cleanup else mret tt) ;;
    modify (set_locator_header_address (MemoryMappedFile.data mmf)) ;;
    w ← get_state;
    HeaderPtr.initialize (w_locator_header_address w) (MemoryMappedFile.length mmf) ;;
    w ← get_state;
    let old := w_mmf w in
    modify (set_mmf (Some mmf)) ;;
    match old with Some old => lift_os (drop_mmf old) | None => mret tt end ;;
    w ← get_state;
    mret (w_locator_header_address w).

Definition init_locatorheader_memorymappedfiles_unsupported : M (World OS) Z :=
  let sys_info := get_sys_info in
  let settings :=
    {| BufferAllocatorSettings.min_address := 0;
       BufferAllocatorSettings.max_address := Cached.max_address sys_info;
       BufferAllocatorSettings.size := as_u32 (Cached.allocation_granularity sys_info);
       BufferAllocatorSettings.target_process_id := Cached.this_process_id sys_info;
       BufferAllocatorSettings.retry_count := 8;
       BufferAllocatorSettings.brute_force := true |} in
  '(_, r) ← lift_os (allocate settings);
  match r with
  | Err _ => panic "called `Result::unwrap()` on an `Err` value: BufferAllocationError"
  | Ok allocation =>
      modify (set_locator_header_address (LocatorItem.base_address allocation)) ;;
      w ← get_state;
      HeaderPtr.initialize (w_locator_header_address w) (LocatorItem.size allocation) ;;
      w ← get_state;
      mret (w_locator_header_address w)
  end.

(** What [find] runs under the lock: the choice is made at build time. *)
Definition init_locatorheader : M (World OS) Z :=
  if bool_decide (target_os = Android) || feature_all_private
  then init_locatorheader_memorymappedfiles_unsupported
  else init_locatorheader_standard.

Definition find : M (World OS) Z :=
  w ← get_state;
  if negb (w_locator_header_address w =? 0) then mret (w_locator_header_address w)
  else init_locatorheader.

End finder.
End LocatorHeaderFinder.
