(* ===== verification/MmfSpec.v ===== *)
(** * What the memory-mapped file of a locator does

    Opening or creating the file maps it in memory nobody owned; dropping it
    releases that mapping and nothing else; cleaning up the directory ends. *)

From Stdlib Require Import Ascii String.
From S2P Require Import Prelude SysInfo Settings Errors Text Items Headers World MapParser Posix.
From S2P Require Import Platform PosixSpec MemoryMappedFiles HeaderOps Finder.

(** One step of code that may panic. *)
Ltac wpp_step :=
  lazymatch goal with
  | |- wp_or_panic (_ ≫= _) _ _ => apply wp_or_panic_bind
  | |- wp_or_panic (CString_new ?s) _ _ =>
      unfold CString_new; destruct (has_nul s); [exact I|]
  | |- wp_or_panic (panic _) _ _ => exact I
  | |- wp_or_panic _ _ _ => apply wp_wp_or_panic; wp_step
  end.

Section unix.
Context `{T : Target} `{Q : SysQuery} {OS : Type} `{Mem : Memory OS} `{PX : Posix OS} `{I : Itoa}
  `{PL : !PosixLaws} `{PF : !PosixFileLaws} `{ST : UnixMemoryMappedFile.StringTail OS}.
Implicit Types os : OS.
Import MemoryMappedFile UnixMemoryMappedFile.

(** ** The directory *)

Lemma create_dir_component_keeps path os :
  os_ok os -> wp_or_panic (create_dir_component path) (fun _ os' => keeps os os') os.
Proof.
  intros Hok. unfold create_dir_component. do 5 wpp_step.
  pose proof (pf_stat path os Hok) as Hk. destruct (posix_stat path os) as [[st|] os1]; simpl in *.
  - by wpp_step.
  - wpp_step. wpp_step. wpp_step. eapply keeps_trans; [exact Hk|]. apply pf_mkdir, Hk.
Qed.

Lemma create_dir_all_keeps path os :
  os_ok os -> wp_or_panic (create_dir_all path) (fun _ os' => keeps os os') os.
Proof.
  unfold create_dir_all. generalize (split_on "/" path) as l.
  generalize "/"%string as current. intros current l. revert os current.
  induction l as [|c l IH]; intros os current Hok; cbn [create_dir_components]; [by wpp_step|].
  destruct (String.eqb c ""); [by apply IH|]. wpp_step.
  eapply wp_or_panic_mono; [by apply create_dir_component_keeps|]. intros [|] os1 Hk; [|by wpp_step].
  eapply wp_or_panic_mono; [apply IH, Hk|]. intros [] os2. by apply keeps_trans.
Qed.

(** ** The file *)

(** A mapping of [length] bytes made between two states of the system. *)
Record mapped_file (length : Z) (f : UnixMemoryMappedFile) (os os' : OS) : Prop := {
  mf_grows : grows os os';
  mf_length : u_length f = length;
  mf_pos : 0 < u_data f;
  mf_end : u_data f + length <= usize_max;
  mf_fresh x : u_data f <= x < u_data f + length -> ~ owned os x /\ owned os' x
}.

Lemma new_maps name length os :
  os_ok os -> 0 <= length ->
  wp_or_panic (new name length) (fun f os' => mapped_file length f os os') os.
Proof.
  intros Hok Hlen. unfold new. do 5 wpp_step.
  pose proof (pf_open (BASE_DIR +:+ name) O_RDWR os Hok) as Hk1.
  destruct (posix_open _ _ os) as [fd os1]. simpl in *.
  wpp_step. apply (wp_or_panic_mono _ (fun _ os2 => keeps os os2)).
  { destruct (negb _); [by wpp_step|]. wpp_step.
    eapply wp_or_panic_mono; [apply create_dir_all_keeps, Hk1|]. intros [] os2 Hk2.
    pose proof (keeps_trans _ _ _ Hk1 Hk2) as Hk. wpp_step. unfold open_unix. wpp_step.
    pose proof (keeps_trans _ _ _ Hk (pf_open (BASE_DIR +:+ name) O_RDWR_CREAT os2 (proj1 Hk)))
      as Hk3. destruct (_ =? -1); [wpp_step|]. wpp_step. wpp_step. wpp_step.
    eapply keeps_trans; [exact Hk3|]. apply pf_ftruncate, Hk3. }
  intros fd' os2 Hk2. wpp_step. wpp_step. set (flags := {| prot_exec := false |}).
  pose proof (mmap_grows 0 length flags fd' 0 os2 (proj1 Hk2) Hlen) as Hg.
  pose proof (px_mmap 0 length flags fd' 0 os2 (proj1 Hk2) Hlen) as Hm.
  destruct (posix_mmap 0 length flags fd' 0 os2) as [a os3]. simpl in *. destruct Hm as [_ Hm].
  destruct (Z.eqb_spec a MAP_FAILED) as [|Hne]; [wpp_step|]. wpp_step.
  destruct Hm as [[? _]|(? & Ha & ? & ? & Hfree & Hown)]; [done|]. specialize (Ha eq_refl).
  constructor; simpl; [|done|lia|done|].
  - eapply grows_trans; [by apply keeps_grows|done].
  - intros x Hx. split; [|apply Hown; by right]. intros Ho. apply (Hfree x Hx). by apply Hk2.
Qed.

(** Dropping the mapping gives back what was there before it, and nothing of
    the mapping is left when the unmapping succeeds. *)
Lemma drop_restores length f os0 os :
  mapped_file length f os0 os -> grows os0 os ->
  wp (drop f) (fun _ os' => grows os0 os' /\
    ((posix_munmap (u_data f) (u_length f) os).1 = 0 ->
     forall x, u_data f <= x < u_data f + length -> ~ owned os' x)) os.
Proof.
  intros Hf [Hok Hg]. unfold drop. wp_step. apply wp_call.
  pose proof (px_munmap (u_data f) (u_length f) os Hok) as Hm.
  destruct (posix_munmap _ _ os) as [r os1]. destruct Hm as (Hok1 & _ & Hkeep & _ & Hgone).
  rewrite (mf_length _ _ _ _ Hf) in Hgone. cbn [fst snd].
  assert (Hg1 : grows os0 os1).
  { split; [done|]. intros x Hx. apply Hkeep; [by apply Hg|]. rewrite (mf_length _ _ _ _ Hf).
    intros Hin. by apply (mf_fresh _ _ _ _ Hf x Hin). }
  assert (Hfin : forall os2, keeps os1 os2 -> grows os0 os2 /\
    (r = 0 -> forall x, u_data f <= x < u_data f + length -> ~ owned os2 x)).
  { intros os2 Hk. split; [by eapply grows_trans, keeps_grows|]. intros Hr x Hx Ho.
    apply (Hgone Hr x Hx). by apply Hk. }
  wp_step. apply wp_call. pose proof (px_close (file_descriptor f) os1 Hok1) as Hk2.
  destruct (negb _); [|wp_step; by apply Hfin]. wp_step. wp_step. apply wp_call.
  apply Hfin. eapply keeps_trans; [exact Hk2|]. apply pf_unlink, Hk2.
Qed.

(** ** Cleaning up *)

Import LocatorHeaderFinder.

(** Between two reads of the directory: no entry is added. *)
Definition no_entry_added (os os' : OS) : Prop :=
  keeps os os' /\ forall dir, pf_entries os' dir <= pf_entries os dir.

Lemma no_entry_added_trans os1 os2 os3 :
  no_entry_added os1 os2 -> no_entry_added os2 os3 -> no_entry_added os1 os3.
Proof.
  intros [H1 E1] [H2 E2]. split; [by eapply keeps_trans|]. intros dir.
  specialize (E1 dir). specialize (E2 dir). lia.
Qed.

Lemma cleanup_entry_spec name os :
  os_ok os -> wp (cleanup_entry name) (fun _ os' => no_entry_added os os') os.
Proof.
  intros Hok. assert (Hrefl : no_entry_added os os) by (split; [by split|lia]).
  unfold cleanup_entry. destruct (negb _); [by wp_step|]. destruct (negb _); [by wp_step|].
  destruct (strip_prefix _ _); [|by wp_step]. destruct (parse_i32 _) as [pid|]; [|by wp_step].
  wp_step. unfold is_process_running. wp_step. apply wp_call.
  pose proof (pf_kill pid 0 os Hok) as H1. set (os1 := (posix_kill pid 0 os).2) in *.
  apply (wp_mono _ (fun _ os2 => no_entry_added os os2)).
  { destruct (_ =? 0); [by wp_step|]. wp_step. apply wp_call. wp_step.
    eapply no_entry_added_trans; [exact H1|]. apply pf_errno, H1. }
  intros running os2 H2. destruct (negb running); [|by wp_step]. apply wp_call.
  eapply no_entry_added_trans; [exact H2|]. apply pf_unlink, H2.
Qed.

Lemma cleanup_spec os : os_ok os -> wp cleanup (fun _ os' => keeps os os') os.
Proof.
  intros Hok. unfold cleanup, CString_new.
  assert (has_nul BASE_DIR = false) as -> by (unfold BASE_DIR; by destruct target_os).
  wp_step. wp_step. wp_step. apply wp_call. pose proof (pf_opendir BASE_DIR os Hok) as Hk1.
  destruct (posix_opendir _ os) as [dir os1]. simpl in *.
  destruct (dir =? 0); [by wp_step|]. wp_step.
  apply (wp_mono _ (fun _ os2 => keeps os os2)).
  - pose proof (pf_entries_range os1 dir (proj1 Hk1)) as Hrange.
    apply (wp_loop _ (fun m _ os2 => keeps os os2 /\ m = pf_entries os2 dir))
      with (n := pf_entries os1 dir); [|done|pose proof (usize_lt_loop _ Hrange); lia].
    intros m [] os2 [Hk2 ->] _. wp_step. apply wp_call.
    destruct (pf_readdir dir os2 (proj1 Hk2)) as [Hk3 Hdec].
    destruct (posix_readdir dir os2) as [[name|] os3]; simpl in *; wp_step;
      [|by eapply keeps_trans].
    pose proof (keeps_trans _ _ _ Hk2 Hk3) as Hk. specialize (Hdec ltac:(done)).
    eapply wp_mono; [apply cleanup_entry_spec, Hk3|]. intros [] os4 [Hk4 He]. wp_step.
    specialize (He dir). exists (pf_entries os4 dir). pose proof (pf_entries_range os4 dir (proj1 Hk4)).
    split; [lia|]. split; [by eapply keeps_trans|done].
  - intros [] os2 Hk2. apply wp_call. eapply keeps_trans; [exact Hk2|]. apply pf_closedir, Hk2.
Qed.

Context `{WF : WindowsFiles OS}.

Lemma open_or_create_spec os :
  cfg_windows = false -> os_ok os -> 0 <= granularity ->
  wp_or_panic open_or_create_memory_mapped_file (fun m os' => exists f,
    m = MemoryMappedFile.Unix f /\ mapped_file granularity f os os') os.
Proof.
  intros Hw Hok Hg. unfold open_or_create_memory_mapped_file. rewrite Hw. wpp_step.
  eapply wp_or_panic_mono; [by apply new_maps|]. intros f os' Hf. wpp_step. eauto.
Qed.

End unix.
