(* ===== verification/MappedFile.v ===== *)
(** * The mapped file, as the search for the first locator uses it

    The class [MappedFileLaws] is what the finder relies on: opening the file
    maps one granule that nobody owned, dropping it right away gives the memory
    back, and the cleanup of the directory ends.  The Unix file (MmfSpec.v) and
    the file mappings of Windows implement it. *)

From Stdlib Require Import Ascii String.
From S2P Require Import Prelude SysInfo Settings Errors Text Items Headers World MapParser Posix.
From S2P Require Import Platform PosixSpec MemoryMappedFiles HeaderOps HeaderNext Finder MmfSpec.
Import LocatorHeaderFinder.

Section interface.
Context `{T : Target} `{Q : SysQuery} {OS : Type} `{Mem : Memory OS} `{PX : Posix OS} `{I : Itoa}
  `{ST : UnixMemoryMappedFile.StringTail OS} `{WF : WindowsFiles OS}.
Implicit Types os : OS.

(** A mapping of one granule made between two states of the system. *)
Record mapped_granule (m : MemoryMappedFile.MemoryMappedFile) os os' : Prop := {
  mg_grows : grows os os';
  mg_length : MemoryMappedFile.length m = granularity;
  mg_pos : 0 < MemoryMappedFile.data m;
  mg_end : MemoryMappedFile.data m + granularity <= usize_max;
  mg_fresh x : MemoryMappedFile.data m <= x < MemoryMappedFile.data m + granularity ->
    ~ owned os x /\ owned os' x
}.

(** The Windows code does not test the result of [MapViewOfFile]. *)
Definition view_made (m : MemoryMappedFile.MemoryMappedFile) : Prop :=
  cfg_windows = true -> MemoryMappedFile.data m <> 0.

(** The call that unmaps the file succeeds; the code does not look.  On Windows
    it is given a view that was made, and releases it. *)
Definition unmap_succeeds (m : MemoryMappedFile.MemoryMappedFile) os : Prop :=
  match m with
  | MemoryMappedFile.Unix f =>
      (posix_munmap (MemoryMappedFile.u_data f) (MemoryMappedFile.u_length f) os).1 = 0
  | MemoryMappedFile.Win f => True
  end.

(** What was owned in [os] is owned in [os2], and nothing of the mapping. *)
Definition unmapped_file (m : MemoryMappedFile.MemoryMappedFile) os os' os2 : Prop :=
  grows os os2 /\ (unmap_succeeds m os' -> forall x,
    MemoryMappedFile.data m <= x < MemoryMappedFile.data m + granularity -> ~ owned os2 x).

Class MappedFileLaws := {
  mm_open os :
    os_ok os -> wp_or_panic open_or_create_memory_mapped_file (fun m os' => view_made m ->
      mapped_granule m os os' /\
      wp (drop_mmf m) (fun _ os2 => unmapped_file m os os' os2) os') os;
  mm_cleanup os : cfg_unix = true -> os_ok os -> wp cleanup (fun _ os' => keeps os os') os
}.

End interface.

(** ** Unix *)

Section unix.
Context `{T : Target} `{Q : SysQuery} `{HQ : !SysQueryOk} {OS : Type} `{Mem : Memory OS}
  `{PX : Posix OS} `{I : Itoa} `{PL : !PosixLaws} `{PF : !PosixFileLaws}
  `{ST : UnixMemoryMappedFile.StringTail OS} `{WF : WindowsFiles OS}.

Definition unix_mapped_files : cfg_windows = false -> MappedFileLaws.
Proof.
  intros Hw. constructor.
  - intros os Hok. pose proof granularity_range as Hg.
    eapply wp_or_panic_mono; [apply open_or_create_spec; [done|done|lia]|].
    intros m os' (f & -> & Hf) _. split.
    + destruct Hf as [? Hlen ? ? ?]. by constructor.
    + eapply drop_restores; [exact Hf|apply Hf].
  - intros os _. apply cleanup_spec.
Defined.

End unix.

(** ** Windows *)

Section windows.
Context `{T : Target} `{Q : SysQuery} `{HQ : !SysQueryOk} {OS : Type} `{Mem : Memory OS}
  `{PX : Posix OS} `{I : Itoa} `{ST : UnixMemoryMappedFile.StringTail OS} `{WF : WindowsFiles OS}.
Implicit Types os : OS.

(** File mappings are backed by the paging file and use no addresses; a view
    is made in memory nobody owns, or the call returns null; only the view
    given is released. *)
Class WindowsFileLaws := {
  wf_open name os : os_ok os -> keeps os (OpenFileMappingA name os).2;
  wf_create n name os : os_ok os -> keeps os (CreateFileMappingA n name os).2;
  wf_close h os : os_ok os -> keeps os (CloseHandle h os).2;
  (** the views of the process *)
  wf_view : OS -> Z -> Z -> Prop;
  wf_map h len os :
    os_ok os -> 0 < len ->
    let '(a, os') := MapViewOfFile h len os in
    grows os os' /\
    (a <> 0 -> 0 < a /\ a + len <= usize_max /\ wf_view os' a len /\
      (forall x, a <= x < a + len -> ~ owned os x /\ owned os' x));
  wf_unmap a len os :
    os_ok os -> wf_view os a len ->
    let os' := (UnmapViewOfFile a os).2 in
    os_ok os' /\ (forall x, owned os x -> ~ (a <= x < a + len) -> owned os' x) /\
    forall x, a <= x < a + len -> ~ owned os' x
}.
Context `{WL : !WindowsFileLaws}.
Import MemoryMappedFile WindowsMemoryMappedFile.

(** The view of the file, or null. *)
Definition viewed (length : Z) (f : WindowsMemoryMappedFile) os os' : Prop :=
  w_length f = length /\ grows os os' /\
  (w_data f <> 0 -> 0 < w_data f /\ w_data f + length <= usize_max /\
    wf_view os' (w_data f) length /\
    forall x, w_data f <= x < w_data f + length -> ~ owned os x /\ owned os' x).

Lemma windows_new_spec name length os :
  os_ok os -> 0 < length ->
  wp_or_panic (new name length) (fun f os' => viewed length f os os') os.
Proof.
  intros Hok Hlen. unfold new. do 5 wpp_step.
  pose proof (wf_open name os Hok) as Hk1. destruct (OpenFileMappingA name os) as [h os1].
  simpl in *. wpp_step. apply (wp_or_panic_mono _ (fun _ os2 => keeps os os2)).
  { destruct (h =? 0); [|by wpp_step]. wpp_step. wpp_step. wpp_step.
    eapply keeps_trans; [exact Hk1|]. apply wf_create, Hk1. }
  intros [h' existed] os2 Hk2. wpp_step. wpp_step.
  pose proof (wf_map h' length os2 (proj1 Hk2) Hlen) as Hm.
  destruct (MapViewOfFile h' length os2) as [a os3]. destruct Hm as [Hg Hm]. simpl.
  wpp_step. split; [done|]. split; [eapply grows_trans; [by apply keeps_grows|done]|].
  simpl. intros (? & ? & ? & Hf)%Hm. split; [done|]. split; [done|]. split; [done|].
  intros x Hx. destruct (Hf x Hx) as [Hno ?]. split; [|done]. intros Ho. by apply Hno, Hk2.
Qed.

Lemma windows_drop_spec length f os os' :
  viewed length f os os' -> w_data f <> 0 ->
  wp (drop f) (fun _ os2 => grows os os2 /\
    forall x, w_data f <= x < w_data f + length -> ~ owned os2 x) os'.
Proof.
  intros (_ & [Hok Hg] & Hv) Hne. destruct (Hv Hne) as (_ & _ & Hview & Hf).
  unfold drop. wp_step. apply wp_call.
  destruct (wf_unmap _ _ _ Hok Hview) as (Hok2 & Hkeep & Hgone). apply wp_call. split.
  - eapply grows_trans; [|by apply keeps_grows, wf_close]. split; [done|].
    intros x Hx. apply Hkeep; [by apply Hg|]. intros Hin. by apply (Hf x Hin).
  - intros x Hx Ho. apply (Hgone x Hx). by apply (wf_close (map_handle f) _ Hok2).
Qed.

Definition windows_mapped_files : cfg_windows = true -> MappedFileLaws.
Proof.
  intros Hw. constructor.
  - intros os Hok. pose proof granularity_range as [Hg _].
    unfold open_or_create_memory_mapped_file. rewrite Hw. wpp_step.
    eapply wp_or_panic_mono; [by apply windows_new_spec|]. intros f os' Hf. wpp_step.
    intros Hmade. specialize (Hmade Hw). simpl in Hmade. split.
    + destruct Hf as (? & ? & Hv). destruct (Hv Hmade) as (? & ? & _ & ?). by constructor.
    + eapply wp_mono; [by apply (windows_drop_spec granularity f os os' Hf)|]. by intros [] os2 [? ?].
  - intros os Hu. unfold cfg_unix in Hu. by rewrite Hw in Hu.
Defined.

End windows.
