(* ===== verification/Buffers.v ===== *)
(** * buffers.rs and structs/private_allocation.rs: the public operations *)

From S2P Require Import Prelude Mathematics SysInfo Settings Errors Items Headers World ItemOps.
From S2P Require Import MapParser Posix MemoryMappedFiles Platform Kernel32 HeaderOps Finder.
Import CodePages.

(** ** [PrivateAllocation] *)

Module PrivateAllocation.

Record PrivateAllocation := {
  base_address : Z;       (* NonNull<u8> *)
  size : Z;               (* usize *)
  this_process_id : Z     (* u32 *)
}.

Definition new (base_address size process_id : Z) : PrivateAllocation :=
  {| base_address := base_address; size := size; this_process_id := process_id |}.

(** [NonNull::new_unchecked(null_mut())] *)
Definition null : PrivateAllocation :=
  {| base_address := 0; size := 0; this_process_id := 0 |}.

(** The ways of macOS and of mmap-rs to release memory. *)
Class Releases (OS : Type) := {
  mach_vm_deallocate (addr size : Z) : OS -> Z * OS;
  (** MmapOptions::new(size).unwrap().with_address(..).map_from_existing().unwrap(),
      then the drop of the mapping; [false] when one of the two is an error *)
  mmap_rs_unmap_existing (addr size : Z) : OS -> bool * OS
}.

Section private.
Context `{T : Target} `{Q : SysQuery} {OS : Type} `{PX : Posix OS} `{WM : WindowsMemory OS}
  `{R : Releases OS}.

Definition drop_windows (self : PrivateAllocation) : M OS unit :=
  _ ← call (VirtualFree (base_address self) 0 MEM_RELEASE);
  mret tt.

Definition drop_macos (self : PrivateAllocation) : M OS unit :=
  if this_process_id self =? Cached.this_process_id get_sys_info then
    _ ← call (mach_vm_deallocate (base_address self) (size self));
    mret tt
  else mret tt.

Definition drop_unix (self : PrivateAllocation) : M OS unit :=
  if this_process_id self =? Cached.this_process_id get_sys_info then
    _ ← call (posix_munmap (base_address self) (size self));
    mret tt
  else mret tt.

Definition drop_mmap_rs (self : PrivateAllocation) : M OS unit :=
  ok ← call (mmap_rs_unmap_existing (base_address self) (size self));
  if (ok : bool) then mret tt else panic "called `Result::unwrap()` on an `Err` value".

Definition drop (self : PrivateAllocation) : M OS unit :=
  match target_os with
  | Windows => drop_windows self
  | Linux => drop_unix self
  | MacOS => drop_macos self
  | _ => drop_mmap_rs self
  end.

End private.
End PrivateAllocation.
Abbreviation PrivateAllocation := PrivateAllocation.PrivateAllocation.

Module Buffers.
Section buffers.
Context `{T : Target} `{Q : SysQuery} {OS : Type} `{Sch : Scheduler OS} `{P : Platform OS}.

Definition allocate_private_memory (settings : BufferAllocatorSettings)
    : M OS (BufferAllocatorSettings * result PrivateAllocation BufferAllocationError) :=
  '(settings, r) ← allocate settings;
  match r with
  | Err e => mret (settings, Err e)
  | Ok alloc =>
      if LocatorItem.base_address alloc =? 0
      then panic "called `Option::unwrap()` on a `None` value"
      else mret (settings, Ok (PrivateAllocation.new (LocatorItem.base_address alloc)
             (LocatorItem.size alloc) (BufferAllocatorSettings.target_process_id settings)))
  end.

(** The recursion is a tail call on the next locator: a loop over locators. *)
Definition get_buffer_recursive (settings : BufferSearchSettings) (locator : Z)
    : M (World OS) (result SafeLocatorItem BufferSearchError) :=
  loop (fun locator =>
    item ← HeaderPtr.get_first_available_item_locked locator
      (BufferSearchSettings.size settings) (BufferSearchSettings.min_address settings)
      (BufferSearchSettings.max_address settings);
    match item with
    | Some item => mret (inr (Ok item))
    | None =>
        result ← HeaderPtr.try_allocate_item locator (BufferSearchSettings.size settings)
          (BufferSearchSettings.min_address settings) (BufferSearchSettings.max_address settings);
        match result with
        | Ok new_item => mret (inr (Ok new_item))
        | Err error =>
            if bool_decide (error = ItemAllocationError.CannotAllocateMemory) then
              mret (inr (Err {| BufferSearchError.settings := settings;
                BufferSearchError.text := ItemAllocationError.as_string error |}))
            else
              next_locator ← HeaderPtr.get_next_locator locator;
              match next_locator with
              | Ok locator => mret (inl locator)
              | Err error =>
                  mret (inr (Err {| BufferSearchError.settings := settings;
                    BufferSearchError.text := error |}))
              end
        end
    end) locator.

Context `{PX : Posix OS} `{ST : UnixMemoryMappedFile.StringTail OS} `{WF : WindowsFiles OS}
  `{SV : SharedViews OS} `{I : Itoa}.

Definition get_buffer (settings : BufferSearchSettings)
    : M (World OS) (result SafeLocatorItem BufferSearchError) :=
  locator ← LocatorHeaderFinder.find;
  get_buffer_recursive settings locator.

(** The part of [get_buffer_aligned] behind the search. *)
Definition align_item (item : SafeLocatorItem) (alignment : Z) : M (World OS) unit :=
  let locator_item := SafeLocatorItem.item item in
  it ← load_item locator_item;
  let address := LocatorItem.base_address it +u LocatorItem.position it in
  let aligned_address := round_up address alignment in
  let delta := aligned_address -u address in
  store_item locator_item
    (LocatorItem.set_position (LocatorItem.position it +u32 as_u32 delta) it).

Definition get_buffer_aligned (settings : BufferSearchSettings) (alignment : Z)
    : M (World OS) (result SafeLocatorItem BufferSearchError) :=
  let max_misalignment := if alignment - 1 <? 0 then 0 else alignment - 1 in
  let new_settings :=
    BufferSearchSettings.set_size (BufferSearchSettings.size settings +u32 max_misalignment)
      settings in
  result ← get_buffer new_settings;
  match result with
  | Err e => mret (Err e)
  | Ok item => align_item item alignment ;; mret (Ok item)
  end.

(** [callback] is user code: an arbitrary change of memory. *)
Definition overwrite_allocated_code (source target size : Z) : M (World OS) unit :=
  disable_write_xor_execute target size ;;
  copy_nonoverlapping source target size ;;
  restore_write_xor_execute target size ;;
  clear_instruction_cache target (target +u size).

Definition overwrite_allocated_code_ex (source target size : Z)
    (callback : Z -> Z -> Z -> M (World OS) unit) : M (World OS) unit :=
  disable_write_xor_execute target size ;;
  callback source target size ;;
  restore_write_xor_execute target size ;;
  clear_instruction_cache target (target +u size).

End buffers.
End Buffers.
