(* ===== verification/Places.v ===== *)
(** * Places: when there is memory for a buffer

    A place is an aligned range between the bounds that nobody owns.  The
    allocators ask [get_possible_buffer_addresses] for candidates in each free
    region; a region that contains a place has one, and every candidate is
    free.  LinuxMaps.v and Succeeds.v show from this that an allocation for
    which there is a place succeeds. *)

From S2P Require Import Prelude Mathematics SysInfo Settings Errors Placement Items.
From S2P Require Import MapParser Platform.

Section places.
Context `{T : Target} `{Q : SysQuery} {OS : Type} `{Mem : Memory OS}.
Implicit Types os : OS.

Record place_for (s : BufferAllocatorSettings) os (a : Z) : Prop := {
  pl_aligned : (granularity | a);
  pl_min : BufferAllocatorSettings.min_address s <= a;
  pl_max : a + BufferAllocatorSettings.size s <= BufferAllocatorSettings.max_address s;
  pl_free x : a <= x < a + BufferAllocatorSettings.size s -> ~ owned os x
}.

Lemma place_keeps s os os' a : keeps os os' -> place_for s os a -> place_for s os' a.
Proof.
  intros [_ Ho] [? ? ? Hfree]. constructor; [done..|]. intros x. rewrite Ho. apply Hfree.
Qed.

(** The candidates of the range from [ps] to [pe]. *)
Definition candidates_of (s : BufferAllocatorSettings) (ps pe : Z) : list Z :=
  get_possible_buffer_addresses (BufferAllocatorSettings.min_address s)
    (BufferAllocatorSettings.max_address s) ps pe (BufferAllocatorSettings.size s)
    (wrap_usize (Cached.allocation_granularity get_sys_info)) results_buffer.

(** The place [a] lies in that range. *)
Definition fits_in (s : BufferAllocatorSettings) (ps pe a : Z) : Prop :=
  fits (BufferAllocatorSettings.min_address s) (BufferAllocatorSettings.max_address s) ps pe
    (BufferAllocatorSettings.size s) a.

Context `{HQ : !SysQueryOk}.

Lemma granularity_usize : 0 < wrap_usize (Cached.allocation_granularity get_sys_info) <= usize_max.
Proof.
  change (wrap_usize (Cached.allocation_granularity get_sys_info)) with granularity.
  pose proof granularity_range. split; [lia|]. apply u32_le_usize.
  unfold is_u32, u32_max, u32_modulus. lia.
Qed.

Lemma candidates_sound s ps pe addr :
  BufferAllocatorSettings.wf s -> BufferAllocatorSettings.max_address s < usize_max ->
  is_usize ps -> is_usize pe -> ps <= pe -> addr ∈ candidates_of s ps pe ->
  (granularity | addr) /\ fits_in s ps pe addr.
Proof.
  intros [? ? Hu%u32_le_usize] Hmax Hps Hpe Hle. unfold candidates_of.
  rewrite get_possible_placements by done. intros Hin. split.
  - by eapply placements_aligned in Hin; [..|apply granularity_usize].
  - eapply placements_sound; [done..|apply granularity_usize|done|by right; left|exact Hin].
Qed.

Lemma candidates_exist s ps pe a :
  BufferAllocatorSettings.wf s -> is_usize ps -> is_usize pe -> (granularity | a) ->
  fits_in s ps pe a -> exists c cs, candidates_of s ps pe = c :: cs.
Proof.
  intros [? ? Hu%u32_le_usize] Hps Hpe Hdiv Hfit. unfold candidates_of.
  rewrite get_possible_placements by done.
  assert (Hin : round_up (Z.max ps (BufferAllocatorSettings.min_address s))
      (wrap_usize (Cached.allocation_granularity get_sys_info)) ∈
    placements (BufferAllocatorSettings.min_address s) (BufferAllocatorSettings.max_address s) ps pe
      (BufferAllocatorSettings.size s) (wrap_usize (Cached.allocation_granularity get_sys_info))).
  { eapply placements_complete; [done..|apply granularity_usize|exact Hfit|done]. }
  destruct (placements _ _ _ _ _ _) as [|c cs]; [by apply elem_of_nil in Hin|]. eauto.
Qed.

(** ** A list of the mappings *)

(** In increasing order, none of them empty, and together all bytes that are
    mapped. *)
Record exact_map os (l : list MemoryMapEntry) : Prop := {
  em_order : ordered 0 l;
  em_filled e : e ∈ l -> MemoryMapEntry.start_address e < MemoryMapEntry.end_address e;
  em_owned x : (exists e, e ∈ l /\ mapped e x) <-> owned os x
}.

Lemma exact_keeps os os' l : keeps os os' -> exact_map os l -> exact_map os' l.
Proof.
  intros [_ Ho] [? ? Hown]. constructor; [done..|]. intros x. by rewrite Ho, Hown.
Qed.

Lemma exact_regions_ok os l : exact_map os l -> Forall region_ok (get_free_regions l).
Proof. intros [Hord _ _]. apply get_free_regions_ok. by apply (ordered_usize 0). Qed.

(** A place with one more free byte behind it is in one of the free regions:
    they leave out their last byte. *)
Lemma place_region s os l a :
  BufferAllocatorSettings.wf s -> sanitized s ->
  BufferAllocatorSettings.max_address s <= Cached.max_address get_sys_info ->
  exact_map os l -> place_for s os a -> ~ owned os (a + BufferAllocatorSettings.size s) ->
  exists e, e ∈ get_free_regions l /\
    fits_in s (MemoryMapEntry.start_address e) (MemoryMapEntry.end_address e) a.
Proof.
  intros [[? ?] [? ?] _] [Hsz _] Hmax [Hord Hfill Hown] [_ Hlo Hhi Hfree] Hgap.
  destruct (free_regions_complement l a Hord) as [_ Hin]; [lia|].
  destruct Hin as (e & He & [Hs Hend]); [rewrite Hown; apply Hfree; lia|].
  exists e. split; [done|]. constructor; [done| |done|done].
  destruct (free_region_end _ _ Hord He) as [->|(d & Hd & Heq)]; [lia|].
  destruct (Z.le_gt_cases (a + BufferAllocatorSettings.size s) (MemoryMapEntry.end_address e));
    [done|exfalso].
  assert (Hod : owned os (MemoryMapEntry.start_address d)).
  { apply Hown. exists d. split; [done|]. pose proof (Hfill d Hd). unfold mapped. lia. }
  destruct (decide (MemoryMapEntry.start_address d = a + BufferAllocatorSettings.size s)) as [E|].
  - by rewrite E in Hod.
  - eapply Hfree; [|exact Hod]. lia.
Qed.

(** The bytes of a candidate of a free region are free. *)
Lemma candidate_free s os l e addr :
  BufferAllocatorSettings.wf s ->
  BufferAllocatorSettings.max_address s <= Cached.max_address get_sys_info ->
  BufferAllocatorSettings.max_address s < usize_max -> exact_map os l -> e ∈ get_free_regions l ->
  addr ∈ candidates_of s (MemoryMapEntry.start_address e) (MemoryMapEntry.end_address e) ->
  place_for s os addr.
Proof.
  intros Hwf Hmax Hend Hex He Hin. pose proof (exact_regions_ok _ _ Hex) as Hok.
  rewrite list.Forall_forall in Hok. destruct (Hok e He) as [? ? ?].
  apply candidates_sound in Hin as [Hdiv [Hf1 Hf2 Hf3 Hf4]]; [|done..].
  constructor; [done..|]. intros x Hx Ho. apply (em_owned _ _ Hex) in Ho.
  destruct Hwf as [[? ?] _ _].
  apply (free_regions_complement l x) in Ho; [done|apply Hex|lia|].
  exists e. split; [done|]. unfold in_entry. lia.
Qed.

(** ** Loops over the free regions

    The allocators of Linux and of mmap-rs try the regions in order, up to
    the first that starts above the bounds. *)
Lemma regions_reach s e a regions (Found : list MemoryMapEntry -> Prop) : forall lo,
  BufferAllocatorSettings.wf s -> sanitized s -> (granularity | a) ->
  fits_in s (MemoryMapEntry.start_address e) (MemoryMapEntry.end_address e) a ->
  e ∈ regions -> Forall region_ok regions -> ordered lo regions ->
  (forall d rest c cs, d ∈ regions ->
     MemoryMapEntry.start_address d <= BufferAllocatorSettings.max_address s ->
     candidates_of s (MemoryMapEntry.start_address d) (MemoryMapEntry.end_address d) = c :: cs ->
     Found (d :: rest)) ->
  (forall d rest,
     MemoryMapEntry.start_address d <= BufferAllocatorSettings.max_address s ->
     candidates_of s (MemoryMapEntry.start_address d) (MemoryMapEntry.end_address d) = [] ->
     Found rest -> Found (d :: rest)) ->
  Found regions.
Proof.
  induction regions as [|d regions IH]; intros lo Hwf Hsan Hdiv Hfit He Hreg Hord Hhere Hnext;
    [by apply elem_of_nil in He|].
  apply list.Forall_cons in Hreg as [Hd Hreg]. destruct Hord as (? & ? & Hord).
  assert (Hle : MemoryMapEntry.start_address d <= BufferAllocatorSettings.max_address s).
  { destruct Hfit, Hsan. apply elem_of_cons in He as [->|He]; [lia|].
    pose proof (ordered_start _ _ _ Hord He). lia. }
  destruct (candidates_of s (MemoryMapEntry.start_address d) (MemoryMapEntry.end_address d))
    as [|c cs] eqn:E; [|by eapply Hhere; [by left|..]].
  apply elem_of_cons in He as [->|He].
  - destruct (candidates_exist s _ _ a Hwf (region_start _ Hd) (region_end _ Hd) Hdiv Hfit)
      as (c & cs & E'). congruence.
  - apply Hnext; [done|done|]. eapply IH; try done. intros d' rest c cs Hd'. apply Hhere. by right.
Qed.

End places.

(** ** The promise to the locators

    Beside the contract of Platform.v: an allocation for this process succeeds
    when the system can serve it. *)

Section promise.
Context `{T : Target} `{Q : SysQuery} {OS : Type} `{P : Platform OS} `{Mem : Memory OS}.

Class PlatformSucceeds := {
  obtainable : OS -> BufferAllocatorSettings -> Prop;
  allocate_platform_succeeds s os :
    os_ok os -> BufferAllocatorSettings.wf s -> sanitized s ->
    BufferAllocatorSettings.target_process_id s = Cached.this_process_id get_sys_info ->
    obtainable os s ->
    wp (allocate_platform s) (fun r _ => exists it, r = Ok it) os
}.

Lemma allocate_succeeds `{HQ : !SysQueryOk} `{PS : !PlatformSucceeds} s os :
  os_ok os -> BufferAllocatorSettings.wf s ->
  BufferAllocatorSettings.size s + granularity <= u32_max ->
  BufferAllocatorSettings.target_process_id s = Cached.this_process_id get_sys_info ->
  obtainable os (BufferAllocatorSettings.sanitize s) ->
  wp (allocate s) (fun r _ => exists it, r.2 = Ok it) os.
Proof.
  intros Hok Hwf Hbig Hpid Hob. pose proof (BufferAllocatorSettings.sanitize_wf s Hwf) as Hsan.
  pose proof (BufferAllocatorSettings.sanitize_size_covers s Hwf Hbig) as (_ & Hdiv & Hsz0).
  unfold allocate. wp_step. eapply wp_mono; [apply allocate_platform_succeeds; try done|].
  - by rewrite BufferAllocatorSettings.sanitize_pid.
  - intros r os' [it ->]. wp_step. by exists it.
Qed.

End promise.
