(* ===== verification/AllocLinux.v ===== *)
(** * internal/buffer_allocator_linux.rs *)

From Stdlib Require Import Ascii String.
From S2P Require Import Prelude Mathematics SysInfo Settings Errors Placement Items Text.
From S2P Require Import MapParser Posix Platform PosixSpec.

Section linux.
Context `{T : Target} `{Q : SysQuery} {OS : Type} `{PX : Posix OS} `{I : Itoa} `{SA : StringAlloc}.

Definition LINUX_MMAP_FLAGS : mmap_flags :=
  {| prot_exec := true; map_shared := false; map_fixed_noreplace := true |}.

(** The loop over the candidate addresses. *)
Definition try_address (settings : BufferAllocatorSettings) (addr : Z)
    : M OS (option LocatorItem) :=
  allocated ← call (posix_mmap addr (BufferAllocatorSettings.size settings)
    LINUX_MMAP_FLAGS (-1) 0);
  if allocated =? 0 then mret None else
  if negb (allocated =? addr) then
    call (posix_munmap allocated (BufferAllocatorSettings.size settings)) ;;
    mret None
  else mret (Some (LocatorItem.new allocated (BufferAllocatorSettings.size settings))).

Definition try_allocate_buffer (entry : MemoryMapEntry) (settings : BufferAllocatorSettings)
    : M OS (result LocatorItem string) :=
  r ← for_each
    (get_possible_buffer_addresses
      (BufferAllocatorSettings.min_address settings)
      (BufferAllocatorSettings.max_address settings)
      (MemoryMapEntry.start_address entry) (MemoryMapEntry.end_address entry)
      (BufferAllocatorSettings.size settings)
      (wrap_usize (Cached.allocation_granularity get_sys_info))
      results_buffer)
    (try_address settings);
  mret (match r with Some item => Ok item | None => Err "Failed to allocate buffer" end).

(** The loop over the free regions; [None] after the last one and at the break. *)
Fixpoint try_regions (settings : BufferAllocatorSettings) (regions : list MemoryMapEntry)
    : M OS (option LocatorItem) :=
  match regions with
  | [] => mret None
  | region :: regions' =>
      if MemoryMapEntry.start_address region >? BufferAllocatorSettings.max_address settings
      then mret None else
      r ← try_allocate_buffer region settings;
      match r with
      | Ok item => mret (Some item)
      | Err _ => try_regions settings regions'
      end
  end.

Definition allocate_linux (settings : BufferAllocatorSettings)
    : M OS (result LocatorItem BufferAllocationError) :=
  r ← for_range (Z.to_nat (BufferAllocatorSettings.retry_count settings))
    (regions ← get_free_regions_from_process_id
       (as_i32 (BufferAllocatorSettings.target_process_id settings));
     try_regions settings regions);
  mret (match r with
    | Some item => Ok item
    | None => Err (BufferAllocationError.new settings "Failed to allocate buffer on Linux")
    end).

End linux.

(** ** The contract *)

Section laws.
Context `{T : Target} `{Q : SysQuery} {OS : Type} `{Mem : Memory OS} `{PX : Posix OS} `{I : Itoa}
  `{SA : StringAlloc} `{PL : !PosixLaws}.

Lemma linux_try_address_spec s addr os :
  os_ok os -> 0 <= BufferAllocatorSettings.size s -> (4096 | addr) ->
  (addr + BufferAllocatorSettings.size s <= usize_max -> 0 < addr ->
   placed s (LocatorItem.new addr (BufferAllocatorSettings.size s))) ->
  wp (try_address s addr) (fun r os' => match r with
    | Some it => got s os it os' | None => grows os os' end) os.
Proof.
  intros Hok Hsz Hal Hplaced. unfold try_address. wp_step. apply wp_call.
  set (n := BufferAllocatorSettings.size s) in *.
  pose proof (mmap_grows addr n LINUX_MMAP_FLAGS (-1) 0 os Hok Hsz) as Hg1.
  pose proof (px_mmap addr n LINUX_MMAP_FLAGS (-1) 0 os Hok Hsz) as Hm.
  destruct (posix_mmap _ _ _ _ _ os) as [a os1]. simpl in *. destruct Hm as [Hok1 Hm].
  destruct (Z.eqb_spec a 0) as [->|Ha0]; [by wp_step|].
  destruct (Z.eqb_spec a addr) as [->|Hne]; simpl.
  - wp_step. destruct Hm as [[-> _]|(Ha & _ & Hpos & Hend & Hfree & Hown)].
    + destruct MAP_FAILED_unaligned. apply Z.mod_divide in Hal; [done|lia].
    + split; [done|]. split; [apply Hplaced; lia|].
      intros x Hx. split; [by apply Hfree|]. apply Hown. by right.
  - wp_step. apply wp_call. wp_step. pose proof (px_munmap a n os1 Hok1) as Hu.
    destruct (posix_munmap a n os1) as [r os2]. destruct Hu as (Hok2 & _ & Hkeep & Hun & _).
    split; [done|]. intros x Hx. destruct Hm as [[-> _]|(_ & _ & _ & _ & Hfree & _)].
    + apply Hun; [apply MAP_FAILED_unaligned|]. by apply Hg1.
    + apply Hkeep; [by apply Hg1|]. intros Hin. by apply (Hfree x).
Qed.

Lemma linux_try_allocate_buffer_spec `{HQ : !SysQueryOk} e s os :
  os_ok os -> region_ok e -> BufferAllocatorSettings.wf s ->
  wp (try_allocate_buffer e s) (fun r os' => match r with
    | Ok it => got s os it os' | Err _ => grows os os' end) os.
Proof.
  intros Hok [? ? ?] Hwf. pose proof (BufferAllocatorSettings.wf_size _ Hwf) as [Hs _].
  unfold try_allocate_buffer. wp_step.
  eapply wp_mono; [apply (wp_for_each (grows os) (got s os)); [|by apply grows_refl]|].
  - intros addr os1 Hin Hg1. apply candidate_spec in Hin as [Hdiv Hfit]; [|done..].
    eapply wp_mono; [apply linux_try_address_spec; [apply Hg1|done| |]|].
    + eapply Z.divide_trans; [apply granularity_divide|done].
    + eauto using fits_placed.
    + intros [it|] os2; [by apply got_before|by apply grows_trans].
  - intros [it|] os1 Hr; by wp_step.
Qed.

Lemma linux_try_regions_spec `{HQ : !SysQueryOk} regions s os :
  os_ok os -> Forall region_ok regions -> BufferAllocatorSettings.wf s ->
  wp (try_regions s regions) (fun r os' => match r with
    | Some it => got s os it os' | None => grows os os' end) os.
Proof.
  intros Hok Hr Hwf. revert os Hok.
  induction Hr as [|e regions He _ IH]; intros os Hok; cbn [try_regions];
    [by wp_step; apply grows_refl|].
  destruct (_ >? _); [by wp_step; apply grows_refl|].
  wp_step. eapply wp_mono; [by apply linux_try_allocate_buffer_spec|].
  intros [it|e'] os1 H1; [by wp_step|].
  eapply wp_mono; [apply IH, H1|].
  intros [it|] os2; [by apply got_before|by apply grows_trans].
Qed.

(** *** Reading the map of the process *)

Lemma read_to_string_spec pid os :
  os_ok os -> px_readable pid -> has_nul (maps_path pid) = false ->
  wp (read_to_string (maps_path pid)) (fun _ os' => keeps os os') os.
Proof.
  intros Hok Hr Hnul. unfold read_to_string, CString_new. rewrite Hnul. wp_step. wp_step.
  wp_step. apply wp_call. pose proof (px_open pid os Hok Hr) as Hopen.
  destruct (posix_open _ _ os) as [fd os1]. simpl. destruct Hopen as (Hfd & Hm1 & Hk1).
  destruct (Z.ltb_spec fd 0); [lia|]. wp_step.
  pose proof (px_left_range os1 fd (proj1 Hk1) Hm1) as Hleft.
  apply (wp_loop _ (fun m _ os' => px_maps os' fd /\ keeps os os' /\ m = px_left os' fd))
    with (n := px_left os1 fd).
  - intros m [content capacity] os2 (Hm2 & Hk2 & ->) _. wp_step. apply wp_call.
    set (n := capacity - _).
    destruct (px_read fd n os2 (proj1 Hk2) Hm2) as (bytes & -> & Hdec & Hm3 & Hk3).
    pose proof (keeps_trans _ _ _ Hk2 Hk3) as Hk23.
    destruct bytes as [|c bytes]; wp_step.
    + wp_step. apply wp_call. wp_step. eapply keeps_trans; [exact Hk23|].
      apply px_close, Hk23.
    + exists (px_left (posix_read fd n os2).2 fd). split; [|done].
      split; [apply px_left_range; [apply Hk3|done]|]. by apply Hdec.
  - done.
  - pose proof (usize_lt_loop _ Hleft). lia.
Qed.

Lemma get_free_regions_from_process_id_spec `{HQ : !SysQueryOk} pid os :
  paths_ok -> os_ok os -> px_readable pid ->
  wp (get_free_regions_from_process_id pid)
    (fun regions os' => Forall region_ok regions /\ keeps os os') os.
Proof.
  intros Hpaths Hok Hr. unfold get_free_regions_from_process_id, parse_memory_map_from_process_id.
  wp_step. wp_step. eapply wp_mono; [apply read_to_string_spec; [done|done|]|].
  { unfold maps_path. by rewrite !has_nul_app, Hpaths. }
  intros content os' Hk. wp_step. wp_step. split; [|done].
  apply get_free_regions_ok, parse_lines_range.
Qed.

Lemma allocate_linux_spec `{HQ : !SysQueryOk} s os :
  paths_ok -> os_ok os -> BufferAllocatorSettings.wf s ->
  px_readable (as_i32 (BufferAllocatorSettings.target_process_id s)) ->
  wp (allocate_linux s) (fun r os' => match r with
    | Ok it => got s os it os'
    | Err e => grows os os' /\ BufferAllocationError.settings e = s
    end) os.
Proof.
  intros Hpaths Hok Hwf Hpid. unfold allocate_linux. wp_step.
  eapply wp_mono; [apply (wp_for_range (grows os) (got s os)); [|by apply grows_refl]|].
  - intros os1 Hg. wp_step.
    eapply wp_mono; [apply get_free_regions_from_process_id_spec; [done|apply Hg|done]|].
    intros regions os2 [Hr Hk%keeps_grows].
    eapply wp_mono; [apply linux_try_regions_spec; [apply Hk|done|done]|].
    pose proof (grows_trans _ _ _ Hg Hk).
    intros [it|] os3; [by apply got_before|by apply grows_trans].
  - intros [it|] os1 Hr; by wp_step.
Qed.

End laws.
