(* ===== verification/LinuxMaps.v ===== *)
(** * Linux: the allocator sees what is mapped

    [allocate_linux] reads the mappings of the process from a text file.  When
    the file shows them, as the kernel's does, the free regions computed from
    it are exact, and an allocation for which there is a place succeeds. *)

From Stdlib Require Import Ascii String.
From S2P Require Import Prelude Mathematics SysInfo Settings Errors Placement Items Text.
From S2P Require Import MapParser Posix Platform PosixSpec Places AllocLinux.

Lemma string_length_app (s t : string) :
  String.length (s +:+ t) = (String.length s + String.length t)%nat.
Proof. induction s as [|x s IH]; [done|]. rewrite append_cons. simpl. by rewrite IH. Qed.

Section maps.
Context `{T : Target} `{Q : SysQuery} {OS : Type} `{Mem : Memory OS} `{PX : Posix OS} `{I : Itoa}
  `{SA : StringAlloc} `{PL : !PosixLaws}.
Implicit Types os : OS.

(** [String::with_capacity] and [String::reserve]: at least what was asked. *)
Class StringAllocLaws := {
  string_capacity_enough n : n <= string_capacity n;
  string_grow_enough len capacity additional : len + additional <= string_grow len capacity additional
}.

(** The lines of a map file show the mappings. *)
Definition shows os (ls : list maps_line) : Prop :=
  Forall line_ok ls /\ exact_map os (ml_entry <$> ls).

(** This process, its map file, and what [mmap] grants. *)
Class LinuxLaws := {
  (** the text left to read behind a descriptor *)
  lx_text : OS -> Z -> string;
  (** the system would still map that many bytes *)
  lx_roomy : OS -> Z -> Prop;
  (** the lowest address it maps at (vm.mmap_min_addr) *)
  lx_lowest : Z;
  lx_lowest_pos : 0 < lx_lowest;
  lx_open os :
    os_ok os ->
    let path := maps_path (as_i32 (Cached.this_process_id get_sys_info)) in
    let '(fd, os') := posix_open path O_RDONLY os in
    (exists ls, lx_text os' fd = render_file ls /\ shows os' ls) /\
    forall n, lx_roomy os n -> lx_roomy os' n;
  (** a read of at least one byte takes the text in order, and is only empty at
      its end *)
  lx_read fd n bytes os os' :
    os_ok os -> px_maps os fd -> 0 < n -> posix_read fd n os = (Some bytes, os') ->
    lx_text os fd = bytes +:+ lx_text os' fd /\ (bytes = "" -> lx_text os fd = "") /\
    forall n, lx_roomy os n -> lx_roomy os' n;
  lx_close fd os n : os_ok os -> lx_roomy os n -> lx_roomy (posix_close fd os).2 n;
  (** MAP_FIXED_NOREPLACE maps at the address when the range is free *)
  lx_mmap addr len os :
    os_ok os -> lx_roomy os len -> lx_lowest <= addr -> (4096 | addr) -> 0 < len ->
    addr + len <= Cached.max_address get_sys_info ->
    (forall x, addr <= x < addr + len -> ~ owned os x) ->
    (posix_mmap addr len LINUX_MMAP_FLAGS (-1) 0 os).1 = addr
}.

Context `{SL : !StringAllocLaws} `{LL : !LinuxLaws}.

(** ** The whole file is read

    The loop takes an empty read for the end of the file, also one of 0 bytes,
    which it asks for when the string is full: [remaining_capacity] is computed
    before the [reserve].  A read that fills the string makes it stop there
    (see [map_file_cut] in FindingTheorems.v).  Two conditions exclude this:
    no read gives [BUFFER_SIZE] bytes (the kernel gives about a page of a map
    file), or the file has fewer. *)

Definition self_maps : string := maps_path (as_i32 (Cached.this_process_id get_sys_info)).

Definition short_reads : Prop := forall fd n bytes os os',
  os_ok os -> px_maps os fd -> 0 < n -> posix_read fd n os = (Some bytes, os') ->
  Z.of_nat (String.length bytes) < BUFFER_SIZE.

Definition small_map os : Prop :=
  let '(fd, os') := posix_open self_maps O_RDONLY os in
  Z.of_nat (String.length (lx_text os' fd)) < BUFFER_SIZE.

Definition map_readable os : Prop := short_reads \/ small_map os.

Lemma reserve_room len capacity additional : len + additional <= reserve len capacity additional.
Proof using SL.
  unfold reserve. destruct (Z.ltb_spec (capacity - len) additional); [|lia].
  apply string_grow_enough.
Qed.

(** What has been read and what is left make up the file, and the next read
    asks for at least one byte. *)
Lemma read_to_string_whole os :
  os_ok os -> has_nul self_maps = false -> map_readable os ->
  wp (read_to_string self_maps) (fun content os' => exists ls,
    content = render_file ls /\ shows os' ls /\ keeps os os' /\
    forall n, lx_roomy os n -> lx_roomy os' n) os.
Proof using SL.
  intros Hok Hnul Hwhole. unfold read_to_string, CString_new. rewrite Hnul. wp_step. wp_step.
  wp_step. apply wp_call. pose proof (px_open _ os Hok px_self) as Hopen.
  pose proof (lx_open os Hok) as Htext. unfold map_readable, small_map in Hwhole.
  fold self_maps in Htext. unfold self_maps in *.
  destruct (posix_open _ _ os) as [fd os1]. simpl. destruct Hopen as (Hfd & Hm1 & Hk1).
  destruct Htext as ((ls & Hls & Hsh) & Hroom1).
  destruct (Z.ltb_spec fd 0); [lia|]. wp_step.
  pose proof (px_left_range os1 fd (proj1 Hk1) Hm1) as Hleft.
  apply (wp_loop _ (fun m (x : string * Z) os' => let (content, capacity) := x in
    px_maps os' fd /\ keeps os1 os' /\ m = px_left os' fd /\
    content +:+ lx_text os' fd = render_file ls /\
    Z.of_nat (String.length content) < capacity /\ BUFFER_SIZE <= capacity /\
    forall n, lx_roomy os1 n -> lx_roomy os' n)) with (n := px_left os1 fd).
  - intros m [content capacity] os2 (Hm2 & Hk2 & -> & Hcat & Hcap & Hbig & Hroom2) _. wp_step. apply wp_call.
    set (n := capacity - _).
    destruct (px_read fd n os2 (proj1 Hk2) Hm2) as (bytes & Hbytes & Hdec & Hm3 & Hk3).
    destruct (posix_read fd n os2) as [r os3] eqn:E. simpl in Hbytes, Hdec, Hm3, Hk3. subst r.
    destruct (lx_read fd n bytes os2 os3) as (Htext & Hend & Hroom3);
      [apply Hk2|done|unfold n; lia|done|].
    pose proof (keeps_trans _ _ _ Hk2 Hk3) as Hk23. simpl.
    destruct bytes as [|c bytes]; wp_step.
    + wp_step. apply wp_call. wp_step. exists ls. rewrite Hend, append_empty_r in Hcat by done.
      pose proof (px_close fd os3 (proj1 Hk23)) as Hk4.
      pose proof (keeps_trans _ _ _ Hk23 Hk4) as [Hok4 Hown4].
      split; [done|]. split; [|split; [by eapply keeps_trans|]].
      * split; [apply Hsh|]. by eapply exact_keeps; [|apply Hsh].
      * intros k Hk. apply lx_close; [apply Hk23|]. auto.
    + exists (px_left os3 fd). split; [split; [apply px_left_range; [apply Hk3|done]|by apply Hdec]|].
      pose proof (reserve_room (Z.of_nat (String.length content)) capacity BUFFER_SIZE) as Hres.
      split; [done|]. split; [done|]. split; [done|]. split; [|split; [|split; [lia|auto]]].
      * by rewrite append_assoc, <- Htext.
      * destruct Hwhole as [Hs|Hs].
        -- pose proof (Hs fd n (String c bytes) os2 os3 (proj1 Hk2) Hm2 ltac:(unfold n; lia) E).
           rewrite string_length_app, Nat2Z.inj_add. lia.
        -- rewrite Hls, <- Hcat, Htext, !string_length_app in Hs.
           rewrite string_length_app. lia.
  - split; [done|]. split; [by split; [apply Hk1|]|].
    split; [done|]. split; [by rewrite append_nil|].
    pose proof (string_capacity_enough BUFFER_SIZE). split; [|split; [done|done]].
    unfold BUFFER_SIZE in *. simpl. lia.
  - pose proof (usize_lt_loop _ Hleft). lia.
Qed.

(** ** The free regions are exact *)

Lemma get_free_regions_from_process_id_exact `{HQ : !SysQueryOk} os :
  paths_ok -> os_ok os -> map_readable os ->
  wp (get_free_regions_from_process_id (as_i32 (Cached.this_process_id get_sys_info)))
    (fun regions os' => exists l, regions = get_free_regions l /\
      exact_map os' l /\ keeps os os' /\ forall n, lx_roomy os n -> lx_roomy os' n) os.
Proof using SL LL.
  intros Hpaths Hok Hwhole. unfold get_free_regions_from_process_id, parse_memory_map_from_process_id.
  wp_step. wp_step. eapply wp_mono; [apply read_to_string_whole; [done| |done]|].
  { unfold self_maps, maps_path. by rewrite !has_nul_app, Hpaths. }
  intros content os' (ls & -> & [Hlines Hex] & Hk & Hroom). wp_step. wp_step.
  exists (ml_entry <$> ls). by rewrite parse_render_file.
Qed.

(** ** The search succeeds *)

(** What an allocation needs: bounds a process on Linux can ask for, a round,
    memory left, and a place with one more free byte. *)
Record linux_room os (s : BufferAllocatorSettings) : Prop := {
  lo_min : lx_lowest <= BufferAllocatorSettings.min_address s;
  lo_max : BufferAllocatorSettings.max_address s <= Cached.max_address get_sys_info;
  lo_below : BufferAllocatorSettings.max_address s < usize_max;
  lo_retry : 0 < BufferAllocatorSettings.retry_count s;
  lo_roomy : lx_roomy os (BufferAllocatorSettings.size s);
  lo_place : exists a, place_for s os a /\ ~ owned os (a + BufferAllocatorSettings.size s)
}.

(** And the map file can be read to its end. *)
Definition linux_obtainable os (s : BufferAllocatorSettings) : Prop :=
  map_readable os /\ linux_room os s.

(** The first candidate of a free region is granted. *)
Lemma try_allocate_buffer_granted `{HQ : !SysQueryOk} e s os l c cs :
  os_ok os -> BufferAllocatorSettings.wf s -> sanitized s -> linux_room os s ->
  exact_map os l -> e ∈ get_free_regions l ->
  candidates_of s (MemoryMapEntry.start_address e) (MemoryMapEntry.end_address e) = c :: cs ->
  wp (try_allocate_buffer e s) (fun r _ => exists it, r = Ok it) os.
Proof using LL.
  intros Hok Hwf [Hsz _] [Hlow Hmax Hend _ Hroom _] Hex He Hc.
  destruct (candidate_free s os l e c Hwf Hmax Hend Hex He) as [Hdiv Hlo Hhi Hfree];
    [rewrite Hc; by left|].
  assert (Hm : (posix_mmap c (BufferAllocatorSettings.size s) LINUX_MMAP_FLAGS (-1) 0 os).1 = c).
  { apply lx_mmap; [done|done|lia| |done|lia|done]. etrans; [apply granularity_divide|done]. }
  unfold try_allocate_buffer. unfold candidates_of in Hc. rewrite Hc.
  wp_step. cbn [for_each]. wp_step. unfold try_address. wp_step. apply wp_call. rewrite Hm.
  pose proof lx_lowest_pos. destruct (Z.eqb_spec c 0); [lia|]. rewrite Z.eqb_refl. simpl.
  do 3 wp_step. eauto.
Qed.

Lemma try_regions_granted `{HQ : !SysQueryOk} s os l :
  os_ok os -> BufferAllocatorSettings.wf s -> sanitized s -> linux_room os s ->
  exact_map os l ->
  wp (try_regions s (get_free_regions l)) (fun r _ => exists it, r = Some it) os.
Proof using LL.
  intros Hok Hwf Hsan Hob Hex. destruct (lo_place _ _ Hob) as (a & Hplace & Hgap).
  destruct (place_region s os l a Hwf Hsan (lo_max _ _ Hob) Hex Hplace Hgap) as (e & He & Hfit).
  apply (regions_reach s e a _
    (fun rs => wp (try_regions s rs) (fun r _ => exists it, r = Some it) os) 0);
    [done|done|apply Hplace|done|done|by eapply exact_regions_ok
    |apply get_free_regions_ordered, Hex| |].
  - intros d rest c cs Hd Hle Hc. cbn [try_regions]. rewrite Z.gtb_ltb.
    destruct (Z.ltb_spec (BufferAllocatorSettings.max_address s) (MemoryMapEntry.start_address d));
      [lia|]. wp_step. eapply wp_mono; [by eapply try_allocate_buffer_granted|].
    intros r os' [it ->]. wp_step. eauto.
  - intros d rest Hle Hc Hrest. cbn [try_regions]. rewrite Z.gtb_ltb.
    destruct (Z.ltb_spec (BufferAllocatorSettings.max_address s) (MemoryMapEntry.start_address d));
      [lia|]. unfold try_allocate_buffer. unfold candidates_of in Hc. rewrite Hc.
    wp_step. wp_step. cbn [for_each]. by do 2 wp_step.
Qed.

Lemma allocate_linux_succeeds `{HQ : !SysQueryOk} s os :
  paths_ok -> os_ok os -> BufferAllocatorSettings.wf s -> sanitized s ->
  BufferAllocatorSettings.target_process_id s = Cached.this_process_id get_sys_info ->
  linux_obtainable os s ->
  wp (allocate_linux s) (fun r _ => exists it, r = Ok it) os.
Proof using LL SL.
  intros Hpaths Hok Hwf Hsan Hpid [Hwhole [? ? ? Hretry Hroom (a & Hplace & Hgap)]].
  unfold allocate_linux. rewrite Hpid.
  destruct (Z.to_nat (BufferAllocatorSettings.retry_count s)) as [|n] eqn:En; [lia|].
  wp_step. cbn [for_range]. wp_step. wp_step.
  eapply wp_mono; [by apply get_free_regions_from_process_id_exact|].
  intros regions os1 (l & -> & Hex & Hk & Hroom1).
  eapply wp_mono; [apply try_regions_granted; [apply Hk|done|done| |done]|].
  - constructor; [done..|by apply Hroom1|]. exists a. split; [by eapply place_keeps|].
    by rewrite (proj2 Hk).
  - intros r os2 [it ->]. do 2 wp_step. eauto.
Qed.

End maps.
