(* ===== verification/AllocWindows.v ===== *)
(** * internal/buffer_allocator_windows.rs

    The allocator runs on any implementation of the trait [Kernel32]; the
    functions on processes are parameters, and their laws are their documented
    behaviour. *)

From S2P Require Import Prelude Mathematics SysInfo Settings Errors Placement Items Platform.
From S2P Require Import Kernel32.

(** The functions on processes. *)
Class WindowsProcess (OS : Type) := {
  OpenProcess (id : Z) : OS -> Z * OS;
  CloseHandle (handle : Z) : OS -> unit * OS;
  (** the result of the call, and [is_wow64] *)
  IsWow64Process (handle : Z) : OS -> (Z * Z) * OS
}.

Section windows.
Context `{T : Target} `{Q : SysQuery} {OS : Type} `{K : Kernel32 OS}.

Definition get_buffer_pointers_in_page_range (page_info : MEMORY_BASIC_INFORMATION)
    (buffer_size minimum_ptr maximum_ptr : Z) (results : list Z) : list Z :=
  let page_start := BaseAddress page_info in
  let page_end := BaseAddress page_info +u RegionSize page_info in
  let allocation_granularity := Cached.allocation_granularity get_sys_info in
  get_possible_buffer_addresses minimum_ptr maximum_ptr page_start page_end buffer_size
    (wrap_usize allocation_granularity) results.

(** The loop over the candidate addresses. *)
Definition try_address (settings : BufferAllocatorSettings) (addr : Z)
    : M OS (option LocatorItem) :=
  allocated ← call (virtual_alloc addr (BufferAllocatorSettings.size settings));
  if allocated =? 0 then mret None else
  if negb (allocated =? addr) then
    call (virtual_free allocated (BufferAllocatorSettings.size settings)) ;;
    mret None
  else mret (Some (LocatorItem.new allocated (BufferAllocatorSettings.size settings))).

Definition try_allocate_buffer (page_info : MEMORY_BASIC_INFORMATION)
    (settings : BufferAllocatorSettings) : M OS (option LocatorItem) :=
  if negb (State page_info =? MEM_FREE) then mret None else
  for_each
    (get_buffer_pointers_in_page_range page_info (BufferAllocatorSettings.size settings)
      (BufferAllocatorSettings.min_address settings)
      (BufferAllocatorSettings.max_address settings) results_buffer)
    (try_address settings).

(** The two loops over the address space: [step] is how far a page that gives
    no buffer advances them. *)
Definition query_loop (step : MEMORY_BASIC_INFORMATION -> Z) (max_address : Z)
    (settings : BufferAllocatorSettings) : M OS (option LocatorItem) :=
  loop (fun current_address =>
    if current_address <=? max_address then
      has_page ← call (virtual_query current_address);
      match has_page with
      | None => mret (inr None)
      | Some memory_information =>
          r ← try_allocate_buffer memory_information settings;
          match r with
          | Some item => mret (inr (Some item))
          | None => mret (inl (current_address +u step memory_information))
          end
      end
    else mret (inr None)) (BufferAllocatorSettings.min_address settings).

Definition allocate_fast (max_address : Z) (settings : BufferAllocatorSettings)
    : M OS (result LocatorItem BufferAllocationError) :=
  let max_address := Z.min max_address (BufferAllocatorSettings.max_address settings) in
  r ← for_range (Z.to_nat (BufferAllocatorSettings.retry_count settings))
    (query_loop RegionSize max_address settings);
  match r with
  | Some item => mret (Ok item)
  | None =>
      r ← (if BufferAllocatorSettings.brute_force settings then
             query_loop (fun _ => wrap_usize (Cached.allocation_granularity get_sys_info))
               max_address settings
           else mret None);
      match r with
      | Some item => mret (Ok item)
      | None =>
          mret (Err (BufferAllocationError.new settings "Failed to allocate buffer on Windows"))
      end
  end.

End windows.

Section processes.
Context `{T : Target} `{Q : SysQuery} {OS : Type} `{WM : WindowsMemory OS} `{WP : WindowsProcess OS}.

Definition get_max_windows_address (process_id handle : Z) : M OS Z :=
  if Cached.this_process_id get_sys_info =? process_id
  then mret (Cached.max_address get_sys_info)
  else
    '(has_is_wow64, is_wow64) ← call (IsWow64Process handle);
    let max_address := 0x7FFFFFFF in
    if (is_wow64 =? 0) && negb (has_is_wow64 =? 0)
    then mret (wrap_usize lpMaximumApplicationAddress)
    else mret max_address.

(** [ProcessHandle]: the handle; [open_process], [is_valid] and [Drop] *)
Definition open_process (id : Z) : M OS Z := call (OpenProcess id).
Definition is_valid (handle : Z) : bool := negb (handle =? 0).

Definition drop_process_handle (handle : Z) : M OS unit :=
  if negb (handle =? 0) then call (CloseHandle handle) else mret tt.

(** The feature external_process is not among the features of the crate, so
    the local functions are the ones called. *)
Definition allocate_windows (settings : BufferAllocatorSettings)
    : M OS (result LocatorItem BufferAllocationError) :=
  handle ← open_process (BufferAllocatorSettings.target_process_id settings);
  if negb (is_valid handle) then
    drop_process_handle handle ;;
    mret (Err (BufferAllocationError.new settings "Failed to open process"))
  else
  max_address ← get_max_windows_address (BufferAllocatorSettings.target_process_id settings) handle;
  r ← allocate_fast (K := LocalKernel32) max_address settings;
  drop_process_handle handle ;;
  mret r.

End processes.

(** ** The allocator *)

Section fast.
Context `{T : Target} `{Q : SysQuery} {OS : Type} `{Mem : Memory OS} `{K : !Kernel32 OS}.
Context `{KL : !Kernel32Laws} `{HQ : !SysQueryOk}.
Implicit Types os : OS.

Lemma windows_try_address_spec s addr os :
  os_ok os -> 0 < BufferAllocatorSettings.size s ->
  (addr + BufferAllocatorSettings.size s <= usize_max -> 0 < addr ->
   placed s (LocatorItem.new addr (BufferAllocatorSettings.size s))) ->
  wp (try_address s addr) (fun r os' => match r with
    | Some it => taken k_allocation s os it os' | None => grows os os' end) os.
Proof.
  intros Hok Hsz Hplaced. unfold try_address. wp_step. apply wp_call.
  destruct (virtual_alloc_spec addr (BufferAllocatorSettings.size s) os Hok) as [Hok1 Hm].
  destruct (virtual_alloc _ _ os) as [a os1]. simpl in *.
  assert (Hg1 : grows os os1).
  { split; [done|]. intros x Hx. destruct Hm as [[_ Hm]|(_ & _ & _ & Hm & _)]; apply Hm; auto. }
  destruct (Z.eqb_spec a 0) as [->|Ha0]; [by wp_step|].
  destruct Hm as [[-> _]|(Ha & Hend & Hfree & Hown & Hall)]; [done|].
  destruct (Z.eqb_spec a addr) as [->|Hne]; simpl.
  - wp_step. split; [|done]. split; [done|]. split; [by apply Hplaced|].
    intros x Hx. split; [by apply Hfree|]. apply Hown. by right.
  - wp_step. apply wp_call. wp_step.
    destruct (virtual_free_spec a (BufferAllocatorSettings.size s) os1 Hok1) as [_ Hk]; [lia|].
    by eapply grows_trans, keeps_grows.
Qed.

Lemma windows_try_allocate_buffer_spec info s os :
  os_ok os -> 0 <= BaseAddress info -> 0 <= RegionSize info ->
  BaseAddress info + RegionSize info <= usize_max ->
  BufferAllocatorSettings.wf s -> 0 < BufferAllocatorSettings.size s ->
  wp (try_allocate_buffer info s) (fun r os' => match r with
    | Some it => taken k_allocation s os it os' | None => grows os os' end) os.
Proof.
  intros Hok Hb Hr Hend Hwf Hsz. unfold try_allocate_buffer.
  destruct (negb _); [by wp_step; apply grows_refl|].
  apply (wp_for_each (grows os) (taken k_allocation s os)); [|by apply grows_refl].
  intros addr os1 Hin Hg1. unfold get_buffer_pointers_in_page_range in Hin.
  rewrite add_usize_small in Hin by lia.
  apply candidate_spec in Hin as [_ Hfit]; [|done|unfold is_usize; lia..|lia].
  eapply wp_mono; [apply windows_try_address_spec; [apply Hg1|done|]|].
  - eauto using fits_placed.
  - intros [it|] os2; [by apply taken_before|by apply grows_trans].
Qed.

(** Both loops end: every round advances, and stays below the end of the
    address space. *)
Lemma query_loop_spec step hi s os :
  cfg_windows = true ->
  (forall info, 0 <= BaseAddress info -> 4096 <= RegionSize info ->
    0 < step info <= Z.max (RegionSize info) granularity) ->
  hi + granularity <= usize_max ->
  os_ok os -> BufferAllocatorSettings.wf s -> 0 < BufferAllocatorSettings.size s ->
  wp (query_loop step hi s) (fun r os' => match r with
    | Some it => taken k_allocation s os it os' | None => grows os os' end) os.
Proof.
  intros Hwin Hstep Hhi Hok Hwf Hsz.
  destruct (max_address_granularity Hwin) as [_ Hgr].
  destruct (max_address_win) as [Hmax0 Hmax], granularity_win as [[Hg0 _] [q Hq]].
  destruct (BufferAllocatorSettings.wf_min s Hwf) as [Hmin0 Hmin].
  apply (wp_loop _ (fun m cur os' => grows os os' /\ 0 <= cur /\
    m = Z.max 0 (hi + 1 - cur))) with (n := Z.max 0 (hi + 1 - BufferAllocatorSettings.min_address s)).
  - intros m cur os1 (Hg1 & Hcur & ->) _.
    destruct (Z.leb_spec cur hi) as [Hle|]; [|by wp_step].
    wp_step. apply wp_call.
    destruct (virtual_query_spec cur os1 (proj1 Hg1)) as [Hk%keeps_grows Hinfo].
    destruct (virtual_query cur os1) as [[info|] os2]; simpl in *.
    2: { wp_step. by eapply grows_trans. }
    destruct Hinfo as (Hb & Hcb & Hrs & Hend).
    wp_step. eapply wp_mono; [apply windows_try_allocate_buffer_spec; [apply Hk|lia|lia|lia|done|done]|].
    intros [it|] os3 H3; wp_step.
    + eapply taken_before; [|exact H3]. by eapply grows_trans.
    + destruct (Hstep info) as [Hst0 Hst]; [lia|done|].
      rewrite add_usize_small by lia.
      eexists. split; [|split; [|split; [|reflexivity]]]; [lia| |lia].
      eapply grows_trans; [|exact H3]. by eapply grows_trans.
  - split; [by apply grows_refl|]. done.
  - unfold loop_depth. pose proof (usize_lt_loop usize_max) as Hl.
    assert (0 <= usize_max) by (unfold is_usize in *; lia).
    specialize (Hl ltac:(unfold is_usize; lia)). unfold loop_depth in Hl. lia.
Qed.

Lemma allocate_fast_spec hi s os :
  cfg_windows = true -> hi + granularity <= usize_max ->
  os_ok os -> BufferAllocatorSettings.wf s -> 0 < BufferAllocatorSettings.size s ->
  wp (allocate_fast hi s) (fun r os' => match r with
    | Ok it => taken k_allocation s os it os'
    | Err e => grows os os' /\ BufferAllocationError.settings e = s
    end) os.
Proof.
  intros Hwin Hhi Hok Hwf Hsz. unfold allocate_fast. wp_step.
  pose proof granularity_range as Hg.
  eapply wp_mono; [apply (wp_for_range (grows os) (taken k_allocation s os)); [|by apply grows_refl]|].
  - intros os1 Hg1. eapply wp_mono; [apply query_loop_spec; auto; [|lia|apply Hg1]; intros; lia|].
    intros [it|] os2; [by apply taken_before|by apply grows_trans].
  - intros [it|] os1 H1; [by wp_step|]. wp_step.
    destruct (BufferAllocatorSettings.brute_force s); [|by wp_step; wp_step].
    eapply wp_mono; [apply query_loop_spec; auto; [|lia|apply H1]|].
    { intros. change (wrap_usize (Cached.allocation_granularity get_sys_info)) with granularity.
      lia. }
    intros [it|] os2 H2; wp_step; [by eapply taken_before|].
    split; [by eapply grows_trans|done].
Qed.

(** A buffer at another address than the one asked for is not given back: the
    call that frees it is refused. *)
Lemma try_address_leak s addr a os os1 :
  os_ok os -> 0 < BufferAllocatorSettings.size s ->
  virtual_alloc addr (BufferAllocatorSettings.size s) os = (a, os1) ->
  a <> 0 -> a <> addr ->
  wp (try_address s addr) (fun r os' => r = None /\
    forall x, a <= x < a + BufferAllocatorSettings.size s -> ~ owned os x /\ owned os' x) os.
Proof.
  intros Hok Hsz Heq Ha Hne.
  destruct (virtual_alloc_spec addr (BufferAllocatorSettings.size s) os Hok) as [Hok1 Hm].
  unfold try_address. wp_step. apply wp_call. rewrite Heq in *. simpl in *.
  destruct Hm as [[? _]|(_ & _ & Hfree & Hown & _)]; [done|].
  destruct (Z.eqb_spec a 0), (Z.eqb_spec a addr); try done. simpl.
  wp_step. apply wp_call. wp_step.
  destruct (virtual_free_spec a (BufferAllocatorSettings.size s) os1 Hok1) as [_ [_ Hk]]; [lia|].
  split; [done|]. intros x Hx. split; [by apply Hfree|]. rewrite Hk. apply Hown. by right.
Qed.

End fast.

Section windows_laws.
Context `{T : Target} `{Q : SysQuery} {OS : Type} `{Mem : Memory OS} `{WM : WindowsMemory OS}
  `{WP : WindowsProcess OS} `{WML : !WindowsMemoryLaws}.

(** The documented behaviour of the functions on processes. *)
Class WindowsLaws := {
  OpenProcess_spec id os : os_ok os -> keeps os (OpenProcess id os).2;
  CloseHandle_spec h os :
    os_ok os -> keeps os (CloseHandle h os).2 /\
    (forall a n, wm_allocation os a n -> wm_allocation (CloseHandle h os).2 a n);
  IsWow64Process_spec h os : os_ok os -> keeps os (IsWow64Process h os).2
}.

Context `{WL : !WindowsLaws} `{HQ : !SysQueryOk}.

Lemma allocate_windows_spec s os :
  cfg_windows = true -> os_ok os -> BufferAllocatorSettings.wf s -> 0 < BufferAllocatorSettings.size s ->
  wp (allocate_windows s) (fun r os' => match r with
    | Ok it => taken wm_allocation s os it os'
    | Err e => grows os os' /\ BufferAllocationError.settings e = s
    end) os.
Proof.
  intros Hwin Hok Hwf Hsz. unfold allocate_windows, drop_process_handle, open_process, is_valid.
  wp_step. apply wp_call. set (h := (OpenProcess _ os).1).
  pose proof (OpenProcess_spec (BufferAllocatorSettings.target_process_id s) os Hok) as Hk%keeps_grows.
  destruct (Z.eqb_spec h 0); simpl; [by wp_step; wp_step; wp_step|].
  wp_step. apply (wp_mono _ (fun hi os' => hi + granularity <= usize_max /\ grows os os')).
  - unfold get_max_windows_address. destruct (max_address_granularity Hwin) as [Hm _].
    destruct max_address_win as [Hpos Hmax]. pose proof (max_address_granularity Hwin) as [_ Hgr].
    pose proof granularity_range as Hg.
    assert (0x7FFFFFFF + 1073741824 <= usize_max) by
      (unfold usize_max, usize_modulus; destruct ptr_width; lia).
    destruct (_ =? _); [wp_step; split; [lia|done]|].
    wp_step. apply wp_call.
    pose proof (IsWow64Process_spec h _ (proj1 Hk)) as Hk2%keeps_grows.
    destruct (IsWow64Process h _) as [[? is64] os2]. simpl in *.
    pose proof (grows_trans _ _ _ Hk Hk2).
    destruct (_ && _); wp_step; split; try done; [|lia].
    rewrite wrap_usize_small; unfold is_usize; lia.
  - intros hi os1 [Hhi Hg1]. wp_step.
    eapply wp_mono; [apply allocate_fast_spec; [done|done|apply Hg1|done|done]|].
    intros r os2 Hr. wp_step. apply wp_call. wp_step.
    destruct r as [it|e].
    + destruct Hr as [Hgot Hall]. apply (got_before _ os) in Hgot; [|done].
      destruct Hgot as (Hg & Hp & Hf).
      destruct (CloseHandle_spec h os2 (proj1 Hg)) as [[Hok3 Hiff] Hkeep].
      split; [|by intros ?; apply Hkeep, Hall].
      split; [eapply grows_trans; [exact Hg|]; by apply keeps_grows|]. split; [done|].
      intros x Hx. rewrite Hiff. by apply Hf.
    + destruct Hr as [Hg2 He]. split; [|done].
      pose proof (CloseHandle_spec h os2 (proj1 Hg2)) as [Hk3%keeps_grows _].
      eauto using grows_trans.
Qed.

End windows_laws.
