(* ===== verification/AllocOsx.v ===== *)
(** * internal/buffer_allocator_osx.rs *)

From S2P Require Import Prelude Mathematics SysInfo Settings Errors Placement Items Platform.

(** [u64] addition, wrapping around. *)
Definition u64_modulus : Z := 18446744073709551616.
Definition add_u64 (a b : Z) : Z := (a + b) mod u64_modulus.

(** The functions of the crate mach, for the task of the process. *)
Class Mach (OS : Type) := {
  (** the result code, and the region at or above the address *)
  mach_vm_region (address : Z) : OS -> (Z * (Z * Z)) * OS;
  (** the result code and the address, with VM_FLAGS_FIXED *)
  mach_vm_allocate (address size : Z) : OS -> (Z * Z) * OS;
  (** [executable]: VM_PROT_EXECUTE beside VM_PROT_READ | VM_PROT_WRITE *)
  mach_vm_protect (address size : Z) (executable : bool) : OS -> Z * OS;
  mach_vm_release (address size : Z) : OS -> Z * OS
}.

Section osx.
Context `{T : Target} `{Q : SysQuery} {OS : Type} `{MA : Mach OS}.

Definition get_buffer_pointers_in_page_range
    (page_address page_size buffer_size minimum_ptr maximum_ptr : Z) (results : list Z) : list Z :=
  let page_start := page_address in
  let page_end := page_address +u page_size in
  let allocation_granularity := Cached.allocation_granularity get_sys_info in
  get_possible_buffer_addresses minimum_ptr maximum_ptr page_start page_end buffer_size
    (wrap_usize allocation_granularity) results.

(** PROT is without VM_PROT_EXECUTE on Apple silicon. *)
Definition try_address (settings : BufferAllocatorSettings) (addr : Z) : M OS (option Z) :=
  '(kr, allocated) ← call (mach_vm_allocate addr (BufferAllocatorSettings.size settings));
  if negb (kr =? 0) then mret None else
  kr ← call (mach_vm_protect allocated (BufferAllocatorSettings.size settings)
    (negb cfg_macos_aarch64));
  if negb (kr =? 0) then
    call (mach_vm_release allocated (BufferAllocatorSettings.size settings)) ;;
    mret None
  else mret (Some (wrap_usize allocated)).

(** [Some result_addr] is [true]. *)
Definition try_allocate_buffer (page_address page_size : Z) (settings : BufferAllocatorSettings)
    : M OS (option Z) :=
  for_each
    (get_buffer_pointers_in_page_range page_address page_size
      (BufferAllocatorSettings.size settings) (BufferAllocatorSettings.min_address settings)
      (BufferAllocatorSettings.max_address settings) results_buffer)
    (try_address settings).

Definition to_item (settings : BufferAllocatorSettings) (result_addr : Z) : LocatorItem :=
  LocatorItem.new result_addr (BufferAllocatorSettings.size settings).

(** The loop over the regions of the task. *)
Definition region_loop (settings : BufferAllocatorSettings) (max_address : Z)
    : M OS (option LocatorItem) :=
  loop (fun current_address =>
    if current_address <=? max_address then
      '(kr, (actual_address, available_size)) ← call (mach_vm_region current_address);
      if kr =? 1 then
        let padding := max_address -u wrap_usize current_address in
        if padding >? 0 then
          r ← try_allocate_buffer (wrap_usize current_address) padding settings;
          mret (inr (to_item settings <$> r))
        else mret (inr None)
      else if negb (kr =? 0) then mret (inr None) else
      r ← (if actual_address >? current_address then
             let free_bytes := actual_address - current_address in
             try_allocate_buffer (wrap_usize current_address) (wrap_usize free_bytes) settings
           else mret None);
      match r with
      | Some result_addr => mret (inr (Some (to_item settings result_addr)))
      | None => mret (inl (add_u64 actual_address available_size))
      end
    else mret (inr None)) (BufferAllocatorSettings.min_address settings).

Definition allocate_osx (settings : BufferAllocatorSettings)
    : M OS (result LocatorItem BufferAllocationError) :=
  let max_address :=
    Z.min (Cached.max_address get_sys_info) (BufferAllocatorSettings.max_address settings) in
  r ← for_range (Z.to_nat (BufferAllocatorSettings.retry_count settings))
    (region_loop settings max_address);
  mret (match r with
    | Some item => Ok item
    | None => Err (BufferAllocationError.new settings "Failed to allocate buffer on OSX")
    end).

End osx.

(** ** Documented behaviour of the functions *)

Section laws.
Context `{T : Target} `{Q : SysQuery} {OS : Type} `{Mem : Memory OS} `{MA : Mach OS}.

Class MachLaws := {
  (** a region that ends above the address, in the address space of the task *)
  mach_vm_region_spec addr os :
    os_ok os ->
    let '((kr, (actual, size)), os') := mach_vm_region addr os in
    keeps os os' /\
    (kr = 0 -> 0 <= actual /\ 0 < size /\ addr < actual + size <= usize_max);
  (** at an address of a page, the pages are mapped there or the call fails *)
  mach_vm_allocate_spec addr size os :
    os_ok os -> 0 < size -> is_usize addr ->
    (MmapOptions_page_size | addr) ->
    let '((kr, a), os') := mach_vm_allocate addr size os in
    os_ok os' /\
    ((kr <> 0 /\ forall x, owned os' x <-> owned os x) \/
     (kr = 0 /\ a = addr /\ a + size <= usize_max /\
      (forall x, a <= x < a + size -> ~ owned os x) /\
      (forall x, owned os x \/ a <= x < a + size -> owned os' x)));
  mach_vm_protect_spec addr size x os :
    os_ok os -> keeps os (mach_vm_protect addr size x os).2;
  mach_vm_release_spec addr size os :
    os_ok os ->
    let os' := (mach_vm_release addr size os).2 in
    os_ok os' /\
    (forall x, owned os x -> ~ (addr <= x < addr + size) -> owned os' x);
  (** the page at address 0 is reserved *)
  zero_reserved os : os_ok os -> owned os 0
}.

Context `{ML : !MachLaws} `{HQ : !SysQueryOk}.

(** The outcome for an address. *)
Definition got_address (s : BufferAllocatorSettings) (os : OS) (r : option Z) (os' : OS) : Prop :=
  match r with
  | Some a => got s os (to_item s a) os'
  | None => grows os os'
  end.

Lemma got_address_before s os1 os2 os3 r :
  grows os1 os2 -> got_address s os2 r os3 -> got_address s os1 r os3.
Proof. destruct r; [apply got_before|apply grows_trans]. Qed.

Lemma osx_try_address_spec s addr os :
  os_ok os -> 0 < BufferAllocatorSettings.size s -> is_usize addr ->
  (MmapOptions_page_size | addr) ->
  (addr + BufferAllocatorSettings.size s <= usize_max -> 0 < addr ->
   placed s (LocatorItem.new addr (BufferAllocatorSettings.size s))) ->
  wp (try_address s addr) (got_address s os) os.
Proof.
  intros Hok Hsz Hu Hdiv Hplaced. unfold try_address. wp_step. apply wp_call.
  pose proof (mach_vm_allocate_spec addr (BufferAllocatorSettings.size s) os Hok Hsz Hu Hdiv) as Hm.
  destruct (mach_vm_allocate _ _ os) as [[kr a] os1]. simpl. destruct Hm as [Hok1 Hm].
  destruct Hm as [[Hkr Hiff]|(-> & -> & Hend & Hfree & Hown)].
  - destruct (Z.eqb_spec kr 0); [done|]. simpl. wp_step. split; [done|]. intros x. apply Hiff.
  - simpl. wp_step. apply wp_call.
    destruct (mach_vm_protect_spec addr (BufferAllocatorSettings.size s)
      (negb cfg_macos_aarch64) os1 Hok1) as [Hok2 Hiff2].
    destruct (mach_vm_protect _ _ _ os1) as [kr os2]. simpl in *.
    destruct (Z.eqb_spec kr 0); simpl.
    + wp_step. rewrite wrap_usize_small by done. simpl.
      assert (addr <> 0).
      { intros ->. apply (Hfree 0); [lia|]. by apply zero_reserved. }
      split; [|split].
      * split; [done|]. intros x Hx. apply Hiff2, Hown. by left.
      * apply Hplaced; unfold is_usize in *; lia.
      * intros x Hx. split; [by apply Hfree|]. apply Hiff2, Hown. by right.
    + wp_step. apply wp_call. wp_step. simpl.
      destruct (mach_vm_release_spec addr (BufferAllocatorSettings.size s) os2 Hok2) as [Hok3 Hk].
      split; [done|]. intros x Hx. apply Hk; [apply Hiff2, Hown; by left|].
      intros Hin. by apply (Hfree x).
Qed.

Lemma osx_try_allocate_buffer_spec start len s os :
  cfg_windows = false ->
  os_ok os -> 0 <= start -> 0 <= len -> start + len <= usize_max ->
  BufferAllocatorSettings.wf s -> 0 < BufferAllocatorSettings.size s ->
  wp (try_allocate_buffer start len s) (got_address s os) os.
Proof.
  intros Hwin Hok Hb Hl Hend Hwf Hsz. unfold try_allocate_buffer.
  eapply wp_mono; [apply (wp_for_each (grows os) (fun a os' => got_address s os (Some a) os'));
    [|by apply grows_refl]|by intros [a|] os'].
  intros addr os1 Hin Hg1. unfold get_buffer_pointers_in_page_range in Hin.
  rewrite add_usize_small in Hin by lia.
  assert (Hu : is_usize addr) by
    (eapply candidate_usize; [exact Hwf| | |exact Hin]; unfold is_usize; lia).
  apply candidate_spec in Hin as [Hdiv Hfit]; [|done|unfold is_usize; lia..|lia].
  eapply wp_mono; [apply osx_try_address_spec; [apply Hg1|done|done| |]|].
  - eapply Z.divide_trans; [by apply granularity_page|done].
  - eauto using fits_placed.
  - intros r os2 H2. apply (got_address_before s os) in H2; [by destruct r|done].
Qed.

Lemma region_loop_spec s hi os :
  cfg_windows = false ->
  is_usize hi -> os_ok os -> BufferAllocatorSettings.wf s -> 0 < BufferAllocatorSettings.size s ->
  wp (region_loop s hi) (fun r os' => match r with
    | Some it => got s os it os' | None => grows os os' end) os.
Proof.
  intros Hwin [Hhi0 Hhi] Hok Hwf Hsz.
  destruct (BufferAllocatorSettings.wf_min s Hwf) as [Hmin0 Hmin].
  apply (wp_loop _ (fun m cur os' => grows os os' /\ 0 <= cur /\ m = Z.max 0 (hi + 1 - cur)))
    with (n := Z.max 0 (hi + 1 - BufferAllocatorSettings.min_address s)).
  - intros m cur os1 (Hg1 & Hcur & ->) _.
    destruct (Z.leb_spec cur hi) as [Hle|]; [|by wp_step].
    wp_step. apply wp_call.
    pose proof (mach_vm_region_spec cur os1 (proj1 Hg1)) as Hreg.
    destruct (mach_vm_region cur os1) as [[kr [actual size]] os2]. simpl.
    destruct Hreg as [Hk%keeps_grows Hreg]. pose proof (grows_trans _ _ _ Hg1 Hk) as Hg2.
    rewrite (wrap_usize_small cur) by (unfold is_usize; lia).
    destruct (Z.eqb_spec kr 1) as [->|].
    { rewrite sub_usize_small by lia. rewrite Z.gtb_ltb.
      destruct (Z.ltb_spec 0 (hi - cur)); [|by wp_step].
      wp_step. eapply wp_mono; [apply osx_try_allocate_buffer_spec; [done|apply Hk|lia..|done|done]|].
      intros r os3 H3. apply (got_address_before s os) in H3; [|done]. wp_step. by destruct r. }
    destruct (Z.eqb_spec kr 0) as [->|]; simpl; [|by wp_step].
    destruct (Hreg eq_refl) as (Ha & Hs & Hend).
    wp_step. apply (wp_mono _ (got_address s os2)).
    + rewrite Z.gtb_ltb. destruct (Z.ltb_spec cur actual); [|wp_step; apply grows_refl, Hk].
      rewrite wrap_usize_small by (unfold is_usize; lia).
      apply osx_try_allocate_buffer_spec; try done; try lia. apply Hk.
    + intros r os3 H3. apply (got_address_before s os) in H3; [|done].
      destruct r as [a|]; wp_step; [done|].
      unfold add_u64. rewrite Z.mod_small.
      2: { unfold usize_max in *. destruct usize_modulus_cases; unfold u64_modulus; lia. }
      eexists. split; [|split; [exact H3|split; [|reflexivity]]]; lia.
  - split; [by apply grows_refl|]. done.
  - pose proof (usize_lt_loop usize_max) as Hl.
    specialize (Hl ltac:(unfold is_usize in *; lia)). lia.
Qed.

Lemma allocate_osx_spec s os :
  cfg_windows = false ->
  os_ok os -> BufferAllocatorSettings.wf s -> 0 < BufferAllocatorSettings.size s ->
  wp (allocate_osx s) (fun r os' => match r with
    | Ok it => got s os it os'
    | Err e => grows os os' /\ BufferAllocationError.settings e = s
    end) os.
Proof.
  intros Hwin Hok Hwf Hsz. unfold allocate_osx. wp_step.
  pose proof max_address_range as [? ?]. destruct (BufferAllocatorSettings.wf_max s Hwf).
  eapply wp_mono; [apply (wp_for_range (grows os) (got s os)); [|by apply grows_refl]|].
  - intros os1 Hg1.
    eapply wp_mono; [apply region_loop_spec; [done|unfold is_usize; lia|apply Hg1|done|done]|].
    intros [it|] os2; [by apply got_before|by apply grows_trans].
  - intros [it|] os1 Hr; by wp_step.
Qed.

End laws.
