(* ===== verification/AllocMmapRs.v ===== *)
(** * internal/buffer_allocator_mmap_rs.rs

    The allocator of the other platforms, on the crate mmap-rs. *)

From S2P Require Import Prelude Mathematics SysInfo Settings Errors Placement Items MapParser.
From S2P Require Import Platform.

(** The crate mmap-rs as the allocator uses it. *)
Class MmapRs (OS : Type) := {
  (** the areas, or an error; an area that could not be read is [None] *)
  MemoryAreas_open : OS -> option (list (option MemoryMapEntry)) * OS;
  (** [MmapOptions::new(size).is_ok()] *)
  MmapOptions_new (size : Z) : bool;
  (** [map_exec_mut] with the address and the flags MAP_FIXED and JIT: where
      the mapping starts *)
  map_exec_mut (address size : Z) : OS -> option Z * OS;
  (** the drop of a mapping *)
  drop_MmapMut (address size : Z) : OS -> unit * OS;
  (** the method called on the cached description of the system, which
      cached.rs does not define: nothing is assumed of its value *)
  get_allocation_granularity : Z
}.

Section mmap_rs.
Context `{T : Target} `{Q : SysQuery} {OS : Type} `{MR : MmapRs OS}.

(** The loop over the candidate addresses; [Some (Err _)] is the early return. *)
Definition try_address (settings : BufferAllocatorSettings) (addr : Z)
    : M OS (option (result LocatorItem string)) :=
  if negb (MmapOptions_new (BufferAllocatorSettings.size settings))
  then mret (Some (Err "Failed to create mmap options")) else
  map ← call (map_exec_mut addr (BufferAllocatorSettings.size settings));
  match map with
  | None => mret None
  | Some mapped_addr =>
      if negb (mapped_addr =? addr) then
        call (drop_MmapMut mapped_addr (BufferAllocatorSettings.size settings)) ;;
        mret None
      else
        mret (Some (Ok (LocatorItem.new mapped_addr (BufferAllocatorSettings.size settings))))
  end.

Definition try_allocate_buffer (entry : MemoryMapEntry) (settings : BufferAllocatorSettings)
    : M OS (result LocatorItem string) :=
  r ← for_each
    (get_possible_buffer_addresses (BufferAllocatorSettings.min_address settings)
      (BufferAllocatorSettings.max_address settings)
      (MemoryMapEntry.start_address entry) (MemoryMapEntry.end_address entry)
      (BufferAllocatorSettings.size settings)
      (wrap_usize get_allocation_granularity) results_buffer)
    (try_address settings);
  mret (match r with Some r => r | None => Err "Failed to allocate buffer" end).

Fixpoint try_regions (settings : BufferAllocatorSettings) (free_regions : list MemoryMapEntry)
    : M OS (option LocatorItem) :=
  match free_regions with
  | [] => mret None
  | region :: free_regions' =>
      if MemoryMapEntry.start_address region >? BufferAllocatorSettings.max_address settings
      then mret None else
      r ← try_allocate_buffer region settings;
      match r with
      | Ok item => mret (Some item)
      | Err _ => try_regions settings free_regions'
      end
  end.

(** One round of the retry loop; [Some (Err _)] is the early return. *)
Definition retry (settings : BufferAllocatorSettings)
    : M OS (option (result LocatorItem BufferAllocationError)) :=
  maps ← call MemoryAreas_open;
  match maps with
  | None =>
      mret (Some (Err {| BufferAllocationError.settings := settings;
        BufferAllocationError.text :=
          "Failed to Query Memory Pages via mmap-rs. Probably unsupported or lacking permissions." |}))
  | Some maps =>
      let mapped_regions := omap id maps in
      r ← try_regions settings (get_free_regions mapped_regions);
      mret (Ok <$> r)
  end.

Definition allocate_mmap_rs (settings : BufferAllocatorSettings)
    : M OS (result LocatorItem BufferAllocationError) :=
  r ← for_range (Z.to_nat (BufferAllocatorSettings.retry_count settings)) (retry settings);
  mret (match r with
    | Some r => r
    | None => Err (BufferAllocationError.new settings "Failed to allocate buffer (mmap_rs)")
    end).

End mmap_rs.

(** ** Documented behaviour of mmap-rs *)

Section laws.
Context `{T : Target} `{Q : SysQuery} {OS : Type} `{Mem : Memory OS} `{MR : MmapRs OS}.

Class MmapRsLaws := {
  (** the areas come in order and cover what is mapped *)
  MemoryAreas_spec os :
    os_ok os -> keeps os (MemoryAreas_open os).2 /\
    match (MemoryAreas_open os).1 with
    | Some areas => ordered 0 (omap id areas) /\
        forall x, 0 <= x -> owned os x ->
          exists e, e ∈ omap id areas /\ mapped e x
    | None => True
    end;
  (** a fixed mapping of free pages is made there, or fails *)
  map_exec_mut_spec addr size os :
    os_ok os -> 0 < size -> (MmapOptions_page_size | size) -> (forall x, addr <= x < addr + size -> ~ owned os x) ->
    let '(r, os') := map_exec_mut addr size os in
    os_ok os' /\
    match r with
    | None => forall x, owned os' x <-> owned os x
    | Some a => 0 < a /\ a + size <= usize_max /\
        (forall x, a <= x < a + size -> ~ owned os x) /\
        (forall x, owned os' x <-> owned os x \/ a <= x < a + size)
    end;
  (** the drop of a mapping gives back what was mapped *)
  drop_MmapMut_spec asked addr size os os1 :
    os_ok os -> 0 < size -> map_exec_mut asked size os = (Some addr, os1) ->
    keeps os (drop_MmapMut addr size os1).2
}.

Context `{ML : !MmapRsLaws} `{HQ : !SysQueryOk}.

(** No byte of a free region but its last is mapped. *)
Definition unmapped (os : OS) (e : MemoryMapEntry) : Prop :=
  forall x, MemoryMapEntry.start_address e <= x < MemoryMapEntry.end_address e -> ~ owned os x.

Lemma unmapped_keeps os os' e : keeps os os' -> unmapped os e -> unmapped os' e.
Proof. intros [_ Hk] Hu x Hx. rewrite Hk. by apply Hu. Qed.

(** The free regions are free: this is where the order of the areas and the
    completeness of the list matter. *)
Lemma get_free_regions_unmapped os (areas : list MemoryMapEntry) :
  ordered 0 areas -> (forall x, 0 <= x -> owned os x -> exists e, e ∈ areas /\ mapped e x) ->
  Forall (unmapped os) (get_free_regions areas).
Proof.
  intros Hord Hcover. rewrite get_free_regions_gaps by done.
  pose proof (gaps_ordered _ _ Hord) as Hgo.
  apply Forall_app. split.
  - apply Forall_forall. intros e He x Hx Hown.
    rewrite <- ?list_elem_of_In in He. pose proof (ordered_start _ _ _ Hgo He).
    destruct (gaps_spec areas 0 x Hord) as [_ Hex]. apply Hex. split.
    + exists e. split; [done|]. unfold in_entry. lia.
    + apply Hcover; [lia|done].
  - destruct (_ <? _); [|done]. constructor; [|done]. intros x Hx Hown. simpl in Hx.
    pose proof (final_end_le areas 0 Hord).
    destruct (gaps_spec areas 0 x Hord) as [Hiff _].
    assert (0 <= x < final_end 0 areas); [|lia].
    apply Hiff. right. apply Hcover; [lia|done].
Qed.

Lemma mmap_rs_try_address_spec s addr os :
  os_ok os -> 0 < BufferAllocatorSettings.size s ->
  (MmapOptions_page_size | BufferAllocatorSettings.size s) ->
  (forall x, addr <= x < addr + BufferAllocatorSettings.size s -> ~ owned os x) ->
  (addr + BufferAllocatorSettings.size s <= usize_max -> 0 < addr ->
   placed s (LocatorItem.new addr (BufferAllocatorSettings.size s))) ->
  wp (try_address s addr) (fun r os' => match r with
    | Some (Ok it) => got s os it os' | _ => keeps os os' end) os.
Proof.
  intros Hok Hsz Hpg Hfree Hplaced. unfold try_address.
  destruct (negb _); [by wp_step|]. wp_step. apply wp_call.
  pose proof (map_exec_mut_spec addr (BufferAllocatorSettings.size s) os Hok Hsz Hpg Hfree) as Hm.
  destruct (map_exec_mut _ _ os) as [[a|] os1] eqn:E; simpl; destruct Hm as [Hok1 Hm].
  2: { by wp_step. }
  destruct Hm as (Ha & Hend & Hfr & Hown).
  destruct (Z.eqb_spec a addr) as [->|Hne]; simpl.
  - wp_step. split; [|split].
    + split; [done|]. intros x Hx. apply Hown. by left.
    + by apply Hplaced.
    + intros x Hx. split; [by apply Hfr|]. apply Hown. by right.
  - wp_step. apply wp_call. wp_step. by eapply drop_MmapMut_spec.
Qed.

Lemma mmap_rs_try_allocate_buffer_spec e s os :
  os_ok os -> region_ok e -> MemoryMapEntry.end_address e < usize_max -> unmapped os e ->
  BufferAllocatorSettings.wf s -> 0 < BufferAllocatorSettings.size s ->
  (MmapOptions_page_size | BufferAllocatorSettings.size s) ->
  wp (try_allocate_buffer e s) (fun r os' => match r with
    | Ok it => got s os it os' | Err _ => keeps os os' end) os.
Proof.
  intros Hok [? ? ?] Hlt Hun Hwf Hsz Hpg. unfold try_allocate_buffer. wp_step.
  eapply wp_mono; [apply (wp_for_each (keeps os)
    (fun r os' => match r with Ok it => got s os it os' | Err _ => keeps os os' end));
    [|done]|].
  - intros addr os1 Hin Hk1.
    assert (Hpl := Hin). rewrite get_possible_placements in Hpl by done.
    pose proof (wrap_usize_range get_allocation_granularity) as Hg. unfold is_usize in Hg.
    pose proof (BufferAllocatorSettings.wf_size _ Hwf) as Hu32%u32_le_usize.
    pose proof (BufferAllocatorSettings.wf_min _ Hwf).
    pose proof (BufferAllocatorSettings.wf_max _ Hwf).
    apply placements_inside in Hpl as Hfit; [|by auto..|lia|lia|lia].
    eapply wp_mono; [apply mmap_rs_try_address_spec; [apply Hk1|done|done| |]|].
    + intros x Hx. apply (unmapped_keeps _ _ e Hk1 Hun). destruct Hfit. lia.
    + eauto using fits_placed.
    + intros [[it|err]|] os2.
      * apply got_before. by apply keeps_grows.
      * by apply keeps_trans.
      * by apply keeps_trans.
  - intros [[it|err]|] os1 Hr; by wp_step.
Qed.

Lemma mmap_rs_try_regions_spec regions s os :
  os_ok os -> Forall region_ok regions -> Forall (unmapped os) regions ->
  Forall (fun e => MemoryMapEntry.end_address e < usize_max) regions ->
  BufferAllocatorSettings.wf s -> 0 < BufferAllocatorSettings.size s ->
  (MmapOptions_page_size | BufferAllocatorSettings.size s) ->
  wp (try_regions s regions) (fun r os' => match r with
    | Some it => got s os it os' | None => keeps os os' end) os.
Proof.
  intros Hok Hr Hun Hlt Hwf Hsz Hpg. revert os Hok Hun.
  induction Hr as [|e regions He Hr IH]; intros os Hok Hun; cbn [try_regions]; [by wp_step|].
  apply list.Forall_cons in Hun as [Hu Hun]. apply list.Forall_cons in Hlt as [Hl Hlt].
  destruct (_ >? _); [by wp_step|].
  wp_step. eapply wp_mono; [by apply mmap_rs_try_allocate_buffer_spec|].
  intros [it|e'] os1 H1; [by wp_step|].
  eapply wp_mono; [apply IH; [done|apply H1|]|].
  - eapply List.Forall_impl; [|exact Hun]. intros a. by apply unmapped_keeps.
  - intros [it|] os2; [by apply got_before, keeps_grows|by apply keeps_trans].
Qed.

Lemma get_free_regions_below (areas : list MemoryMapEntry) :
  ordered 0 areas -> Cached.max_address get_sys_info < usize_max ->
  Forall (fun e => MemoryMapEntry.end_address e < usize_max) (get_free_regions areas).
Proof.
  intros Hord Hmax. rewrite get_free_regions_gaps by done. apply Forall_app. split.
  - revert Hord. generalize 0. induction areas as [|e areas IH]; intros last Hord; [done|].
    destruct Hord as ([? ?] & ? & Hord). cbn [gaps]. apply Forall_app. split; [|by apply IH].
    destruct (_ >? _); [|done]. constructor; [|done]. simpl. lia.
  - destruct (_ <? _); [|done]. by constructor.
Qed.

Lemma allocate_mmap_rs_spec s os :
  cfg_windows = false -> Cached.max_address get_sys_info < usize_max ->
  os_ok os -> BufferAllocatorSettings.wf s -> 0 < BufferAllocatorSettings.size s ->
  (granularity | BufferAllocatorSettings.size s) ->
  wp (allocate_mmap_rs s) (fun r os' => match r with
    | Ok it => got s os it os'
    | Err e => grows os os' /\ BufferAllocationError.settings e = s
    end) os.
Proof.
  intros Hwin Hmax Hok Hwf Hsz Hdiv.
  assert (Hpg : (MmapOptions_page_size | BufferAllocatorSettings.size s)) by
    (eapply Z.divide_trans; [by apply granularity_page|done]).
  unfold allocate_mmap_rs. wp_step.
  eapply wp_mono; [apply (wp_for_range (grows os) (fun r os' => match r with
    | Ok it => got s os it os'
    | Err e => grows os os' /\ BufferAllocationError.settings e = s end));
    [|by apply grows_refl]|].
  - intros os1 Hg1. unfold retry. wp_step. apply wp_call.
    destruct (MemoryAreas_spec os1 (proj1 Hg1)) as [Hk Hmaps].
    destruct (MemoryAreas_open os1) as [[maps|] os2]; simpl in *.
    2: { wp_step. split; [|done]. by eapply grows_trans, keeps_grows. }
    destruct Hmaps as [Hord Hcover]. wp_step.
    eapply wp_mono; [apply mmap_rs_try_regions_spec; try done|].
    + apply Hk.
    + apply get_free_regions_ok. eapply ordered_usize; [|exact Hord]. lia.
    + eapply List.Forall_impl; [|by apply (get_free_regions_unmapped os1)].
      intros a. by apply unmapped_keeps.
    + by apply get_free_regions_below.
    + pose proof (grows_trans _ _ _ Hg1 (keeps_grows _ _ Hk)) as Hg2.
      intros [it|] os3 H3; wp_step; simpl; [by eapply got_before|].
      eapply grows_trans; [exact Hg2|]. by apply keeps_grows.
  - intros [[it|e]|] os1 Hr; by wp_step.
Qed.

End laws.
