(* ===== verification/Allocate.v ===== *)
(** * internal/buffer_allocator.rs: [allocate] of the build target

    The allocator that [cfg(target_os)] selects is the platform the locators
    run on, and the laws of the system's functions give the laws of the
    platform. *)

From S2P Require Import Prelude Mathematics SysInfo Settings Errors Items MapParser Posix.
From S2P Require Import Platform PosixSpec Kernel32 AllocLinux AllocWindows AllocOsx AllocMmapRs.

(** [alloc::alloc::alloc], the global allocator *)
Class GlobalAlloc (OS : Type) := { global_alloc (size align : Z) : OS -> Z * OS }.

Section allocate.
Context `{T : Target} `{Q : SysQuery} {OS : Type} `{GA : GlobalAlloc OS}.
Context `{PX : Posix OS} `{I : Itoa} `{SA : StringAlloc} `{WM : WindowsMemory OS}
  `{WP : WindowsProcess OS} `{MA : Mach OS} `{MR : MmapRs OS}.

#[global] Instance target_platform : Platform OS := {
  allocate_platform settings :=
    match target_os with
    | Windows => allocate_windows settings
    | Linux => allocate_linux settings
    | MacOS => allocate_osx settings
    | Android | OtherUnix => allocate_mmap_rs settings
    end;
  heap_alloc := global_alloc
}.

Context `{Mem : Memory OS}.

(** The contract of [GlobalAlloc::alloc]. *)
Class GlobalAllocLaws := {
  global_alloc_spec size align os :
    os_ok os -> 0 < size -> layout_ok size align = true ->
    let '(addr, os') := global_alloc size align os in
    os_ok os' /\ (forall x, owned os x -> owned os' x) /\
    (addr <> 0 ->
      0 < addr /\ addr + size <= usize_max /\
      (forall x, addr <= x < addr + size -> ~ owned os x /\ owned os' x))
}.

Context `{GL : !GlobalAllocLaws} `{HQ : !SysQueryOk}.

(** On every target, the laws of the functions it calls make [allocate] meet
    the contract of the platform. *)
Definition linux_platform_laws `{PL : !PosixLaws} :
  target_os = Linux -> paths_ok -> PlatformLaws.
Proof.
  intros E Hp. refine {| reachable pid := px_readable (as_i32 pid); reachable_self := px_self |};
    [|apply global_alloc_spec]. intros s os Hok Hwf [Hsz Hdiv] Hpid.
  unfold allocate_platform, target_platform. rewrite E. by apply allocate_linux_spec.
Defined.

Definition windows_platform_laws `{WML : !WindowsMemoryLaws} `{WL : !WindowsLaws} :
  target_os = Windows -> PlatformLaws.
Proof.
  intros E. refine {| reachable _ := True |}; [done| |apply global_alloc_spec].
  intros s os Hok Hwf [Hsz Hdiv] _.
  unfold allocate_platform, target_platform. rewrite E.
  eapply wp_mono; [apply allocate_windows_spec; try done|by intros [it|e] os' H; [apply H|]].
  unfold cfg_windows. by rewrite E.
Defined.

Lemma windows_tracks_allocations `{WML : !WindowsMemoryLaws} `{WL : !WindowsLaws} :
  target_os = Windows -> TracksAllocations.
Proof.
  intros E. constructor. intros s os _ Hok Hwf [Hsz Hdiv].
  unfold allocate_platform, target_platform. rewrite E.
  eapply wp_mono; [apply allocate_windows_spec; try done; unfold cfg_windows; by rewrite E|].
  intros [it|e] os' H; [|done]. destruct H as [(_ & Hp & _) Hall]. apply Hall.
  rewrite (placed_size _ _ Hp). etrans; [apply granularity_divide|done].
Qed.

Lemma unix_tracks_allocations `{WML : !WindowsMemoryLaws} `{P : Platform OS} :
  target_os <> Windows -> TracksAllocations.
Proof. intros H. constructor. by intros s os E. Qed.

Definition macos_platform_laws `{ML : !MachLaws} : target_os = MacOS -> PlatformLaws.
Proof.
  intros E. refine {| reachable _ := True |}; [done| |apply global_alloc_spec].
  intros s os Hok Hwf [Hsz Hdiv] _.
  unfold allocate_platform, target_platform. rewrite E. apply allocate_osx_spec; try done.
  unfold cfg_windows. by rewrite E.
Defined.

Definition other_platform_laws `{MRL : !MmapRsLaws} :
  target_os = Android \/ target_os = OtherUnix ->
  Cached.max_address get_sys_info < usize_max -> PlatformLaws.
Proof.
  intros E Hmax. refine {| reachable _ := True |}; [done| |apply global_alloc_spec].
  intros s os Hok Hwf [Hsz Hdiv] _.
  unfold allocate_platform, target_platform.
  destruct E as [E|E]; rewrite E; (apply allocate_mmap_rs_spec; [|done|done|done|done|done]);
    unfold cfg_windows; by rewrite E.
Defined.

End allocate.
