(* ===== verification/Succeeds.v ===== *)
(** * Allocations that succeed, on every platform

    For each allocator, what the system grants beyond the laws of its
    functions, and that an allocation for which there is a place then
    succeeds: the allocators of Windows and macOS go from region to region, and
    none of their steps passes over the place.  LinuxMaps.v has the same for
    Linux.  At the end, each target's promise to the locators
    ([PlatformSucceeds]). *)

From S2P Require Import Prelude Mathematics SysInfo Settings Errors Placement Items.
From S2P Require Import MapParser Posix Platform PosixSpec Places Kernel32.
From S2P Require Import AllocLinux LinuxMaps AllocWindows AllocOsx AllocMmapRs Allocate.

(** ** Windows *)

Section windows.
Context `{T : Target} `{Q : SysQuery} {OS : Type} `{Mem : Memory OS} `{WM : WindowsMemory OS}
  `{WP : WindowsProcess OS} `{WML : !WindowsMemoryLaws} `{WL : !WindowsLaws} `{HQ : !SysQueryOk}.
Implicit Types os : OS.

Class WindowsGrants := {
  (** the system would still commit that many bytes *)
  wg_roomy : OS -> Z -> Prop;
  (** the lowest application address *)
  wg_lowest : Z;
  wg_lowest_pos : 0 < wg_lowest;
  (** every application address can be queried.  The pages of the answer are
      free, up to the next page that is not; or none of them is, above the
      lowest address. *)
  wg_query addr os :
    os_ok os -> 0 <= addr <= lpMaximumApplicationAddress ->
    let '((k, info), os') := VirtualQuery addr size_of_memory_basic_information os in
    k <> 0 /\ (forall n, wg_roomy os n -> wg_roomy os' n) /\ (4096 | BaseAddress info) /\
    if State info =? MEM_FREE then
      (forall x, BaseAddress info <= x < BaseAddress info + RegionSize info -> ~ owned os x) /\
      (BaseAddress info + RegionSize info <= lpMaximumApplicationAddress ->
       owned os (BaseAddress info + RegionSize info))
    else forall p, (4096 | p) -> wg_lowest <= p ->
      BaseAddress info <= p < BaseAddress info + RegionSize info ->
      exists x, p <= x < p + 4096 /\ owned os x;
  (** free memory is given at the address asked for *)
  wg_alloc addr len os :
    os_ok os -> wg_roomy os len -> wg_lowest <= addr -> (granularity | addr) -> 0 < len ->
    addr + len <= lpMaximumApplicationAddress ->
    (forall x, addr <= x < addr + len -> ~ owned os x) ->
    (VirtualAlloc addr len (Z.lor MEM_RESERVE MEM_COMMIT) PAGE_EXECUTE_READWRITE os).1 = addr;
  (** the process can open itself *)
  wg_open os :
    os_ok os -> let '(h, os') := OpenProcess (Cached.this_process_id get_sys_info) os in
    h <> 0 /\ forall n, wg_roomy os n -> wg_roomy os' n
}.

Context `{WG : !WindowsGrants}.

Record windows_obtainable os (s : BufferAllocatorSettings) : Prop := {
  wo_min : wg_lowest <= BufferAllocatorSettings.min_address s;
  wo_max : BufferAllocatorSettings.max_address s <= Cached.max_address get_sys_info;
  wo_retry : 0 < BufferAllocatorSettings.retry_count s;
  wo_roomy : wg_roomy os (BufferAllocatorSettings.size s);
  wo_place : exists a, place_for s os a
}.

Lemma windows_below s :
  cfg_windows = true -> BufferAllocatorSettings.max_address s <= Cached.max_address get_sys_info ->
  BufferAllocatorSettings.max_address s <= lpMaximumApplicationAddress /\
  lpMaximumApplicationAddress + 4096 <= usize_max.
Proof.
  intros Hwin Hmax. destruct (max_address_granularity Hwin) as [Hm Hgr].
  pose proof max_address_win. pose proof granularity_range.
  assert (4096 <= granularity) by (apply Z.divide_pos_le; [lia|apply granularity_divide]). lia.
Qed.

(** A free region gives a buffer when it has a candidate. *)
Lemma windows_region_granted info s os :
  cfg_windows = true -> os_ok os -> BufferAllocatorSettings.wf s -> sanitized s ->
  windows_obtainable os s -> 0 <= BaseAddress info -> 0 <= RegionSize info ->
  BaseAddress info + RegionSize info <= usize_max ->
  (State info = MEM_FREE ->
   forall x, BaseAddress info <= x < BaseAddress info + RegionSize info -> ~ owned os x) ->
  wp (AllocWindows.try_allocate_buffer (K := LocalKernel32) info s) (fun r os' => match r with
    | Some _ => True
    | None => os' = os /\ (State info = MEM_FREE ->
        candidates_of s (BaseAddress info) (BaseAddress info + RegionSize info) = [])
    end) os.
Proof.
  intros Hwin Hok Hwf [Hsz _] [Hlow Hmax _ Hroom _] Hb Hr Hend Hfree. unfold AllocWindows.try_allocate_buffer.
  destruct (Z.eqb_spec (State info) MEM_FREE) as [E|E]; simpl; [|by wp_step].
  destruct (windows_below s Hwin Hmax) as [? ?].
  unfold AllocWindows.get_buffer_pointers_in_page_range. rewrite add_usize_small by lia.
  fold (candidates_of s (BaseAddress info) (BaseAddress info + RegionSize info)).
  destruct (candidates_of s _ _) as [|c cs] eqn:Hc; [by cbn [for_each]; wp_step|].
  destruct (candidates_sound s (BaseAddress info) (BaseAddress info + RegionSize info) c)
    as [Hdiv [? ? ? ?]]; [done|lia|unfold is_usize; lia|unfold is_usize; lia|lia
    |rewrite Hc; by left|].
  cbn [for_each]. wp_step. unfold AllocWindows.try_address. wp_step. apply wp_call.
  cbn [virtual_alloc LocalKernel32]. rewrite wg_alloc; [|done|done|lia|done|done|lia|].
  - pose proof wg_lowest_pos. destruct (Z.eqb_spec c 0); [lia|]. rewrite Z.eqb_refl. simpl.
    by do 2 wp_step.
  - intros x Hx. apply (Hfree E). lia.
Qed.

(** The loop over the pages: the page of the current address never passes the
    place. *)
Lemma query_loop_succeeds s os a :
  cfg_windows = true -> os_ok os -> BufferAllocatorSettings.wf s -> sanitized s ->
  windows_obtainable os s -> place_for s os a ->
  wp (query_loop (K := LocalKernel32) RegionSize (BufferAllocatorSettings.max_address s) s)
    (fun r _ => exists it, r = Some it) os.
Proof.
  intros Hwin Hok Hwf Hsan Hob Hplace. unfold query_loop.
  destruct (windows_below s Hwin (wo_max _ _ Hob)) as [Hbelow Hlt]. set (hi := BufferAllocatorSettings.max_address s) in *.
  assert (Hal : (4096 | a)) by (etrans; [apply granularity_divide|apply Hplace]).
  assert (Hpage : 4096 <= BufferAllocatorSettings.size s).
  { destruct Hsan as [? Hd]. apply Z.divide_pos_le; [done|]. etrans; [apply granularity_divide|done]. }
  destruct (BufferAllocatorSettings.wf_min s Hwf) as [Hmin0 _].
  pose proof (pl_max _ _ _ Hplace) as Hend. pose proof (pl_min _ _ _ Hplace). fold hi in Hend.
  apply (wp_loop _ (fun m cur os' => keeps os os' /\ wg_roomy os' (BufferAllocatorSettings.size s) /\
    0 <= cur < a + 4096 /\ m = Z.max 0 (hi + 1 - cur)))
    with (n := Z.max 0 (hi + 1 - BufferAllocatorSettings.min_address s)).
  - intros m cur os1 (Hk1 & Hroom1 & Hcur & ->) _.
    destruct (Z.leb_spec cur hi); [|lia]. wp_step. apply wp_call. cbn [virtual_query LocalKernel32].
    pose proof (wm_query cur size_of_memory_basic_information os1 (proj1 Hk1)) as [Hk2 Hans].
    pose proof (wg_query cur os1 (proj1 Hk1)) as Hq.
    destruct (VirtualQuery cur _ os1) as [[k info] os2]. simpl in *.
    destruct Hq as (Hk & Hroom2 & Hbase & Hstate); [lia|].
    destruct (Z.eqb_spec k 0); [done|]. simpl. destruct (Hans Hk) as (Hb & Hcb & Hrs & Hre).
    pose proof (keeps_trans _ _ _ Hk1 Hk2) as Hk12.
    pose proof (place_keeps _ _ _ a Hk1 Hplace) as [_ Hlo _ Hfree].
    assert (Hob2 : windows_obtainable os2 s).
    { destruct Hob. constructor; auto. exists a. by eapply place_keeps. }
    wp_step. eapply wp_mono; [apply windows_region_granted; [done|apply Hk2|done|done|done|lia..|]|].
    { intros E x Hx. rewrite E, Z.eqb_refl in Hstate. rewrite (proj2 Hk2). by apply Hstate. }
    intros [it|] os3 H3; [wp_step; eauto|]. destruct H3 as [-> Hnone]. wp_step.
    rewrite add_usize_small by lia. 
    eexists. split; [|split; [exact Hk12|split; [by apply Hroom2|split; [|reflexivity]]]]; [lia|].
    assert (BaseAddress info + RegionSize info <= a); [|lia].
    destruct (Z.le_gt_cases (BaseAddress info + RegionSize info) a) as [|Hin]; [done|exfalso].
    assert (Hba : BaseAddress info <= a).
    { destruct Hbase as [q Hq'], Hal as [p Hp]. lia. }
    destruct (Z.eqb_spec (State info) MEM_FREE) as [E|E].
    + destruct Hstate as [_ Hbehind]. specialize (Hnone E).
      assert (Hfit : fits_in s (BaseAddress info) (BaseAddress info + RegionSize info) a).
      { constructor; [done| |apply Hplace|apply Hplace].
        destruct (Z.le_gt_cases (a + BufferAllocatorSettings.size s)
          (BaseAddress info + RegionSize info)); [done|exfalso].
        apply (Hfree (BaseAddress info + RegionSize info)); [lia|]. apply Hbehind. lia. }
      destruct (candidates_exist s (BaseAddress info) (BaseAddress info + RegionSize info) a)
        as (c & cs & Hc); [done|unfold is_usize; lia|unfold is_usize; lia|apply Hplace|done|congruence].
    + destruct (Hstate a) as (x & Hx & Hox); [done|pose proof (wo_min _ _ Hob); lia|lia|].
      apply (Hfree x); [lia|done].
  - split; [done|]. split; [apply Hob|]. split; [lia|done].
  - pose proof (usize_lt_loop usize_max) as Hl. unfold is_usize in Hl.
    specialize (Hl ltac:(lia)). lia.
Qed.

Lemma allocate_windows_succeeds s os :
  cfg_windows = true -> os_ok os -> BufferAllocatorSettings.wf s -> sanitized s ->
  BufferAllocatorSettings.target_process_id s = Cached.this_process_id get_sys_info ->
  windows_obtainable os s ->
  wp (allocate_windows s) (fun r _ => exists it, r = Ok it) os.
Proof.
  intros Hwin Hok Hwf Hsan Hpid Hob.
  unfold allocate_windows, drop_process_handle, open_process, is_valid, get_max_windows_address.
  rewrite Hpid, Z.eqb_refl. wp_step. apply wp_call.
  pose proof (OpenProcess_spec (Cached.this_process_id get_sys_info) os Hok) as Hk.
  pose proof (wg_open os Hok) as Hopen. destruct (OpenProcess _ os) as [h os1]. simpl in *.
  destruct Hopen as [Hh Hroom]. destruct (Z.eqb_spec h 0); [done|]. simpl. do 3 wp_step.
  unfold allocate_fast. rewrite Z.min_r by apply Hob. wp_step.
  destruct (Z.to_nat (BufferAllocatorSettings.retry_count s)) as [|rounds] eqn:En;
    [pose proof (wo_retry _ _ Hob); lia|].
  destruct (wo_place _ _ Hob) as [a Hplace]. cbn [for_range]. wp_step.
  eapply wp_mono; [apply (query_loop_succeeds s os1 a); [done|apply Hk|done|done| |]|].
  - destruct Hob. constructor; auto. exists a. by eapply place_keeps.
  - by eapply place_keeps.
  - intros r os2 [it ->]. do 3 wp_step. apply wp_call. wp_step. eauto.
Qed.

End windows.

(** ** macOS *)

Section osx.
Context `{T : Target} `{Q : SysQuery} {OS : Type} `{Mem : Memory OS} `{MA : Mach OS}
  `{ML : !MachLaws} `{HQ : !SysQueryOk}.
Implicit Types os : OS.

Class MachGrants := {
  (** the system would still map that many bytes *)
  mg_roomy : OS -> Z -> Prop;
  (** the first region at or above the address, or none *)
  mg_region addr os :
    os_ok os -> 0 <= addr <= Cached.max_address get_sys_info ->
    let '((kr, (actual, size)), os') := mach_vm_region addr os in
    (forall n, mg_roomy os n -> mg_roomy os' n) /\
    ((kr = 1 /\ forall x, addr <= x <= Cached.max_address get_sys_info -> ~ owned os x) \/
     (kr = 0 /\ (forall x, addr <= x < actual -> ~ owned os x) /\
      forall x, Z.max addr actual <= x < actual + size -> owned os x));
  (** free memory is given *)
  mg_allocate addr size os :
    os_ok os -> mg_roomy os size -> 0 <= addr -> (granularity | addr) -> 0 < size ->
    addr + size <= Cached.max_address get_sys_info ->
    (forall x, addr <= x < addr + size -> ~ owned os x) ->
    (mach_vm_allocate addr size os).1.1 = 0;
  (** what is mapped can be protected *)
  mg_protect addr size x os :
    os_ok os -> (forall b, addr <= b < addr + size -> owned os b) ->
    (mach_vm_protect addr size x os).1 = 0
}.

Context `{MG : !MachGrants}.

Record osx_obtainable os (s : BufferAllocatorSettings) : Prop := {
  oo_max : BufferAllocatorSettings.max_address s <= Cached.max_address get_sys_info;
  oo_below : BufferAllocatorSettings.max_address s < usize_max;
  oo_retry : 0 < BufferAllocatorSettings.retry_count s;
  oo_roomy : mg_roomy os (BufferAllocatorSettings.size s);
  oo_place : exists a, place_for s os a
}.

(** A free range gives a buffer when it has a candidate. *)
Lemma osx_range_granted ps pe s os :
  cfg_windows = false -> os_ok os -> BufferAllocatorSettings.wf s -> sanitized s ->
  osx_obtainable os s -> 0 <= ps <= pe -> pe <= usize_max ->
  (forall x, ps <= x < pe -> x <= Cached.max_address get_sys_info -> ~ owned os x) ->
  wp (AllocOsx.try_allocate_buffer ps (pe - ps) s) (fun r os' => match r with
    | Some _ => True
    | None => os' = os /\ candidates_of s ps pe = []
    end) os.
Proof.
  intros Hwin Hok Hwf [Hsz _] [Hmax Hbelow _ Hroom _] Hps Hpe Hfree.
  unfold AllocOsx.try_allocate_buffer, AllocOsx.get_buffer_pointers_in_page_range.
  rewrite add_usize_small by lia. replace (ps + (pe - ps)) with pe by lia.
  fold (candidates_of s ps pe).
  destruct (candidates_of s ps pe) as [|c cs] eqn:Hc; [by cbn [for_each]; wp_step|].
  destruct (candidates_sound s ps pe c) as [Hdiv [? ? ? ?]];
    [done|lia|unfold is_usize; lia|unfold is_usize; lia|lia|rewrite Hc; by left|].
  assert (Hcfree : forall x, c <= x < c + BufferAllocatorSettings.size s -> ~ owned os x).
  { intros x Hx. apply Hfree; lia. }
  cbn [for_each]. wp_step. unfold AllocOsx.try_address. wp_step. apply wp_call.
  assert (Hcu : is_usize c) by (unfold is_usize; lia).
  assert (Hcm : c + BufferAllocatorSettings.size s <= Cached.max_address get_sys_info) by lia.
  pose proof (mg_allocate c (BufferAllocatorSettings.size s) os Hok Hroom (proj1 Hcu) Hdiv Hsz Hcm Hcfree)
    as Hkr.
  pose proof (mach_vm_allocate_spec c (BufferAllocatorSettings.size s) os Hok Hsz Hcu) as Hm.
  destruct (mach_vm_allocate c _ os) as [[kr a] os1]. simpl in *. subst kr. simpl.
  destruct Hm as [Hok1 Hm]; [etrans; [by apply granularity_page|done]|].
  destruct Hm as [[? _]|(_ & -> & _ & _ & Hown)]; [done|].
  wp_step. apply wp_call. rewrite mg_protect; [|done|auto]. simpl. by do 2 wp_step.
Qed.

(** The loop over the regions: the current address never passes the place. *)
Lemma region_loop_succeeds s os a :
  cfg_windows = false -> os_ok os -> BufferAllocatorSettings.wf s -> sanitized s ->
  osx_obtainable os s -> place_for s os a ->
  wp (region_loop s (BufferAllocatorSettings.max_address s)) (fun r _ => exists it, r = Some it) os.
Proof.
  intros Hwin Hok Hwf Hsan Hob Hplace. unfold region_loop.
  pose proof (oo_max _ _ Hob) as Hmax. pose proof (oo_below _ _ Hob) as Hbelow.
  set (hi := BufferAllocatorSettings.max_address s) in *. pose proof (proj1 Hsan) as Hsz.
  destruct (BufferAllocatorSettings.wf_min s Hwf) as [Hmin0 _].
  pose proof (pl_max _ _ _ Hplace) as Hend. pose proof (pl_min _ _ _ Hplace). fold hi in Hend.
  apply (wp_loop _ (fun m cur os' => keeps os os' /\ mg_roomy os' (BufferAllocatorSettings.size s) /\
    0 <= cur <= a /\ m = hi + 1 - cur)) with (n := hi + 1 - BufferAllocatorSettings.min_address s).
  - intros m cur os1 (Hk1 & Hroom1 & Hcur & ->) _.
    destruct (Z.leb_spec cur hi); [|lia]. wp_step. apply wp_call.
    pose proof (mach_vm_region_spec cur os1 (proj1 Hk1)) as Hreg.
    assert (Hcm : 0 <= cur <= Cached.max_address get_sys_info) by lia.
    pose proof (mg_region cur os1 (proj1 Hk1) Hcm) as Hq.
    destruct (mach_vm_region cur os1) as [[kr [actual size]] os2]. simpl.
    destruct Hreg as [Hk2 Hreg], Hq as [Hroom2 Hq].
    pose proof (keeps_trans _ _ _ Hk1 Hk2) as Hk12.
    pose proof (place_keeps _ _ _ a Hk1 Hplace) as [_ Hlo _ Hfree].
    assert (Hob2 : osx_obtainable os2 s).
    { destruct Hob. constructor; auto. exists a. by eapply place_keeps. }
    assert (Hfit : forall pe, a + BufferAllocatorSettings.size s <= pe -> pe <= usize_max ->
      candidates_of s cur pe <> []).
    { intros pe Hpe Hu E. destruct (candidates_exist s cur pe a) as (c & cs & Hc);
        [done|unfold is_usize; lia|unfold is_usize; lia|apply Hplace| |congruence].
      constructor; [lia|done|apply Hplace|apply Hplace]. }
    rewrite (wrap_usize_small cur) by (unfold is_usize; lia).
    destruct Hq as [(-> & Hnone)|(-> & Hbefore & Hin)]; simpl.
    + rewrite sub_usize_small by lia. rewrite Z.gtb_ltb. destruct (Z.ltb_spec 0 (hi - cur)); [|lia].
      wp_step. eapply wp_mono; [apply osx_range_granted; [done|apply Hk2|done|done|done|lia|lia|]|].
      { intros x Hx Hx'. rewrite (proj2 Hk2). apply Hnone. lia. }
      intros [r|] os3 H3; wp_step; simpl; [eauto|]. destruct H3 as [_ E]. exfalso.
      by apply (Hfit hi); [lia|lia|].
    + destruct (Hreg eq_refl) as (Ha & Hs & Hre). wp_step.
      apply (wp_mono _ (fun r os' => match r with
        | Some _ => True
        | None => os' = os2 /\ (cur < actual -> candidates_of s cur actual = [])
        end)).
      { rewrite Z.gtb_ltb. destruct (Z.ltb_spec cur actual); [|by wp_step; split; [|lia]].
        rewrite wrap_usize_small by (unfold is_usize; lia).
        eapply wp_mono; [apply osx_range_granted; [done|apply Hk2|done|done|done|lia|lia|]|].
        - intros x Hx _. rewrite (proj2 Hk2). by apply Hbefore.
        - intros [r|] os3 H3; [done|]. by destruct H3. }
      intros [r|] os3 H3; wp_step; [eauto|]. destruct H3 as [-> Hnone].
      assert (Hnext : actual + size <= a).
      { destruct (Z.le_gt_cases (actual + size) a) as [|Hgt]; [done|exfalso].
        destruct (Z.lt_ge_cases a actual).
        - destruct (Z.le_gt_cases (a + BufferAllocatorSettings.size s) actual).
          + apply (Hfit actual); [lia|lia|]. apply Hnone. lia.
          + apply (Hfree actual); [lia|]. apply Hin. lia.
        - apply (Hfree a); [lia|]. apply Hin. lia. }
      unfold add_u64. rewrite Z.mod_small.
      2: { unfold usize_max in *. destruct usize_modulus_cases; unfold u64_modulus; lia. }
      eexists. split; [|split; [exact Hk12|split; [by apply Hroom2|split; [|reflexivity]]]]; lia.
  - split; [done|]. split; [apply Hob|]. split; [lia|done].
  - pose proof (usize_lt_loop usize_max) as Hl. unfold is_usize in Hl.
    specialize (Hl ltac:(lia)). lia.
Qed.

Lemma allocate_osx_succeeds s os :
  cfg_windows = false -> os_ok os -> BufferAllocatorSettings.wf s -> sanitized s ->
  osx_obtainable os s ->
  wp (allocate_osx s) (fun r _ => exists it, r = Ok it) os.
Proof.
  intros Hwin Hok Hwf Hsan Hob. unfold allocate_osx. rewrite Z.min_r by apply Hob. wp_step.
  destruct (Z.to_nat (BufferAllocatorSettings.retry_count s)) as [|rounds] eqn:En;
    [pose proof (oo_retry _ _ Hob); lia|].
  destruct (oo_place _ _ Hob) as [a Hplace]. cbn [for_range]. wp_step.
  eapply wp_mono; [by apply (region_loop_succeeds s os a)|].
  intros r os' [it ->]. do 2 wp_step. eauto.
Qed.

End osx.

(** ** The promise of each target *)

Section targets.
Context `{T : Target} `{Q : SysQuery} {OS : Type} `{GA : GlobalAlloc OS}.
Context `{PX : Posix OS} `{I : Itoa} `{SA : StringAlloc} `{WM : WindowsMemory OS}
  `{WP : WindowsProcess OS} `{MA : Mach OS} `{MR : MmapRs OS}.
Context `{Mem : Memory OS} `{HQ : !SysQueryOk}.

Definition linux_succeeds `{PL : !PosixLaws} `{SL : !StringAllocLaws} `{LL : !LinuxLaws} :
  target_os = Linux -> paths_ok -> PlatformSucceeds.
Proof.
  intros E Hp. refine {| obtainable := linux_obtainable |}.
  intros s os. unfold allocate_platform, target_platform. rewrite E. by apply allocate_linux_succeeds.
Defined.

Definition windows_succeeds `{WML : !WindowsMemoryLaws} `{WL : !WindowsLaws}
    `{WG : !WindowsGrants} :
  target_os = Windows -> PlatformSucceeds.
Proof.
  intros E. refine {| obtainable := windows_obtainable |}.
  intros s os. unfold allocate_platform, target_platform. rewrite E. apply allocate_windows_succeeds.
  unfold cfg_windows. by rewrite E.
Defined.

Definition macos_succeeds `{ML : !MachLaws} `{MG : !MachGrants} :
  target_os = MacOS -> PlatformSucceeds.
Proof.
  intros E. refine {| obtainable := osx_obtainable |}.
  intros s os ? ? ? _ ?. unfold allocate_platform, target_platform. rewrite E.
  apply allocate_osx_succeeds; try done. unfold cfg_windows. by rewrite E.
Defined.

End targets.
