(* ===== verification/BuffersSpec.v ===== *)
(** * What the public operations guarantee

    [get_buffer] hands out an item that is locked for the caller, suits the
    request and shares no byte with any other item; [get_buffer_aligned] also
    aligns it; private memory is fresh. *)

From S2P Require Import Prelude Mathematics SysInfo Settings Errors Items Headers World ItemOps.
From S2P Require Import Platform HeaderOps HeaderSpec HeaderWp HeaderInit HeaderNext.
From S2P Require Import MapParser Posix MemoryMappedFiles Finder Buffers.
Import LocatorHeader.

Section search.
Context `{T : Target} `{Q : SysQuery} {OS : Type} `{Sch : Scheduler OS} `{P : Platform OS}
  `{Mem : Memory OS} `{L : !PlatformLaws} `{HQ : !SysQueryOk}.
Implicit Types w : World OS.

(** The item [s] went to the caller: locked and suitable.  An item that was
    there before was free; the buffer of a new one is in fresh memory.  Every
    other item is as it was. *)
Record acquired (l : list Z) (n lo hi : Z) w (s : SafeLocatorItem) (l' : list Z) w' : Prop := {
  aq_prefix : exists k, l' = l ++ k;
  aq_registered : registered (w_headers w') l' (SafeLocatorItem.item s);
  aq_item : exists it, w_items w' !! SafeLocatorItem.item s = Some it /\
    LocatorItem.wf it /\ LocatorItem.is_taken it = 1 /\ LocatorItem.provides it n lo hi /\
    (registered (w_headers w) l (SafeLocatorItem.item s) -> exists it0,
       w_items w !! SafeLocatorItem.item s = Some it0 /\ LocatorItem.is_taken it0 = 0 /\
       it = LocatorItem.set_is_taken 1 it0) /\
    (~ registered (w_headers w) l (SafeLocatorItem.item s) ->
       forall x, LocatorItem.in_buffer it x -> ~ owned (w_os w) x);
  aq_others p : registered (w_headers w) l p -> p <> SafeLocatorItem.item s ->
    registered (w_headers w') l' p /\ w_items w' !! p = w_items w !! p;
  aq_bytes : w_bytes w' = w_bytes w;
  aq_owned x : owned (w_os w) x -> owned (w_os w') x;
  aq_used x : used l' w' x -> used l w x \/ ~ owned (w_os w) x;
  aq_unused p it : registered (w_headers w') l' p -> ~ registered (w_headers w) l p ->
    w_items w' !! p = Some it -> LocatorItem.position it = 0 /\
    (p <> SafeLocatorItem.item s -> LocatorItem.is_taken it = 0) /\
    (forall x, LocatorItem.in_buffer it x -> ~ owned (w_os w) x);
  aq_static : w_locator_header_address w' = w_locator_header_address w
}.

Lemma took_acquired a l l1 n lo hi w w1 s w' :
  evolves l w l1 w1 -> inv a l1 w1 -> took_item l1 n lo hi w1 s w' ->
  acquired l n lo hi w s l1 w'.
Proof.
  intros Hev Hi (it & Hreg & Hit & Hfree & Hp & ->).
  destruct (inv_item _ _ _ Hi _ Hreg) as (it' & Hit' & Hwf & _).
  assert (it' = it) as -> by congruence.
  constructor; simpl.
  - apply (ev_prefix _ _ _ _ Hev).
  - done.
  - exists (LocatorItem.set_is_taken 1 it). rewrite lookup_insert_eq. split; [done|].
    split; [by apply LocatorItem.set_is_taken_wf|]. split; [done|].
    split; [by apply LocatorItem.set_is_taken_provides|]. split.
    + intros Hold. destruct (ev_old _ _ _ _ Hev _ Hold) as [_ Heq]. exists it. by rewrite <- Heq.
    + intros Hnew x Hx. by eapply (ev_new _ _ _ _ Hev _ it x).
  - intros p Hold Hne. destruct (ev_old _ _ _ _ Hev _ Hold) as [? Heq].
    by rewrite lookup_insert_ne.
  - apply (ev_bytes _ _ _ _ Hev).
  - apply (ev_owned _ _ _ _ Hev).
  - intros x Hx. apply (ev_used _ _ _ _ Hev). by eapply (used_update_item _ w1 _ _ _ _ Hit); [| |exact Hx].
  - intros p jt Hp' Hn. destruct (decide (SafeLocatorItem.item s = p)) as [<-|Hne].
    + rewrite lookup_insert_eq. intros [= <-]. destruct (ev_free _ _ _ _ Hev _ it Hp' Hn Hit).
      split; [done|]. split; [done|]. intros x. exact (ev_new _ _ _ _ Hev _ it x Hp' Hn Hit).
    + rewrite lookup_insert_ne by done. intros Hj. destruct (ev_free _ _ _ _ Hev p jt Hp' Hn Hj).
      split; [done|]. split; [done|]. intros x. exact (ev_new _ _ _ _ Hev p jt x Hp' Hn Hj).
  - apply (ev_static _ _ _ _ Hev).
Qed.

Lemma registered_push hs l b h p :
  hs !! b = Some h -> registered hs l p ->
  registered (<[b := set_num_items (num_items h + 1) h]> hs) l p.
Proof.
  intros Hh (d & g & i & Hd & Hg & Hbnd & ->). destruct (decide (b = d)) as [<-|].
  - assert (g = h) as -> by congruence.
    exists b, (set_num_items (num_items h + 1) h), i. rewrite lookup_insert_eq.
    split; [done|]. split; [done|]. split; [simpl; lia|done].
  - exists d, g, i. by rewrite lookup_insert_ne.
Qed.

Lemma registered_pushed hs l b h p :
  hs !! b = Some h -> registered (<[b := set_num_items (num_items h + 1) h]> hs) l p ->
  registered hs l p \/ p = get_item b (num_items h).
Proof.
  intros Hh (d & g & i & Hd & Hg & Hbnd & ->). destruct (decide (b = d)) as [<-|].
  - rewrite lookup_insert_eq in Hg. injection Hg as <-. simpl in Hbnd.
    destruct (decide (i = num_items h)) as [->|]; [by right|].
    left. exists b, h, i. split; [done|]. split; [done|]. split; [lia|done].
  - rewrite lookup_insert_ne in Hg by done. left. by exists d, g, i.
Qed.

Lemma allocated_acquired a l l1 b n lo hi w w1 s w' :
  evolves l w l1 w1 -> inv a l1 w1 -> b ∈ l1 -> allocated_item b n lo hi w1 s w' ->
  acquired l n lo hi w s l1 w'.
Proof.
  intros Hev Hi Hb (h & it & os' & Hh & Hfull & Hs & Hwf & Htk & Hpos & Hp & Hfresh & _ & Hmono & ->).
  destruct (inv_header _ _ _ Hi b h Hb Hh) as [_ _ _ Hnum].
  assert (num_items h < MAX_ITEM_COUNT).
  { unfold is_full in Hfull. rewrite Z.geb_leb in Hfull. bool_props. lia. }
  pose proof (registered_fresh _ _ _ _ _ (num_items h) Hi Hb Hh ltac:(lia)) as Hnew.
  rewrite <- Hs in Hnew. constructor; simpl.
  - apply (ev_prefix _ _ _ _ Hev).
  - exists b, (set_num_items (num_items h + 1) h), (num_items h). rewrite lookup_insert_eq.
    split; [done|]. split; [done|]. split; [simpl; lia|done].
  - exists it. rewrite lookup_insert_eq. do 4 (split; [done|]). split.
    + by intros [? _]%(ev_old _ _ _ _ Hev).
    + intros _ x Hx Hown. apply (Hfresh x Hx). by apply (ev_owned _ _ _ _ Hev).
  - intros p Hold Hne. destruct (ev_old _ _ _ _ Hev _ Hold) as [Hr Heq].
    rewrite lookup_insert_ne by done. split; [|done]. by apply registered_push.
  - apply (ev_bytes _ _ _ _ Hev).
  - intros x Hx. by apply Hmono, (ev_owned _ _ _ _ Hev).
  - intros x [?|(p & jt & Hreg & Hj & Hx)]; [by apply (ev_used _ _ _ _ Hev); left|]. simpl in *.
    destruct (decide (SafeLocatorItem.item s = p)) as [<-|Hne].
    + rewrite lookup_insert_eq in Hj. injection Hj as <-. right. intros Ho.
      by apply (Hfresh x Hx), (ev_owned _ _ _ _ Hev).
    + rewrite lookup_insert_ne in Hj by done. apply (ev_used _ _ _ _ Hev). right. exists p, jt.
      split; [|done]. destruct (registered_pushed _ _ _ _ _ Hh Hreg) as [?|Heq]; [done|congruence].
  - intros p jt Hreg Hn. destruct (decide (SafeLocatorItem.item s = p)) as [<-|Hne].
    + rewrite lookup_insert_eq. intros [= <-]. split; [done|]. split; [done|]. intros x Hx Ho.
      by apply (Hfresh x Hx), (ev_owned _ _ _ _ Hev).
    + rewrite lookup_insert_ne by done. intros Hj.
      destruct (registered_pushed _ _ _ _ _ Hh Hreg) as [Hp'|Heq]; [|congruence].
      destruct (ev_free _ _ _ _ Hev p jt Hp' Hn Hj).
      split; [done|]. split; [done|]. intros x. exact (ev_new _ _ _ _ Hev p jt x Hp' Hn Hj).
  - apply (ev_static _ _ _ _ Hev).
Qed.

(** The two reasons for which a search fails. *)
Definition search_error_text (text : string) : Prop :=
  text = ItemAllocationError.as_string ItemAllocationError.CannotAllocateMemory \/
  text = out_of_memory_text.

(** The outcome of a search. *)
Definition searched (a : Z) (l : list Z) (settings : BufferSearchSettings) w
    (r : result SafeLocatorItem BufferSearchError) w' : Prop :=
  exists l', inv a l' w' /\
    match r with
    | Ok s => acquired l (BufferSearchSettings.size settings)
        (BufferSearchSettings.min_address settings) (BufferSearchSettings.max_address settings)
        w s l' w'
    | Err e => evolves l w l' w' /\ BufferSearchError.settings e = settings /\
        search_error_text (BufferSearchError.text e)
    end.

(** What the loop knows at the locator [b]: it is on the chain, and either the
    memory is still as it was and [m] locators remain, or [b] was just added
    and has room. *)
Definition searching (a : Z) (l : list Z) w (m b : Z) w' : Prop :=
  (w' = w /\ exists pre suf, l = pre ++ b :: suf /\ m = Z.of_nat (length suf) + 1) \/
  (m = 0 /\ exists l', inv a l' w' /\ evolves l w l' w' /\ b ∈ l' /\
     exists h, w_headers w' !! b = Some h /\ is_full h = false).

Lemma searching_inv a l w m b w' :
  inv a l w -> searching a l w m b w' ->
  exists l', inv a l' w' /\ evolves l w l' w' /\ b ∈ l'.
Proof.
  intros Hi [[-> (pre & suf & -> & _)]|(_ & l' & ? & ? & ? & _)]; [|by exists l'].
  eexists. split; [exact Hi|]. split; [apply evolves_refl|]. solve_in.
Qed.

Lemma evolves_after_os a l l' w w' os' :
  inv a l' w' -> evolves l w l' w' -> os_ok os' ->
  (forall x, owned (w_os w') x -> owned os' x) ->
  inv a l' (set_os os' w') /\ evolves l w l' (set_os os' w').
Proof.
  intros Hi Hev Hok Hm. split; [by apply set_os_inv|]. destruct Hev. constructor; simpl; auto.
Qed.

(** The address space bounds the number of locators. *)
Lemma chain_length_bound a l w : inv a l w -> Z.of_nat (length l) <= usize_max.
Proof.
  intros Hi. pose proof usize_modulus_pos.
  assert (Hsub : l ⊆+ seqZ 1 usize_max).
  { apply NoDup_submseteq; [apply (inv_nodup _ _ _ Hi)|]. intros b Hb.
    destruct (chain_lookup _ _ _ b (inv_chain _ _ _ Hi) Hb) as [h Hh].
    destruct (inv_header _ _ _ Hi b h Hb Hh) as [? _ ? _ _].
    apply elem_of_seqZ. unfold LENGTH in *. lia. }
  apply submseteq_length in Hsub. rewrite length_seqZ in Hsub. unfold usize_max in *. lia.
Qed.

(** One locator: the search ends, or goes on with fewer locators left. *)
Lemma get_buffer_recursive_spec a l w settings :
  granule_fits -> inv a l w -> BufferSearchSettings.wf settings ->
  BufferSearchSettings.size settings + granularity <= u32_max ->
  wp (Buffers.get_buffer_recursive settings a) (searched a l settings w) w.
Proof.
  intros Hfits Hi [Hlo Hhi [Hn _]] Hbig. unfold Buffers.get_buffer_recursive.
  destruct (chain_head _ _ _ (inv_chain _ _ _ Hi)) as [l0 Hl0].
  apply (wp_loop _ (searching a l w)) with (n := Z.of_nat (length l)).
  - intros m b w1 Hse Hm. destruct (searching_inv _ _ _ _ _ _ Hi Hse) as (l1 & Hi1 & Hev & Hb).
    wp_step. eapply wp_mono; [by eapply get_first_available_item_locked_spec|].
    intros [s|] w2 H2.
    { wp_step. exists l1. split; [by eapply took_item_inv|by eapply took_acquired]. }
    destruct H2 as [-> _]. wp_step.
    eapply wp_mono; [by eapply try_allocate_item_spec|].
    intros [s|e] w2 H2.
    { wp_step. exists l1. split; [by eapply allocated_item_inv|by eapply allocated_acquired]. }
    destruct e.
    + destruct H2 as [-> (h & Hh & Hfull)]. simpl. wp_step.
      destruct Hse as [[-> (pre & suf & -> & ->)]|(_ & ? & _ & _ & _ & g & Hg & ?)];
        [|congruence].
      eapply wp_mono; [by eapply get_next_locator_spec|].
      intros [c|err] w2 H2; wp_step.
      * destruct H2 as [[-> [suf' ->]]|(-> & l2 & -> & Hi2 & Hev2 & Hc & Hfree & _)].
        -- exists (Z.of_nat (length suf') + 1). split; [simpl; lia|]. left. split; [done|].
           exists (pre ++ [b]), suf'. by rewrite <- app_assoc.
        -- exists 0. split; [simpl; lia|]. right. split; [done|]. by eexists.
      * destruct H2 as (-> & -> & Hi2 & Hev2 & _). exists (pre ++ [b]).
        split; [done|]. split; [done|]. split; [done|by right].
    + destruct H2 as [_ (os' & -> & Hok & Hmono)]. simpl. wp_step.
      destruct (evolves_after_os a l l1 w w1 os') as [? ?]; try done. exists l1.
      split; [done|]. split; [done|]. split; [done|by left].
  - left. split; [done|]. exists [], l0. subst l. simpl. split; [done|lia].
  - pose proof (chain_length_bound _ _ _ Hi).
    pose proof (usize_lt_loop usize_max) as Hu. unfold is_usize in Hu. lia.
Qed.

End search.

(** ** The entry points *)

Section entry.
Context `{T : Target} `{Q : SysQuery} {OS : Type} `{Sch : Scheduler OS} `{P : Platform OS}
  `{Mem : Memory OS} `{L : !PlatformLaws} `{HQ : !SysQueryOk}.
Context `{PX : Posix OS} `{ST : UnixMemoryMappedFile.StringTail OS} `{WF : WindowsFiles OS}
  `{SV : SharedViews OS} `{I : Itoa}.
Implicit Types w : World OS.

(** The process has found its first locator. *)
Definition ready (a : Z) (l : list Z) w : Prop :=
  inv a l w /\ w_locator_header_address w = a.

Lemma find_ready a l w :
  ready a l w -> wp LocatorHeaderFinder.find (fun r w' => r = a /\ w' = w) w.
Proof.
  intros [Hi Ha]. unfold LocatorHeaderFinder.find. wp_step. wp_step. rewrite Ha.
  destruct (chain_head _ _ _ (inv_chain _ _ _ Hi)) as [l0 Hl].
  assert (Hin : a ∈ l) by (rewrite Hl; solve_in).
  destruct (chain_lookup _ _ _ a (inv_chain _ _ _ Hi) Hin) as [h Hh].
  destruct (inv_header _ _ _ Hi a h Hin Hh).
  destruct (Z.eqb_spec a 0); [lia|]. simpl. by wp_step.
Qed.

Lemma get_buffer_spec a l w settings :
  granule_fits -> ready a l w -> BufferSearchSettings.wf settings ->
  BufferSearchSettings.size settings + granularity <= u32_max ->
  wp (Buffers.get_buffer settings) (searched a l settings w) w.
Proof.
  intros Hfits Hr Hwf Hbig. unfold Buffers.get_buffer. wp_step.
  eapply wp_mono; [by eapply find_ready|]. intros r w' [-> ->].
  apply get_buffer_recursive_spec; try done. by destruct Hr.
Qed.

(** The process stays ready. *)
Lemma searched_ready a l w settings r w' :
  ready a l w -> searched a l settings w r w' -> exists l', ready a l' w' /\ exists k, l' = l ++ k.
Proof.
  intros [_ Ha] (l' & Hi & Hr). exists l'. destruct r as [s|e].
  - split; [|apply (aq_prefix _ _ _ _ _ _ _ _ Hr)].
    split; [done|]. by rewrite (aq_static _ _ _ _ _ _ _ _ Hr).
  - destruct Hr as [Hev _]. split; [|apply (ev_prefix _ _ _ _ Hev)].
    split; [done|]. by rewrite (ev_static _ _ _ _ Hev).
Qed.

(** The item an aligned search ends with: the caller's, with its free part
    aligned and still large enough. *)
Record aligned_item (settings : BufferSearchSettings) (alignment : Z) (it : LocatorItem) : Prop := {
  al_wf : LocatorItem.wf it;
  al_taken : LocatorItem.is_taken it = 1;
  al_provides : LocatorItem.provides it (BufferSearchSettings.size settings)
    (BufferSearchSettings.min_address settings) (BufferSearchSettings.max_address settings);
  al_aligned : (Z.max alignment 1 | LocatorItem.base_address it + LocatorItem.position it)
}.

Lemma align_item_spec p it (settings : BufferSearchSettings) alignment w :
  w_items w !! p = Some it -> LocatorItem.wf it -> LocatorItem.is_taken it = 1 ->
  0 <= BufferSearchSettings.size settings -> is_u32 alignment ->
  LocatorItem.provides it (BufferSearchSettings.size settings + (Z.max alignment 1 - 1))
    (BufferSearchSettings.min_address settings) (BufferSearchSettings.max_address settings) ->
  wp (Buffers.align_item {| SafeLocatorItem.item := p |} alignment) (fun _ w' => exists pos,
    LocatorItem.position it <= pos < LocatorItem.position it + Z.max alignment 1 /\
    aligned_item settings alignment (LocatorItem.set_position pos it) /\
    w' = set_items (<[p := LocatorItem.set_position pos it]> (w_items w)) w) w.
Proof.
  intros Hp Hwf Htk Hn Hal [Hroom Hmin Hmax].
  destruct (Hwf) as [? Hs ? ?]. unfold Buffers.align_item. simpl.
  wp_step. eapply wp_load_item; [done|]. apply wp_store_item. unfold is_u32 in *.
  rewrite add_usize_small by lia.
  set (addr := LocatorItem.base_address it + LocatorItem.position it) in *.
  assert (Hup : addr <= round_up addr alignment <= addr + (Z.max alignment 1 - 1) /\
    (Z.max alignment 1 | round_up addr alignment)).
  { destruct (decide (alignment = 0)) as [->|].
    - unfold round_up. simpl. split; [lia|apply Z.divide_1_l].
    - rewrite Z.max_l in * by lia. apply round_up_near; unfold is_usize; lia. }
  destruct Hup as [Hup Hdiv].
  rewrite (sub_usize_small (round_up addr alignment)) by lia.
  rewrite as_u32_small by (unfold is_u32; lia). rewrite add_u32_small by lia.
  eexists. split; [|split; [|reflexivity]]; [lia|].
  assert (Hnew : LocatorItem.base_address it +
    (LocatorItem.position it + (round_up addr alignment - addr)) = round_up addr alignment) by lia.
  constructor; simpl.
  - apply LocatorItem.set_position_wf; [done|lia].
  - done.
  - constructor; simpl; lia.
  - by rewrite Hnew.
Qed.

(** An aligned search: a search with room to align, and then the position of
    the item moves on, by less than the alignment. *)
Definition padded (settings : BufferSearchSettings) (alignment : Z) : BufferSearchSettings :=
  BufferSearchSettings.set_size (BufferSearchSettings.size settings + (Z.max alignment 1 - 1)) settings.
Definition searched_aligned (a : Z) (l : list Z) (settings : BufferSearchSettings) (alignment : Z) w
    (r : result SafeLocatorItem BufferSearchError) w' : Prop :=
  exists l' w1, inv a l' w1 /\ Buffers.get_buffer (padded settings alignment) w = Done r w1 /\
    match r with
    | Ok s => acquired l (BufferSearchSettings.size settings + (Z.max alignment 1 - 1))
        (BufferSearchSettings.min_address settings) (BufferSearchSettings.max_address settings)
        w s l' w1 /\
        exists it pos, w_items w1 !! SafeLocatorItem.item s = Some it /\
          LocatorItem.position it <= pos < LocatorItem.position it + Z.max alignment 1 /\
          aligned_item settings alignment (LocatorItem.set_position pos it) /\
          w' = set_items (<[SafeLocatorItem.item s := LocatorItem.set_position pos it]>
                 (w_items w1)) w1
    | Err e => w' = w1 /\ evolves l w l' w1 /\ search_error_text (BufferSearchError.text e)
    end.

Lemma get_buffer_aligned_run a l w settings alignment :
  granule_fits -> ready a l w -> BufferSearchSettings.wf settings -> is_u32 alignment ->
  BufferSearchSettings.size settings + alignment + granularity <= u32_max ->
  wp (Buffers.get_buffer_aligned settings alignment) (searched_aligned a l settings alignment w) w.
Proof.
  intros Hfits Hr Hwf Hal Hbig. pose proof granularity_range.
  destruct (Hwf) as [Hlo Hhi Hn]. unfold is_u32 in Hal, Hn.
  unfold Buffers.get_buffer_aligned.
  set (mis := if alignment - 1 <? 0 then 0 else alignment - 1).
  assert (Hmis : mis = Z.max alignment 1 - 1) by (unfold mis; case_bool; lia).
  rewrite add_u32_small, Hmis by lia. wp_step.
  eapply wp_mono; [apply wp_ran, get_buffer_spec; [done|done| |simpl; lia]|].
  { constructor; simpl; [done|done|unfold is_u32; lia]. }
  intros [[p]|e] w' (E & l' & Hi & Hs); simpl in Hs.
  2: { wp_step. destruct Hs as (Hev & _ & Htext). by exists l', w'. }
  destruct (aq_item _ _ _ _ _ _ _ _ Hs) as (it & Hit & Hiwf & Htk & Hprov & _). simpl in *. wp_step.
  eapply wp_mono; [apply (align_item_spec p it settings alignment); try done; lia|].
  intros [] w2 (pos & Hpos & Hali & ->). wp_step. exists l', w'. do 3 (split; [done|]).
  by exists it, pos.
Qed.

Lemma get_buffer_aligned_spec a l w settings alignment :
  granule_fits -> ready a l w -> BufferSearchSettings.wf settings -> is_u32 alignment ->
  BufferSearchSettings.size settings + alignment + granularity <= u32_max ->
  wp (Buffers.get_buffer_aligned settings alignment) (fun r w' =>
    exists l', ready a l' w' /\ (exists k, l' = l ++ k) /\ w_bytes w' = w_bytes w /\
    match r with
    | Ok s => registered (w_headers w') l' (SafeLocatorItem.item s) /\
        (exists it, w_items w' !! SafeLocatorItem.item s = Some it /\
           aligned_item settings alignment it) /\
        (forall p, registered (w_headers w) l p -> p <> SafeLocatorItem.item s ->
           w_items w' !! p = w_items w !! p)
    | Err e => evolves l w l' w' /\ search_error_text (BufferSearchError.text e)
    end) w.
Proof.
  intros Hfits Hr Hwf Hal Hbig. eapply wp_mono; [by apply get_buffer_aligned_run|].
  intros r w' (l' & w1 & Hi & _ & Hs). exists l'. destruct Hr as [_ Ha]. destruct r as [s|e].
  - destruct Hs as ([Hpre Hreg _ Hoth Hbytes _ _ _ Hstat] & it & pos & Hit & _ & Hali & ->).
    split; [|split; [done|split; [done|]]].
    + destruct Hali as [Hw Ht _ _]. split; [|simpl; by rewrite Hstat].
      eapply inv_update_item; try done. by right.
    + simpl. split; [done|]. split; [eexists; by rewrite lookup_insert_eq|].
      intros q Hq Hne. rewrite lookup_insert_ne by done. by apply Hoth.
  - destruct Hs as (-> & Hev & Htext).
    split; [split; [done|]; by rewrite (ev_static _ _ _ _ Hev)|].
    split; [apply (ev_prefix _ _ _ _ Hev)|]. split; [apply (ev_bytes _ _ _ _ Hev)|done].
Qed.

(** ** Private memory *)

(** Private memory for the process itself. *)
Definition private_request (settings : BufferAllocatorSettings) : Prop :=
  BufferAllocatorSettings.wf settings /\
  BufferAllocatorSettings.size settings + granularity <= u32_max /\
  BufferAllocatorSettings.target_process_id settings = Cached.this_process_id get_sys_info.

Lemma allocate_private_memory_spec os settings :
  os_ok os -> BufferAllocatorSettings.wf settings ->
  BufferAllocatorSettings.size settings + granularity <= u32_max ->
  reachable (BufferAllocatorSettings.target_process_id settings) ->
  wp (Buffers.allocate_private_memory settings) (fun r os' =>
    grows os os' /\ r.1 = BufferAllocatorSettings.sanitize settings /\
    match r.2 with
    | Ok alloc => let base := PrivateAllocation.base_address alloc in
        let n := PrivateAllocation.size alloc in
        PrivateAllocation.this_process_id alloc = BufferAllocatorSettings.target_process_id settings /\
        0 < base /\ BufferAllocatorSettings.min_address settings <= base /\
        base + n <= BufferAllocatorSettings.max_address settings /\
        BufferAllocatorSettings.size settings <= n /\ 0 < n /\ (granularity | n) /\
        (forall x, base <= x < base + n -> ~ owned os x /\ owned os' x)
    | Err _ => True
    end) os.
Proof.
  intros Hok Hwf Hbig Hpid. unfold Buffers.allocate_private_memory. wp_step.
  eapply wp_mono; [by apply allocate_spec|].
  intros [s' [it|e]] os' (Hok' & Hmono & Heq & Hr); simpl in *; [|by wp_step].
  destruct Hr as (Hpl & Hiwf & Hf). subst s'.
  destruct (BufferAllocatorSettings.sanitize_size_covers _ Hwf Hbig) as ([? ?] & Hdiv & ?).
  destruct Hpl as [Hb Hmin Hmax Hsz _ _].
  destruct (Z.eqb_spec (LocatorItem.base_address it) 0); [lia|]. wp_step. simpl.
  rewrite BufferAllocatorSettings.sanitize_max in *.
  assert (BufferAllocatorSettings.min_address settings <=
    BufferAllocatorSettings.min_address (BufferAllocatorSettings.sanitize settings)).
  { rewrite BufferAllocatorSettings.sanitize_min. destruct cfg_windows; lia. }
  split; [done|]. split; [done|]. split.
  { apply BufferAllocatorSettings.sanitize_pid. }
  do 5 (split; [lia|]). split; [by rewrite Hsz|]. intros x Hx. apply Hf, Hx.
Qed.

End entry.
