(* ===== verification/ReleaseSpec.v ===== *)
(** * Giving back private memory

    The drop of a [PrivateAllocation] on every platform, from the documented
    behaviour of the calls that release memory. *)

From S2P Require Import Prelude SysInfo Settings Items MapParser Posix Platform PosixSpec Kernel32 Buffers.
From S2P Require Import Errors BuffersSpec.
Import PrivateAllocation.

Section release.
Context `{T : Target} `{Q : SysQuery} {OS : Type} `{Mem : Memory OS} `{PX : Posix OS} `{I : Itoa}
  `{WM : WindowsMemory OS}
  `{R : Releases OS} `{PL : !PosixLaws} `{WML : !WindowsMemoryLaws}.
Implicit Types os : OS.

Class ReleaseLaws := {
  (** KERN_SUCCESS is 0 *)
  rl_mach_vm_deallocate base n os :
    os_ok os -> frees base n ((mach_vm_deallocate base n os).1 = 0) os
      (mach_vm_deallocate base n os).2;
  rl_mmap_rs_unmap_existing base n os :
    os_ok os -> frees base n ((mmap_rs_unmap_existing base n os).1 = true) os
      (mmap_rs_unmap_existing base n os).2
}.

Context `{RL : !ReleaseLaws}.

(** The call that releases the memory reports success; the code does not look
    at the report, but for that of mmap-rs. *)
Definition release_succeeds (self : PrivateAllocation) os : Prop :=
  match target_os with
  | Windows => True
  | Linux => (posix_munmap (base_address self) (size self) os).1 = 0
  | MacOS => (mach_vm_deallocate (base_address self) (size self) os).1 = 0
  | _ => (mmap_rs_unmap_existing (base_address self) (size self) os).1 = true
  end.

(** The targets of mmap-rs unwrap the result of the unmapping. *)
Definition drop_panics (self : PrivateAllocation) os : Prop :=
  match target_os with
  | Windows | Linux | MacOS => False
  | _ => (mmap_rs_unmap_existing (base_address self) (size self) os).1 = false
  end.

Lemma drop_mmap_rs_spec self os (R' : OS -> Prop) :
  R' (mmap_rs_unmap_existing (base_address self) (size self) os).2 ->
  wp_unless ((mmap_rs_unmap_existing (base_address self) (size self) os).1 = false)
    (drop_mmap_rs self) (fun _ => R') os.
Proof.
  unfold wp_unless, drop_mmap_rs, mbind, M_bind, call.
  by destruct (mmap_rs_unmap_existing _ _ os) as [[] os'].
Qed.

(** The memory belongs to this process, and on Windows is one allocation. *)
Definition own_allocation (self : PrivateAllocation) os : Prop :=
  this_process_id self = Cached.this_process_id get_sys_info /\
  (target_os = Windows -> wm_allocation os (base_address self) (size self)).

Lemma munmap_frees a n os :
  os_ok os -> frees a n ((posix_munmap a n os).1 = 0) os (posix_munmap a n os).2.
Proof.
  intros Hok. pose proof (px_munmap a n os Hok) as H. destruct (posix_munmap a n os) as [r os'].
  destruct H as (? & ? & ? & _ & ?). by constructor.
Qed.

Lemma drop_spec self os :
  os_ok os -> own_allocation self os ->
  wp_unless (drop_panics self os) (drop self) (fun _ os' =>
    frees (base_address self) (size self) (release_succeeds self os) os os') os.
Proof.
  intros Hok [Hpid Hwin]. unfold drop, drop_panics, release_succeeds, drop_windows, drop_unix, drop_macos.
  rewrite Hpid, Z.eqb_refl.
  destruct target_os; try (apply wp_wp_unless; [tauto|]; apply wp_bind, wp_call).
  - by apply wm_free_all, Hwin.
  - by apply munmap_frees.
  - by apply rl_mach_vm_deallocate.
  - by apply drop_mmap_rs_spec, rl_mmap_rs_unmap_existing.
  - by apply drop_mmap_rs_spec, rl_mmap_rs_unmap_existing.
Qed.

(** The empty allocation of an error: nothing is given back. *)
Lemma frees_nothing a released os os' : frees a 0 released os os' -> keeps os os'.
Proof. intros [Hok Hless Hrest _]. split; [done|]. split; [auto|]. intros Hx. apply Hrest; [done|lia]. Qed.

Lemma drop_null_spec os :
  os_ok os -> wp_unless (drop_panics null os) (drop null) (fun _ os' => keeps os os') os.
Proof.
  intros Hok. assert (Hkeep : keeps os os) by done.
  unfold drop, drop_panics, drop_windows, drop_unix, drop_macos.
  destruct target_os; try (apply wp_wp_unless; [tauto|]).
  - apply wp_bind, wp_call. by apply wm_free_null.
  - destruct (_ =? _); [|done]. apply wp_bind, wp_call. by eapply (frees_nothing 0), munmap_frees.
  - destruct (_ =? _); [|done]. apply wp_bind, wp_call.
    by eapply (frees_nothing 0), rl_mach_vm_deallocate.
  - by eapply drop_mmap_rs_spec, (frees_nothing 0), rl_mmap_rs_unmap_existing.
  - by eapply drop_mmap_rs_spec, (frees_nothing 0), rl_mmap_rs_unmap_existing.
Qed.

(** On Unix, memory of another process is left alone. *)
Lemma drop_other_process self os :
  (target_os = Linux \/ target_os = MacOS) ->
  this_process_id self <> Cached.this_process_id get_sys_info ->
  drop self os = Done tt os.
Proof.
  intros Hos Hpid%Z.eqb_neq. unfold drop, drop_unix, drop_macos.
  destruct Hos as [-> | ->]; by rewrite Hpid.
Qed.

(** ** From the allocation to the drop *)

Context `{P : Platform OS} `{L : !PlatformLaws} `{HQ : !SysQueryOk}.

Context `{TA : !TracksAllocations}.

Lemma private_memory_allocation settings os :
  target_os = Windows ->
  os_ok os -> BufferAllocatorSettings.wf settings ->
  BufferAllocatorSettings.size settings + granularity <= u32_max ->
  reachable (BufferAllocatorSettings.target_process_id settings) ->
  wp (Buffers.allocate_private_memory settings) (fun r os' => match r.2 with
    | Ok alloc => wm_allocation os' (base_address alloc) (size alloc)
    | Err _ => True
    end) os.
Proof.
  intros Hwin Hok Hwf Hbig Hpid. pose proof (BufferAllocatorSettings.sanitize_wf _ Hwf) as Hsan.
  destruct (BufferAllocatorSettings.sanitize_size_covers _ Hwf Hbig) as (_ & Hdiv & Hsz).
  unfold Buffers.allocate_private_memory. wp_step. unfold allocate. wp_step.
  assert (Hs : sanitized (BufferAllocatorSettings.sanitize settings)) by done.
  eapply wp_mono; [apply wp_and; [by apply windows_allocation|apply allocate_platform_spec; try done]|].
  { by rewrite BufferAllocatorSettings.sanitize_pid. }
  intros [it|e] os' [H Hgot]; wp_step; [|done]. simpl. destruct Hgot as (_ & [Hb _ _ _ _ _] & _).
  destruct (Z.eqb_spec (LocatorItem.base_address it) 0); [lia|done].
Qed.

(** Windows knows what it allocated. *)
Lemma allocate_private_memory_tracked settings os :
  os_ok os -> BufferAllocatorSettings.wf settings ->
  BufferAllocatorSettings.size settings + granularity <= u32_max ->
  reachable (BufferAllocatorSettings.target_process_id settings) ->
  wp (Buffers.allocate_private_memory settings) (fun r os' => match r.2 with
    | Ok alloc => target_os = Windows -> wm_allocation os' (base_address alloc) (size alloc)
    | Err _ => True
    end) os.
Proof.
  intros. destruct (decide (target_os = Windows)) as [Hwin|Hwin].
  - eapply wp_mono; [by apply private_memory_allocation|]. intros [s [alloc|e]] os1 H'; simpl in *; auto.
  - eapply wp_mono; [by apply allocate_private_memory_spec|]. intros [s [alloc|e]] os1 _; simpl; [by intros E|done].
Qed.

(** Allocate, then drop: what was there before is there again, and nothing
    of the allocation stays. *)
Lemma lifecycle_spec os settings :
  os_ok os -> BufferAllocatorSettings.wf settings ->
  BufferAllocatorSettings.size settings + granularity <= u32_max ->
  reachable (BufferAllocatorSettings.target_process_id settings) ->
  BufferAllocatorSettings.target_process_id settings = Cached.this_process_id get_sys_info ->
  wp (Buffers.allocate_private_memory settings) (fun r os1 => match r.2 with
    | Ok alloc => wp_unless (drop_panics alloc os1) (drop alloc) (fun _ os2 => grows os os2 /\
        (release_succeeds alloc os1 ->
         forall x, base_address alloc <= x < base_address alloc + size alloc -> ~ owned os2 x)) os1
    | Err _ => True
    end) os.
Proof.
  intros Hok Hwf Hbig Hpid Hthis. eapply wp_mono.
  { apply wp_and; [by apply allocate_private_memory_spec|by apply allocate_private_memory_tracked]. }
  intros [s [alloc|e]] os1 [([Hok1 Hg] & _ & Hr) Hall]; simpl in *; [|done].
  destruct Hr as (Hp & _ & _ & _ & _ & _ & _ & Hfresh).
  eapply wp_unless_mono; [apply drop_spec; [done|split; [congruence|done]]|].
  intros [] os2 [Hok2 _ Hrest Hgone]. split; [|done]. split; [done|]. intros x Hx.
  apply Hrest; [by apply Hg|]. intros Hin. by apply (Hfresh x Hin).
Qed.

End release.
