(* ===== verification/ItemSpec.v ===== *)
(** * What writing to an item does

    The three append operations write exactly the bytes given behind the
    position, and nothing of any other buffer; the trace shows in which order
    page protections change, bytes are written and caches are flushed. *)

From S2P Require Import Prelude Mathematics SysInfo Settings Errors Items Headers World ItemOps.
From S2P Require Import Platform HeaderOps HeaderSpec HeaderWp Finder Buffers.
Import CodePages.

Section traces.
Context `{T : Target} {OS : Type}.
Implicit Types w : World OS.

Definition protect_events (address size : Z) (executable : bool) : list Event :=
  if cfg_macos_aarch64 then [EvProtect address size executable] else [].
Definition flush_events (start size : Z) : list Event :=
  if target_x86 then [] else [EvFlush start size].

Lemma set_trace_id w : set_trace (w_trace w) w = w.
Proof. by destruct w. Qed.

Lemma wp_disable a n (Q : unit -> World OS -> Prop) w :
  Q tt (set_trace (w_trace w ++ protect_events a n false) w) ->
  wp (disable_write_xor_execute a n) Q w.
Proof.
  unfold disable_write_xor_execute, protect_events. destruct cfg_macos_aarch64; [done|].
  rewrite app_nil_r, set_trace_id. by apply wp_ret.
Qed.

Lemma wp_restore a n (Q : unit -> World OS -> Prop) w :
  Q tt (set_trace (w_trace w ++ protect_events a n true) w) ->
  wp (restore_write_xor_execute a n) Q w.
Proof.
  unfold restore_write_xor_execute, protect_events. destruct cfg_macos_aarch64; [done|].
  rewrite app_nil_r, set_trace_id. by apply wp_ret.
Qed.

Lemma wp_flush a n (Q : unit -> World OS -> Prop) w :
  0 <= a -> 0 <= n -> a + n <= usize_max ->
  Q tt (set_trace (w_trace w ++ flush_events a n) w) ->
  wp (clear_instruction_cache a (a +u n)) Q w.
Proof.
  intros. unfold clear_instruction_cache, flush_events in *.
  rewrite add_usize_small by lia.
  destruct target_x86; [by rewrite app_nil_r, set_trace_id in *; apply wp_ret|].
  destruct cfg_windows; [rewrite sub_usize_small by lia|];
    by replace (a + n - a) with n by lia.
Qed.

Lemma wp_copy_slice data a (Q : unit -> World OS -> Prop) w :
  Q tt (set_trace (w_trace w ++ [EvWrite a (Z.of_nat (length data))])
    (set_bytes (write_bytes a data (w_bytes w)) w)) ->
  wp (copy_slice data a) Q w.
Proof. done. Qed.

End traces.

Section append.
Context `{T : Target} {OS : Type}.
Implicit Types w : World OS.

(** [data] went behind the position of the item at [p]; [code] tells whether
    the instruction cache is flushed as well. *)
Record appended (code : bool) (p : Z) (it : LocatorItem) (data : list Z) w (addr : Z) w' : Prop := {
  ap_address : addr = LocatorItem.base_address it + LocatorItem.position it;
  ap_items : w_items w' = <[p := LocatorItem.set_position
    (LocatorItem.position it + Z.of_nat (length data)) it]> (w_items w);
  ap_bytes : w_bytes w' = write_bytes addr data (w_bytes w);
  ap_headers : w_headers w' = w_headers w;
  ap_os : w_os w' = w_os w;
  ap_trace : w_trace w' = w_trace w
    ++ protect_events (LocatorItem.base_address it) (Z.of_nat (length data)) false
    ++ [EvWrite addr (Z.of_nat (length data))]
    ++ protect_events (LocatorItem.base_address it) (Z.of_nat (length data)) true
    ++ (if code then flush_events addr (Z.of_nat (length data)) else []);
  ap_static : w_locator_header_address w' = w_locator_header_address w
}.

(** There is room for [data] in the item at [p]. *)
Definition has_room (p : Z) (it : LocatorItem) (data : list Z) w : Prop :=
  w_items w !! p = Some it /\ LocatorItem.wf it /\
  Z.of_nat (length data) <= LocatorItem.size it - LocatorItem.position it.

Lemma append_small p it data w :
  has_room p it data w ->
  LocatorItem.base_address it +u LocatorItem.position it
    = LocatorItem.base_address it + LocatorItem.position it /\
  LocatorItem.position it +u32 as_u32 (Z.of_nat (length data))
    = LocatorItem.position it + Z.of_nat (length data).
Proof.
  intros (_ & [? Hs ? ?] & Hroom). unfold is_u32 in Hs.
  rewrite add_usize_small, as_u32_small by (unfold is_u32; lia).
  by rewrite add_u32_small by lia.
Qed.

(** The three methods differ in the flush only. *)
Ltac append_proof Hroom :=
  destruct (append_small _ _ _ _ Hroom) as [Hsum Hpos];
  destruct Hroom as (Hp & [? Hs ? ?] & Hroom); unfold is_u32 in Hs;
  wp_step; (eapply wp_load_item; [exact Hp|]);
  wp_step; apply wp_disable; wp_step; apply wp_copy_slice; wp_step; apply wp_store_item;
  wp_step; apply wp_restore; rewrite Hsum, Hpos.

Lemma append_bytes_spec p it data w :
  has_room p it data w ->
  wp (ItemPtr.append_bytes p data) (appended false p it data w) w.
Proof.
  intros Hroom. unfold ItemPtr.append_bytes. append_proof Hroom.
  wp_step. by constructor; simpl; rewrite <- ?app_assoc, ?app_nil_r.
Qed.

Lemma append_copy_spec p it data w :
  has_room p it data w ->
  wp (ItemPtr.append_copy p data) (appended false p it data w) w.
Proof.
  intros Hroom. unfold ItemPtr.append_copy. append_proof Hroom.
  wp_step. by constructor; simpl; rewrite <- ?app_assoc, ?app_nil_r.
Qed.

Lemma append_code_spec p it data w :
  has_room p it data w ->
  wp (ItemPtr.append_code p data) (appended true p it data w) w.
Proof.
  intros Hroom. unfold ItemPtr.append_code. append_proof Hroom.
  wp_step. apply wp_flush; [lia|lia|lia|].
  wp_step. by constructor; simpl; rewrite <- ?app_assoc, ?app_nil_r.
Qed.

(** What was appended reads back. *)
Lemma appended_reads code p it data w addr w' :
  appended code p it data w addr w' ->
  read_bytes addr (length data) (w_bytes w') = Some data.
Proof. intros []. rewrite ap_bytes0. apply read_write_bytes. Qed.

(** Only bytes of the free part of the item change. *)
Lemma appended_outside code p it data w addr w' x :
  has_room p it data w -> appended code p it data w addr w' ->
  ~ LocatorItem.in_free_part it x -> w_bytes w' !! x = w_bytes w !! x.
Proof.
  intros (_ & _ & Hroom) [-> _ -> _ _ _ _] Hx. apply write_bytes_outside.
  unfold LocatorItem.in_free_part in Hx. lia.
Qed.

(** ** [overwrite_allocated_code] *)

Lemma overwrite_spec source target size data w :
  0 <= target -> 0 <= size -> target + size <= usize_max ->
  read_bytes source (Z.to_nat size) (w_bytes w) = Some data ->
  length data = Z.to_nat size ->
  wp (Buffers.overwrite_allocated_code source target size) (fun _ w' =>
    w' = set_trace (w_trace w ++ protect_events target size false ++ [EvWrite target size]
        ++ protect_events target size true ++ flush_events target size)
      (set_bytes (write_bytes target data (w_bytes w)) w)) w.
Proof.
  intros Ht Hs Hend Hread Hlen. unfold Buffers.overwrite_allocated_code.
  wp_step. apply wp_disable. wp_step. unfold copy_nonoverlapping. wp_step. wp_step. simpl.
  rewrite Hread. apply wp_copy_slice. wp_step. apply wp_restore. apply wp_flush; [done..|].
  simpl. rewrite Hlen, Z2Nat.id by done. by rewrite <- !app_assoc.
Qed.

Lemma read_bytes_length a n m data : read_bytes a n m = Some data -> length data = n.
Proof.
  revert a data. induction n as [|n IH]; intros a data; [by intros [= <-]|].
  Transparent read_bytes. cbn [read_bytes]. Opaque read_bytes.
  destruct (m !! a); [|done]. destruct (read_bytes (a + 1) n m) as [bs|] eqn:E; [|done].
  intros [= <-]. simpl. f_equal. by eapply IH.
Qed.

End append.

Section isolation.
Context `{T : Target} `{Q : SysQuery} {OS : Type} `{P : Platform OS} `{Mem : Memory OS}
  `{L : !PlatformLaws}.
Implicit Types w : World OS.

(** The invariant speaks of the system, the locators and the items only. *)
Lemma inv_ext a l w w' :
  inv a l w -> w_os w' = w_os w -> w_headers w' = w_headers w -> w_items w' = w_items w ->
  inv a l w'.
Proof. intros [] Ho Hh Hi. constructor; rewrite ?Ho, ?Hh, ?Hi in *; done. Qed.

Lemma appended_inv a l code p it data w addr w' :
  inv a l w -> registered (w_headers w) l p -> has_room p it data w ->
  appended code p it data w addr w' -> inv a l w'.
Proof.
  intros Hi Hreg (Hp & Hwf & Hroom) [_ Hit _ Hh Ho _ _].
  destruct (inv_item _ _ _ Hi p Hreg) as (it' & Hp' & _ & Hflag).
  assert (it' = it) as -> by congruence.
  apply (inv_ext _ _ (set_items (w_items w') w)); [|done..].
  rewrite Hit. eapply inv_update_item; [done|exact Hp| |exact Hflag|done|done].
  apply LocatorItem.set_position_wf; [done|]. destruct Hwf. lia.
Qed.

(** No other buffer of the chain is touched. *)
Lemma appended_other a l code p it data w addr w' q jt x :
  inv a l w -> registered (w_headers w) l p -> has_room p it data w ->
  appended code p it data w addr w' ->
  registered (w_headers w) l q -> q <> p -> w_items w !! q = Some jt -> ~ same_chunk l it jt ->
  LocatorItem.in_buffer jt x -> w_bytes w' !! x = w_bytes w !! x.
Proof.
  intros Hi Hp Hroom Happ Hq Hne Hj Hc Hx. eapply appended_outside; [done|done|].
  intros Hfree. destruct Hroom as (Hit & Hwf & _).
  apply (inv_disjoint _ _ _ Hi p q it jt x); try done.
  destruct Hwf. unfold LocatorItem.in_free_part, LocatorItem.in_buffer in *. lia.
Qed.

End isolation.
