(* ===== verification/Sessions.v ===== *)
(** * Sessions: what a client sees across any number of calls

    A client of the library searches for buffers, appends to those it holds
    and gives them back, in any order.  A session is the memory of the
    process, the items the client holds, and a log of what it appended and
    where.  The steps run the functions of the library; what they demand of
    the client is what the documentation demands: sizes in range, and room
    behind the position for an append to an item it holds. *)

From S2P Require Import Prelude Mathematics SysInfo Settings Errors Items Headers World ItemOps.
From S2P Require Import Platform HeaderOps HeaderSpec HeaderWp HeaderInit HeaderNext.
From S2P Require Import MapParser Posix MemoryMappedFiles Finder Buffers BuffersSpec ItemSpec.
Import LocatorHeader.

Record session (OS : Type) := Session {
  s_world : World OS;
  s_held : list Z;                (* the items of the client *)
  s_log : list (Z * list Z)       (* what went where *)
}.
Arguments Session {OS}.
Arguments s_world {OS} _.
Arguments s_held {OS} _.
Arguments s_log {OS} _.

Section sessions.
Context `{T : Target} `{Q : SysQuery} {OS : Type} `{Sch : Scheduler OS} `{P : Platform OS}
  `{PX : Posix OS} `{ST : UnixMemoryMappedFile.StringTail OS} `{WF : WindowsFiles OS}
  `{SV : SharedViews OS} `{I : Itoa}.
Implicit Types w : World OS.

(** The sizes a search can be asked for with an alignment. *)
Definition request_ok (settings : BufferSearchSettings) (alignment : Z) : Prop :=
  BufferSearchSettings.wf settings /\ is_u32 alignment /\
  BufferSearchSettings.size settings + alignment + granularity <= u32_max.

(** The client may append: it holds the item and the item has the bytes left. *)
Definition may_append (p : Z) (data : list Z) (s : session OS) : Prop :=
  p ∈ s_held s /\ exists it, w_items (s_world s) !! p = Some it /\
  Z.of_nat (length data) <= LocatorItem.bytes_left it.

Inductive step : session OS -> session OS -> Prop :=
| step_get settings w held log item w' :
    request_ok settings 0 ->
    Buffers.get_buffer settings w = Done (Ok item) w' ->
    step (Session w held log) (Session w' (SafeLocatorItem.item item :: held) log)
| step_get_fails settings w held log e w' :
    request_ok settings 0 ->
    Buffers.get_buffer settings w = Done (Err e) w' ->
    step (Session w held log) (Session w' held log)
| step_get_aligned settings alignment w held log item w' :
    request_ok settings alignment ->
    Buffers.get_buffer_aligned settings alignment w = Done (Ok item) w' ->
    step (Session w held log) (Session w' (SafeLocatorItem.item item :: held) log)
| step_get_aligned_fails settings alignment w held log e w' :
    request_ok settings alignment ->
    Buffers.get_buffer_aligned settings alignment w = Done (Err e) w' ->
    step (Session w held log) (Session w' held log)
| step_append p data w held log addr w' :
    may_append p data (Session w held log) ->
    SafeLocatorItem.append_bytes {| SafeLocatorItem.item := p |} data w = Done addr w' ->
    step (Session w held log) (Session w' held ((addr, data) :: log))
| step_append_code p data w held log addr w' :
    may_append p data (Session w held log) ->
    SafeLocatorItem.append_code {| SafeLocatorItem.item := p |} data w = Done addr w' ->
    step (Session w held log) (Session w' held ((addr, data) :: log))
| step_drop p w held held' log w' :
    held ≡ₚ p :: held' ->
    SafeLocatorItem.drop {| SafeLocatorItem.item := p |} w = Done tt w' ->
    step (Session w held log) (Session w' held' log).

(** The buffers of one locator are disjoint: at most one is preallocated. *)
Definition one_chunk : Prop :=
  cfg_macos_aarch64 = true \/ granularity <= LENGTH + LENGTH_OF_PREALLOCATED_CHUNKS.

Lemma one_chunk_spec l it jt : one_chunk -> ~ same_chunk l it jt.
Proof. intros [H|H] (? & ? & _); [congruence|lia]. Qed.

#[global] Instance same_chunk_dec l it jt : Decision (same_chunk l it jt).
Proof.
  destruct (decide (cfg_macos_aarch64 = false /\ LENGTH + LENGTH_OF_PREALLOCATED_CHUNKS < granularity
    /\ LocatorItem.base_address it - LENGTH ∈ l
    /\ LocatorItem.base_address jt = LocatorItem.base_address it)) as [(? & ? & ? & ?)|Hn].
  - left. split; [done|]. split; [done|]. exists (LocatorItem.base_address it - LENGTH).
    split; [done|]. lia.
  - right. intros (? & ? & b & Hb & Hi & Hj). apply Hn. split; [done|]. split; [done|].
    split; [|lia]. rewrite Hi. by replace (b + LENGTH - LENGTH) with b by lia.
Defined.

(** ** What no call undoes *)

(** The addresses of [data] when it is at [addr]. *)
Definition in_range (addr : Z) (data : list Z) (x : Z) : Prop :=
  addr <= x < addr + Z.of_nat (length data).

(** The bytes of [data] at [addr] are in the used part of the item at [p]. *)
Definition stored (l : list Z) w (p : Z) (it : LocatorItem) (addr : Z) (data : list Z) : Prop :=
  registered (w_headers w) l p /\ w_items w !! p = Some it /\
  LocatorItem.base_address it <= addr /\
  addr + Z.of_nat (length data) <= LocatorItem.base_address it + LocatorItem.position it.

(** Two entries of the log share a byte.  They went to two of the buffers that
    [initialize] makes at the start of one locator. *)
Definition clobbers (l : list Z) w (addr' : Z) (data' : list Z) (addr : Z) (data : list Z) : Prop :=
  exists p q it jt x, p <> q /\ same_chunk l it jt /\
  stored l w p it addr data /\ stored l w q jt addr' data' /\
  in_range addr data x /\ in_range addr' data' x.

(** Every entry of the log (the last one first) is in the used part of an item
    and reads back, unless a later one clobbers it. *)
Definition logged (l : list Z) w (log : list (Z * list Z)) : Prop :=
  forall later addr data earlier, log = later ++ (addr, data) :: earlier ->
  (exists p it, stored l w p it addr data) /\
  (read_bytes addr (length data) (w_bytes w) = Some data \/
   exists addr' data', (addr', data') ∈ later /\ clobbers l w addr' data' addr data).

Lemma logged_one_chunk l w log addr data :
  one_chunk -> logged l w log -> (addr, data) ∈ log ->
  read_bytes addr (length data) (w_bytes w) = Some data.
Proof.
  intros Hone Hl (later & earlier & ->)%list_elem_of_split.
  destruct (Hl later addr data earlier eq_refl) as [_ [?|(? & ? & _ & ? & ? & it & jt & ? & _ & Hc & _)]];
    [done|]. by apply (one_chunk_spec l it jt) in Hc.
Qed.

(** Items stay registered where they are and their positions only grow. *)
Definition carries (l : list Z) w (l' : list Z) w' : Prop :=
  (exists k, l' = l ++ k) /\
  forall p it, registered (w_headers w) l p -> w_items w !! p = Some it ->
  registered (w_headers w') l' p /\ exists it', w_items w' !! p = Some it' /\
     LocatorItem.base_address it' = LocatorItem.base_address it /\
     LocatorItem.position it <= LocatorItem.position it'.

(** The bytes below the positions stay. *)
Definition keeps_bytes (l : list Z) w w' : Prop := forall p it x,
  registered (w_headers w) l p -> w_items w !! p = Some it ->
  LocatorItem.base_address it <= x < LocatorItem.base_address it + LocatorItem.position it ->
  w_bytes w' !! x = w_bytes w !! x.

Lemma carries_stored l w l' w' p it addr data :
  carries l w l' w' -> stored l w p it addr data ->
  exists it', stored l' w' p it' addr data /\
    LocatorItem.base_address it' = LocatorItem.base_address it.
Proof.
  intros [_ Hc] (Hreg & Hit & Hlo & Hhi). destruct (Hc p it Hreg Hit) as (? & it' & ? & Hb & Hpos).
  exists it'. split; [|done]. split; [done|]. split; [done|]. rewrite Hb. lia.
Qed.

Lemma carries_clobbers l w l' w' addr' data' addr data :
  carries l w l' w' -> clobbers l w addr' data' addr data -> clobbers l' w' addr' data' addr data.
Proof.
  intros Hc (p & q & it & jt & x & Hne & Hs & Hp & Hq & Hx).
  destruct (carries_stored _ _ _ _ _ _ _ _ Hc Hp) as (it' & Hp' & Hi).
  destruct (carries_stored _ _ _ _ _ _ _ _ Hc Hq) as (jt' & Hq' & Hj).
  exists p, q, it', jt', x. split; [done|]. split; [|done].
  destruct Hc as [[k ->] _]. apply same_chunk_mono. unfold same_chunk in *. by rewrite Hi, Hj.
Qed.

Lemma stored_read l w w' p it addr data :
  keeps_bytes l w w' -> stored l w p it addr data ->
  read_bytes addr (length data) (w_bytes w') = read_bytes addr (length data) (w_bytes w).
Proof.
  intros Hk (Hreg & Hit & Hlo & Hhi). apply read_bytes_ext. intros x Hx. apply (Hk p it); [done..|lia].
Qed.

Lemma carries_logged l w l' w' log :
  carries l w l' w' -> keeps_bytes l w w' -> logged l w log -> logged l' w' log.
Proof.
  intros Hc Hk Hl later addr data earlier Heq.
  destruct (Hl later addr data earlier Heq) as [(p & it & Hs) Hr]. split.
  - destruct (carries_stored _ _ _ _ _ _ _ _ Hc Hs) as (it' & ? & _). eauto.
  - destruct Hr as [Hr|(addr' & data' & Hin & Hcl)].
    + left. by rewrite (stored_read l w w' p it).
    + right. exists addr', data'. split; [done|]. by eapply carries_clobbers.
Qed.

Context `{Mem : Memory OS} `{L : !PlatformLaws} `{HQ : !SysQueryOk}.

(** The items of the client are registered, taken and distinct, and the log
    is still in memory. *)
Record session_ok (a : Z) (l : list Z) (s : session OS) : Prop := {
  so_ready : ready a l (s_world s);
  so_nodup : NoDup (s_held s);
  so_held p : p ∈ s_held s -> registered (w_headers (s_world s)) l p /\
    exists it, w_items (s_world s) !! p = Some it /\ LocatorItem.is_taken it = 1;
  so_log : logged l (s_world s) (s_log s)
}.

Definition holds (l : list Z) w (p : Z) : Prop :=
  registered (w_headers w) l p /\
  exists it, w_items w !! p = Some it /\ LocatorItem.is_taken it = 1.

(** ** Searches *)

Lemma evolves_carries l w l' w' : evolves l w l' w' -> carries l w l' w'.
Proof.
  intros Hev. split; [apply (ev_prefix _ _ _ _ Hev)|]. intros p it Hreg Hit.
  destruct (ev_old _ _ _ _ Hev p Hreg) as [? Heq]. split; [done|]. exists it. by rewrite Heq.
Qed.

Lemma same_bytes l w w' : w_bytes w' = w_bytes w -> keeps_bytes l w w'.
Proof. intros H p it x _ _ _. by rewrite H. Qed.

Lemma evolves_holds l w l' w' p : evolves l w l' w' -> holds l w p -> holds l' w' p.
Proof.
  intros Hev (Hreg & it & Hit & Htk). destruct (ev_old _ _ _ _ Hev p Hreg) as [? Heq].
  split; [done|]. exists it. by rewrite Heq.
Qed.

Lemma acquired_carries l n lo hi w s l' w' : acquired l n lo hi w s l' w' -> carries l w l' w'.
Proof.
  intros Haq. split; [apply (aq_prefix _ _ _ _ _ _ _ _ Haq)|]. intros p it Hreg Hit.
  destruct (decide (p = SafeLocatorItem.item s)) as [->|Hne].
  - split; [apply (aq_registered _ _ _ _ _ _ _ _ Haq)|].
    destruct (aq_item _ _ _ _ _ _ _ _ Haq) as (it' & Hit' & _ & _ & _ & Hold & _).
    destruct (Hold Hreg) as (it0 & Hit0 & _ & ->). assert (it0 = it) as -> by congruence.
    by eexists.
  - destruct (aq_others _ _ _ _ _ _ _ _ Haq p Hreg Hne) as [? Heq].
    split; [done|]. exists it. by rewrite Heq.
Qed.

(** What the client holds is not handed out again. *)
Lemma acquired_holds l n lo hi w s l' w' p :
  acquired l n lo hi w s l' w' -> holds l w p -> p <> SafeLocatorItem.item s /\ holds l' w' p.
Proof.
  intros Haq (Hreg & it & Hit & Htk).
  assert (Hne : p <> SafeLocatorItem.item s).
  { intros ->. destruct (aq_item _ _ _ _ _ _ _ _ Haq) as (it' & _ & _ & _ & _ & Hold & _).
    destruct (Hold Hreg) as (it0 & Hit0 & Hfree & _). congruence. }
  destruct (aq_others _ _ _ _ _ _ _ _ Haq p Hreg Hne) as [? Heq].
  split; [done|]. split; [done|]. exists it. by rewrite Heq.
Qed.

Lemma acquired_new l n lo hi w s l' w' :
  acquired l n lo hi w s l' w' -> holds l' w' (SafeLocatorItem.item s).
Proof.
  intros Haq. split; [apply (aq_registered _ _ _ _ _ _ _ _ Haq)|].
  destruct (aq_item _ _ _ _ _ _ _ _ Haq) as (it & Hit & _ & Htk & _). eauto.
Qed.

(** ** What a step leaves alone

    What the chain uses afterwards it used before, or nobody owned it; and
    bytes that it does not use do not change. *)
Record confined (l : list Z) w (l' : list Z) w' : Prop := {
  cf_owned x : owned (w_os w) x -> owned (w_os w') x;
  cf_used x : used l' w' x -> used l w x \/ ~ owned (w_os w) x;
  cf_bytes x : ~ used l w x -> w_bytes w' !! x = w_bytes w !! x
}.

Lemma acquired_confined l n lo hi w s l' w' :
  acquired l n lo hi w s l' w' -> confined l w l' w'.
Proof.
  intros Haq. constructor; [apply (aq_owned _ _ _ _ _ _ _ _ Haq)|apply (aq_used _ _ _ _ _ _ _ _ Haq)|].
  by rewrite (aq_bytes _ _ _ _ _ _ _ _ Haq).
Qed.

Lemma evolves_confined l w l' w' : evolves l w l' w' -> confined l w l' w'.
Proof.
  intros Hev. constructor; [apply (ev_owned _ _ _ _ Hev)|apply (ev_used _ _ _ _ Hev)|].
  by rewrite (ev_bytes _ _ _ _ Hev).
Qed.

(** Changing the flag or the position of an item. *)
Lemma confined_update l w l' w1 p it it' :
  confined l w l' w1 -> w_items w1 !! p = Some it ->
  LocatorItem.base_address it' = LocatorItem.base_address it ->
  LocatorItem.size it' = LocatorItem.size it ->
  confined l w l' (set_items (<[p := it']> (w_items w1)) w1).
Proof.
  intros [Hown Hused Hbytes] Hp Hb Hs. constructor; [done| |done]. intros x Hx. apply Hused.
  exact (used_update_item l' w1 p it it' x Hp Hb Hs Hx).
Qed.

Lemma confined_refl l w : confined l w l w.
Proof. constructor; [done|by left|done]. Qed.

Lemma appended_confined l code p it data w addr w' :
  registered (w_headers w) l p -> has_room p it data w -> appended code p it data w addr w' ->
  confined l w l w'.
Proof.
  intros Hreg Hroom Happ. destruct (Hroom) as (Hp & _). constructor.
  - by rewrite (ap_os _ _ _ _ _ _ _ Happ).
  - intros x Hx. left.
    apply (used_update_item l w p it (LocatorItem.set_position
      (LocatorItem.position it + Z.of_nat (length data)) it)); [done|done|done|].
    destruct Hx as [?|(q & jt & Hq & Hj & Hx)]; [by left|right]. exists q, jt. simpl.
    rewrite <- (ap_items _ _ _ _ _ _ _ Happ). by rewrite <- (ap_headers _ _ _ _ _ _ _ Happ).
  - intros x Hx. eapply appended_outside; [done|done|]. intros Hin. apply Hx. right. exists p, it.
    split; [done|]. split; [done|]. destruct Hroom as (_ & [_ _ Hpos _] & _).
    unfold LocatorItem.in_free_part, LocatorItem.in_buffer in *. lia.
Qed.

(** ** Changing one item *)

Lemma carries_move l w l' w1 p it pos :
  carries l w l' w1 -> w_items w1 !! p = Some it -> LocatorItem.position it <= pos ->
  carries l w l' (set_items (<[p := LocatorItem.set_position pos it]> (w_items w1)) w1).
Proof.
  intros [Hpre Hc] Hp Hpos. split; [done|]. intros q jt Hreg Hj.
  destruct (Hc q jt Hreg Hj) as (? & jt' & Hj' & Hb & Hle). split; [done|]. simpl. destruct (decide (p = q)) as [<-|].
  - rewrite lookup_insert_eq. eexists. split; [done|]. assert (jt' = it) as -> by congruence.
    simpl. split; [done|lia].
  - rewrite lookup_insert_ne by done. eauto.
Qed.

Lemma holds_update l w p q it it' :
  holds l w q -> w_items w !! p = Some it -> (q = p -> LocatorItem.is_taken it' = 1) ->
  holds l (set_items (<[p := it']> (w_items w)) w) q.
Proof.
  intros (Hreg & jt & Hj & Htk) Hp Ht. split; [done|]. simpl.
  destruct (decide (p = q)) as [<-|]; [rewrite lookup_insert_eq|rewrite lookup_insert_ne by done];
    eauto.
Qed.

(** ** Appends and drops *)

Lemma may_append_room a l p data s :
  session_ok a l s -> may_append p data s ->
  registered (w_headers (s_world s)) l p /\
  exists it, has_room p it data (s_world s) /\ LocatorItem.is_taken it = 1.
Proof.
  intros Hso (Hp & it & Hit & Hroom). destruct (so_held _ _ _ Hso p Hp) as (Hreg & it' & Hit' & Htk).
  assert (it' = it) as -> by congruence. split; [done|]. exists it. split; [|done].
  destruct (so_ready _ _ _ Hso) as [Hi _].
  destruct (inv_item _ _ _ Hi p Hreg) as (it' & Hit'' & Hwf & _).
  assert (it' = it) as -> by congruence.
  rewrite LocatorItem.bytes_left_eq in Hroom by done. done.
Qed.

Lemma appended_carries l code p it data w addr w' :
  has_room p it data w -> appended code p it data w addr w' -> carries l w l w'.
Proof.
  intros Hroom Happ. split; [exists []; by rewrite app_nil_r|]. intros q jt Hreg Hj.
  rewrite (ap_headers _ _ _ _ _ _ _ Happ). split; [done|]. rewrite (ap_items _ _ _ _ _ _ _ Happ).
  destruct (decide (p = q)) as [<-|]; [rewrite lookup_insert_eq|rewrite lookup_insert_ne by done];
    eexists; (split; [done|]); simpl; [|lia].
  destruct Hroom as (Hit & _). assert (jt = it) as -> by congruence. lia.
Qed.

(** Where the bytes went. *)
Lemma appended_stored l code p it data w addr w' :
  registered (w_headers w) l p -> has_room p it data w -> appended code p it data w addr w' ->
  stored l w' p (LocatorItem.set_position (LocatorItem.position it + Z.of_nat (length data)) it)
    addr data.
Proof.
  intros Hreg (_ & [_ _ Hpos _] & _) Happ. unfold stored.
  rewrite (ap_headers _ _ _ _ _ _ _ Happ), (ap_items _ _ _ _ _ _ _ Happ), lookup_insert_eq,
    (ap_address _ _ _ _ _ _ _ Happ).
  split; [done|]. split; [done|]. simpl. lia.
Qed.

(** What was stored before stays, or lies in a buffer that starts where the
    one appended to does. *)
Lemma appended_over a l code p it data w addr w' q jt addr0 data0 :
  inv a l w -> registered (w_headers w) l p -> has_room p it data w ->
  appended code p it data w addr w' -> stored l w q jt addr0 data0 ->
  read_bytes addr0 (length data0) (w_bytes w') = read_bytes addr0 (length data0) (w_bytes w) \/
  clobbers l w' addr data addr0 data0.
Proof.
  intros Hi Hp Hroom Happ Hs. pose proof Hs as (Hq & Hj & Hlo & Hhi).
  pose proof Hroom as (Hit & Hwf & Hle). destruct (Hwf) as [_ _ Hpos _].
  destruct (inv_item _ _ _ Hi q Hq) as (jt' & Hj' & [_ _ Hpos' _] & _).
  assert (jt' = jt) as -> by congruence. pose proof (ap_address _ _ _ _ _ _ _ Happ) as Haddr.
  set (x := Z.max addr addr0).
  destruct (decide (in_range addr0 data0 x /\ in_range addr data x)) as [[Hx0 Hx]|Hn].
  - right. assert (Hne : q <> p).
    { intros ->. assert (jt = it) as -> by congruence. unfold in_range in *. lia. }
    destruct (carries_stored l w l w' q jt addr0 data0) as (jt' & Hs' & Hb); [|done|].
    { by eapply appended_carries. }
    exists q, p, jt', (LocatorItem.set_position (LocatorItem.position it + Z.of_nat (length data)) it), x.
    split; [done|]. split; [|split; [done|split; [by eapply appended_stored|done]]].
    destruct (decide (same_chunk l jt it)) as [Hc|Hc]; [unfold same_chunk in *; by rewrite Hb|].
    exfalso. apply (inv_disjoint _ _ _ Hi q p jt it x); try done;
      unfold in_range, LocatorItem.in_buffer in *; lia.
  - left. apply read_bytes_ext. intros y Hy. rewrite (ap_bytes _ _ _ _ _ _ _ Happ).
    apply write_bytes_outside. intros Hy'. apply Hn. unfold in_range. lia.
Qed.

Lemma appended_logged a l code p it data w addr w' log :
  inv a l w -> registered (w_headers w) l p -> has_room p it data w ->
  appended code p it data w addr w' -> logged l w log -> logged l w' ((addr, data) :: log).
Proof.
  intros Hi Hreg Hroom Happ Hl later addr0 data0 earlier Heq.
  destruct later as [|e later]; simpl in Heq; injection Heq.
  - intros _ -> ->. split; [eexists _, _; by eapply appended_stored|].
    left. by eapply appended_reads.
  - intros -> <-. destruct (Hl later addr0 data0 earlier eq_refl) as [(q & jt & Hs) Hr].
    assert (Hc : carries l w l w') by (by eapply appended_carries). split.
    { destruct (carries_stored _ _ _ _ _ _ _ _ Hc Hs) as (jt' & ? & _). eauto. }
    destruct Hr as [Hr|(addr' & data' & Hin & Hcl)].
    + destruct (appended_over a l code p it data w addr w' q jt addr0 data0) as [Hsame|Hcl]; [done..| |].
      * left. by rewrite Hsame.
      * right. exists addr, data. split; [by left|done].
    + right. exists addr', data'. split; [by right|]. by eapply carries_clobbers.
Qed.

Lemma appended_holds l code p it data w addr w' q :
  LocatorItem.is_taken it = 1 -> has_room p it data w -> appended code p it data w addr w' ->
  holds l w q -> holds l w' q.
Proof.
  intros Htk (Hp & _) Happ (Hreg & jt & Hj & Ht). unfold holds. rewrite (ap_headers _ _ _ _ _ _ _ Happ).
  split; [done|]. rewrite (ap_items _ _ _ _ _ _ _ Happ).
  destruct (decide (p = q)) as [<-|]; [rewrite lookup_insert_eq|rewrite lookup_insert_ne by done];
    eauto.
Qed.

(** One step of a session whose parts are known. *)
Lemma session_ok_carried a l w held log l' w' held' :
  session_ok a l (Session w held log) -> ready a l' w' -> carries l w l' w' -> keeps_bytes l w w' ->
  NoDup held' -> (forall p, p ∈ held' -> holds l' w' p) ->
  session_ok a l' (Session w' held' log).
Proof.
  intros Hso Hr Hc Hk Hnd Hheld. constructor; simpl; [done|done|exact Hheld|].
  eapply carries_logged; [done|done|apply (so_log _ _ _ Hso)].
Qed.

(** ** Steps *)

Lemma acquired_ready a l l' n lo hi w item w' :
  ready a l w -> inv a l' w' -> acquired l n lo hi w item l' w' -> ready a l' w'.
Proof. intros [_ Ha] Hi Haq. split; [done|]. by rewrite (aq_static _ _ _ _ _ _ _ _ Haq). Qed.

Lemma evolves_ready a l l' w w' : ready a l w -> inv a l' w' -> evolves l w l' w' -> ready a l' w'.
Proof. intros [_ Ha] Hi Hev. split; [done|]. by rewrite (ev_static _ _ _ _ Hev). Qed.

Lemma session_get a l w held log l' item w' n lo hi :
  session_ok a l (Session w held log) -> inv a l' w' -> acquired l n lo hi w item l' w' ->
  session_ok a l' (Session w' (SafeLocatorItem.item item :: held) log).
Proof.
  intros Hso Hi Haq. assert (ready a l' w') by (eapply acquired_ready; [apply Hso|done|done]).
  eapply session_ok_carried; [done|done|by eapply acquired_carries| | |].
  - apply same_bytes, (aq_bytes _ _ _ _ _ _ _ _ Haq).
  - apply list.NoDup_cons. split; [|apply (so_nodup _ _ _ Hso)]. intros Hin.
    by destruct (acquired_holds _ _ _ _ _ _ _ _ _ Haq (so_held _ _ _ Hso _ Hin)).
  - intros p [->|Hin]%elem_of_cons; [by eapply acquired_new|].
    eapply acquired_holds; [done|]. by apply (so_held _ _ _ Hso).
Qed.

Lemma session_evolves a l w held log l' w' :
  session_ok a l (Session w held log) -> inv a l' w' -> evolves l w l' w' ->
  session_ok a l' (Session w' held log).
Proof.
  intros Hso Hi Hev. assert (ready a l' w') by (eapply evolves_ready; [apply Hso|done|done]).
  eapply session_ok_carried; [done|done|by apply evolves_carries| |apply (so_nodup _ _ _ Hso)|].
  { apply same_bytes, (ev_bytes _ _ _ _ Hev). }
  intros p Hin. eapply evolves_holds; [done|]. by apply (so_held _ _ _ Hso).
Qed.

(** The position of an item the client holds moves on. *)
Lemma session_move a l w held log p it pos :
  session_ok a l (Session w held log) -> w_items w !! p = Some it ->
  LocatorItem.position it <= pos -> LocatorItem.wf (LocatorItem.set_position pos it) ->
  LocatorItem.is_taken it = 1 ->
  session_ok a l (Session (set_items (<[p := LocatorItem.set_position pos it]> (w_items w)) w) held log).
Proof.
  intros Hso Hp Hpos Hwf Htk.
  eapply session_ok_carried; [done| | |by apply same_bytes|apply (so_nodup _ _ _ Hso)|].
  - destruct (so_ready _ _ _ Hso) as [Hi Ha]. split; [|done].
    eapply inv_update_item; try done. by right.
  - apply carries_move; [|done|done]. apply evolves_carries, evolves_refl.
  - intros q Hin. apply holds_update with it; [by apply (so_held _ _ _ Hso)|done|done].
Qed.

Lemma session_append a l code p it data w held log addr w' :
  session_ok a l (Session w held log) -> registered (w_headers w) l p ->
  has_room p it data w -> LocatorItem.is_taken it = 1 -> appended code p it data w addr w' ->
  session_ok a l (Session w' held ((addr, data) :: log)).
Proof.
  intros Hso Hreg Hroom Htk Happ. destruct (so_ready _ _ _ Hso) as [Hi Ha]. constructor; simpl.
  - split; [by eapply appended_inv|]. simpl in *. by rewrite (ap_static _ _ _ _ _ _ _ Happ).
  - apply (so_nodup _ _ _ Hso).
  - intros q Hin. eapply appended_holds; try done. by apply (so_held _ _ _ Hso).
  - eapply appended_logged; [exact Hi|done|done|done|apply (so_log _ _ _ Hso)].
Qed.

Lemma session_drop a l w held held' log p it :
  session_ok a l (Session w held log) -> held ≡ₚ p :: held' -> w_items w !! p = Some it ->
  session_ok a l
    (Session (set_items (<[p := LocatorItem.set_is_taken 0 it]> (w_items w)) w) held' log).
Proof.
  intros Hso Hperm Hp. pose proof (so_nodup _ _ _ Hso) as Hnd. simpl in Hnd.
  rewrite Hperm in Hnd. apply list.NoDup_cons in Hnd as [Hnot Hnd].
  assert (Hheld : forall q, q ∈ p :: held' -> holds l w q).
  { intros q Hq. apply (so_held _ _ _ Hso). simpl. by rewrite Hperm. }
  destruct (so_ready _ _ _ Hso) as [Hi Ha]. simpl in *.
  eapply session_ok_carried; [done| | |by apply same_bytes|done|].
  - split; [|done]. destruct (Hheld p ltac:(by left)) as [Hreg _].
    destruct (inv_item _ _ _ Hi p Hreg) as (it' & Hp' & Hwf & _).
    assert (it' = it) as -> by congruence.
    eapply inv_update_item; try done; [by apply LocatorItem.set_is_taken_wf|by left].
  - split; [exists []; by rewrite app_nil_r|]. intros q jt Hreg Hj. split; [done|]. simpl.
    destruct (decide (p = q)) as [<-|]; [rewrite lookup_insert_eq|rewrite lookup_insert_ne by done];
      eexists; (split; [done|]); [assert (jt = it) as -> by congruence|]; done.
  - intros q Hq. apply holds_update with it; [apply Hheld; by right|done|]. by intros ->.
Qed.

(** Every step keeps the session sound, within the memory of the chain. *)
Lemma step_confined a l s s' :
  granule_fits -> session_ok a l s -> step s s' ->
  exists l', session_ok a l' s' /\ confined l (s_world s) l' (s_world s').
Proof.
  intros Hfits Hso Hstep. pose proof (so_ready _ _ _ Hso) as Hr.
  destruct Hstep as [settings w held log item w' (Hwf & _ & Hbig) E
    |settings w held log e w' (Hwf & _ & Hbig) E
    |settings alignment w held log item w' (Hwf & Hal & Hbig) E
    |settings alignment w held log e w' (Hwf & Hal & Hbig) E
    |p data w held log addr w' Hmay E|p data w held log addr w' Hmay E
    |p w held held' log w' Hperm E]; simpl in Hr |- *.
  - destruct (wp_run _ _ _ _ _ (get_buffer_spec a l w settings Hfits Hr Hwf ltac:(lia)) E)
      as (l' & Hi & Haq). exists l'. split; [by eapply session_get|by eapply acquired_confined].
  - destruct (wp_run _ _ _ _ _ (get_buffer_spec a l w settings Hfits Hr Hwf ltac:(lia)) E)
      as (l' & Hi & Hev & _). exists l'. split; [by eapply session_evolves|by apply evolves_confined].
  - destruct (wp_run _ _ _ _ _ (get_buffer_aligned_run a l w settings alignment Hfits Hr Hwf Hal Hbig) E)
      as (l' & w1 & Hi & _ & Haq & it & pos & Hit & [Hpos _] & [Hw Htk _ _] & ->).
    exists l'. split; [eapply session_move; try done; by eapply session_get|].
    apply confined_update with it; [by eapply acquired_confined|done..].
  - destruct (wp_run _ _ _ _ _ (get_buffer_aligned_run a l w settings alignment Hfits Hr Hwf Hal Hbig) E)
      as (l' & w1 & Hi & _ & -> & Hev & _).
    exists l'. split; [by eapply session_evolves|by apply evolves_confined].
  - destruct (may_append_room _ _ _ _ _ Hso Hmay) as (Hreg & it & Hroom & Htk). exists l.
    pose proof (wp_run _ _ _ _ _ (append_bytes_spec p it data w Hroom) E).
    split; [by eapply session_append|by eapply appended_confined].
  - destruct (may_append_room _ _ _ _ _ Hso Hmay) as (Hreg & it & Hroom & Htk). exists l.
    pose proof (wp_run _ _ _ _ _ (append_code_spec p it data w Hroom) E).
    split; [by eapply session_append|by eapply appended_confined].
  - assert (Hp : p ∈ held) by (rewrite Hperm; by left). exists l.
    destruct (so_held _ _ _ Hso p Hp) as (_ & it & Hit & _). simpl in Hit.
    assert (w' = set_items (<[p := LocatorItem.set_is_taken 0 it]> (w_items w)) w) as ->.
    { refine (wp_run _ (fun _ w2 => w2 = _) _ _ _ _ E). by eapply wp_item_method. }
    split; [by eapply session_drop|].
    by apply confined_update with it; [apply confined_refl|..].
Qed.

Lemma step_ok a l s s' :
  granule_fits -> session_ok a l s -> step s s' -> exists l', session_ok a l' s'.
Proof.
  intros Hfits Hso Hstep.
  destruct (step_confined a l s s' Hfits Hso Hstep) as (l' & ? & _). by exists l'.
Qed.

Lemma steps_ok a l s s' :
  granule_fits -> session_ok a l s -> rtc step s s' -> exists l', session_ok a l' s'.
Proof.
  intros Hfits Hso Hsteps. revert l Hso. induction Hsteps as [s|s s1 s' Hstep _ IH]; [eauto|].
  intros l Hso. destruct (step_ok a l s s1 Hfits Hso Hstep) as [l1 Hso1]. eauto.
Qed.

(** A session that begins, and all that follow. *)
Lemma session_start a l w : ready a l w -> session_ok a l (Session w [] []).
Proof.
  intros Hr. constructor; simpl; [done|constructor|by intros ? ?%elem_of_nil|by intros [|] ? ? ? ?].
Qed.

Lemma session_reachable a l w s :
  granule_fits -> ready a l w -> rtc step (Session w [] []) s ->
  exists l', session_ok a l' s.
Proof. intros. eapply steps_ok; [done|by apply session_start|done]. Qed.

End sessions.
