(* ===== verification/ErrorTexts.v ===== *)
(** * The texts of the allocators' errors

    Whatever the system answers, the error of an allocator carries one of the
    texts of the source, and none of them has a NUL in it: on every target the
    C interface can make a C string of it ([PlainErrors] of CSpec.v).  Proved
    with a partial-correctness logic: the allocator need not end. *)

From Stdlib Require Import Ascii String.
From S2P Require Import Prelude Mathematics SysInfo Settings Errors Placement Items.
From S2P Require Import Text MapParser Posix Platform Kernel32.
From S2P Require Import AllocLinux AllocWindows AllocOsx AllocMmapRs Allocate.

(** ** Partial correctness *)

Definition wlp {S A} (m : M S A) (Q : A -> Prop) (s : S) : Prop :=
  match m s with Done a _ => Q a | _ => True end.

Section rules.
Context {S : Type}.

Lemma wlp_bind {A B} (m : M S A) (f : A -> M S B) P Q s :
  wlp m P s -> (forall a s', P a -> wlp (f a) Q s') -> wlp (m ≫= f) Q s.
Proof. unfold wlp, mbind, M_bind. destruct (m s) as [a s'| | |]; try done. intros HP H. by apply H. Qed.

Lemma wlp_any {A} (m : M S A) s : wlp m (fun _ => True) s.
Proof. unfold wlp. by destruct (m s). Qed.

(** What follows decides, whatever the first part answers. *)
Lemma wlp_then {A B} (m : M S A) (f : A -> M S B) Q s :
  (forall a s', wlp (f a) Q s') -> wlp (m ≫= f) Q s.
Proof. intros H. apply wlp_bind with (fun _ => True); [apply wlp_any|auto]. Qed.

Lemma wlp_for_range {A} n (body : M S (option A)) (R : A -> Prop) s :
  (forall s, wlp body (from_option R True) s) -> wlp (for_range n body) (from_option R True) s.
Proof.
  intros H. revert s. induction n as [|n IH]; intros s; cbn [for_range]; [done|].
  apply wlp_bind with (from_option R True); [apply H|]. by intros [a|] s' Hr; [|apply IH].
Qed.
End rules.

(** ** The allocators *)

Section allocators.
Context `{T : Target} `{Q : SysQuery} {OS : Type}.
Implicit Types os : OS.

Definition plain_answer (r : result LocatorItem BufferAllocationError) : Prop :=
  match r with
  | Ok _ => True
  | Err e => has_nul (BufferAllocationError.text e) = false
  end.

Lemma allocate_linux_plain `{PX : Posix OS} `{I : Itoa} `{SA : StringAlloc} s os :
  wlp (AllocLinux.allocate_linux s) plain_answer os.
Proof. unfold AllocLinux.allocate_linux. apply wlp_then. by intros [it|]. Qed.

Section windows.
Context `{WM : WindowsMemory OS} `{WP : WindowsProcess OS}.

Lemma allocate_fast_plain hi s os :
  wlp (allocate_fast (K := LocalKernel32) hi s) plain_answer os.
Proof.
  unfold allocate_fast. apply wlp_then. intros [it|] os1; [done|]. apply wlp_then.
  intros [it|] os2; done.
Qed.

Lemma allocate_windows_plain s os : wlp (allocate_windows s) plain_answer os.
Proof.
  unfold allocate_windows. apply wlp_then. intros h os1. destruct (negb _).
  { by apply wlp_then. }
  apply wlp_then. intros hi os2. apply wlp_bind with plain_answer; [apply allocate_fast_plain|].
  intros r os3 Hr. by apply wlp_then.
Qed.
End windows.

Lemma allocate_osx_plain `{MA : Mach OS} s os : wlp (allocate_osx s) plain_answer os.
Proof. unfold allocate_osx. apply wlp_then. by intros [it|]. Qed.

Lemma allocate_mmap_rs_plain `{MR : MmapRs OS} s os : wlp (allocate_mmap_rs s) plain_answer os.
Proof.
  unfold allocate_mmap_rs. apply wlp_bind with (from_option plain_answer True); [|by intros [r|]].
  apply wlp_for_range. clear os. intros os. unfold retry. apply wlp_then. intros [areas|] os1; [|done].
  apply wlp_then. by intros [it|].
Qed.

(** ** Every target *)

Context `{GA : GlobalAlloc OS} `{PX : Posix OS} `{I : Itoa} `{SA : StringAlloc}
  `{WM : WindowsMemory OS} `{WP : WindowsProcess OS} `{MA : Mach OS} `{MR : MmapRs OS}.

Lemma target_plain s e os os' :
  allocate_platform s os = Done (Err e) os' -> has_nul (BufferAllocationError.text e) = false.
Proof.
  intros E. assert (H : wlp (allocate_platform s) plain_answer os).
  { unfold allocate_platform, target_platform. destruct target_os.
    - apply allocate_windows_plain.
    - apply allocate_linux_plain.
    - apply allocate_osx_plain.
    - apply allocate_mmap_rs_plain.
    - apply allocate_mmap_rs_plain. }
  unfold wlp in H. by rewrite E in H.
Qed.

End allocators.
