(* ===== verification/FinderSpec.v ===== *)
(** * What finding the first locator establishes

    A private locator, a file shared with other copies of the library, and
    what a second copy in the process gets. *)

From S2P Require Import Prelude Mathematics SysInfo Settings Errors Items Headers World ItemOps.
From S2P Require Import MapParser Posix MemoryMappedFiles Platform HeaderOps HeaderSpec HeaderWp.
From S2P Require Import PosixSpec HeaderInit HeaderNext Finder MappedFile Buffers BuffersSpec.
Import LocatorHeader.

Section finder.
Context `{T : Target} `{Q : SysQuery} {OS : Type} `{Sch : Scheduler OS} `{P : Platform OS}
  `{Mem : Memory OS} `{L : !PlatformLaws} `{HQ : !SysQueryOk}.
Context `{PX : Posix OS} `{ST : UnixMemoryMappedFile.StringTail OS} `{WF : WindowsFiles OS}
  `{SV : SharedViews OS} `{I : Itoa}.
Implicit Types w : World OS.

(** A process that has not looked for its locator yet. *)
Definition unstarted w : Prop :=
  os_ok (w_os w) /\ w_locator_header_address w = 0 /\ w_mmf w = None.

(** No buffer byte changes, and memory only grows. *)
Definition started w w' : Prop :=
  w_bytes w' = w_bytes w /\ forall x, owned (w_os w) x -> owned (w_os w') x.

(** The locators of the first granule. *)
Definition first_locators (a : Z) : list Z := block_locators a granularity.

(** The first chain of the process: the locators of one granule that nobody
    owned, which fill up in order. *)
Definition freshly_ready (a : Z) w w' : Prop :=
  ready a (first_locators a) w' /\ started w w' /\ packed (w_headers w') (first_locators a) /\
  forall x, a <= x < a + granularity -> ~ owned (w_os w) x.

(** Memory that nobody owned becomes the first chain. *)
Lemma first_locator_spec w c os' :
  granule_fits -> os_ok (w_os w) -> grows (w_os w) os' -> 0 < c ->
  c + granularity <= usize_max ->
  (forall x, c <= x < c + granularity -> ~ owned (w_os w) x /\ owned os' x) ->
  wp (HeaderPtr.initialize c granularity)
    (fun _ w' => freshly_ready c w w' /\ w_mmf w' = w_mmf w)
    (set_locator_header_address c (set_os os' w)).
Proof.
  intros Hfits Hok [Hok' Hmono] Hc Hend Hfresh.
  eapply wp_mono; [by apply initialize_granule|].
  intros [] w1 (hs' & its' & Hrow & Hpre & ->). simpl in *.
  assert (Hfb : fresh_block c hs' its' os' w) by (by constructor).
  pose proof (sound_fresh Hfits [] c hs' its' os' w (sound_nil w Hok) Hfb) as Hs.
  split; [|done]. split; [split|split]; [|done|done|].
  2: { split; [|intros x Hx; by apply Hfresh].
       by eapply (fresh_packed Hfits [] c hs' its' os' w); [by apply sound_nil|]. }
  destruct Hs. constructor; try done.
  - simpl. by eapply fresh_chain.
  - apply fresh_nodup.
Qed.

(** *** Private locators *)

Lemma sanitize_one_granule s :
  BufferAllocatorSettings.wf s -> BufferAllocatorSettings.size s = granularity ->
  BufferAllocatorSettings.size (BufferAllocatorSettings.sanitize s) = granularity.
Proof.
  intros Hwf Hs. pose proof granularity_range as Hg.
  destruct (BufferAllocatorSettings.sanitize_size_covers s Hwf) as ([? ?] & [k Hk] & ?).
  { unfold u32_max, u32_modulus. lia. }
  rewrite Hs in *. rewrite Z.max_l in * by lia.
  assert (k = 1) as -> by nia. lia.
Qed.

(** What the process asks the platform for: one granule, anywhere. *)
Definition first_settings : BufferAllocatorSettings :=
  {| BufferAllocatorSettings.min_address := 0;
     BufferAllocatorSettings.max_address := Cached.max_address get_sys_info;
     BufferAllocatorSettings.size := as_u32 (Cached.allocation_granularity get_sys_info);
     BufferAllocatorSettings.target_process_id := Cached.this_process_id get_sys_info;
     BufferAllocatorSettings.retry_count := 8;
     BufferAllocatorSettings.brute_force := true |}.

(** The platform has no granule for the first locators. *)
Definition no_first_granule w : Prop :=
  exists s e os', allocate first_settings (w_os w) = Done (s, Err e) os'.

(** The first locators of a process that keeps its buffers private: in fresh
    memory, alone on their chain, and known to the process. *)
Lemma init_unsupported_spec w :
  granule_fits -> unstarted w ->
  wp_unless (no_first_granule w) LocatorHeaderFinder.init_locatorheader_memorymappedfiles_unsupported
    (fun a w' => freshly_ready a w w') w.
Proof.
  intros Hfits (Hok & Ha & _).
  unfold LocatorHeaderFinder.init_locatorheader_memorymappedfiles_unsupported.
  pose proof granularity_range as Hg. pose proof granularity_i32 as [Hgi _].
  change {| BufferAllocatorSettings.min_address := 0 |} with first_settings.
  set (s := first_settings).
  assert (Hsize : BufferAllocatorSettings.size s = granularity).
  { simpl. rewrite granularity_eq. apply as_u32_small. unfold is_u32, u32_max, u32_modulus. lia. }
  assert (Hwf : BufferAllocatorSettings.wf s).
  { constructor; [|apply max_address_range|apply as_u32_range].
    simpl. unfold is_usize, usize_max. pose proof usize_modulus_pos. lia. }
  apply wp_unless_bind, wp_lift_os.
  eapply wp_mono; [apply wp_ran, allocate_spec; [done|done| |apply reachable_self]|].
  { rewrite Hsize. unfold u32_max, u32_modulus. lia. }
  intros [s' [it|e]] os' (E & Hok' & Hmono & -> & Hr); [|by eexists _, _, _]. simpl in Hr.
  destruct Hr as (Hpl & Hiwf & Hf). apply wp_wp_unless.
  { intros (s2 & e & os2 & E2). subst s. congruence. }
  assert (Hlen : LocatorItem.size it = granularity).
  { rewrite (placed_size _ _ Hpl). by apply sanitize_one_granule. }
  rewrite Hlen. do 5 wp_step. simpl. destruct Hiwf, Hpl.
  eapply wp_mono; [apply first_locator_spec; [done|done|done|done|lia|]|].
  { intros x Hx. apply Hf. unfold LocatorItem.in_buffer. by rewrite Hlen. }
  intros [] w1 [Hr _]. do 3 wp_step. destruct (Hr) as [[_ ->] _]. done.
Qed.

Lemma find_private_spec w :
  granule_fits -> unstarted w -> target_os = Android \/ feature_all_private = true ->
  wp_unless (no_first_granule w) LocatorHeaderFinder.find (fun a w' => freshly_ready a w w') w.
Proof.
  intros Hfits Hun Hpriv. unfold LocatorHeaderFinder.find.
  apply wp_unless_bind, wp_get. destruct (Hun) as (_ & -> & _). simpl.
  unfold LocatorHeaderFinder.init_locatorheader.
  replace (_ || _) with true by (destruct Hpriv as [->| ->]; by rewrite ?orb_true_r).
  by apply init_unsupported_spec.
Qed.

(** *** Shared locators *)

Context `{ML : !MappedFileLaws}.

(** A file that exists was written by a copy of the library in this process,
    and shows where the first locator of its chain is. *)
Definition published w : Prop := forall m os',
  LocatorHeaderFinder.open_or_create_memory_mapped_file (w_os w) = Done m os' ->
  MemoryMappedFile.already_existed m = true ->
  exists h l, view_header (MemoryMappedFile.data m) os' = Some h /\ inv (this_address h) l w.

(** The file of the process cannot be opened, created or mapped. *)
Definition no_file w : Prop :=
  exists msg, LocatorHeaderFinder.open_or_create_memory_mapped_file (w_os w) = Panic msg.

(** On Windows: the file can be mapped. *)
Definition mappable w : Prop := forall m os',
  LocatorHeaderFinder.open_or_create_memory_mapped_file (w_os w) = Done m os' -> view_made m.

(** The chain of the other copy, as it is, with the file closed again, so that
    nothing of its mapping is left; or a new chain in the mapping of the file,
    which is kept open. *)
Definition found a l w w' : Prop :=
  ready a l w' /\ started w w' /\ exists m os',
  LocatorHeaderFinder.open_or_create_memory_mapped_file (w_os w) = Done m os' /\
  if MemoryMappedFile.already_existed m
  then (exists h, view_header (MemoryMappedFile.data m) os' = Some h /\ this_address h = a) /\
    inv a l w /\ w_headers w' = w_headers w /\ w_items w' = w_items w /\ w_mmf w' = w_mmf w /\
    LocatorHeaderFinder.drop_mmf m os' = Done tt (w_os w') /\
    unmapped_file m (w_os w) os' (w_os w')
  else a = MemoryMappedFile.data m /\ w_mmf w' = Some m /\
    l = first_locators a /\ packed (w_headers w') l /\
    forall x, a <= x < a + granularity -> ~ owned (w_os w) x.

Lemma inv_set_address a l w c : inv a l w -> inv a l (set_locator_header_address c w).
Proof. intros []. by constructor. Qed.

Lemma inv_set_mmf a l w m : inv a l w -> inv a l (set_mmf m w).
Proof. intros []. by constructor. Qed.

Lemma clean_spec w : os_ok (w_os w) ->
  wp (if cfg_unix then lift_os LocatorHeaderFinder.cleanup else mret tt)
    (fun _ w' => exists os', keeps (w_os w) os' /\ w' = set_os os' w) w.
Proof.
  intros Hok. destruct cfg_unix eqn:Hu.
  - apply wp_lift_os. eapply wp_mono; [by apply mm_cleanup|]. intros [] os' ?. eauto.
  - wp_step. exists (w_os w). by rewrite set_os_id.
Qed.

Lemma init_standard_spec w :
  granule_fits -> unstarted w -> published w -> mappable w ->
  wp_unless (no_file w) LocatorHeaderFinder.init_locatorheader_standard
    (fun a w' => exists l, found a l w w') w.
Proof.
  intros Hfits (Hok & Ha & Hmmf) Hpub Hmap.
  unfold LocatorHeaderFinder.init_locatorheader_standard.
  apply wp_unless_then, wp_unless_lift_os.
  eapply wp_unless_mono; [by apply wp_unless_run, wp_or_panic_unless, mm_open|].
  intros m os1 (E & Hm). destruct (Hm (Hmap _ _ E)) as [Hf Hdrop]. specialize (Hpub _ _ E).
  unfold found. destruct (MemoryMappedFile.already_existed m) eqn:Hex.
  - destruct (Hpub eq_refl) as (h & l & Hv & Hi). do 2 wp_step. simpl. rewrite Hv.
    do 4 wp_step. simpl. wp_step. apply wp_lift_os. simpl.
    eapply wp_mono; [by apply wp_ran, Hdrop|]. intros [] os2 [Ed [[Hok2 Hmono] Hgone]].
    wp_step. exists l. split; [split; [|done]|split; [done|]];
      [|exists m, os1; rewrite Hex; split; [done|]; split; [by exists h|done]].
    apply (set_os_inv (this_address h) l (set_locator_header_address (this_address h) w));
      [by apply inv_set_address|done|done].
  - wp_step. eapply wp_mono; [by apply clean_spec, Hf|]. intros [] w2 (os2 & Hk & ->).
    do 5 wp_step. simpl in *.
    change (set_os os2 (set_os os1 w)) with (set_os os2 w). rewrite (mg_length _ _ _ Hf).
    eapply wp_mono; [apply (first_locator_spec w (MemoryMappedFile.data m) os2); [done|done| | | |]|].
    + eapply grows_trans; [apply Hf|by apply keeps_grows].
    + apply Hf.
    + apply Hf.
    + intros x Hx. destruct (mg_fresh _ _ _ Hf x Hx). split; [done|]. by apply Hk.
    + intros [] w1 [([Hi Haddr] & Hst & Hpk & _) Hm1]. do 4 wp_step. simpl. rewrite Hm1, Hmmf. do 3 wp_step.
      do 2 wp_step. simpl. rewrite Haddr. exists (first_locators (MemoryMappedFile.data m)).
      split; [split; [by apply inv_set_mmf|done]|split; [done|]].
      exists m, os1. rewrite Hex. do 5 (split; [done|]). intros x Hx. by apply (mg_fresh _ _ _ Hf).
Qed.

Lemma find_shared_spec w :
  granule_fits -> unstarted w -> target_os <> Android -> feature_all_private = false ->
  published w -> mappable w ->
  wp_unless (no_file w) LocatorHeaderFinder.find (fun a w' => exists l, found a l w w') w.
Proof.
  intros Hfits Hun Hand Hpriv Hpub Hmap. unfold LocatorHeaderFinder.find.
  apply wp_unless_bind, wp_get. destruct (Hun) as (_ & -> & _). simpl.
  unfold LocatorHeaderFinder.init_locatorheader. rewrite Hpriv, bool_decide_eq_false_2 by done.
  by apply init_standard_spec.
Qed.

(** *** The first search of a process *)
Lemma get_buffer_first_spec w settings :
  granule_fits -> unstarted w -> target_os = Android \/ feature_all_private = true ->
  BufferSearchSettings.wf settings ->
  BufferSearchSettings.size settings + granularity <= u32_max ->
  wp_unless (no_first_granule w) (Buffers.get_buffer settings) (fun r w' => exists a w1,
    freshly_ready a w w1 /\ searched a (first_locators a) settings w1 r w') w.
Proof.
  intros Hfits Hun Hpriv Hwf Hbig. unfold Buffers.get_buffer. apply wp_unless_then.
  eapply wp_unless_mono; [by apply find_private_spec|]. intros a w1 Hr.
  eapply wp_mono; [apply get_buffer_recursive_spec; [done|apply Hr|done..]|].
  intros r w' Hs. by exists a, w1.
Qed.

Lemma get_buffer_shared_spec w settings :
  granule_fits -> unstarted w -> target_os <> Android -> feature_all_private = false ->
  published w -> mappable w -> BufferSearchSettings.wf settings ->
  BufferSearchSettings.size settings + granularity <= u32_max ->
  wp_unless (no_file w) (Buffers.get_buffer settings) (fun r w' => exists a l w1,
    found a l w w1 /\ searched a l settings w1 r w') w.
Proof.
  intros Hfits Hun Hand Hpriv Hpub Hmap Hwf Hbig. unfold Buffers.get_buffer.
  apply wp_unless_then. eapply wp_unless_mono; [by apply find_shared_spec|].
  intros a w1 (l & Hfound).
  assert (Hi : inv a l w1) by apply Hfound.
  eapply wp_mono; [by eapply get_buffer_recursive_spec|]. intros r w' Hs. by exists a, l, w1.
Qed.

(** *** A second copy of the library in the process

    It has its own statics, and the memory of the first. *)
Definition second_copy w : World OS := set_mmf None (set_locator_header_address 0 w).

(** The file that the first copy keeps open is there, and a view of it shows
    what the view of the first copy shows. *)
Definition coherent (a : Z) w : Prop := forall m os',
  LocatorHeaderFinder.open_or_create_memory_mapped_file (w_os w) = Done m os' ->
  MemoryMappedFile.already_existed m = true /\
  view_header (MemoryMappedFile.data m) os' = w_headers w !! a.

Lemma second_copy_inv a l w : inv a l w -> inv a l (second_copy w).
Proof. intros Hi. by apply inv_set_mmf, inv_set_address. Qed.

Lemma first_header_known a l w :
  inv a l w -> exists h, w_headers w !! a = Some h /\ this_address h = a.
Proof.
  intros Hi. destruct (chain_head _ _ _ (inv_chain _ _ _ Hi)) as [l0 Hl0].
  assert (Ha : a ∈ l) by (rewrite Hl0; by left).
  destruct (chain_lookup _ _ _ a (inv_chain _ _ _ Hi) Ha) as [h Hh].
  exists h. split; [done|]. apply (inv_header _ _ _ Hi a h Ha Hh).
Qed.

Lemma coherent_published a l w : inv a l w -> coherent a w -> published (second_copy w).
Proof.
  intros Hi Hc m os' E _. destruct (Hc m os' E) as [_ ->].
  destruct (first_header_known a l w Hi) as (h & Hh & Hth). exists h, l.
  split; [done|]. rewrite Hth. by apply second_copy_inv.
Qed.

(** It finds the chain of the first copy. *)
Lemma second_copy_found a l w a' l' w' :
  inv a l w -> coherent a w -> found a' l' (second_copy w) w' ->
  a' = a /\ l' = l /\ w_headers w' = w_headers w /\ w_items w' = w_items w.
Proof.
  intros Hi Hc (_ & _ & m & os' & E & Hm). destruct (Hc m os' E) as [Hex Hv]. rewrite Hex, Hv in Hm.
  destruct (first_header_known a l w Hi) as (h & Hh & Hth).
  destruct Hm as ((h' & Hh' & Hth') & Hi' & Hhs & Hits & _).
  assert (h' = h) as -> by congruence. assert (a' = a) as -> by congruence.
  split; [done|]. split; [|done]. apply (chain_unique _ _ _ _ (inv_chain _ _ _ Hi') (inv_chain _ _ _ Hi)).
Qed.

(** A buffer that the first copy holds. *)
Definition held l w p it : Prop :=
  registered (w_headers w) l p /\ w_items w !! p = Some it /\ LocatorItem.is_taken it = 1.

Lemma searched_held a l settings w r w' :
  searched a l settings w r w' -> exists l', inv a l' w' /\
    (forall p it, held l w p it ->
       held l' w' p it /\ forall s, r = Ok s -> SafeLocatorItem.item s <> p) /\
    (forall s, r = Ok s -> exists it, held l' w' (SafeLocatorItem.item s) it /\
       LocatorItem.provides it (BufferSearchSettings.size settings)
         (BufferSearchSettings.min_address settings) (BufferSearchSettings.max_address settings)).
Proof.
  intros (l' & Hi & Hs). exists l'. split; [done|]. destruct r as [s|e]; split.
  - intros p it (Hp & Hit & Htk). assert (Hne : p <> SafeLocatorItem.item s).
    { intros ->. destruct (aq_item _ _ _ _ _ _ _ _ Hs) as (jt & _ & _ & _ & _ & Hold & _).
      destruct (Hold Hp) as (it0 & Hit0 & Hfree & _). congruence. }
    destruct (aq_others _ _ _ _ _ _ _ _ Hs p Hp Hne) as [Hp' Heq].
    split; [by split; [|rewrite Heq]|]. intros s' [= <-]. congruence.
  - intros s' [= <-]. destruct (aq_item _ _ _ _ _ _ _ _ Hs) as (it & Hit & _ & Htk & Hpr & _).
    exists it. split; [|done]. split; [apply (aq_registered _ _ _ _ _ _ _ _ Hs)|done].
  - intros p it (Hp & Hit & Htk). destruct Hs as (Hev & _).
    destruct (ev_old _ _ _ _ Hev p Hp) as [Hp' Heq].
    split; [by split; [|rewrite Heq]|done].
  - done.
Qed.

(** The search of the second copy, as a search of the first. *)
Lemma second_copy_spec a l w settings :
  granule_fits -> inv a l w -> target_os <> Android -> feature_all_private = false ->
  coherent a w -> mappable w -> BufferSearchSettings.wf settings ->
  BufferSearchSettings.size settings + granularity <= u32_max ->
  wp_unless (no_file w) (Buffers.get_buffer settings) (fun r w' => exists w1,
    ready a l w1 /\ w_headers w1 = w_headers w /\ w_items w1 = w_items w /\
    w_bytes w1 = w_bytes w /\ searched a l settings w1 r w') (second_copy w).
Proof.
  intros Hfits Hi Hand Hpriv Hc Hmap Hwf Hbig.
  eapply wp_unless_mono; [apply (get_buffer_shared_spec (second_copy w))|]; try done.
  - split; [apply (inv_os _ _ _ Hi)|done].
  - by eapply coherent_published.
  - intros r w' (a' & l' & w1 & Hf & Hs).
    destruct (second_copy_found a l w a' l' w1 Hi Hc Hf) as (-> & -> & Hhs & Hits).
    destruct Hf as (Hr & [Hb _] & _). by exists w1.
Qed.

End finder.
