(* ===== verification/FirstFit.v ===== *)
(** * First fit: which buffer a search hands out

    A search takes the first free buffer that suits, in the order of the
    chain, and asks the system for memory only when there is none.  The code
    goes to the next locator only behind a full one, so this needs the
    invariant [packed]: the locators fill up in order. *)

From stdpp Require Import sorting.
From S2P Require Import Prelude Mathematics SysInfo Settings Errors Items Headers World ItemOps.
From S2P Require Import Platform HeaderOps HeaderSpec HeaderWp HeaderInit HeaderNext.
From S2P Require Import MapParser Posix MemoryMappedFiles Finder Buffers BuffersSpec ItemSpec Sessions.
Import LocatorHeader.

(** ** The reference: a search of a list *)

(** The item at [p] is free and suits. *)
Definition available `{Target} (n lo hi : Z) (its : gmap Z LocatorItem) (p : Z) : Prop :=
  exists it, its !! p = Some it /\ LocatorItem.is_taken it = 0 /\ LocatorItem.provides it n lo hi.

#[global] Instance provides_dec it n lo hi : Decision (LocatorItem.provides it n lo hi).
Proof.
  refine (cast_if (decide (n <= LocatorItem.size it - LocatorItem.position it /\
    lo <= LocatorItem.base_address it + LocatorItem.position it /\
    LocatorItem.base_address it + LocatorItem.size it <= hi))).
  - abstract (constructor; tauto).
  - abstract (intros []; tauto).
Defined.

#[global] Instance available_dec `{Target} n lo hi its p : Decision (available n lo hi its p).
Proof.
  unfold available. destruct (its !! p) as [it|].
  - destruct (decide (LocatorItem.is_taken it = 0 /\ LocatorItem.provides it n lo hi)) as [Hd|Hd].
    + left. abstract (exists it; tauto).
    + right. abstract (intros (jt & [= <-] & Hj); tauto).
  - right. abstract (intros (jt & Hj & _); done).
Defined.

(** The slots in use, in the order of the chain. *)
Definition slots_of `{Target} (hs : gmap Z LocatorHeader) (b : Z) : list Z :=
  get_item b <$> seqZ 0 (count hs b).
Definition slots `{Target} (hs : gmap Z LocatorHeader) (l : list Z) : list Z :=
  l ≫= slots_of hs.

Section first_fit.
Context `{T : Target} {OS : Type}.
Implicit Types w : World OS.

(** The first of them that is free and suits. *)
Definition first_fit (n lo hi : Z) w (l : list Z) : option Z :=
  snd <$> list_find (available n lo hi (w_items w)) (slots (w_headers w) l).

Definition none_fits (n lo hi : Z) w (ps : list Z) : Prop :=
  Forall (fun p => ~ available n lo hi (w_items w) p) ps.

Lemma slots_cons hs b l : slots hs (b :: l) = slots_of hs b ++ slots hs l.
Proof. apply bind_cons. Qed.

Lemma slots_app hs l k : slots hs (l ++ k) = slots hs l ++ slots hs k.
Proof. apply bind_app. Qed.

Lemma first_fit_none n lo hi w l :
  first_fit n lo hi w l = None <-> none_fits n lo hi w (slots (w_headers w) l).
Proof.
  unfold first_fit, none_fits. rewrite <- (list_find_None (available n lo hi (w_items w))).
  by destruct (list_find _ _) as [[? ?]|].
Qed.

Lemma first_fit_available n lo hi w l p :
  first_fit n lo hi w l = Some p -> available n lo hi (w_items w) p.
Proof.
  unfold first_fit. destruct (list_find _ _) as [[i q]|] eqn:E; [|done]. intros [= <-].
  by apply list_find_Some in E as (_ & ? & _).
Qed.

Lemma first_fit_skip n lo hi w pre suf :
  none_fits n lo hi w (slots (w_headers w) pre) ->
  first_fit n lo hi w (pre ++ suf) = first_fit n lo hi w suf.
Proof.
  intros Hn. unfold first_fit. rewrite slots_app, list_find_app_r by (by apply list_find_None).
  by destruct (list_find _ (slots (w_headers w) suf)) as [[? ?]|].
Qed.

Lemma first_fit_here n lo hi w b h i it suf :
  w_headers w !! b = Some h -> first_free b h n lo hi i it w ->
  first_fit n lo hi w (b :: suf) = Some (get_item b i).
Proof.
  intros Hh [Hi Hit Hfree Hs Hbefore]. unfold first_fit. rewrite slots_cons. unfold slots_of.
  rewrite (count_lookup _ _ _ Hh). replace (num_items h) with (i + (num_items h - i)) by lia.
  rewrite seqZ_app, fmap_app by lia. rewrite (seqZ_cons (0 + i)) by lia. csimpl.
  rewrite <- app_assoc, list_find_app_r.
  - simpl. rewrite decide_True; [by rewrite Z.add_0_l|]. rewrite Z.add_0_l. by exists it.
  - apply list_find_None, list.Forall_forall. intros p (j & -> & Hj%elem_of_seqZ)%list_elem_of_fmap.
    intros (jt & Hjt & Hz & Hp). specialize (Hbefore j jt). rewrite Hbefore in Hz; [done|lia|done|done].
Qed.

Lemma scan_none n lo hi w b h :
  w_headers w !! b = Some h -> taken_before b (num_items h) n lo hi w ->
  none_fits n lo hi w (slots_of (w_headers w) b).
Proof.
  intros Hh Hn. apply list.Forall_forall. unfold slots_of. rewrite (count_lookup _ _ _ Hh).
  intros p (j & -> & Hj%elem_of_seqZ)%list_elem_of_fmap (jt & Hjt & Hz & Hp).
  specialize (Hn j jt). rewrite Hn in Hz; [done|lia|done|done].
Qed.

Lemma registered_slots hs l p : registered hs l p -> p ∈ slots hs l.
Proof.
  intros (b & h & i & Hb & Hh & Hi & ->). unfold slots. apply list_elem_of_bind.
  exists b. split; [|done]. unfold slots_of. apply list_elem_of_fmap. exists i. split; [done|].
  rewrite (count_lookup _ _ _ Hh). apply elem_of_seqZ. lia.
Qed.

(** ** Locators that fill up in order *)

Definition full (hs : gmap Z LocatorHeader) (l : list Z) : Prop :=
  Forall (fun d => MAX_ITEM_COUNT <= count hs d) l.

Lemma full_packed hs l k : full hs l -> packed hs k -> packed hs (l ++ k).
Proof.
  intros Hf Hk. induction Hf as [|d l Hd Hf IH]; [done|]. simpl. apply StronglySorted_cons.
  split; [|done]. apply list.Forall_forall. by left.
Qed.

Lemma packed_at hs pre b suf :
  full hs pre -> (forall d, d ∈ suf -> count hs d = 0) -> packed hs (pre ++ b :: suf).
Proof.
  intros Hf Hz. apply full_packed; [done|]. apply StronglySorted_cons. split.
  - apply list.Forall_forall. intros d Hd. right. auto.
  - induction suf as [|d suf IH]; [constructor|]. apply StronglySorted_cons. split.
    + apply list.Forall_forall. intros e He. right. apply Hz. by right.
    + apply IH. intros e He. apply Hz. by right.
Qed.

Lemma packed_behind hs pre b suf d :
  packed hs (pre ++ b :: suf) -> count hs b < MAX_ITEM_COUNT -> d ∈ suf -> count hs d = 0.
Proof.
  intros (_ & _ & Hs)%StronglySorted_app Hb Hd. apply StronglySorted_cons in Hs as [Hs _].
  rewrite list.Forall_forall in Hs. destruct (Hs d Hd); [lia|done].
Qed.

Lemma empty_slots hs l : (forall d, d ∈ l -> count hs d = 0) -> slots hs l = [].
Proof.
  induction l as [|d l IH]; intros Hz; [done|]. rewrite slots_cons, IH by (intros; apply Hz; by right).
  unfold slots_of. by rewrite Hz by (by left).
Qed.

Lemma full_ext hs hs' l : (forall d, d ∈ l -> count hs' d = count hs d) -> full hs l -> full hs' l.
Proof.
  intros Heq Hf. apply list.Forall_forall. intros d Hd. rewrite Heq by done.
  unfold full in Hf. rewrite list.Forall_forall in Hf. auto.
Qed.

(** One more item in the first locator that is not full. *)
Lemma packed_push hs pre b suf h :
  NoDup (pre ++ b :: suf) -> packed hs (pre ++ b :: suf) -> full hs pre ->
  hs !! b = Some h -> num_items h < MAX_ITEM_COUNT ->
  packed (<[b := set_num_items (num_items h + 1) h]> hs) (pre ++ b :: suf).
Proof.
  intros (_ & Hpre & Hnd)%list.NoDup_app Hp Hf Hb Hroom. apply list.NoDup_cons in Hnd as [Hsuf _].
  assert (Hne : forall d, d <> b -> count (<[b := set_num_items (num_items h + 1) h]> hs) d = count hs d).
  { intros d Hd. unfold count. by rewrite lookup_insert_ne. }
  apply packed_at.
  - apply (full_ext hs); [|done]. intros d Hd. apply Hne. intros ->. apply (Hpre b Hd). by left.
  - intros d Hd. rewrite Hne by (by intros ->). eapply packed_behind; [done| |done].
    by rewrite (count_lookup _ _ _ Hb).
Qed.

Lemma is_full_count hs b h :
  hs !! b = Some h -> is_full h = bool_decide (MAX_ITEM_COUNT <= count hs b).
Proof.
  intros Hh. rewrite (count_lookup _ _ _ Hh). unfold is_full. rewrite Z.geb_leb.
  case_bool_decide; [by apply Z.leb_le|apply Z.leb_gt; lia].
Qed.

End first_fit.

(** ** The search *)

Section search.
Context `{T : Target} `{Q : SysQuery} {OS : Type} `{Sch : Scheduler OS} `{P : Platform OS}
  `{Mem : Memory OS} `{L : !PlatformLaws} `{HQ : !SysQueryOk}.
Implicit Types w : World OS.

Section loop.
Context (a : Z) (l : list Z) (w : World OS) (settings : BufferSearchSettings).
Let n := BufferSearchSettings.size settings.
Let lo := BufferSearchSettings.min_address settings.
Let hi := BufferSearchSettings.max_address settings.

(** A search fails only when the system refuses memory, or all locators are
    full and there is no room for another or for an item of it. *)
Definition answered (r : result SafeLocatorItem BufferSearchError) : Prop :=
  match r with Ok _ => True | Err _ => full (w_headers w) l \/ refused n lo hi (w_os w) end.

(** The chain is as before, or all its locators were full and those of one
    granule were added. *)
Definition grown (l' : list Z) : Prop :=
  l' = l \/ (full (w_headers w) l /\ exists c, l' = l ++ block_locators c granularity).

(** The first free buffer that suits, and nothing else changes; or there is
    none, the locators still fill up in order, and there are more of them only
    if there had to be. *)
Definition fitted (r : result SafeLocatorItem BufferSearchError) w' : Prop :=
  match first_fit n lo hi w l with
  | Some p => r = Ok {| SafeLocatorItem.item := p |} /\ exists it, w_items w !! p = Some it /\
      w' = set_items (<[p := LocatorItem.set_is_taken 1 it]> (w_items w)) w
  | None => (exists l', inv a l' w' /\ packed (w_headers w') l' /\ grown l') /\ answered r
  end.

(** What the loop knows at the locator [b]: those before it are full.  Either
    nothing has changed and no buffer before [b] suits, or no buffer suits and
    [b] has room. *)
Definition looking (m b : Z) w1 : Prop := exists pre suf,
  inv a (pre ++ b :: suf) w1 /\ packed (w_headers w1) (pre ++ b :: suf) /\ full (w_headers w1) pre /\
  ((w1 = w /\ l = pre ++ b :: suf /\ m = Z.of_nat (length suf) + 1 /\
    none_fits n lo hi w (slots (w_headers w) pre)) \/
   (m = 0 /\ first_fit n lo hi w l = None /\ full (w_headers w) l /\
    count (w_headers w1) b < MAX_ITEM_COUNT /\
    exists c, pre ++ b :: suf = l ++ block_locators c granularity)).

Lemma looking_done r l' w' :
  first_fit n lo hi w l = None -> answered r -> inv a l' w' -> packed (w_headers w') l' -> grown l' ->
  fitted r w'.
Proof using Type. intros Hnone Hr Hi Hp Hg. unfold fitted. rewrite Hnone. eauto. Qed.

Lemma looking_grown m b w1 pre suf :
  (w1 = w /\ l = pre ++ b :: suf /\ m = Z.of_nat (length suf) + 1 /\
    none_fits n lo hi w (slots (w_headers w) pre)) \/
  (m = 0 /\ first_fit n lo hi w l = None /\ full (w_headers w) l /\
    count (w_headers w1) b < MAX_ITEM_COUNT /\
    exists c, pre ++ b :: suf = l ++ block_locators c granularity) -> grown (pre ++ b :: suf).
Proof using Type. intros [(_ & <- & _)|(_ & _ & ? & _ & ?)]; [by left|by right]. Qed.

(** The scan of [b]. *)
Lemma looking_scan m b w1 :
  looking m b w1 ->
  wp (HeaderPtr.get_first_available_item_locked b n lo hi) (fun r w2 =>
    match r with
    | Some s => fitted (Ok s) w2
    | None => w2 = w1 /\ none_fits n lo hi w1 (slots_of (w_headers w1) b)
    end) w1.
Proof using Type.
  intros (pre & suf & Hi & Hp & Hf & Hcase).
  destruct (chain_lookup _ _ _ b (inv_chain _ _ _ Hi)) as [h Hh]; [solve_in|].
  assert (Hb : b ∈ pre ++ b :: suf) by solve_in.
  eapply wp_mono; [by eapply scan_spec, inv_table|]. intros [s|] w2.
  2: { intros [-> Hnone]. split; [done|]. by eapply scan_none. }
  intros (i & it & Hs & Hff & ->). destruct s as [p]. simpl in Hs. subst p.
  destruct Hcase as [(-> & Hl & _ & Hnone)|(_ & Hnone & Hfl & _ & Hc)].
  - unfold fitted. rewrite Hl, first_fit_skip, (first_fit_here _ _ _ w b h i it) by done.
    split; [done|]. exists it. split; [apply Hff|done].
  - apply (looking_done _ (pre ++ b :: suf)); [done|done| |done|by right].
    destruct (inv_table _ _ _ b h Hi Hb Hh) as [_ _ Htab].
    destruct (Htab i (ff_index _ _ _ _ _ _ _ _ Hff)) as (it' & Hit' & Hwf & _).
    assert (it' = it) as -> by (pose proof (ff_item _ _ _ _ _ _ _ _ Hff); congruence).
    eapply inv_update_item; [done|done|by apply LocatorItem.set_is_taken_wf|by right|done|done].
Qed.

(** Behind a locator with room there is nothing to find. *)
Lemma looking_none m b w1 :
  looking m b w1 -> none_fits n lo hi w1 (slots_of (w_headers w1) b) ->
  count (w_headers w1) b < MAX_ITEM_COUNT -> first_fit n lo hi w l = None.
Proof using Type.
  intros (pre & suf & _ & Hp & _ & [(-> & -> & _ & Hnone)|(_ & ? & _ & _)]) Hb Hroom; [|done].
  rewrite first_fit_skip by done. apply first_fit_none. rewrite slots_cons.
  rewrite (empty_slots _ suf), app_nil_r; [done|]. intros d. by eapply packed_behind.
Qed.

Lemma looking_refused m b w1 e :
  looking m b w1 -> refused n lo hi (w_os w1) -> answered (Err e).
Proof using Type.
  intros (pre & suf & _ & _ & _ & [(-> & _)|(_ & _ & ? & _)]) Hr; [by right|by left].
Qed.

(** Nothing suits in a full locator: the search goes on behind it. *)
Lemma looking_next m b w1 :
  granule_fits -> looking m b w1 -> none_fits n lo hi w1 (slots_of (w_headers w1) b) ->
  MAX_ITEM_COUNT <= count (w_headers w1) b ->
  wp (HeaderPtr.get_next_locator b) (fun r w2 =>
    match r with
    | Ok c => exists m', 0 <= m' < m /\ looking m' c w2
    | Err _ => forall r, fitted r w2
    end) w1.
Proof using HQ L.
  intros Hfits (pre & suf & Hi & Hp & Hf & Hcase) Hb Hfull.
  destruct Hcase as [(-> & Hl & -> & Hnone)|(_ & _ & _ & ? & _)]; [|lia].
  assert (Hf' : full (w_headers w) (pre ++ [b])) by (by apply list.Forall_app; repeat constructor).
  assert (Hnone' : none_fits n lo hi w (slots (w_headers w) (pre ++ [b]))).
  { rewrite slots_app. apply list.Forall_app. split; [done|]. by rewrite slots_cons, app_nil_r. }
  eapply wp_mono; [by eapply get_next_locator_spec|]. intros [c|err] w2 H2.
  - destruct H2 as [[-> [suf' ->]]|(-> & l2 & -> & Hi2 & Hev2 & Hc & (hc & Hhc & Hroom) & Hold & Hnew)].
    + exists (Z.of_nat (length suf') + 1). split; [simpl; lia|]. exists (pre ++ [b]), suf'.
      rewrite <- app_assoc. split; [done|]. split; [done|]. split; [done|]. left. done.
    + exists 0. split; [simpl; lia|]. destruct fresh_count as (Hn & _); [done|].
      exists (pre ++ [b]), (block_locator c <$> seqZ 1 (block_count granularity - 1)).
      assert (Hcs : block_locators c granularity =
        c :: (block_locator c <$> seqZ 1 (block_count granularity - 1))).
      { unfold block_locators. rewrite seqZ_cons by done. csimpl. f_equal.
        unfold block_locator. lia. }
      rewrite <- app_assoc. simpl. rewrite <- Hcs. split; [done|].
      assert (Hf2 : full (w_headers w2) (pre ++ [b])) by (by eapply full_ext).
      split; [|split; [done|right]].
      * change (packed (w_headers w2) (pre ++ [b] ++ block_locators c granularity)).
        rewrite app_assoc. by apply full_packed.
      * split; [done|]. split; [rewrite Hl; by apply first_fit_none|]. split; [by rewrite Hl|].
        rewrite (is_full_count _ _ _ Hhc) in Hroom. apply bool_decide_eq_false in Hroom.
        split; [lia|]. exists c. by rewrite Hl, <- app_assoc.
  - destruct H2 as (_ & -> & Hi2 & _ & Hh2). intros r.
    apply (looking_done _ (pre ++ [b])); [rewrite Hl; by apply first_fit_none| |done|by rewrite Hh2
      |by left].
    unfold answered. rewrite Hl. destruct r; [done|by left].
Qed.

(** An item that [b] gets. *)
Lemma looking_allocated m b w1 s w2 s' :
  looking m b w1 -> none_fits n lo hi w1 (slots_of (w_headers w1) b) ->
  allocated_item b n lo hi w1 s w2 -> fitted (Ok s') w2.
Proof using Type.
  intros Hlook Hb Hal. destruct (Hlook) as (pre & suf & Hi & Hp & Hf & Hcase).
  assert (Hin : b ∈ pre ++ b :: suf) by solve_in.
  pose proof (allocated_item_inv _ _ _ _ _ _ _ _ _ Hi Hin Hal) as Hi2.
  destruct Hal as (h & it & os' & Hh & Hroom & _ & _ & _ & _ & _ & _ & _ & _ & ->).
  rewrite (is_full_count _ _ _ Hh) in Hroom. apply bool_decide_eq_false in Hroom.
  apply (looking_done _ (pre ++ b :: suf)); [eapply looking_none; [done|done|lia]|done|done| |
    by eapply looking_grown].
  simpl. apply packed_push; [apply (inv_nodup _ _ _ Hi)|done|done|done|].
  rewrite (count_lookup _ _ _ Hh) in Hroom. lia.
Qed.

End loop.

Lemma get_buffer_recursive_fits a l w settings :
  granule_fits -> inv a l w -> packed (w_headers w) l -> BufferSearchSettings.wf settings ->
  BufferSearchSettings.size settings + granularity <= u32_max ->
  wp (Buffers.get_buffer_recursive settings a) (fitted a l w settings) w.
Proof.
  intros Hfits Hi Hpk [Hlo Hhi [Hn _]] Hbig. unfold Buffers.get_buffer_recursive.
  destruct (chain_head _ _ _ (inv_chain _ _ _ Hi)) as [l0 Hl0].
  apply (wp_loop _ (looking a l w settings)) with (n := Z.of_nat (length l)).
  - intros m b w1 Hlook Hm. wp_step.
    eapply wp_mono; [exact (looking_scan a l w settings m b w1 Hlook)|].
    intros [s|] w2 H2; [by wp_step|]. destruct H2 as [-> Hb].
    destruct (Hlook) as (pre & suf & Hi1 & Hp1 & _ & Hcase).
    assert (Hin : b ∈ pre ++ b :: suf) by solve_in.
    wp_step. eapply wp_mono; [by apply (try_allocate_item_spec _ _ _ _ _ _ _ Hi1 Hin)|].
    intros [s|e] w2 H2; [wp_step; exact (looking_allocated _ _ _ _ _ _ _ _ _ _ Hlook Hb H2)|]. destruct e.
    + destruct H2 as [-> (h & Hh & Hfull)]. simpl. wp_step.
      rewrite (is_full_count _ _ _ Hh) in Hfull. apply bool_decide_eq_true in Hfull.
      eapply wp_mono; [exact (looking_next _ _ _ _ _ _ _ Hfits Hlook Hb Hfull)|].
      intros [c|err] w2 H2; by wp_step.
    + destruct H2 as [[(h & Hh & Hroom) Href] (os' & -> & Hok & Hmono)]. simpl. wp_step.
      rewrite (is_full_count _ _ _ Hh) in Hroom. apply bool_decide_eq_false in Hroom.
      apply (looking_done _ _ _ _ _ (pre ++ b :: suf)); [| |by apply set_os_inv|done
        |exact (looking_grown _ _ _ _ _ _ _ _ Hcase)].
      * apply (looking_none _ _ _ _ _ _ _ Hlook Hb). lia.
      * exact (looking_refused _ _ _ _ _ _ _ _ Hlook Href).
  - subst l. exists [], l0. split; [done|]. split; [done|]. split; [constructor|left].
    split; [done|]. split; [done|]. split; [simpl; lia|constructor].
  - pose proof (chain_length_bound _ _ _ Hi).
    pose proof (usize_lt_loop usize_max) as Hu. unfold is_usize in Hu. lia.
Qed.

Context `{PX : Posix OS} `{ST : UnixMemoryMappedFile.StringTail OS} `{WF : WindowsFiles OS}
  `{SV : SharedViews OS} `{I : Itoa}.

(** The two descriptions of a search hold together. *)
Lemma get_buffer_fits a l w settings :
  granule_fits -> ready a l w -> packed (w_headers w) l -> BufferSearchSettings.wf settings ->
  BufferSearchSettings.size settings + granularity <= u32_max ->
  wp (Buffers.get_buffer settings)
    (fun r w' => searched a l settings w r w' /\ fitted a l w settings r w') w.
Proof.
  intros Hfits Hr Hp Hwf Hbig. apply wp_and; [by apply get_buffer_spec|].
  unfold Buffers.get_buffer. wp_step. eapply wp_mono; [by eapply find_ready|].
  intros r w' [-> ->]. apply get_buffer_recursive_fits; try done. apply Hr.
Qed.

Lemma fitted_packed a l w settings r w' l' :
  packed (w_headers w) l -> fitted a l w settings r w' -> inv a l w -> inv a l' w' -> packed (w_headers w') l'.
Proof.
  intros Hp Hf Hi Hi'. unfold fitted in Hf. destruct (first_fit _ _ _ w l) as [p|].
  - destruct Hf as (_ & it & _ & ->). simpl.
    by rewrite (chain_unique _ _ _ _ (inv_chain _ _ _ Hi') (inv_chain _ _ _ Hi)).
  - destruct Hf as ((l2 & Hi2 & Hp2 & _) & _).
    by rewrite (chain_unique _ _ _ _ (inv_chain _ _ _ Hi') (inv_chain _ _ _ Hi2)).
Qed.

(** An item that was not found is new. *)
Lemma not_found_new a l n lo hi w s l' w' :
  inv a l w -> first_fit n lo hi w l = None -> acquired l n lo hi w s l' w' ->
  ~ registered (w_headers w) l (SafeLocatorItem.item s).
Proof.
  intros Hi Hnone Haq Hreg. apply first_fit_none in Hnone. unfold none_fits in Hnone.
  rewrite list.Forall_forall in Hnone. apply (Hnone _ (registered_slots _ _ _ Hreg)).
  destruct (aq_item _ _ _ _ _ _ _ _ Haq) as (it & _ & _ & _ & Hp & Hold & _).
  destruct (Hold Hreg) as (it0 & Hit0 & Hz & ->). exists it0.
  by rewrite LocatorItem.set_is_taken_provides in Hp.
Qed.

(** ** Sessions *)

Definition packed_from (a : Z) w : Prop := forall l, chain (w_headers w) a l -> packed (w_headers w) l.

Lemma packed_from_intro a l w : inv a l w -> packed (w_headers w) l -> packed_from a w.
Proof. intros Hi Hp l2 H2. by rewrite (chain_unique _ _ _ _ H2 (inv_chain _ _ _ Hi)). Qed.

Lemma get_buffer_packed a l w settings r w' :
  granule_fits -> ready a l w -> packed_from a w -> BufferSearchSettings.wf settings ->
  BufferSearchSettings.size settings + granularity <= u32_max ->
  Buffers.get_buffer settings w = Done r w' -> packed_from a w'.
Proof.
  intros Hfits Hr Hp Hwf Hbig E. assert (Hi : inv a l w) by apply Hr.
  assert (Hpl : packed (w_headers w) l) by (apply Hp; apply (inv_chain _ _ _ Hi)).
  destruct (wp_run _ _ _ _ _ (get_buffer_fits a l w settings Hfits Hr Hpl Hwf Hbig) E) as [Hs Hf].
  destruct (searched_ready _ _ _ _ _ _ Hr Hs) as (l' & [Hi' _] & _).
  apply (packed_from_intro a l'); [done|]. by eapply fitted_packed.
Qed.

(** An aligned search is a search; the rest of it touches no header. *)
Lemma get_buffer_aligned_search settings alignment w r w' :
  request_ok settings alignment -> Buffers.get_buffer_aligned settings alignment w = Done r w' ->
  exists settings' r1 w1, BufferSearchSettings.wf settings' /\
    BufferSearchSettings.size settings' + granularity <= u32_max /\
    Buffers.get_buffer settings' w = Done r1 w1 /\ w_headers w' = w_headers w1.
Proof.
  intros (Hwf & Hal & Hbig) E. pose proof granularity_range. destruct Hwf as [Hlo Hhi Hn].
  unfold is_u32 in *. unfold Buffers.get_buffer_aligned in E.
  set (mis := if alignment - 1 <? 0 then 0 else alignment - 1) in E.
  assert (Hmis : 0 <= mis <= alignment) by (unfold mis; case_bool; lia).
  rewrite add_u32_small in E by lia. set (settings' := BufferSearchSettings.set_size _ _) in E.
  exists settings'. apply bind_done in E as (r1 & w1 & E1 & E). exists r1, w1.
  split; [constructor; simpl; [done|done|unfold is_u32; lia]|]. split; [simpl; lia|].
  split; [done|]. destruct r1 as [s|e]; [|by injection E as _ <-].
  apply bind_done in E as ([] & w2 & E2 & [= _ <-]). apply bind_done in E2 as (it & w3 & E3 & E2).
  unfold load_item in E3. destruct (w_items w1 !! _); [|done]. injection E3 as _ <-.
  by injection E2 as <-.
Qed.

(** The headers only change in searches. *)
Lemma step_headers a l s s' (Pr : gmap Z LocatorHeader -> Prop) :
  session_ok a l s -> step s s' ->
  (forall settings r w', BufferSearchSettings.wf settings ->
    BufferSearchSettings.size settings + granularity <= u32_max ->
    Buffers.get_buffer settings (s_world s) = Done r w' -> Pr (w_headers w')) ->
  Pr (w_headers (s_world s)) -> Pr (w_headers (s_world s')).
Proof.
  intros Hso Hstep Hget Hp.
  destruct Hstep as [settings w held log item w' (Hwf & _ & Hbig) E
    |settings w held log e w' (Hwf & _ & Hbig) E
    |settings alignment w held log item w' Hreq E|settings alignment w held log e w' Hreq E
    |p data w held log addr w' Hmay E|p data w held log addr w' Hmay E
    |p w held held' log w' Hperm E]; simpl in *.
  - eapply Hget; [done| |done]. lia.
  - eapply Hget; [done| |done]. lia.
  - destruct (get_buffer_aligned_search _ _ _ _ _ Hreq E) as (? & ? & w1 & ? & ? & E1 & ->).
    by eapply Hget.
  - destruct (get_buffer_aligned_search _ _ _ _ _ Hreq E) as (? & ? & w1 & ? & ? & E1 & ->).
    by eapply Hget.
  - destruct (may_append_room _ _ _ _ _ Hso Hmay) as (_ & it & Hroom & _).
    by rewrite (ap_headers _ _ _ _ _ _ _ (wp_run _ _ _ _ _ (append_bytes_spec p it data w Hroom) E)).
  - destruct (may_append_room _ _ _ _ _ Hso Hmay) as (_ & it & Hroom & _).
    by rewrite (ap_headers _ _ _ _ _ _ _ (wp_run _ _ _ _ _ (append_code_spec p it data w Hroom) E)).
  - apply bind_done in E as (it & w1 & E1 & E). unfold load_item in E1. simpl in E1.
    destruct (w_items w !! p); [|done]. injection E1 as _ <-. by injection E as <-.
Qed.

(** No step of a session leaves room behind. *)
Lemma step_packed a l s s' :
  granule_fits -> session_ok a l s -> step s s' ->
  packed_from a (s_world s) -> packed_from a (s_world s').
Proof.
  intros Hfits Hso Hstep Hp. pose proof (so_ready _ _ _ Hso) as Hr.
  refine (step_headers a l s s' (fun hs => forall l, chain hs a l -> packed hs l) Hso Hstep _ Hp).
  intros settings r w' Hwf Hbig. by apply get_buffer_packed with l.
Qed.

Lemma session_packed a l w s :
  granule_fits -> ready a l w -> packed (w_headers w) l ->
  rtc step (Session w [] []) s ->
  exists l', session_ok a l' s /\ packed (w_headers (s_world s)) l'.
Proof.
  intros Hfits Hr Hp Hsteps.
  cut (forall s0, rtc step s0 s -> (exists l0, session_ok a l0 s0) -> packed_from a (s_world s0) ->
    exists l', session_ok a l' s /\ packed_from a (s_world s)).
  { intros Hcut. destruct (Hcut _ Hsteps) as (l' & Hso & Hp').
    - exists l. by apply session_start.
    - by apply (packed_from_intro a l); [destruct Hr|].
    - exists l'. split; [done|]. apply Hp'. apply (inv_chain a l' (s_world s)). apply Hso. }
  clear Hsteps. intros s0. induction 1 as [s0|s0 s1 s2 Hstep _ IH]; intros [l0 Hso] Hpk; [eauto|].
  apply IH; [by eapply step_ok|by eapply step_packed].
Qed.

End search.
