(* ===== verification/Pool.v ===== *)
(** * What the library promises: a pool of buffers

    The reference a client needs: a list of buffers that only grows at its
    end, with a first-fit search, appends, and a flag per buffer.  No
    locators, no chain, no locks, no system.  The steps of a session
    (Sessions.v) are steps of the pool: a forward simulation. *)

From stdpp Require Import sorting.
From S2P Require Import Prelude Mathematics SysInfo Settings Errors Items Headers World ItemOps.
From S2P Require Import Platform HeaderOps HeaderSpec HeaderWp HeaderInit HeaderNext.
From S2P Require Import MapParser Posix MemoryMappedFiles Finder Buffers BuffersSpec ItemSpec Sessions.
From S2P Require Import FirstFit.
Import LocatorHeader.

(** ** The pool *)

Module Pool.

Record buffer := { start : Z; size : Z; used : Z; taken : bool }.
Definition set_taken (v : bool) (b : buffer) : buffer :=
  {| start := start b; size := size b; used := used b; taken := v |}.
Definition set_used (v : Z) (b : buffer) : buffer :=
  {| start := start b; size := size b; used := v; taken := taken b |}.

(** What a request for [n] bytes between [lo] and [hi] needs. *)
Definition suits (n lo hi : Z) (b : buffer) : Prop :=
  n <= size b - used b /\ lo <= start b + used b /\ start b + size b <= hi.
Definition offered (n lo hi : Z) (b : buffer) : Prop := taken b = false /\ suits n lo hi b.
#[global] Instance offered_dec n lo hi b : Decision (offered n lo hi b).
Proof. unfold offered, suits. apply _. Defined.

Definition inside (b : buffer) (x : Z) : Prop := start b <= x < start b + size b.
Definition disjoint (b c : buffer) : Prop := forall x, inside b x -> ~ inside c x.

(** The first buffer on offer. *)
Definition search (n lo hi : Z) (bs : list buffer) : option nat :=
  fst <$> list_find (offered n lo hi) bs.

Section pool.

(** Whether the pool may get several buffers that start at the same byte. *)
Context (twins : Prop).

(** The buffers lie apart, but for twins. *)
Definition apart (bs : list buffer) : Prop := forall i j b c,
  i <> j -> bs !! i = Some b -> bs !! j = Some c ->
  disjoint b c \/ twins /\ start b = start c.

(** New buffers: apart from each other, but for twins, and from all others. *)
Definition fresh (bs new : list buffer) : Prop :=
  apart (bs ++ new) /\ forall b c, b ∈ bs -> c ∈ new -> disjoint b c.

(** A search hands out the first buffer on offer; or there is none, and the
    pool may get new ones, unused and apart from all others, of which it hands
    out one that suits, or none. *)
Inductive get (n lo hi : Z) (bs : list buffer) : option nat -> list buffer -> Prop :=
| get_first i b :
    search n lo hi bs = Some i -> bs !! i = Some b ->
    get n lo hi bs (Some i) (<[i := set_taken true b]> bs)
| get_new new i b :
    search n lo hi bs = None -> fresh bs new ->
    (length bs <= i)%nat -> (bs ++ new) !! i = Some b -> taken b = true -> suits n lo hi b ->
    (forall j c, (length bs <= j)%nat -> (bs ++ new) !! j = Some c ->
       used c = 0 /\ (j <> i -> taken c = false)) ->
    get n lo hi bs (Some i) (bs ++ new)
| get_none new :
    search n lo hi bs = None -> fresh bs new ->
    (forall c, c ∈ new -> used c = 0 /\ taken c = false) ->
    get n lo hi bs None (bs ++ new).

Record pool := {
  buffers : list buffer;
  memory : gmap Z Z;
  held : list nat;              (* the buffers of the client, by their index *)
  written : list (Z * list Z)   (* what it appended, and where *)
}.

Inductive step : pool -> pool -> Prop :=
| pool_get n lo hi bs m hs ws i bs' :
    get n lo hi bs (Some i) bs' ->
    step {| buffers := bs; memory := m; held := hs; written := ws |}
         {| buffers := bs'; memory := m; held := i :: hs; written := ws |}
| pool_get_fails n lo hi bs m hs ws bs' :
    get n lo hi bs None bs' ->
    step {| buffers := bs; memory := m; held := hs; written := ws |}
         {| buffers := bs'; memory := m; held := hs; written := ws |}
| pool_get_aligned n lo hi al bs m hs ws i bs' b u :
    0 < al -> get (n + (al - 1)) lo hi bs (Some i) bs' -> bs' !! i = Some b ->
    used b <= u < used b + al -> (al | start b + u) ->
    step {| buffers := bs; memory := m; held := hs; written := ws |}
         {| buffers := <[i := set_used u b]> bs'; memory := m; held := i :: hs; written := ws |}
| pool_append bs m hs ws i b data :
    i ∈ hs -> bs !! i = Some b -> used b + Z.of_nat (length data) <= size b ->
    step {| buffers := bs; memory := m; held := hs; written := ws |}
         {| buffers := <[i := set_used (used b + Z.of_nat (length data)) b]> bs;
            memory := write_bytes (start b + used b) data m;
            held := hs; written := (start b + used b, data) :: ws |}
| pool_drop bs m hs hs' ws i b :
    hs ≡ₚ i :: hs' -> bs !! i = Some b ->
    step {| buffers := bs; memory := m; held := hs; written := ws |}
         {| buffers := <[i := set_taken false b]> bs; memory := m; held := hs'; written := ws |}.

(** *** What a client of the pool can rely on

    Its buffers are distinct and lie apart, and what it wrote reads back, but
    for what it wrote afterwards into a twin of the buffer. *)
Definition stored (bs : list buffer) (i : nat) (b : buffer) (addr : Z) (data : list Z) : Prop :=
  bs !! i = Some b /\ start b <= addr /\
  addr + Z.of_nat (length data) <= start b + used b /\ addr + Z.of_nat (length data) <= start b + size b.

Definition clobbers (bs : list buffer) (addr' : Z) (data' : list Z) (addr : Z) (data : list Z) : Prop :=
  twins /\ exists i j b c x, i <> j /\ start b = start c /\
  stored bs i b addr data /\ stored bs j c addr' data' /\
  in_range addr data x /\ in_range addr' data' x.

Definition keeps (bs : list buffer) (m : gmap Z Z) (ws : list (Z * list Z)) : Prop :=
  forall later addr data earlier, ws = later ++ (addr, data) :: earlier ->
  (exists i b, stored bs i b addr data) /\
  (read_bytes addr (length data) m = Some data \/
   exists addr' data', (addr', data') ∈ later /\ clobbers bs addr' data' addr data).

Record sound (S : pool) : Prop := {
  sd_apart : apart (buffers S);
  sd_used i b : buffers S !! i = Some b -> 0 <= used b;
  sd_nodup : NoDup (held S);
  sd_held i : i ∈ held S -> exists b, buffers S !! i = Some b /\ taken b = true;
  sd_written : keeps (buffers S) (memory S) (written S)
}.

(** The same buffers, filled as far or further, and perhaps new ones. *)
Definition extends (bs bs' : list buffer) : Prop := forall i b, bs !! i = Some b ->
  exists b', bs' !! i = Some b' /\ start b' = start b /\ size b' = size b /\ used b <= used b'.

Lemma extends_insert bs i b b' :
  bs !! i = Some b -> start b' = start b -> size b' = size b -> used b <= used b' ->
  extends bs (<[i := b']> bs).
Proof.
  intros Hi Hs Hz Hu j c Hj. destruct (decide (i = j)) as [<-|].
  - rewrite list_lookup_insert_eq by (by eapply lookup_lt_Some). exists b'.
    assert (c = b) as -> by congruence. done.
  - rewrite list_lookup_insert_ne by done. by exists c.
Qed.

Lemma stored_extends bs bs' i b addr data :
  extends bs bs' -> stored bs i b addr data ->
  exists b', stored bs' i b' addr data /\ start b' = start b.
Proof.
  intros He (Hi & ? & ? & ?). destruct (He i b Hi) as (b' & ? & Hs & Hz & Hu).
  exists b'. split; [|done]. unfold stored. rewrite Hs, Hz. repeat (split; [done|]). lia.
Qed.

Lemma clobbers_extends bs bs' addr' data' addr data :
  extends bs bs' -> clobbers bs addr' data' addr data -> clobbers bs' addr' data' addr data.
Proof.
  intros He (Ht & i & j & b & c & x & Hne & Hs & Hi & Hj & Hx).
  destruct (stored_extends _ _ _ _ _ _ He Hi) as (b' & Hi' & Hb).
  destruct (stored_extends _ _ _ _ _ _ He Hj) as (c' & Hj' & Hc).
  split; [done|]. exists i, j, b', c', x. split; [done|]. split; [by rewrite Hb, Hc|done].
Qed.

Lemma keeps_extends bs bs' m ws : extends bs bs' -> keeps bs m ws -> keeps bs' m ws.
Proof.
  intros He Hk later addr data earlier Heq.
  destruct (Hk later addr data earlier Heq) as [(i & b & Hs) Hr]. split.
  - destruct (stored_extends _ _ _ _ _ _ He Hs) as (b' & ? & _). eauto.
  - destruct Hr as [?|(addr' & data' & Hin & Hc)]; [by left|right].
    exists addr', data'. split; [done|]. by eapply clobbers_extends.
Qed.

(** Changing a buffer in place. *)
Lemma apart_insert bs i b b' :
  apart bs -> bs !! i = Some b -> start b' = start b -> size b' = size b -> apart (<[i := b']> bs).
Proof.
  intros Ha Hi Hs Hz j k c d Hne Hj Hk.
  assert (Hsame : forall j c, <[i := b']> bs !! j = Some c ->
    exists c0, bs !! j = Some c0 /\ start c = start c0 /\ forall x, inside c x -> inside c0 x).
  { clear j k c d Hne Hj Hk. intros j c [(<- & <- & _)|[_ Hj]]%list_lookup_insert_Some; [|by exists c].
    exists b. split; [done|]. split; [done|]. unfold inside. by rewrite Hs, Hz. }
  destruct (Hsame _ _ Hj) as (c0 & Hc & Hsc & Hic), (Hsame _ _ Hk) as (d0 & Hd & Hsd & Hid).
  destruct (Ha j k c0 d0 Hne Hc Hd) as [Hdis|[? ?]]; [left|right; by rewrite Hsc, Hsd].
  intros x Hx Hy. by apply (Hdis x); auto.
Qed.

Lemma get_sound n lo hi bs r bs' :
  apart bs -> (forall i b, bs !! i = Some b -> 0 <= used b) -> get n lo hi bs r bs' ->
  apart bs' /\ (forall i b, bs' !! i = Some b -> 0 <= used b) /\ extends bs bs' /\
  (forall j c, bs !! j = Some c -> taken c = true -> r <> Some j /\ bs' !! j = Some c) /\
  (forall j, r = Some j -> exists c, bs' !! j = Some c /\ taken c = true).
Proof.
  intros Ha Hu [i b Hs Hi|new i b Hs [Ha' _] Hle Hi Htk _ Hnew|new Hs [Ha' _] Hnew].
  - assert (Hlt : (i < length bs)%nat) by (by eapply lookup_lt_Some).
    split; [by eapply apart_insert|]. split; [|split; [by eapply extends_insert|split]].
    + intros j c [(<- & <- & _)|[_ Hj]]%list_lookup_insert_Some; [exact (Hu i b Hi)|by eapply Hu].
    + intros j c Hj Htk. assert (i <> j) as Hne.
      { intros <-. unfold search in Hs. destruct (list_find _ bs) as [[k d]|] eqn:E; [|done].
        injection Hs as ->. apply list_find_Some in E as (Hd & [Hz _] & _). congruence. }
      split; [congruence|]. by rewrite list_lookup_insert_ne.
    + intros j [= <-]. rewrite list_lookup_insert_eq by done. by eexists.
  - split; [done|]. split; [|split; [|split]].
    + intros j c Hj. destruct (decide (length bs <= j)%nat) as [Hj'|].
      * destruct (Hnew j c Hj' Hj). lia.
      * rewrite lookup_app_l in Hj by lia. by eapply Hu.
    + intros j c Hj. exists c. split; [by apply lookup_app_l_Some|done].
    + intros j c Hj _. pose proof (lookup_lt_Some _ _ _ Hj). split; [intros [= <-]; lia|].
      by apply lookup_app_l_Some.
    + intros j [= <-]. by exists b.
  - split; [done|]. split; [|split; [|split; [|done]]].
    + intros j c [Hj|[_ Hj]]%lookup_app_Some; [by eapply Hu|].
      apply list_elem_of_lookup_2 in Hj. destruct (Hnew c Hj). lia.
    + intros j c Hj. exists c. split; [by apply lookup_app_l_Some|done].
    + intros j c Hj _. split; [done|]. by apply lookup_app_l_Some.
Qed.

(** A search. *)
Lemma sound_get n lo hi bs m hs ws r bs' :
  sound (Build_pool bs m hs ws) -> get n lo hi bs r bs' ->
  sound (Build_pool bs' m (from_option (fun i => i :: hs) hs r) ws).
Proof.
  intros [Ha Hu Hnd Hheld Hw] Hg. simpl in *.
  destruct (get_sound _ _ _ _ _ _ Ha Hu Hg) as (? & ? & He & Hold & Hnew).
  assert (Hkept : forall j, j ∈ hs -> r <> Some j /\ exists c, bs' !! j = Some c /\ taken c = true).
  { intros j (c & Hc & Htk)%Hheld. destruct (Hold j c Hc Htk). eauto. }
  constructor; simpl; [done|done| | |by eapply keeps_extends].
  - destruct r as [i|]; [|done]. apply list.NoDup_cons. split; [|done].
    intros [Hno _]%Hkept. by apply Hno.
  - intros j Hj. destruct r as [i|]; [|by apply Hkept].
    apply elem_of_cons in Hj as [->|Hj]; [by apply Hnew|by apply Hkept].
Qed.

(** A change of one buffer that does not move it back. *)
Lemma sound_insert bs m hs hs' ws i b b' :
  sound (Build_pool bs m hs ws) -> bs !! i = Some b -> start b' = start b -> size b' = size b ->
  used b <= used b' -> NoDup hs' -> (forall j, j ∈ hs' -> j ∈ hs) -> (i ∈ hs' -> taken b' = true) ->
  sound (Build_pool (<[i := b']> bs) m hs' ws).
Proof.
  intros [Ha Hu Hnd Hheld Hw] Hi Hs Hz Hle Hnd' Hsub Htk. simpl in *.
  pose proof (Hu i b Hi). constructor; simpl.
  - by eapply apart_insert.
  - intros j c [(<- & <- & _)|[_ Hj]]%list_lookup_insert_Some; [lia|by eapply Hu].
  - done.
  - intros j Hj. destruct (decide (i = j)) as [<-|Hne].
    + rewrite list_lookup_insert_eq by (by eapply lookup_lt_Some). eauto.
    + rewrite list_lookup_insert_ne by done. auto.
  - eapply keeps_extends; [by apply (extends_insert bs i b)|exact Hw].
Qed.

(** A store into the free part of a buffer, recorded. *)
Lemma keeps_store bs m ws i b data :
  apart bs -> (forall i b, bs !! i = Some b -> 0 <= used b) -> keeps bs m ws ->
  bs !! i = Some b -> used b + Z.of_nat (length data) <= size b ->
  keeps (<[i := set_used (used b + Z.of_nat (length data)) b]> bs)
    (write_bytes (start b + used b) data m) ((start b + used b, data) :: ws).
Proof.
  intros Ha Hu Hk Hi Hroom. pose proof (Hu i b Hi) as Hub.
  set (bs' := <[i := _]> bs). set (b' := set_used (used b + Z.of_nat (length data)) b).
  assert (He : extends bs bs') by (apply (extends_insert bs i b b'); simpl; try done; lia).
  assert (Hnew : stored bs' i b' (start b + used b) data).
  { split; [apply list_lookup_insert_eq; by eapply lookup_lt_Some|]. simpl. lia. }
  intros later addr0 data0 earlier Heq. destruct later as [|e later]; simpl in Heq; injection Heq.
  { intros _ <- <-. split; [by exists i, b'|]. left. apply read_write_bytes. }
  intros -> <-. destruct (Hk later addr0 data0 earlier eq_refl) as [(j & c & Hj) Hr].
  destruct (stored_extends _ _ _ _ _ _ He Hj) as (c' & Hj' & Hc'). split; [by exists j, c'|].
  destruct Hr as [Hr|(addr' & data' & Hin & Hcl)].
  2: { right. exists addr', data'. split; [by right|]. by eapply clobbers_extends. }
  set (x := Z.max (start b + used b) addr0).
  destruct (decide (in_range addr0 data0 x /\ in_range (start b + used b) data x)) as [[Hx0 Hx]|Hn].
  - right. exists (start b + used b), data. split; [by left|]. pose proof Hj as (Hjc & ? & ? & ?).
    assert (Hne : j <> i).
    { intros ->. assert (c = b) as -> by congruence. unfold in_range in *. lia. }
    destruct (Ha j i c b Hne Hjc Hi) as [Hd|[Ht Hst]].
    + exfalso. apply (Hd x); unfold inside, in_range in *; lia.
    + split; [done|]. exists j, i, c', b', x. split; [done|]. split; [by rewrite Hc'|done].
  - left. rewrite <- Hr. apply read_bytes_ext. intros y Hy. apply write_bytes_outside. intros Hy'.
    apply Hn. unfold in_range. lia.
Qed.

(** Every step keeps the promise. *)
Lemma sound_step S S' : sound S -> step S S' -> sound S'.
Proof.
  intros Hsd Hstep. revert Hsd. destruct Hstep as [n lo hi bs m hs ws i bs' Hg|n lo hi bs m hs ws bs' Hg
    |n lo hi al bs m hs ws i bs' b u Hal Hg Hi Hu _|bs m hs ws i b data Hin Hi Hroom|bs m hs hs' ws i b Hp Hi];
    intros Hsd.
  - exact (sound_get _ _ _ _ _ _ _ (Some i) _ Hsd Hg).
  - exact (sound_get _ _ _ _ _ _ _ None _ Hsd Hg).
  - pose proof (sound_get _ _ _ _ _ _ _ (Some i) _ Hsd Hg) as Hsd'. simpl in Hsd'.
    apply (sound_insert _ _ (i :: hs) _ _ _ b); try done; [simpl; lia|apply (sd_nodup _ Hsd')|].
    intros Hin. destruct (sd_held _ Hsd' i Hin) as (c & Hc & Htk). simpl in *. congruence.
  - assert (Hins : sound (Build_pool (<[i := set_used (used b + Z.of_nat (length data)) b]> bs) m hs ws)).
    { apply (sound_insert _ _ hs _ _ _ b); try done; [simpl; lia|apply (sd_nodup _ Hsd)|].
      intros _. destruct (sd_held _ Hsd i Hin) as (c & Hc & Htk). simpl in *. congruence. }
    destruct Hins as [? ? ? ? _], Hsd as [Ha Hu _ _ Hw]. constructor; simpl in *; [done..|].
    by apply keeps_store.
  - pose proof (sd_nodup _ Hsd) as Hnd. simpl in Hnd. rewrite Hp in Hnd.
    apply list.NoDup_cons in Hnd as [Hni Hnd].
    apply (sound_insert _ _ hs _ _ _ b); try done. intros j Hj. rewrite Hp. by right.
Qed.

Lemma sound_steps S S' : sound S -> rtc step S S' -> sound S'.
Proof. intros Hsd. induction 1; [done|]. eauto using sound_step. Qed.

End pool.

(** An item as a buffer of the pool. *)
Definition of_item (it : LocatorItem) : buffer :=
  {| start := LocatorItem.base_address it; size := LocatorItem.size it;
     used := LocatorItem.position it; taken := negb (LocatorItem.is_taken it =? 0) |}.

Lemma offered_of_item n lo hi it :
  offered n lo hi (of_item it) <-> LocatorItem.is_taken it = 0 /\ LocatorItem.provides it n lo hi.
Proof.
  unfold offered, suits. simpl. rewrite negb_false_iff, Z.eqb_eq.
  split; [intros (? & ? & ? & ?)|intros (? & [])]; by repeat split.
Qed.

End Pool.

(** ** Lists *)

(** A permutation of one list permutes the other along. *)
Lemma Forall2_permuted {A B} (R : A -> B -> Prop) xs xs' :
  xs ≡ₚ xs' -> forall ys, Forall2 R xs ys -> exists ys', ys ≡ₚ ys' /\ Forall2 R xs' ys'.
Proof.
  induction 1 as [|x xs xs' _ IH|x y xs|xs1 xs2 xs3 _ IH1 _ IH2]; intros ys H.
  - exists ys. done.
  - apply Forall2_cons_inv_l in H as (z & zs & Hz & Hzs & ->).
    destruct (IH zs Hzs) as (zs' & Hp & ?). exists (z :: zs'). by rewrite Hp; split; [|constructor].
  - apply Forall2_cons_inv_l in H as (z & zs & Hz & Hzs & ->).
    apply Forall2_cons_inv_l in Hzs as (v & vs & Hv & Hvs & ->).
    exists (v :: z :: vs). split; [constructor|by repeat constructor].
  - destruct (IH1 ys H) as (ys1 & Hp1 & H1). destruct (IH2 ys1 H1) as (ys2 & Hp2 & H2).
    exists ys2. split; [by etrans|done].
Qed.

(** Searches of lists that match. *)
Lemma list_find_related {A B} (P : A -> Prop) (Q : B -> Prop)
    `{forall x, Decision (P x)} `{forall y, Decision (Q y)} (R : A -> B -> Prop) xs ys :
  Forall2 R xs ys -> (forall x y, R x y -> P x <-> Q y) ->
  fst <$> list_find Q ys = fst <$> list_find P xs.
Proof.
  intros HR HPQ. induction HR as [|x y xs ys Hxy _ IH]; [done|]. simpl.
  destruct (decide (P x)) as [Hp|Hp].
  - rewrite decide_True by (by apply (HPQ x y)). done.
  - rewrite decide_False by (by rewrite <- (HPQ x y)).
    destruct (list_find P xs) as [[i ?]|], (list_find Q ys) as [[j ?]|]; simpl in *; congruence.
Qed.

(** ** The slots of a chain *)

Section slots.
Context `{T : Target} `{Q : SysQuery} {OS : Type} `{P : Platform OS} `{Mem : Memory OS}
  `{L : !PlatformLaws}.
Implicit Types w : World OS.

Lemma slots_registered a l w p :
  inv a l w -> p ∈ slots (w_headers w) l -> registered (w_headers w) l p.
Proof.
  intros Hi (b & Hp & Hb)%list_elem_of_bind.
  destruct (chain_lookup _ _ _ b (inv_chain _ _ _ Hi) Hb) as [h Hh].
  unfold slots_of in Hp. rewrite (count_lookup _ _ _ Hh) in Hp.
  apply list_elem_of_fmap in Hp as (i & -> & Hin%elem_of_seqZ). exists b, h, i.
  split; [done|]. split; [done|]. split; [lia|done].
Qed.

Lemma slots_NoDup a l w : inv a l w -> NoDup (slots (w_headers w) l).
Proof.
  intros Hi. apply NoDup_bind; [| |apply (inv_nodup _ _ _ Hi)].
  - intros b c p Hb Hc H1 H2. destruct (decide (b = c)) as [|Hne]; [done|]. exfalso.
    destruct (chain_lookup _ _ _ b (inv_chain _ _ _ Hi) Hb) as [h Hh].
    destruct (chain_lookup _ _ _ c (inv_chain _ _ _ Hi) Hc) as [g Hg].
    unfold slots_of in *. rewrite (count_lookup _ _ _ Hh) in H1. rewrite (count_lookup _ _ _ Hg) in H2.
    apply list_elem_of_fmap in H1 as (i & -> & H1%elem_of_seqZ).
    apply list_elem_of_fmap in H2 as (j & Heq & H2%elem_of_seqZ). revert Heq.
    destruct (inv_header _ _ _ Hi b h Hb Hh), (inv_header _ _ _ Hi c g Hc Hg).
    apply get_item_other_block; [by apply (inv_blocks _ _ _ Hi)|lia|lia].
  - intros b _. apply NoDup_fmap; [intros i j; apply get_item_inj|apply NoDup_seqZ].
Qed.

(** Registered items stay registered: no count falls. *)
Lemma count_kept a l w l' w' b :
  inv a l w -> inv a l' w' -> b ∈ l -> b ∈ l' ->
  (forall p, registered (w_headers w) l p -> registered (w_headers w') l' p) ->
  count (w_headers w) b <= count (w_headers w') b.
Proof.
  intros Hi Hi' Hb Hb' Hreg.
  destruct (chain_lookup _ _ _ b (inv_chain _ _ _ Hi) Hb) as [h Hh].
  destruct (chain_lookup _ _ _ b (inv_chain _ _ _ Hi') Hb') as [g Hg].
  destruct (inv_header _ _ _ Hi b h Hb Hh) as [_ _ _ _ Hn].
  destruct (inv_header _ _ _ Hi' b g Hb' Hg) as [_ _ _ _ Hn'].
  rewrite (count_lookup _ _ _ Hh), (count_lookup _ _ _ Hg).
  destruct (decide (num_items h = 0)) as [->|]; [lia|].
  destruct (Hreg (get_item b (num_items h - 1))) as (c & f & j & Hc & Hf & Hj & Heq).
  { exists b, h, (num_items h - 1). split; [done|]. split; [done|]. split; [lia|done]. }
  destruct (inv_header _ _ _ Hi' c f Hc Hf) as [_ _ _ _ Hnc].
  destruct (decide (b = c)) as [<-|Hne].
  - apply get_item_inj in Heq. assert (f = g) as -> by congruence. lia.
  - exfalso. revert Heq. apply get_item_other_block; [by apply (inv_blocks _ _ _ Hi')|lia|lia].
Qed.

Lemma slots_of_grow hs hs' b :
  0 <= count hs b <= count hs' b -> exists ps, slots_of hs' b = slots_of hs b ++ ps.
Proof.
  intros Hc. unfold slots_of. replace (count hs' b) with (count hs b + (count hs' b - count hs b)) by lia.
  rewrite seqZ_app, fmap_app by lia. eauto.
Qed.

(** On a packed chain new slots come behind all others. *)
Lemma slots_grow hs hs' l :
  packed hs l ->
  (forall b, b ∈ l -> 0 <= count hs b <= count hs' b /\ count hs' b <= MAX_ITEM_COUNT) ->
  exists ps, slots hs' l = slots hs l ++ ps.
Proof.
  induction l as [|b l IH]; intros Hp Hc; [by exists []|].
  apply StronglySorted_cons in Hp as [Hb Hp]. rewrite !slots_cons.
  destruct (Hc b ltac:(by left)) as [Hcb Hmax].
  destruct (decide (count hs' b = count hs b)) as [Heq|Hne].
  - destruct IH as [ps ->]; [done|intros d Hd; apply Hc; by right|].
    exists ps. unfold slots_of. rewrite Heq. by rewrite app_assoc.
  - rewrite (empty_slots hs l), app_nil_r.
    + destruct (slots_of_grow hs hs' b Hcb) as [ps ->]. rewrite <- app_assoc. eauto.
    + intros d Hd. rewrite list.Forall_forall in Hb. destruct (Hb d Hd); [lia|done].
Qed.

Lemma slots_kept a l w k w' :
  inv a l w -> inv a (l ++ k) w' -> packed (w_headers w) l ->
  (forall p, registered (w_headers w) l p -> registered (w_headers w') (l ++ k) p) ->
  exists ps, slots (w_headers w') (l ++ k) = slots (w_headers w) l ++ ps.
Proof.
  intros Hi Hi' Hp Hreg. destruct (slots_grow (w_headers w) (w_headers w') l Hp) as [ps Hps].
  - intros b Hb. assert (Hb' : b ∈ l ++ k) by solve_in.
    pose proof (count_kept a l w (l ++ k) w' b Hi Hi' Hb Hb' Hreg) as Hle.
    destruct (chain_lookup _ _ _ b (inv_chain _ _ _ Hi) Hb) as [h Hh].
    destruct (chain_lookup _ _ _ b (inv_chain _ _ _ Hi') Hb') as [g Hg].
    destruct (inv_header _ _ _ Hi b h Hb Hh) as [_ _ _ _ Hn].
    destruct (inv_header _ _ _ Hi' b g Hb' Hg) as [_ _ _ _ Hn'].
    rewrite (count_lookup _ _ _ Hh), (count_lookup _ _ _ Hg) in *. lia.
  - rewrite slots_app, Hps, <- app_assoc. eauto.
Qed.

(** ** The pool a chain stands for *)

Definition shown w (p : Z) (b : Pool.buffer) : Prop :=
  exists it, w_items w !! p = Some it /\ b = Pool.of_item it.
Definition represents (l : list Z) w (bs : list Pool.buffer) : Prop :=
  Forall2 (shown w) (slots (w_headers w) l) bs.

Lemma shown_unique w p b c : shown w p b -> shown w p c -> b = c.
Proof. intros (it & Hit & ->) (jt & Hjt & ->). congruence. Qed.

Lemma represents_lookup l w bs i p it :
  represents l w bs -> slots (w_headers w) l !! i = Some p -> w_items w !! p = Some it ->
  bs !! i = Some (Pool.of_item it).
Proof.
  intros Hr Hp Hit. destruct (Forall2_lookup_l _ _ _ _ _ Hr Hp) as (b & Hb & jt & Hjt & ->). congruence.
Qed.

(** Some pool is represented, of any list of registered slots. *)
Lemma shown_all a l w ps :
  inv a l w -> (forall p, p ∈ ps -> registered (w_headers w) l p) -> exists bs, Forall2 (shown w) ps bs.
Proof.
  intros Hi. induction ps as [|p ps IH]; intros Hreg; [by exists []|].
  destruct IH as [bs Hbs]; [intros q Hq; apply Hreg; by right|].
  destruct (inv_item _ _ _ Hi p) as (it & Hit & _); [apply Hreg; by left|].
  exists (Pool.of_item it :: bs). constructor; [by exists it|done].
Qed.

(** A change of one item. *)
Lemma represents_update a l w bs i p it' :
  inv a l w -> represents l w bs -> slots (w_headers w) l !! i = Some p ->
  represents l (set_items (<[p := it']> (w_items w)) w) (<[i := Pool.of_item it']> bs).
Proof.
  intros Hi Hr Hp. pose proof (slots_NoDup a l w Hi) as Hnd. unfold represents in *. simpl.
  apply Forall2_same_length_lookup. split; [rewrite length_insert; by eapply Forall2_length|].
  intros j q b Hq. destruct (decide (i = j)) as [<-|Hne].
  - rewrite list_lookup_insert_eq.
    + intros [= <-]. exists it'. assert (q = p) as -> by congruence. simpl. by rewrite lookup_insert_eq.
    + rewrite <- (list.Forall2_length _ _ _ Hr). by eapply lookup_lt_Some.
  - rewrite list_lookup_insert_ne by done. intros Hb.
    destruct (Forall2_lookup_lr _ _ _ _ _ _ Hr Hq Hb) as (jt & Hjt & ->).
    exists jt. split; [|done]. simpl. rewrite lookup_insert_ne; [done|]. intros <-.
    apply Hne. by eapply NoDup_lookup.
Qed.

(** New slots behind the others. *)
Lemma represents_grow a l w l' w' bs ps :
  inv a l' w' -> represents l w bs -> slots (w_headers w') l' = slots (w_headers w) l ++ ps ->
  (forall p, p ∈ slots (w_headers w) l -> w_items w' !! p = w_items w !! p) ->
  exists new, represents l' w' (bs ++ new) /\ Forall2 (shown w') ps new.
Proof.
  intros Hi' Hr Hs Hsame. destruct (shown_all a l' w' ps Hi') as [new Hnew].
  { intros p Hp. apply (slots_registered a); [done|]. rewrite Hs. solve_in. }
  exists new. split; [|done]. unfold represents. rewrite Hs. apply List.Forall2_app; [|done].
  apply Forall2_same_length_lookup. split; [by eapply list.Forall2_length|].
  intros i p b Hp Hb. destruct (Forall2_lookup_lr _ _ _ _ _ _ Hr Hp Hb) as (it & Hit & ->).
  exists it. rewrite Hsame; [done|]. by eapply list_elem_of_lookup_2.
Qed.

Lemma represents_apart a l w bs :
  inv a l w -> represents l w bs -> Pool.apart (~ one_chunk) bs.
Proof.
  intros Hi Hr i j b c Hne Hb Hc.
  destruct (Forall2_lookup_r _ _ _ _ _ Hr Hb) as (p & Hp & it & Hit & ->).
  destruct (Forall2_lookup_r _ _ _ _ _ Hr Hc) as (q & Hq & jt & Hjt & ->).
  destruct (decide (same_chunk l it jt)) as [Hs|Hs].
  { right. split; [intros Hone; by apply (one_chunk_spec l it jt)|].
    destruct Hs as (_ & _ & d & _ & Hbi & Hbj). simpl. by rewrite Hbi, Hbj. }
  left. intros x. apply (inv_disjoint _ _ _ Hi p q it jt x); try done.
  - by eapply slots_registered, list_elem_of_lookup_2.
  - by eapply slots_registered, list_elem_of_lookup_2.
  - intros <-. apply Hne. by eapply NoDup_lookup; [eapply slots_NoDup| |].
Qed.

Lemma represents_used a l w bs i b :
  inv a l w -> represents l w bs -> bs !! i = Some b -> 0 <= Pool.used b.
Proof.
  intros Hi Hr Hb. destruct (Forall2_lookup_r _ _ _ _ _ Hr Hb) as (p & Hp & it & Hit & ->).
  apply list_elem_of_lookup_2, (slots_registered a l w p Hi) in Hp.
  destruct (inv_item _ _ _ Hi p Hp) as (jt & Hjt & [_ _ Hpos _] & _).
  assert (jt = it) as -> by congruence. simpl. lia.
Qed.

(** The search of the pool is the search of the chain. *)
Lemma represents_search l w bs n lo hi :
  represents l w bs ->
  Pool.search n lo hi bs = fst <$> list_find (available n lo hi (w_items w)) (slots (w_headers w) l).
Proof.
  intros Hr. eapply list_find_related; [exact Hr|]. intros p b (it & Hit & ->).
  rewrite Pool.offered_of_item. unfold available. rewrite Hit.
  split; [intros (? & [= <-] & ?); done|intros ?; by exists it].
Qed.

End slots.

(** ** The simulation *)

Section simulation.
Context `{T : Target} `{Q : SysQuery} {OS : Type} `{Sch : Scheduler OS} `{P : Platform OS}
  `{Mem : Memory OS} `{L : !PlatformLaws} `{HQ : !SysQueryOk}.
Context `{PX : Posix OS} `{ST : UnixMemoryMappedFile.StringTail OS} `{WF : WindowsFiles OS}
  `{SV : SharedViews OS} `{I : Itoa}.
Implicit Types w : World OS.

Context (a : Z).

(** An item and the index of its buffer. *)
Definition slot_at (l : list Z) w (p : Z) (i : nat) : Prop := slots (w_headers w) l !! i = Some p.

(** A search with its result, on both sides. *)
Definition got_buffer l w bs n lo hi (r : option Z) l' w' : Prop := exists bs' ps,
  represents l' w' bs' /\ slots (w_headers w') l' = slots (w_headers w) l ++ ps /\
  match r with
  | Some p => exists i, slot_at l' w' p i /\ Pool.get (~ one_chunk) n lo hi bs (Some i) bs'
  | None => Pool.get (~ one_chunk) n lo hi bs None bs'
  end.

Lemma slot_lookup l w bs p i it :
  represents l w bs -> slot_at l w p i -> w_items w !! p = Some it -> bs !! i = Some (Pool.of_item it).
Proof using Type. apply represents_lookup. Qed.

(** The first buffer on offer. *)
Lemma found_got l w bs n lo hi p it :
  inv a l w -> represents l w bs -> first_fit n lo hi w l = Some p -> w_items w !! p = Some it ->
  got_buffer l w bs n lo hi (Some p) l (set_items (<[p := LocatorItem.set_is_taken 1 it]> (w_items w)) w).
Proof using Type.
  intros Hi Hr Hff Hit. unfold first_fit in Hff.
  destruct (list_find _ _) as [[i q]|] eqn:E; [|done]. injection Hff as ->.
  pose proof E as (Hp & _ & _)%list_find_Some.
  exists (<[i := Pool.of_item (LocatorItem.set_is_taken 1 it)]> bs), [].
  split; [by eapply represents_update|]. split; [by rewrite app_nil_r|]. exists i. split; [exact Hp|].
  change (Pool.of_item (LocatorItem.set_is_taken 1 it)) with (Pool.set_taken true (Pool.of_item it)).
  apply Pool.get_first; [by rewrite (represents_search _ _ _ _ _ _ Hr), E|].
  by eapply represents_lookup.
Qed.

Lemma searched_none l w bs n lo hi :
  represents l w bs -> first_fit n lo hi w l = None -> Pool.search n lo hi bs = None.
Proof using Type.
  intros Hr Hff. rewrite (represents_search _ _ _ _ _ _ Hr). unfold first_fit in Hff.
  by destruct (list_find _ _) as [[? ?]|].
Qed.

(** A slot behind the old ones is new. *)
Lemma behind_new l w l' w' ps j p :
  inv a l' w' -> slots (w_headers w') l' = slots (w_headers w) l ++ ps ->
  slots (w_headers w') l' !! j = Some p -> (length (slots (w_headers w) l) <= j)%nat ->
  ~ registered (w_headers w) l p.
Proof using Type.
  intros Hi Hs Hp Hj Hreg%registered_slots. apply list_elem_of_lookup_1 in Hreg as [k Hk].
  assert (j = k) as ->.
  { eapply NoDup_lookup; [by eapply slots_NoDup|exact Hp|]. rewrite Hs. by apply lookup_app_l_Some. }
  apply lookup_lt_Some in Hk. lia.
Qed.

Lemma behind_index l w l' w' ps p :
  inv a l' w' -> slots (w_headers w') l' = slots (w_headers w) l ++ ps ->
  registered (w_headers w') l' p -> p ∉ slots (w_headers w) l ->
  exists i, slot_at l' w' p i /\ (length (slots (w_headers w) l) <= i)%nat.
Proof using Type.
  intros Hi Hs Hreg%registered_slots Hn. apply list_elem_of_lookup_1 in Hreg as [i Hp].
  exists i. split; [exact Hp|]. destruct (decide (length (slots (w_headers w) l) <= i)%nat); [done|].
  exfalso. apply Hn. rewrite Hs, lookup_app_l in Hp by lia. by eapply list_elem_of_lookup_2.
Qed.

(** Buffers in memory that nobody owned are fresh. *)
Lemma represents_fresh l w l' w' bs new ps :
  inv a l w -> inv a l' w' -> represents l w bs -> represents l' w' (bs ++ new) ->
  slots (w_headers w') l' = slots (w_headers w) l ++ ps -> Forall2 (shown w') ps new ->
  (forall p jt x, registered (w_headers w') l' p -> ~ registered (w_headers w) l p ->
     w_items w' !! p = Some jt -> LocatorItem.in_buffer jt x -> ~ owned (w_os w) x) ->
  Pool.fresh (~ one_chunk) bs new.
Proof using Type.
  intros Hi Hi' Hr Hr' Hs Hn Hfr. split; [by eapply represents_apart|].
  intros b c (i & Hb)%list_elem_of_lookup_1 (j & Hc)%list_elem_of_lookup_1 x Hx Hx'.
  destruct (Forall2_lookup_r _ _ _ _ _ Hr Hb) as (p & Hp & it & Hit & ->).
  destruct (Forall2_lookup_r _ _ _ _ _ Hn Hc) as (q & Hq & jt & Hjt & ->).
  assert (Hj : slots (w_headers w') l' !! (length (slots (w_headers w) l) + j)%nat = Some q).
  { rewrite Hs, lookup_app_r by lia. by replace (_ + j - _)%nat with j by lia. }
  apply (Hfr q jt x); [| |done|done|].
  - by eapply slots_registered, list_elem_of_lookup_2.
  - eapply (behind_new l w l' w' ps); [done|done|exact Hj|lia].
  - apply (inv_buffer _ _ _ Hi p it); [|done|done].
    by eapply slots_registered, list_elem_of_lookup_2.
Qed.

(** A new buffer. *)
Lemma acquired_got l w bs n lo hi s l' w' :
  inv a l w -> inv a l' w' -> packed (w_headers w) l -> represents l w bs ->
  first_fit n lo hi w l = None -> acquired l n lo hi w s l' w' ->
  got_buffer l w bs n lo hi (Some (SafeLocatorItem.item s)) l' w'.
Proof using Type.
  intros Hi Hi' Hpk Hr Hff Haq. pose proof (not_found_new _ _ _ _ _ _ _ _ _ Hi Hff Haq) as Hnew.
  destruct (aq_prefix _ _ _ _ _ _ _ _ Haq) as [k ->].
  assert (Hother : forall p, p ∈ slots (w_headers w) l -> registered (w_headers w') (l ++ k) p /\
    w_items w' !! p = w_items w !! p).
  { intros p Hp%(slots_registered a l w p Hi). apply (aq_others _ _ _ _ _ _ _ _ Haq); [done|].
    by intros ->. }
  destruct (slots_kept a l w k w' Hi Hi' Hpk) as [ps Hs].
  { intros p Hp. by apply Hother, registered_slots. }
  destruct (represents_grow a l w (l ++ k) w' bs ps Hi' Hr Hs) as (new & Hr' & Hsh); [apply Hother|].
  exists (bs ++ new), ps. split; [done|]. split; [done|].
  pose proof (list.Forall2_length _ _ _ Hr) as Hlen.
  destruct (behind_index l w (l ++ k) w' ps (SafeLocatorItem.item s) Hi' Hs) as (i & Hslot & Hle).
  { apply (aq_registered _ _ _ _ _ _ _ _ Haq). }
  { intros Hin. by apply Hnew, (slots_registered a). }
  exists i. split; [done|].
  destruct (aq_item _ _ _ _ _ _ _ _ Haq) as (it & Hit & _ & Htk & Hpr & _).
  apply Pool.get_new with (Pool.of_item it).
  - by eapply searched_none.
  - eapply (represents_fresh l w (l ++ k) w'); try done. intros p jt x Hp Hn Hj.
    by apply (aq_unused _ _ _ _ _ _ _ _ Haq p jt).
  - lia.
  - by eapply slot_lookup.
  - simpl. by rewrite Htk.
  - by destruct Hpr.
  - intros j c Hj Hc. destruct (Forall2_lookup_r _ _ _ _ _ Hr' Hc) as (p & Hp & jt & Hjt & ->).
    destruct (aq_unused _ _ _ _ _ _ _ _ Haq p jt) as (Hpos & Hfree & _); [| |done|].
    + by eapply slots_registered, list_elem_of_lookup_2.
    + apply (behind_new l w (l ++ k) w' ps j); [done..|lia].
    + split; [done|]. intros Hne. simpl. rewrite Hfree; [done|]. intros ->. apply Hne.
      by eapply NoDup_lookup; [eapply slots_NoDup; exact Hi'| |].
Qed.

(** No buffer, but perhaps a longer chain. *)
Lemma evolved_got l w bs n lo hi l' w' :
  inv a l w -> inv a l' w' -> packed (w_headers w) l -> represents l w bs ->
  first_fit n lo hi w l = None -> evolves l w l' w' -> got_buffer l w bs n lo hi None l' w'.
Proof using Type.
  intros Hi Hi' Hpk Hr Hff Hev. destruct (ev_prefix _ _ _ _ Hev) as [k ->].
  destruct (slots_kept a l w k w' Hi Hi' Hpk) as [ps Hs].
  { intros p Hp. by apply (ev_old _ _ _ _ Hev). }
  destruct (represents_grow a l w (l ++ k) w' bs ps Hi' Hr Hs) as (new & Hr' & Hnew).
  { intros p Hp. by apply (ev_old _ _ _ _ Hev), (slots_registered a). }
  exists (bs ++ new), ps. split; [done|]. split; [done|].
  pose proof (list.Forall2_length _ _ _ Hr) as Hlen. apply Pool.get_none.
  - by eapply searched_none.
  - eapply (represents_fresh l w (l ++ k) w'); try done. intros p jt x. exact (ev_new _ _ _ _ Hev p jt x).
  - intros c (j & Hc)%list_elem_of_lookup_1.
    destruct (Forall2_lookup_r _ _ _ _ _ Hnew Hc) as (p & Hp & jt & Hjt & ->).
    assert (Hj : slots (w_headers w') (l ++ k) !! (length (slots (w_headers w) l) + j)%nat = Some p).
    { rewrite Hs, lookup_app_r by lia. by replace (_ + j - _)%nat with j by lia. }
    destruct (ev_free _ _ _ _ Hev p jt) as [Htk Hpos]; [| |done|].
    + by eapply slots_registered, list_elem_of_lookup_2.
    + eapply (behind_new l w (l ++ k) w' ps); [done|done|exact Hj|lia].
    + split; [done|]. simpl. by rewrite Htk.
Qed.

(** [get_buffer] is the search of the pool. *)
Lemma get_buffer_got l w bs settings r w' :
  granule_fits -> ready a l w -> packed (w_headers w) l -> represents l w bs ->
  BufferSearchSettings.wf settings -> BufferSearchSettings.size settings + granularity <= u32_max ->
  Buffers.get_buffer settings w = Done r w' ->
  exists l', packed (w_headers w') l' /\ inv a l' w' /\ w_bytes w' = w_bytes w /\
    got_buffer l w bs (BufferSearchSettings.size settings) (BufferSearchSettings.min_address settings)
      (BufferSearchSettings.max_address settings)
      (match r with Ok s => Some (SafeLocatorItem.item s) | Err _ => None end) l' w'.
Proof using HQ L.
  intros Hfits Hr Hpk Hrep Hwf Hbig E. assert (Hi : inv a l w) by apply Hr.
  destruct (wp_run _ _ _ _ _ (get_buffer_fits a l w settings Hfits Hr Hpk Hwf Hbig) E)
    as [(l' & Hi' & Hs) Hf].
  pose proof (fitted_packed _ _ _ _ _ _ _ Hpk Hf Hi Hi') as Hpk'.
  assert (Hb : w_bytes w' = w_bytes w).
  { destruct r as [s|e]; [apply (aq_bytes _ _ _ _ _ _ _ _ Hs)|apply (ev_bytes _ _ _ _ (proj1 Hs))]. }
  exists l'. split; [done|]. split; [done|]. split; [exact Hb|]. clear Hb. unfold fitted in Hf.
  destruct (first_fit _ _ _ w l) as [p|] eqn:Hff.
  - destruct Hf as (-> & it & Hit & ->).
    assert (l' = l) as -> by exact (chain_unique _ _ _ _ (inv_chain _ _ _ Hi') (inv_chain _ _ _ Hi)).
    by apply found_got.
  - destruct r as [s|e]; [by apply acquired_got|]. destruct Hs as [Hev _]. by apply evolved_got.
Qed.

(** The session and the pool in step. *)
Record simulates (l : list Z) (s : session OS) (S : Pool.pool) : Prop := {
  sm_ok : session_ok a l s;
  sm_packed : packed (w_headers (s_world s)) l;
  sm_buffers : represents l (s_world s) (Pool.buffers S);
  sm_memory : Pool.memory S = w_bytes (s_world s);
  sm_held : Forall2 (slot_at l (s_world s)) (s_held s) (Pool.held S);
  sm_written : Pool.written S = s_log s
}.

Lemma slot_at_grow l w l' w' ps hs ks :
  slots (w_headers w') l' = slots (w_headers w) l ++ ps ->
  Forall2 (slot_at l w) hs ks -> Forall2 (slot_at l' w') hs ks.
Proof using Type.
  intros Hs H. eapply list.Forall2_impl; [exact H|]. unfold slot_at. intros p i Hp. rewrite Hs.
  by apply lookup_app_l_Some.
Qed.

(** The chain of the next session is known. *)
Lemma simulates_intro l l2 s S :
  session_ok a l2 s -> inv a l (s_world s) -> packed (w_headers (s_world s)) l ->
  represents l (s_world s) (Pool.buffers S) -> Pool.memory S = w_bytes (s_world s) ->
  Forall2 (slot_at l (s_world s)) (s_held s) (Pool.held S) -> Pool.written S = s_log s ->
  simulates l s S.
Proof using Type.
  intros Hso Hi. replace l2 with l in Hso; [by constructor|].
  exact (chain_unique _ _ _ _ (inv_chain _ _ _ Hi) (inv_chain _ _ _ (proj1 (so_ready _ _ _ Hso)))).
Qed.

(** What a step that changes one item leaves. *)
Lemma session_item l w hs lg p :
  session_ok a l (Session w hs lg) -> p ∈ hs -> exists it,
    w_items w !! p = Some it /\ registered (w_headers w) l p /\ LocatorItem.is_taken it = 1 /\
    LocatorItem.wf it.
Proof using Type.
  intros Hso Hp. destruct (so_held _ _ _ Hso p Hp) as (Hreg & it & Hit & Htk). simpl in *.
  destruct (inv_item _ _ _ (proj1 (so_ready _ _ _ Hso)) p Hreg) as (jt & Hjt & Hwf & _).
  simpl in Hjt. assert (jt = it) as -> by congruence. by exists it.
Qed.

Lemma append_simulated l w hs lg bs ks code p it data addr w' :
  simulates l (Session w hs lg) {| Pool.buffers := bs; Pool.memory := w_bytes w; Pool.held := ks;
    Pool.written := lg |} ->
  session_ok a l (Session w' hs ((addr, data) :: lg)) ->
  p ∈ hs -> has_room p it data w -> appended code p it data w addr w' ->
  exists S', Pool.step (~ one_chunk) {| Pool.buffers := bs; Pool.memory := w_bytes w; Pool.held := ks;
    Pool.written := lg |} S' /\ simulates l (Session w' hs ((addr, data) :: lg)) S'.
Proof using Type.
  intros [Hso Hpk Hrep _ Hheld _] Hso' Hp (Hit & Hwf & Hroom) Happ. simpl in *.
  pose proof (proj1 (so_ready _ _ _ Hso)) as Hi. simpl in Hi.
  apply list_elem_of_lookup_1 in Hp as [j Hj].
  destruct (Forall2_lookup_l _ _ _ _ _ Hheld Hj) as (i & Hin & Hslot).
  eexists. split.
  { eapply (Pool.pool_append _ _ _ _ _ i (Pool.of_item it) data).
    - by eapply list_elem_of_lookup_2.
    - by eapply slot_lookup.
    - simpl. lia. }
  destruct Happ as [Haddr Hitems Hbytes Hheaders _ _ _]. simpl in Haddr.
  constructor; simpl; try done; rewrite ?Hheaders; [done| | | |].
  - pose proof (represents_update a l w bs i p (LocatorItem.set_position
      (LocatorItem.position it + Z.of_nat (length data)) it) Hi Hrep Hslot) as Hr.
    unfold represents, shown in *. simpl in Hr. by rewrite Hheaders, Hitems.
  - by rewrite Hbytes, Haddr.
  - unfold slot_at in *. simpl. by rewrite Hheaders.
  - by rewrite Haddr.
Qed.

(** An aligned search: a search of the pool for a padded request. *)
Lemma get_buffer_aligned_got l w bs settings alignment r w' :
  granule_fits -> ready a l w -> packed (w_headers w) l -> represents l w bs ->
  request_ok settings alignment -> Buffers.get_buffer_aligned settings alignment w = Done r w' ->
  exists l' w1, packed (w_headers w1) l' /\ inv a l' w1 /\ w_bytes w1 = w_bytes w /\
    got_buffer l w bs (BufferSearchSettings.size settings + (Z.max alignment 1 - 1))
      (BufferSearchSettings.min_address settings) (BufferSearchSettings.max_address settings)
      (match r with Ok s => Some (SafeLocatorItem.item s) | Err _ => None end) l' w1 /\
    match r with
    | Ok s => exists it pos, w_items w1 !! SafeLocatorItem.item s = Some it /\
        LocatorItem.position it <= pos < LocatorItem.position it + Z.max alignment 1 /\
        (Z.max alignment 1 | LocatorItem.base_address it + pos) /\
        w' = set_items (<[SafeLocatorItem.item s := LocatorItem.set_position pos it]> (w_items w1)) w1
    | Err _ => w' = w1
    end.
Proof using HQ L.
  intros Hfits Hr Hpk Hrep (Hwf & Hal & Hbig) E. pose proof granularity_range.
  destruct (wp_run _ _ _ _ _ (get_buffer_aligned_run a l w settings alignment Hfits Hr Hwf Hal Hbig) E)
    as (l1 & w1 & _ & E1 & H1).
  destruct (Hwf) as [Hlo Hhi Hn]. unfold is_u32 in *.
  destruct (get_buffer_got l w bs (padded settings alignment) r w1 Hfits Hr Hpk Hrep)
    as (l' & Hpk' & Hi' & Hb & Hgot).
  { constructor; simpl; [done|done|unfold is_u32; lia]. }
  { simpl. lia. }
  { done. }
  exists l', w1. do 4 (split; [done|]). destruct r as [s|e]; [|apply H1].
  destruct H1 as (_ & it & pos & Hit & Hpos & [_ _ _ Hdiv] & ->). by exists it, pos.
Qed.

(** Every step of a session is a step of the pool. *)
Lemma step_simulated l s s' S :
  granule_fits -> simulates l s S -> step s s' ->
  exists l' S', Pool.step (~ one_chunk) S S' /\ simulates l' s' S'.
Proof using HQ L.
  intros Hfits Hsim Hstep. pose proof (sm_ok _ _ _ Hsim) as Hso.
  destruct (step_ok a l s s' Hfits Hso Hstep) as [l2 Hso'].
  pose proof (so_ready _ _ _ Hso) as Hr.
  destruct S as [bs m ks ws]. destruct Hsim as [_ Hpk Hrep Hm Hheld Hw]. simpl in *.
  destruct Hstep as [settings w held log item w' (Hwf & _ & Hbig) E
    |settings w held log e w' (Hwf & _ & Hbig) E
    |settings alignment w held log item w' (Hwf & Hal & Hbig) E
    |settings alignment w held log e w' (Hwf & Hal & Hbig) E
    |p data w held log addr w' Hmay E|p data w held log addr w' Hmay E
    |p w held held' log w' Hperm E]; simpl in *; subst m ws.
  - destruct (get_buffer_got l w bs settings _ _ Hfits Hr Hpk Hrep Hwf ltac:(lia) E)
      as (l' & Hpk' & Hi' & Hb & bs' & ps & Hrep' & Hs & i & Hslot & Hget).
    eexists l', _. split; [by eapply Pool.pool_get|]. apply (simulates_intro l' l2); simpl; try done.
    constructor; [done|by eapply slot_at_grow].
  - destruct (get_buffer_got l w bs settings _ _ Hfits Hr Hpk Hrep Hwf ltac:(lia) E)
      as (l' & Hpk' & Hi' & Hb & bs' & ps & Hrep' & Hs & Hget).
    eexists l', _. split; [by eapply Pool.pool_get_fails|].
    apply (simulates_intro l' l2); simpl; try done. by eapply slot_at_grow.
  - destruct (get_buffer_aligned_got l w bs settings alignment _ _ Hfits Hr Hpk Hrep
      (conj Hwf (conj Hal Hbig)) E) as (l' & w1 & Hpk' & Hi' & Hb & Hgot & it & pos & Hit & Hpos & Hdiv & ->).
    destruct Hgot as (bs' & ps & Hrep' & Hs & i & Hslot & Hget).
    eexists l', _. split.
    { eapply (Pool.pool_get_aligned _ _ _ _ (Z.max alignment 1)); [lia|exact Hget|by eapply slot_lookup
        |exact Hpos|exact Hdiv]. }
    pose proof (so_ready _ _ _ Hso') as [Hi2 _]. simpl in Hi2.
    apply (simulates_intro l' l2); simpl; try done.
    + replace l' with l2; [done|]. exact (chain_unique _ _ _ _ (inv_chain _ _ _ Hi2) (inv_chain _ _ _ Hi')).
    + by apply (represents_update a l' w1 bs' i (SafeLocatorItem.item item)
        (LocatorItem.set_position pos it)).
    + constructor; [done|]. by eapply (slot_at_grow l w l' w1).
  - destruct (get_buffer_aligned_got l w bs settings alignment _ _ Hfits Hr Hpk Hrep
      (conj Hwf (conj Hal Hbig)) E) as (l' & w1 & Hpk' & Hi' & Hb & Hgot & ->).
    destruct Hgot as (bs' & ps & Hrep' & Hs & Hget).
    eexists l', _. split; [by eapply Pool.pool_get_fails|].
    apply (simulates_intro l' l2); simpl; try done. by eapply slot_at_grow.
  - destruct (may_append_room _ _ _ _ _ Hso Hmay) as (_ & it & Hroom & _). exists l.
    pose proof (wp_run _ _ _ _ _ (append_bytes_spec p it data w Hroom) E) as Happ.
    assert (Hi2 : l2 = l).
    { eapply chain_unique; [apply (so_ready _ _ _ Hso')|]. simpl.
      rewrite (ap_headers _ _ _ _ _ _ _ Happ). apply Hr. }
    subst l2. eapply append_simulated; [by constructor|done|apply Hmay|done|exact Happ].
  - destruct (may_append_room _ _ _ _ _ Hso Hmay) as (_ & it & Hroom & _). exists l.
    pose proof (wp_run _ _ _ _ _ (append_code_spec p it data w Hroom) E) as Happ.
    assert (Hi2 : l2 = l).
    { eapply chain_unique; [apply (so_ready _ _ _ Hso')|]. simpl.
      rewrite (ap_headers _ _ _ _ _ _ _ Happ). apply Hr. }
    subst l2. eapply append_simulated; [by constructor|done|apply Hmay|done|exact Happ].
  - destruct (Forall2_permuted _ _ _ Hperm _ Hheld) as (ks' & Hperm' & Hheld').
    apply Forall2_cons_inv_l in Hheld' as (i & ks2 & Hslot & Hheld2 & ->).
    destruct (session_item l w held log p Hso) as (it & Hit & _); [rewrite Hperm; by left|].
    assert (w' = set_items (<[p := LocatorItem.set_is_taken 0 it]> (w_items w)) w) as ->.
    { refine (wp_run _ (fun _ w2 => w2 = _) _ _ _ _ E). by eapply wp_item_method. }
    eexists l, _. split; [eapply Pool.pool_drop; [exact Hperm'|by eapply slot_lookup]|].
    pose proof (proj1 Hr) as Hi. pose proof (so_ready _ _ _ Hso') as [Hi2 _]. simpl in Hi, Hi2.
    apply (simulates_intro l l2); simpl; try done.
    + replace l with l2; [done|]. exact (chain_unique _ _ _ _ (inv_chain _ _ _ Hi2) (inv_chain _ _ _ Hi)).
    + by apply (represents_update a l w bs i p (LocatorItem.set_is_taken 0 it)).
Qed.

Lemma session_simulated l w s bs :
  granule_fits -> ready a l w -> packed (w_headers w) l -> represents l w bs ->
  rtc step (Session w [] []) s ->
  exists l' S, rtc (Pool.step (~ one_chunk)) (Pool.Build_pool bs (w_bytes w) [] []) S /\ simulates l' s S.
Proof using HQ L.
  intros Hfits Hr Hpk Hrep Hsteps.
  cut (forall s0, rtc step s0 s -> forall l0 S0, simulates l0 s0 S0 ->
    exists l' S, rtc (Pool.step (~ one_chunk)) S0 S /\ simulates l' s S).
  { intros Hcut. eapply Hcut; [done|]. constructor; try done. by apply session_start. }
  clear Hsteps. intros s0. induction 1 as [s0|s0 s1 s2 Hstep _ IH]; intros l0 S0 Hsim.
  - exists l0, S0. by split.
  - destruct (step_simulated l0 s0 s1 S0 Hfits Hsim Hstep) as (l1 & S1 & Hs1 & Hsim1).
    destruct (IH l1 S1 Hsim1) as (l' & S & Hs & Hsim'). exists l', S. split; [by eapply rtc_l|done].
Qed.

End simulation.
