(* ===== verification/Thrift.v ===== *)
(** * How many locators a session uses

    A search adds locators only when every table of the chain is full.  So the
    chain is never longer than its buffers need, but for the locators of one
    granule or those it began with. *)

From stdpp Require Import sorting.
From S2P Require Import Prelude Mathematics SysInfo Settings Errors Items Headers World ItemOps.
From S2P Require Import Platform HeaderOps HeaderSpec HeaderWp HeaderInit HeaderNext.
From S2P Require Import MapParser Posix MemoryMappedFiles Finder Buffers BuffersSpec ItemSpec Sessions.
From S2P Require Import FirstFit Pool.
Import LocatorHeader.

(** Beyond the first [n] locators, every locator is paid for by a table of
    buffers. *)
Definition thrifty `{Target} (n : Z) (hs : gmap Z LocatorHeader) (l : list Z) : Prop :=
  MAX_ITEM_COUNT * (Z.of_nat (length l) - n) <= Z.of_nat (length (slots hs l)).

Section thrift.
Context `{T : Target} `{Q : SysQuery} {OS : Type} `{Sch : Scheduler OS} `{P : Platform OS}
  `{Mem : Memory OS} `{L : !PlatformLaws} `{HQ : !SysQueryOk}.
Context `{PX : Posix OS} `{ST : UnixMemoryMappedFile.StringTail OS} `{WF : WindowsFiles OS}
  `{SV : SharedViews OS} `{I : Itoa}.
Implicit Types w : World OS.

Lemma full_slots hs l : full hs l -> MAX_ITEM_COUNT * Z.of_nat (length l) <= Z.of_nat (length (slots hs l)).
Proof.
  induction 1 as [|b l Hb Hf IH]; [simpl; lia|]. rewrite slots_cons, length_app. unfold slots_of.
  rewrite length_fmap, length_seqZ. pose proof MAX_ITEM_COUNT_range. simpl. lia.
Qed.

Lemma granule_locators c :
  granule_fits -> Z.of_nat (length (block_locators c granularity)) = block_count granularity.
Proof.
  intros Hfits. destruct fresh_count as (Hn & _); [done|].
  unfold block_locators. rewrite length_fmap, length_seqZ. lia.
Qed.

(** A search keeps the chain packed and thrifty, and says why it grew. *)
Lemma get_buffer_thrifty n a l w settings r w' :
  granule_fits -> block_count granularity <= n -> ready a l w -> packed (w_headers w) l ->
  thrifty n (w_headers w) l ->
  BufferSearchSettings.wf settings -> BufferSearchSettings.size settings + granularity <= u32_max ->
  Buffers.get_buffer settings w = Done r w' ->
  exists l', ready a l' w' /\ packed (w_headers w') l' /\ grown l w l' /\ thrifty n (w_headers w') l'.
Proof.
  intros Hfits Hn Hr Hpk Ht Hwf Hbig E. assert (Hi : inv a l w) by apply Hr.
  destruct (wp_run _ _ _ _ _ (get_buffer_fits a l w settings Hfits Hr Hpk Hwf Hbig) E) as [Hs Hf].
  destruct (searched_ready _ _ _ _ _ _ Hr Hs) as (l' & Hr' & k & ->).
  assert (Hi' : inv a (l ++ k) w') by apply Hr'.
  exists (l ++ k). split; [done|]. split; [by eapply fitted_packed|].
  assert (Hg : grown l w (l ++ k)).
  { unfold fitted in Hf. destruct (first_fit _ _ _ w l) as [p|].
    - left. destruct Hf as (_ & it & _ & ->).
      exact (chain_unique _ _ _ _ (inv_chain _ _ _ Hi') (inv_chain _ _ _ Hi)).
    - destruct Hf as [(l2 & Hi2 & _ & Hg) _].
      by rewrite (chain_unique _ _ _ _ (inv_chain _ _ _ Hi') (inv_chain _ _ _ Hi2)). }
  split; [done|]. destruct (slots_kept a l w k w' Hi Hi' Hpk) as [ps Hps].
  { destruct Hs as (l2 & Hi2 & Hs).
    rewrite (chain_unique _ _ _ _ (inv_chain _ _ _ Hi') (inv_chain _ _ _ Hi2)).
    intros p Hp. destruct r as [s|e]; [|by apply (ev_old _ _ _ _ (proj1 Hs))].
    destruct (decide (p = SafeLocatorItem.item s)) as [->|Hne].
    - apply (aq_registered _ _ _ _ _ _ _ _ Hs).
    - by apply (aq_others _ _ _ _ _ _ _ _ Hs). }
  unfold thrifty in *. rewrite Hps, (length_app (slots _ l)).
  destruct Hg as [->|[Hfull [c Hc]]]; [lia|].
  rewrite Hc, length_app, Nat2Z.inj_add, granule_locators by done.
  pose proof (full_slots _ _ Hfull). pose proof MAX_ITEM_COUNT_range. nia.
Qed.

Definition orderly (n a : Z) (hs : gmap Z LocatorHeader) : Prop :=
  forall l, chain hs a l -> packed hs l /\ thrifty n hs l.

Lemma step_orderly n a l s s' :
  granule_fits -> block_count granularity <= n -> session_ok a l s -> step s s' ->
  orderly n a (w_headers (s_world s)) -> orderly n a (w_headers (s_world s')).
Proof.
  intros Hfits Hn Hso Hstep Ho. pose proof (so_ready _ _ _ Hso) as Hr.
  refine (step_headers a l s s' (orderly n a) Hso Hstep _ Ho). intros settings r w' Hwf Hbig E.
  destruct (Ho l (inv_chain _ _ _ (proj1 Hr))) as [Hpk Ht].
  destruct (get_buffer_thrifty n a l (s_world s) settings r w' Hfits Hn Hr Hpk Ht Hwf Hbig E)
    as (l' & [Hi' _] & Hpk' & _ & Ht').
  intros l2 Hl2. by rewrite (chain_unique _ _ _ _ Hl2 (inv_chain _ _ _ Hi')).
Qed.

Lemma session_orderly n a l w s :
  granule_fits -> block_count granularity <= n -> ready a l w -> packed (w_headers w) l ->
  thrifty n (w_headers w) l ->
  rtc step (Session w [] []) s ->
  exists l', session_ok a l' s /\ packed (w_headers (s_world s)) l' /\ thrifty n (w_headers (s_world s)) l'.
Proof.
  intros Hfits Hn Hr Hp Ht Hsteps.
  cut (forall s0, rtc step s0 s -> (exists l0, session_ok a l0 s0) ->
    orderly n a (w_headers (s_world s0)) ->
    exists l', session_ok a l' s /\ orderly n a (w_headers (s_world s))).
  { intros Hcut. destruct (Hcut _ Hsteps) as (l' & Hso & Ho).
    - exists l. by apply session_start.
    - intros l2 Hl2. by rewrite (chain_unique _ _ _ _ Hl2 (inv_chain _ _ _ (proj1 Hr))).
    - exists l'. split; [done|]. apply Ho, (inv_chain a l' (s_world s)), Hso. }
  clear Hsteps. intros s0. induction 1 as [s0|s0 s1 s2 Hstep _ IH]; intros [l0 Hso] Ho; [eauto|].
  apply IH; [by eapply step_ok|by eapply step_orderly].
Qed.

End thrift.
