(* ===== verification/PrivateSessions.v ===== *)
(** * Sessions with private memory

    A client that also allocates private memory, uses it and gives it back,
    between the calls of Sessions.v.  The private ranges stay apart from each
    other and from everything the chain of locators uses, so neither side
    disturbs the other, and giving one back leaves the chain intact. *)

From S2P Require Import Prelude Mathematics SysInfo Settings Errors Items Headers World ItemOps.
From S2P Require Import Platform HeaderOps HeaderSpec HeaderWp HeaderInit HeaderNext Kernel32.
From S2P Require Import MapParser Posix PosixSpec MemoryMappedFiles Finder Buffers BuffersSpec ItemSpec.
From S2P Require Import ReleaseSpec Sessions.
Import LocatorHeader PrivateAllocation.

Record client (OS : Type) := Client {
  c_session : session OS;
  c_private : list PrivateAllocation
}.
Arguments Client {OS}.
Arguments c_session {OS} _.
Arguments c_private {OS} _.

(** The bytes of an allocation. *)
Definition in_allocation (alloc : PrivateAllocation) (x : Z) : Prop :=
  base_address alloc <= x < base_address alloc + size alloc.

Section clients.
Context `{T : Target} `{Q : SysQuery} {OS : Type} `{Sch : Scheduler OS} `{P : Platform OS}
  `{PX : Posix OS} `{ST : UnixMemoryMappedFile.StringTail OS} `{WF : WindowsFiles OS}
  `{SV : SharedViews OS} `{I : Itoa}.
Context `{WM : WindowsMemory OS} `{R : Releases OS}.
Context `{Mem : Memory OS} `{L : !PlatformLaws} `{HQ : !SysQueryOk} `{PL : !PosixLaws}
  `{WML : !WindowsMemoryLaws} `{RL : !ReleaseLaws}.
Implicit Types w : World OS.

(** What the client does: a call of a session, an allocation of private
    memory, a write of its own code into that memory, a drop. *)
Inductive client_step : client OS -> client OS -> Prop :=
| client_call s s' ps : step s s' -> client_step (Client s ps) (Client s' ps)
| client_allocate settings w held log ps settings' alloc os' :
    private_request settings ->
    Buffers.allocate_private_memory settings (w_os w) = Done (settings', Ok alloc) os' ->
    client_step (Client (Session w held log) ps)
      (Client (Session (set_os os' w) held log) (alloc :: ps))
| client_allocate_fails settings w held log ps settings' e os' :
    private_request settings ->
    Buffers.allocate_private_memory settings (w_os w) = Done (settings', Err e) os' ->
    client_step (Client (Session w held log) ps) (Client (Session (set_os os' w) held log) ps)
| client_write alloc addr data w held log ps :
    alloc ∈ ps -> base_address alloc <= addr ->
    addr + Z.of_nat (length data) <= base_address alloc + size alloc ->
    client_step (Client (Session w held log) ps)
      (Client (Session (set_bytes (write_bytes addr data (w_bytes w)) w) held log) ps)
| client_free alloc w held log ps ps' os' :
    ps ≡ₚ alloc :: ps' ->
    (* the system still lists the allocation *)
    own_allocation alloc (w_os w) ->
    drop alloc (w_os w) = Done tt os' ->
    client_step (Client (Session w held log) ps) (Client (Session (set_os os' w) held log) ps').

(** The private memory of the client: mapped, not used by the chain, in ranges
    that do not meet. *)
Record private_ok (l : list Z) w (ps : list PrivateAllocation) : Prop := {
  po_nodup : NoDup ps;
  po_nonempty p : p ∈ ps -> 0 < size p;
  po_owned p x : p ∈ ps -> in_allocation p x -> owned (w_os w) x;
  po_apart p x : p ∈ ps -> in_allocation p x -> ~ used l w x;
  po_disjoint p q x : p ∈ ps -> q ∈ ps -> p <> q -> in_allocation p x -> ~ in_allocation q x
}.

Definition client_ok (a : Z) (l : list Z) (c : client OS) : Prop :=
  session_ok a l (c_session c) /\ private_ok l (s_world (c_session c)) (c_private c).

(** A call of the session leaves the private memory alone. *)
Lemma private_confined l w l' w' ps : confined l w l' w' -> private_ok l w ps -> private_ok l' w' ps.
Proof.
  intros [Hown Hused _] []. constructor; try done; [by eauto|].
  intros p x Hp Hx [Hu|Hno]%Hused; [by eapply po_apart0|by eapply Hno, po_owned0].
Qed.

(** ** The session after a step of the client *)

(** The system may change outside what the chain uses. *)
Lemma session_set_os a l w held log os' :
  session_ok a l (Session w held log) -> os_ok os' -> (forall x, used l w x -> owned os' x) ->
  session_ok a l (Session (set_os os' w) held log).
Proof.
  intros [[Hi Ha] Hnd Hheld Hlog] Hok Hused. constructor; simpl in *; [split; [|done]|done..].
  pose proof (inv_buffer _ _ _ Hi) as Hbuf. destruct Hi. constructor; try done; simpl.
  - intros b x Hb Hx. apply Hused. left. by exists b.
  - intros p it x Hp Hit Hx. split; [apply Hused; right; by exists p, it|by eapply Hbuf].
Qed.

(** And so may the bytes. *)
Lemma session_set_bytes a l w held log bs :
  session_ok a l (Session w held log) -> (forall x, used l w x -> bs !! x = w_bytes w !! x) ->
  session_ok a l (Session (set_bytes bs w) held log).
Proof.
  intros [[Hi Ha] Hnd Hheld Hlog] Hbs. constructor; simpl in *; [split; [|done]|done..|].
  { destruct Hi. by constructor. }
  apply (carries_logged l w); [apply (evolves_carries l w l w), evolves_refl| |done].
  intros p it x Hreg Hit Hx. apply Hbs. right. exists p, it. split; [done|]. split; [done|].
  destruct (inv_item _ _ _ Hi p Hreg) as (it' & Hit' & [_ _ Hpos _] & _).
  assert (it' = it) as -> by congruence. unfold LocatorItem.in_buffer. lia.
Qed.

(** ** The private memory after a step of the client *)

(** A new allocation, in memory nobody owned. *)
Lemma private_cons a l w ps os' alloc :
  inv a l w -> private_ok l w ps -> grows (w_os w) os' -> 0 < size alloc ->
  (forall x, in_allocation alloc x -> ~ owned (w_os w) x /\ owned os' x) ->
  private_ok l (set_os os' w) (alloc :: ps).
Proof.
  intros Hi [] [_ Hmono] Hsz Hfresh.
  assert (Hnew : forall p x, p ∈ ps -> in_allocation p x -> ~ in_allocation alloc x).
  { intros p x Hp Hx Hx'. by eapply (Hfresh x Hx'), po_owned0. }
  assert (Hnot : alloc ∉ ps).
  { intros Hin. apply (Hnew alloc (base_address alloc)); [done|..]; unfold in_allocation; lia. }
  constructor; simpl.
  - by apply list.NoDup_cons.
  - intros p [->|Hp]%elem_of_cons; [done|by eapply po_nonempty0].
  - intros p x [->|Hp]%elem_of_cons Hx; [by apply Hfresh|by eapply Hmono, po_owned0].
  - intros p x [->|Hp]%elem_of_cons Hx Hu; [|by eapply po_apart0].
    apply (Hfresh x Hx). by eapply used_owned.
  - intros p q x [->|Hp]%elem_of_cons [->|Hq]%elem_of_cons Hne Hx; [done| |by eapply Hnew|eauto].
    intros Hx'. by eapply Hnew.
Qed.

(** Giving one back. *)
Lemma private_free l w ps ps' alloc released os' :
  private_ok l w ps -> ps ≡ₚ alloc :: ps' ->
  frees (base_address alloc) (size alloc) released (w_os w) os' ->
  private_ok l (set_os os' w) ps'.
Proof.
  intros [] Hperm [Hok _ Hrest _]. rewrite Hperm in po_nodup0.
  apply list.NoDup_cons in po_nodup0 as [Hnot Hnd].
  assert (Hin : forall p, p ∈ ps' -> p ∈ ps) by (intros p Hp; rewrite Hperm; by right).
  constructor; simpl; eauto.
  intros p x Hp Hx. apply Hrest; [by eauto|]. intros Hx'.
  apply (po_disjoint0 p alloc x); try done; [by eauto|rewrite Hperm; by left|by intros ->].
Qed.

(** What is released is not part of the chain. *)
Lemma free_used a l w ps alloc released os' :
  inv a l w -> private_ok l w ps -> alloc ∈ ps ->
  frees (base_address alloc) (size alloc) released (w_os w) os' ->
  forall x, used l w x -> owned os' x.
Proof.
  intros Hi [] Hin [_ _ Hrest _] x Hu. apply Hrest; [by eapply used_owned|].
  intros Hx. by apply (po_apart0 alloc x).
Qed.

Lemma allocate_private_run settings w r os' :
  os_ok (w_os w) -> private_request settings ->
  Buffers.allocate_private_memory settings (w_os w) = Done r os' ->
  grows (w_os w) os' /\ match r.2 with
    | Ok alloc => 0 < size alloc /\
        forall x, in_allocation alloc x -> ~ owned (w_os w) x /\ owned os' x
    | Err _ => True
    end.
Proof.
  intros Hok (Hwf & Hbig & Hpid) E.
  assert (Hre : reachable (BufferAllocatorSettings.target_process_id settings)).
  { rewrite Hpid. apply reachable_self. }
  destruct (wp_run _ _ _ _ _ (allocate_private_memory_spec _ _ Hok Hwf Hbig Hre) E) as (Hg & _ & Hr).
  split; [done|]. destruct (r.2); [|done]. by destruct Hr as (_ & _ & _ & _ & _ & ? & _ & ?).
Qed.

(** Every step of the client keeps both. *)
Lemma client_step_ok a l c c' :
  granule_fits -> client_ok a l c -> client_step c c' -> exists l', client_ok a l' c'.
Proof.
  intros Hfits [Hso Hpo] Hstep.
  destruct Hstep as [s s' ps Hs|settings w held log ps settings' alloc os' Hreq E
    |settings w held log ps settings' e os' Hreq E|alloc addr data w held log ps Hin Hlo Hhi
    |alloc w held log ps ps' os' Hperm Hown E]; simpl in *.
  - destruct (step_confined a l s s' Hfits Hso Hs) as (l' & ? & Hc). exists l'.
    split; [done|by eapply private_confined].
  - pose proof (proj1 (so_ready _ _ _ Hso)) as Hi. simpl in Hi.
    destruct (allocate_private_run _ _ _ _ (inv_os _ _ _ Hi) Hreq E) as [Hg [Hsz Hf]].
    exists l. split; [|by eapply private_cons].
    apply session_set_os; [done|apply Hg|]. intros x Hu. by eapply Hg, used_owned.
  - pose proof (proj1 (so_ready _ _ _ Hso)) as Hi. simpl in Hi.
    destruct (allocate_private_run _ _ _ _ (inv_os _ _ _ Hi) Hreq E) as [Hg _].
    exists l. split.
    + apply session_set_os; [done|apply Hg|]. intros x Hu. by eapply Hg, used_owned.
    + destruct Hpo. constructor; try done. intros p x Hp Hx. by eapply Hg, po_owned0.
  - exists l. split.
    + apply session_set_bytes; [done|]. intros x Hu. apply write_bytes_outside. intros Hx.
      apply (po_apart _ _ _ Hpo alloc x Hin); [unfold in_allocation; lia|done].
    + destruct Hpo. by constructor.
  - pose proof (proj1 (so_ready _ _ _ Hso)) as Hi. simpl in Hi.
    assert (Hfr : frees (base_address alloc) (size alloc) (release_succeeds alloc (w_os w)) (w_os w) os').
    { pose proof (drop_spec alloc (w_os w) (inv_os _ _ _ Hi) Hown) as Hd.
      unfold wp_unless in Hd. rewrite E in Hd. apply Hd. }
    exists l. split; [|by eapply private_free].
    apply session_set_os; [done|apply Hfr|].
    eapply free_used; [done|done| |done]. rewrite Hperm. by left.
Qed.

Lemma client_reachable a l w c :
  granule_fits -> ready a l w -> rtc client_step (Client (Session w [] []) []) c ->
  exists l', client_ok a l' c.
Proof.
  intros Hfits Hr Hsteps.
  assert (H0 : client_ok a l (Client (Session w [] []) [])).
  { split; [by apply session_start|]. constructor; simpl; try (intros; set_solver). constructor. }
  clear Hr. revert l H0. induction Hsteps as [c|c c1 c' Hstep _ IH]; intros l H0; [by exists l|].
  destruct (client_step_ok a l c c1 Hfits H0 Hstep) as [l1 H1]. eauto.
Qed.

End clients.
