(* ===== verification/CExports.v ===== *)
(** * c/buffers_c_buffers.rs and c/buffers_c_locatoritem.rs: the C interface *)

From Stdlib Require Import Ascii String.
From S2P Require Import Prelude Mathematics SysInfo Settings Errors Text Items Headers World.
From S2P Require Import Platform Kernel32.
From S2P Require Import ItemOps MapParser Posix MemoryMappedFiles Platform HeaderOps Finder.
From S2P Require Import Buffers.
Import CodePages.

(** [CString::into_raw] and the drop of [CString::from_raw]: strings the
    caller owns live on the heap. *)
Class CStrings (OS : Type) := {
  into_raw (s : string) : OS -> Z * OS;
  drop_raw (p : Z) : OS -> unit * OS
}.

Record AllocationResult := {
  ar_is_ok : bool;
  ar_ok : PrivateAllocation;
  ar_err : Z               (* *const c_char *)
}.

Record GetBufferResult := {
  gr_is_ok : bool;
  gr_ok : Z;               (* *mut LocatorItem *)
  gr_err : Z               (* *const c_char *)
}.

Section exports.
Context `{T : Target} `{Q : SysQuery} {OS : Type} `{Sch : Scheduler OS} `{P : Platform OS}.
Context `{PX : Posix OS} `{ST : UnixMemoryMappedFile.StringTail OS} `{WF : WindowsFiles OS}
  `{SV : SharedViews OS} `{I : Itoa} `{WM : WindowsMemory OS} `{R : PrivateAllocation.Releases OS} `{N : Nanokit}
  `{CS : CStrings OS}.

(** [CString::new(text).unwrap().into_raw()] *)
Definition raw_error (text : string) : M (World OS) Z :=
  s ← CString_new text;
  lift_os (call (into_raw s)).

(** The settings are a [&mut]: the changed settings are returned as well. *)
Definition buffers_allocate_private_memory (settings : BufferAllocatorSettings)
    : M (World OS) (BufferAllocatorSettings * AllocationResult) :=
  '(settings, r) ← lift_os (Buffers.allocate_private_memory settings);
  match r with
  | Ok allocation =>
      mret (settings, {| ar_is_ok := true; ar_ok := allocation; ar_err := 0 |})
  | Err err =>
      p ← raw_error (BufferAllocationError.to_string err);
      mret (settings, {| ar_is_ok := false; ar_ok := PrivateAllocation.null; ar_err := p |})
  end.

Definition buffers_get_buffer_aligned (settings : BufferSearchSettings) (alignment : Z)
    : M (World OS) GetBufferResult :=
  r ← Buffers.get_buffer_aligned settings alignment;
  match r with
  | Ok locator_item =>
      mret {| gr_is_ok := true; gr_ok := SafeLocatorItem.item locator_item; gr_err := 0 |}
  | Err err =>
      p ← raw_error (BufferSearchError.to_string err);
      mret {| gr_is_ok := false; gr_ok := 0; gr_err := p |}
  end.

Definition buffers_get_buffer (settings : BufferSearchSettings) : M (World OS) GetBufferResult :=
  r ← Buffers.get_buffer settings;
  match r with
  | Ok buffer =>
      mret {| gr_is_ok := true; gr_ok := SafeLocatorItem.item buffer; gr_err := 0 |}
  | Err err =>
      p ← raw_error (BufferSearchError.to_string err);
      mret {| gr_is_ok := false; gr_ok := 0; gr_err := p |}
  end.

Definition free_string (s : Z) : M (World OS) unit :=
  if s =? 0 then mret tt else lift_os (call (drop_raw s)).

Definition free_locator_item (item : Z) : M (World OS) unit := ItemPtr.unlock item.

Definition free_private_allocation (item : PrivateAllocation) : M (World OS) unit :=
  lift_os (PrivateAllocation.drop item).

(** [item] is taken by value: on the error path the field [ok] is still there
    at the end of the function, and is dropped. *)
Definition free_allocation_result (item : AllocationResult) : M (World OS) unit :=
  if ar_is_ok item then free_private_allocation (ar_ok item)
  else
    free_string (ar_err item) ;;
    lift_os (PrivateAllocation.drop (ar_ok item)).

Definition free_get_buffer_result (item : GetBufferResult) : M (World OS) unit :=
  if gr_is_ok item then free_locator_item (gr_ok item)
  else free_string (gr_err item).

Definition buffersearchsettings_from_proximity (proximity target size : Z) : BufferSearchSettings :=
  BufferSearchSettings.from_proximity proximity target size.

Definition bufferallocatorsettings_from_proximity (proximity target size : Z)
    : BufferAllocatorSettings :=
  BufferAllocatorSettings.from_proximity proximity target size.

Definition utilities_clear_instruction_cache (start end_ : Z) : M (World OS) unit :=
  clear_instruction_cache start end_.

(** The end of the flushed range is computed from [source]. *)
Definition overwrite_allocated_code (source target size : Z) : M (World OS) unit :=
  disable_write_xor_execute target size ;;
  copy_nonoverlapping source target size ;;
  restore_write_xor_execute target size ;;
  clear_instruction_cache target (source +u size).

Definition overwrite_allocated_code_ex (source target size : Z)
    (callback : Z -> Z -> Z -> M (World OS) unit) : M (World OS) unit :=
  disable_write_xor_execute target size ;;
  callback source target size ;;
  restore_write_xor_execute target size ;;
  clear_instruction_cache target (source +u size).

(** ** Items *)

Definition locatoritem_bytes_left (item : Z) : M (World OS) Z :=
  it ← load_item item; mret (LocatorItem.bytes_left it).
Definition locatoritem_min_address (item : Z) : M (World OS) Z :=
  it ← load_item item; mret (LocatorItem.min_address it).
Definition locatoritem_max_address (item : Z) : M (World OS) Z :=
  it ← load_item item; mret (LocatorItem.max_address it).
Definition locatoritem_is_allocated (item : Z) : M (World OS) bool :=
  it ← load_item item; mret (LocatorItem.is_allocated it).
Definition locatoritem_is_taken (item : Z) : M (World OS) bool :=
  it ← load_item item; mret (LocatorItem.taken it).
Definition locatoritem_try_lock (item : Z) : M (World OS) bool := ItemPtr.try_lock item.
Definition locatoritem_lock (item : Z) : M (World OS) unit := ItemPtr.lock item.
Definition locatoritem_unlock (item : Z) : M (World OS) unit := ItemPtr.unlock item.
Definition locatoritem_can_use (item size min_address max_address : Z) : M (World OS) bool :=
  it ← load_item item; mret (LocatorItem.can_use it size min_address max_address).

(** [slice::from_raw_parts(data, data_len)]: the bytes in memory. *)
Definition locatoritem_append_bytes (item data data_len : Z) : M (World OS) Z :=
  w ← get_state;
  match read_bytes data (Z.to_nat data_len) (w_bytes w) with
  | Some bytes => ItemPtr.append_bytes item bytes
  | None => fault
  end.

End exports.
