(* ===== verification/CSpec.v ===== *)
(** * What the C interface guarantees *)

From Stdlib Require Import Ascii String.
From stdpp Require Import pretty.
From S2P Require Import Prelude Mathematics SysInfo Settings Errors Text Items Headers World.
From S2P Require Import Platform Kernel32.
From S2P Require Import ItemOps MapParser Posix MemoryMappedFiles Platform HeaderOps HeaderSpec.
From S2P Require Import HeaderWp HeaderNext PosixSpec Finder Buffers BuffersSpec ItemSpec ReleaseSpec CExports.
Import CodePages.

Section c_spec.
Context `{T : Target} `{Q : SysQuery} {OS : Type} `{Sch : Scheduler OS} `{P : Platform OS}
  `{Mem : Memory OS} `{L : !PlatformLaws} `{HQ : !SysQueryOk}.
Context `{PX : Posix OS} `{ST : UnixMemoryMappedFile.StringTail OS} `{WF : WindowsFiles OS}
  `{SV : SharedViews OS} `{I : Itoa} `{WM : WindowsMemory OS} `{R : PrivateAllocation.Releases OS} `{N : Nanokit}
  `{CS : CStrings OS}.
Implicit Types w : World OS.

(** [into_raw] returns a pointer, and memory only grows. *)
Class CStringsLaws := {
  into_raw_spec s os : os_ok os -> 0 < (into_raw s os).1 /\ grows os (into_raw s os).2;
  drop_raw_spec p os : os_ok os -> keeps os (drop_raw p os).2
}.
Context `{CL : !CStringsLaws}.

Definition concat_ok : Prop := forall a b, concat_2 a b = a +:+ b.

Lemma search_error_no_nul e :
  concat_ok -> search_error_text (BufferSearchError.text e) ->
  has_nul (BufferSearchError.to_string e) = false.
Proof.
  intros Hc Htext. unfold BufferSearchError.to_string.
  assert (Ht : has_nul (BufferSearchError.text e) = false) by (by destruct Htext as [->| ->]).
  destruct feature_no_format; [by rewrite Hc, has_nul_app, Ht|].
  unfold debug_search_settings, debug_int.
  by rewrite !has_nul_app, !has_nul_pretty, Ht.
Qed.

Lemma raw_error_spec text w :
  os_ok (w_os w) -> has_nul text = false ->
  wp (raw_error text) (fun p w' => p <> 0 /\ exists os', into_raw text (w_os w) = (p, os') /\
    w' = set_os os' w /\ grows (w_os w) os') w.
Proof.
  intros Hok Hnul. unfold raw_error, CString_new. rewrite Hnul. wp_step. wp_step.
  apply wp_lift_os, wp_call. destruct (into_raw_spec text (w_os w) Hok) as [? ?].
  split; [lia|]. eexists. split; [apply surjective_pairing|done].
Qed.

(** The result of a search as the C interface returns it: the item, or the text
    of the error as a new C string. *)
Definition c_returns (search : M (World OS) (result SafeLocatorItem BufferSearchError)) w
    (g : GetBufferResult) w' : Prop :=
  if gr_is_ok g
  then search w = Done (Ok {| SafeLocatorItem.item := gr_ok g |}) w'
  else exists e w1 os', search w = Done (Err e) w1 /\
    into_raw (BufferSearchError.to_string e) (w_os w1) = (gr_err g, os') /\ w' = set_os os' w1.

(** Exactly one of the two pointers of the result is set. *)
Definition c_result (a : Z) (l : list Z) (settings : BufferSearchSettings) w
    (g : GetBufferResult) w' : Prop :=
  c_returns (Buffers.get_buffer settings) w g w' /\
  exists l', inv a l' w' /\
    if gr_is_ok g
    then gr_err g = 0 /\
      acquired l (BufferSearchSettings.size settings) (BufferSearchSettings.min_address settings)
        (BufferSearchSettings.max_address settings) w
        {| SafeLocatorItem.item := gr_ok g |} l' w'
    else gr_ok g = 0 /\ gr_err g <> 0 /\ evolves l w l' w'.

Lemma buffers_get_buffer_spec a l w settings :
  granule_fits -> concat_ok -> ready a l w -> BufferSearchSettings.wf settings ->
  BufferSearchSettings.size settings + granularity <= u32_max ->
  wp (buffers_get_buffer settings) (c_result a l settings w) w.
Proof.
  intros Hfits Hc Hr Hwf Hbig. unfold buffers_get_buffer. wp_step.
  eapply wp_mono; [by apply wp_ran, get_buffer_spec|].
  intros [[p]|e] w' (E & l' & Hi & Hs); simpl in Hs.
  - wp_step. split; [done|by exists l'].
  - destruct Hs as (Hev & _ & Htext). wp_step.
    eapply wp_mono; [apply raw_error_spec; [apply (inv_os _ _ _ Hi)|by apply search_error_no_nul]|].
    intros p w2 (Hp & os' & Hraw & -> & [Hok Hg]). wp_step. split; [by exists e, w', os'|]. exists l'.
    destruct (evolves_after_os a l l' w w' os') as [? ?]; try done.
Qed.

(** What the caller can do with a result: its item is registered, or its text
    exists. *)
Definition returned (a : Z) (g : GetBufferResult) w' : Prop :=
  exists l', inv a l' w' /\
  if gr_is_ok g then exists it, w_items w' !! gr_ok g = Some it /\ LocatorItem.wf it
  else gr_err g <> 0.

(** Giving a result back: the flag of the item is reset, so that it is free for
    the next search, or the C string of the error is dropped; that is all that
    happens, and the chain is intact. *)
Definition given_back (a : Z) (g : GetBufferResult) w w' : Prop :=
  (exists l, inv a l w') /\
  if gr_is_ok g
  then exists it, w_items w !! gr_ok g = Some it /\
    w' = set_items (<[gr_ok g := LocatorItem.set_is_taken 0 it]> (w_items w)) w
  else w' = set_os (drop_raw (gr_err g) (w_os w)).2 w.

Lemma free_get_buffer_result_spec a g w' :
  returned a g w' -> wp (free_get_buffer_result g) (fun _ w2 => given_back a g w' w2) w'.
Proof.
  intros (l' & Hi & Hg). unfold free_get_buffer_result, given_back.
  destruct (gr_is_ok g).
  - destruct Hg as (it & Hit & Hwf). eapply wp_item_method; [done|]. split; [|by eauto].
    exists l'. eapply inv_update_item; try done; [by apply LocatorItem.set_is_taken_wf|by left].
  - unfold free_string. destruct (Z.eqb_spec (gr_err g) 0); [done|].
    apply wp_lift_os, wp_call. destruct (drop_raw_spec (gr_err g) _ (inv_os _ _ _ Hi)) as [Hok Hk].
    split; [|done]. exists l'. apply set_os_inv; [done|done|]. intros x. apply Hk.
Qed.

Lemma c_result_returned a l settings w g w' : c_result a l settings w g w' -> returned a g w'.
Proof.
  intros (_ & l' & Hi & Hg). exists l'. split; [done|]. destruct (gr_is_ok g).
  - destruct Hg as [_ Haq]. destruct (aq_item _ _ _ _ _ _ _ _ Haq) as (it & Hit & Hwf & _). eauto.
  - by destruct Hg as (_ & ? & _).
Qed.

(** *** Aligned searches *)

Definition c_aligned_result (a : Z) (l : list Z) (settings : BufferSearchSettings) (alignment : Z) w
    (g : GetBufferResult) w' : Prop :=
  c_returns (Buffers.get_buffer_aligned settings alignment) w g w' /\
  exists l', ready a l' w' /\
    if gr_is_ok g
    then gr_err g = 0 /\ registered (w_headers w') l' (gr_ok g) /\
      (exists it, w_items w' !! gr_ok g = Some it /\ aligned_item settings alignment it) /\
      (forall p, registered (w_headers w) l p -> p <> gr_ok g -> w_items w' !! p = w_items w !! p)
    else gr_ok g = 0 /\ gr_err g <> 0 /\ evolves l w l' w'.

(** The settings that an error of [get_buffer_aligned] names are those asked
    for, with the size raised; its text has no NUL. *)
Lemma buffers_get_buffer_aligned_spec a l w settings alignment :
  granule_fits -> concat_ok -> ready a l w -> BufferSearchSettings.wf settings -> is_u32 alignment ->
  BufferSearchSettings.size settings + alignment + granularity <= u32_max ->
  wp (buffers_get_buffer_aligned settings alignment) (fun g w' =>
    c_aligned_result a l settings alignment w g w' /\ returned a g w') w.
Proof.
  intros Hfits Hc Hr Hwf Hal Hbig. unfold buffers_get_buffer_aligned. wp_step.
  eapply wp_mono; [by apply wp_ran, get_buffer_aligned_spec|].
  intros [[p]|e] w' (E & l' & Hr' & _ & _ & Hs); simpl in Hs.
  - wp_step. destruct Hs as (Hreg & (it & Hit & Hal') & Hoth). split; [split; [done|]|]; exists l'.
    + split; [done|]. simpl. split; [done|]. split; [done|]. by split; [exists it|].
    + split; [apply Hr'|]. exists it. split; [done|apply Hal'].
  - destruct Hs as (Hev & Htext). wp_step. destruct (Hr') as [Hi Ha].
    eapply wp_mono; [apply raw_error_spec; [apply (inv_os _ _ _ Hi)|by apply search_error_no_nul]|].
    intros p w2 (Hp & os' & Hraw & -> & [Hok Hg]). wp_step.
    destruct (evolves_after_os a l l' w w' os') as [? ?]; try done.
    split; [split; [by exists e, w', os'|]|]; exists l'; (split; [|done]); done.
Qed.

(** The range that [overwrite_allocated_code] of the C interface flushes. *)
Lemma c_overwrite_flush source target size data w :
  target_x86 = false -> cfg_windows = true ->
  0 <= size -> read_bytes source (Z.to_nat size) (w_bytes w) = Some data ->
  wp (overwrite_allocated_code source target size) (fun _ w' =>
    list.last (w_trace w') = Some (EvFlush target ((source +u size) -u target))) w.
Proof.
  intros Hx Hw Hs Hread. unfold overwrite_allocated_code.
  wp_step. apply wp_disable. wp_step. unfold copy_nonoverlapping. wp_step. wp_step. simpl.
  rewrite Hread. apply wp_copy_slice. wp_step. apply wp_restore.
  unfold clear_instruction_cache. rewrite Hx, Hw. unfold log_event. wp_step. simpl.
  by rewrite last_snoc.
Qed.

Lemma locatoritem_append_bytes_spec item data n bytes it w :
  read_bytes data (Z.to_nat n) (w_bytes w) = Some bytes -> has_room item it bytes w ->
  wp (locatoritem_append_bytes item data n) (appended false item it bytes w) w.
Proof.
  intros Hread Hroom. unfold locatoritem_append_bytes. wp_step. wp_step. rewrite Hread.
  by apply append_bytes_spec.
Qed.

(** ** Private memory *)

(** No error text of the platform has a NUL in it. *)
Class PlainErrors := {
  plain_error s e os os' :
    BufferAllocatorSettings.wf s -> allocate_platform s os = Done (Err e) os' ->
    has_nul (BufferAllocationError.text e) = false
}.
Context `{PE : !PlainErrors}.

Lemma allocation_error_no_nul e :
  concat_ok -> has_nul (BufferAllocationError.text e) = false ->
  has_nul (BufferAllocationError.to_string e) = false.
Proof.
  intros Hc Ht. unfold BufferAllocationError.to_string.
  destruct feature_no_format; [by rewrite Hc, has_nul_app, Ht|].
  unfold debug_allocator_settings, debug_int, debug_bool.
  rewrite !has_nul_app, !has_nul_pretty, Ht. by destruct (BufferAllocatorSettings.brute_force _).
Qed.

Lemma allocate_private_memory_plain settings os :
  os_ok os -> private_request settings ->
  wp (Buffers.allocate_private_memory settings) (fun r _ => match r.2 with
    | Ok _ => True
    | Err e => has_nul (BufferAllocationError.text e) = false
    end) os.
Proof.
  intros Hok (Hwf & Hbig & Hpid). unfold Buffers.allocate_private_memory, allocate. wp_step. wp_step.
  pose proof (BufferAllocatorSettings.sanitize_wf _ Hwf) as Hsan.
  destruct (BufferAllocatorSettings.sanitize_size_covers _ Hwf Hbig) as (_ & Hdiv & Hsz).
  eapply wp_mono; [apply wp_ran, allocate_platform_spec; [done|done|done|]|].
  { rewrite BufferAllocatorSettings.sanitize_pid, Hpid. apply reachable_self. }
  intros [it|e] os' [E H]; wp_step; [|by apply (plain_error _ e _ _ Hsan E)].
  destruct H as (_ & [Hb _ _ _ _ _] & _). destruct (Z.eqb_spec (LocatorItem.base_address it) 0); [lia|].
  by wp_step.
Qed.

(** The result of an allocation: fresh memory that suits the settings, or the
    empty allocation and the text of the error as a new C string. *)
Definition c_allocation (settings : BufferAllocatorSettings) w (res : AllocationResult) w' : Prop :=
  (exists os', w' = set_os os' w /\ grows (w_os w) os') /\
  let sanitized := BufferAllocatorSettings.sanitize settings in
  let base := PrivateAllocation.base_address (ar_ok res) in
  let n := PrivateAllocation.size (ar_ok res) in
  if ar_is_ok res
  then Buffers.allocate_private_memory settings (w_os w) = Done (sanitized, Ok (ar_ok res)) (w_os w') /\
    ar_err res = 0 /\ 0 < n /\ BufferAllocatorSettings.size settings <= n /\
    BufferAllocatorSettings.min_address settings <= base /\
    base + n <= BufferAllocatorSettings.max_address settings /\
    forall x, base <= x < base + n -> ~ owned (w_os w) x /\ owned (w_os w') x
  else ar_ok res = PrivateAllocation.null /\ ar_err res <> 0 /\ exists e os1,
    Buffers.allocate_private_memory settings (w_os w) = Done (sanitized, Err e) os1 /\
    into_raw (BufferAllocationError.to_string e) os1 = (ar_err res, w_os w').

Context `{PL : !PosixLaws} `{WML : !WindowsMemoryLaws} `{RL : !ReleaseLaws} `{TA : !TracksAllocations}.

(** What comes back can be dropped. *)
Definition droppable (res : AllocationResult) w : Prop :=
  ar_is_ok res = true -> own_allocation (ar_ok res) (w_os w).

Lemma buffers_allocate_private_memory_spec settings w :
  concat_ok -> os_ok (w_os w) -> private_request settings ->
  wp (buffers_allocate_private_memory settings) (fun r w' =>
    r.1 = BufferAllocatorSettings.sanitize settings /\
    c_allocation settings w r.2 w' /\ droppable r.2 w') w.
Proof.
  intros Hc Hok (Hwf & Hbig & Hpid). pose proof reachable_self as Hself. rewrite <- Hpid in Hself.
  unfold buffers_allocate_private_memory. apply wp_bind, wp_lift_os.
  eapply wp_mono; [apply wp_ran, wp_and; [by apply allocate_private_memory_spec|apply wp_and;
    [by apply (allocate_private_memory_tracked settings (w_os w))|by apply allocate_private_memory_plain]]|].
  intros [s' [alloc|e]] os' (E & (Hg & Heq & Hr) & Htr & Hpl); simpl in *; subst s'.
  - destruct Hr as (Hp & ? & ? & ? & ? & ? & _ & Hf). wp_step. split; [done|].
    split; [|intros _; split; [simpl; congruence|done]]. split; [by exists os'|]. by simpl.
  - apply wp_bind. eapply wp_mono; [apply raw_error_spec; [apply Hg|by apply allocation_error_no_nul, Hpl]|].
    intros p w2 (Hp & os2 & Hraw & -> & Hg2). wp_step. split; [done|]. split; [|done].
    split; [exists os2; split; [done|by eapply grows_trans]|].
    split; [done|]. split; [done|]. by exists e, os'.
Qed.

(** Giving it back.  On success the memory is released: nothing else changes
    hands, and it is gone if the system says so.  On an error the C string is
    dropped, and then the empty allocation, which owns nothing. *)
Definition released (res : AllocationResult) w w2 : Prop :=
  exists os2, w2 = set_os os2 w /\
  if ar_is_ok res
  then frees (PrivateAllocation.base_address (ar_ok res)) (PrivateAllocation.size (ar_ok res))
    (release_succeeds (ar_ok res) (w_os w)) (w_os w) os2
  else keeps (w_os w) os2 /\
    PrivateAllocation.drop (ar_ok res) (drop_raw (ar_err res) (w_os w)).2 = Done tt os2.

(** The drop at its end may panic, see [drop_panics]. *)
Definition release_panics (res : AllocationResult) w : Prop :=
  drop_panics (ar_ok res) (if ar_is_ok res then w_os w else (drop_raw (ar_err res) (w_os w)).2).

Lemma free_allocation_result_spec settings w res w' :
  os_ok (w_os w) -> c_allocation settings w res w' -> droppable res w' ->
  wp_unless (release_panics res w') (free_allocation_result res) (fun _ w2 =>
    released res w' w2 /\ grows (w_os w) (w_os w2)) w'.
Proof.
  intros Hok ((os' & -> & [Hok' Hg]) & Hres) Hdrop.
  unfold free_allocation_result, droppable, released, release_panics in *.
  destruct (ar_is_ok res).
  - destruct Hres as (_ & _ & _ & _ & _ & _ & Hf). apply wp_unless_lift_os. simpl.
    eapply wp_unless_mono; [by apply drop_spec, Hdrop|]. intros [] os2 Hfr. split; [by exists os2|].
    destruct Hfr as [Hok2 _ Hrest _]. split; [done|]. intros x Hx.
    apply Hrest; [by apply Hg|]. intros Hin. by apply (Hf x Hin).
  - destruct Hres as (-> & Hne & _). unfold free_string.
    destruct (Z.eqb_spec (ar_err res) 0) as [|_]; [done|].
    apply wp_unless_bind, wp_lift_os, wp_call. simpl.
    destruct (drop_raw_spec (ar_err res) os' Hok') as [Hok2 Hk2].
    apply wp_unless_lift_os. eapply wp_unless_mono; [by apply wp_unless_run, drop_null_spec|].
    intros [] os3 [E [Hok3 Hk3]]. split.
    + exists os3. split; [done|]. split; [|done]. split; [done|]. intros x. by rewrite Hk3, Hk2.
    + split; [done|]. intros x Hx. by apply Hk3, Hk2, Hg.
Qed.

End c_spec.
