(* ===== verification/HeaderThreads.v ===== *)
(** * Threads that share a locator

    [get_first_available_item_locked] and [try_allocate_item] of
    locator_header.rs, [try_lock], [unlock] and the appends of locator_item.rs,
    as atomic steps of any number of threads.  A step is one access to shared
    memory; the steps are interleaved in any order. *)

From stdpp Require Import functions.
From S2P Require Import Prelude Mathematics Items Headers.

Module HeaderThreads.
Import LocatorHeader.

Record request := { rq_size : Z; rq_min : Z; rq_max : Z }.

(** Where a thread is. *)
Inductive pc :=
| Idle
| Scan (rq : request) (i final : Z)       (* at item [i] of the loop *)
| Swap (rq : request) (i final : Z)       (* [can_use] was true, before [try_lock] *)
| Check (rq : request)                    (* before the first [is_full] *)
| Spin (rq : request)                     (* in [lock] *)
| Recheck (rq : request)                  (* behind [lock] *)
| Allocate (rq : request)                 (* before [allocate] *)
| Store (rq : request) (it : LocatorItem) (* before [*target = allocated_memory] *)
| Count (rq : request) (i : Z)            (* before [num_items += 1] *)
| Unlock (r : option (request * Z))       (* before [unlock] *)
| Hold (rq : request) (i : Z).            (* the item was returned *)

Section threads.
Context `{T : Target}.
#[local] Abbreviation slots := (gmap Z LocatorItem).

(** What a request gets from a usable item. *)
Definition suits (rq : request) (it : LocatorItem) : Prop :=
  LocatorItem.provides it (rq_size rq) (rq_min rq) (rq_max rq).
Definition usable (rq : request) (it : LocatorItem) : bool :=
  LocatorItem.can_use it (rq_size rq) (rq_min rq) (rq_max rq).

(** One step of one thread; the item of a slot is found by its index. *)
Inductive local : LocatorHeader -> slots -> pc -> LocatorHeader -> slots -> pc -> Prop :=
| l_start h its rq :
    local h its Idle h its (Scan rq 0 (num_items h))
| l_skip h its rq i f it :
    i < f -> its !! i = Some it -> usable rq it = false ->
    local h its (Scan rq i f) h its (Scan rq (i + 1) f)
| l_usable h its rq i f it :
    i < f -> its !! i = Some it -> usable rq it = true ->
    local h its (Scan rq i f) h its (Swap rq i f)
| l_swap h its rq i f it :
    its !! i = Some it ->
    local h its (Swap rq i f) h (<[i := (LocatorItem.try_lock it).2]> its)
      (if (LocatorItem.try_lock it).1 then Hold rq i else Scan rq (i + 1) f)
| l_scanned h its rq i f :
    f <= i -> local h its (Scan rq i f) h its (Check rq)
| l_check h its rq :
    local h its (Check rq) h its (if is_full h then Idle else Spin rq)
| l_lock h its rq :
    local h its (Spin rq) (LocatorHeader.try_lock h).2 its
      (if (LocatorHeader.try_lock h).1 then Recheck rq else Spin rq)
| l_recheck h its rq :
    local h its (Recheck rq) h its (if is_full h then Unlock None else Allocate rq)
| l_allocated h its rq it :
    LocatorItem.wf it -> suits rq it -> LocatorItem.is_taken it = 0 ->
    local h its (Allocate rq) h its (Store rq (LocatorItem.try_lock it).2)
| l_no_memory h its rq :
    local h its (Allocate rq) h its (Unlock None)
| l_store h its rq it :
    local h its (Store rq it) h (<[num_items h := it]> its) (Count rq (num_items h))
| l_count h its rq i :
    local h its (Count rq i) (set_num_items (add_u8 (num_items h) 1) h) its (Unlock (Some (rq, i)))
| l_unlock h its r :
    local h its (Unlock r) (LocatorHeader.unlock h) its
      (match r with Some (rq, i) => Hold rq i | None => Idle end)
| l_append h its rq i it pos :
    its !! i = Some it -> LocatorItem.position it <= pos <= LocatorItem.size it ->
    local h its (Hold rq i) h (<[i := LocatorItem.set_position pos it]> its) (Hold rq i)
| l_release h its rq i it :
    its !! i = Some it ->
    local h its (Hold rq i) h (<[i := LocatorItem.unlock it]> its) Idle.

Record state := { header : LocatorHeader; items : slots; threads : nat -> pc }.

Inductive step : state -> state -> Prop :=
| step_thread s t h' its' p' :
    local (header s) (items s) (threads s t) h' its' p' ->
    step s {| header := h'; items := its'; threads := <[t := p']> (threads s) |}.

Inductive steps : state -> state -> Prop :=
| steps_refl s : steps s s
| steps_one s1 s2 s3 : steps s1 s2 -> step s2 s3 -> steps s1 s3.

(** ** Invariants *)

(** Inside the header's lock, and the item a thread has for itself. *)
Definition critical (p : pc) : bool :=
  match p with
  | Recheck _ | Allocate _ | Store _ _ | Count _ _ | Unlock _ => true
  | _ => false
  end.
Definition owned (p : pc) : option Z :=
  match p with
  | Count _ i | Unlock (Some (_, i)) | Hold _ i => Some i
  | _ => None
  end.

(** The shared data. *)
Record data_ok (h : LocatorHeader) (its : slots) : Prop := {
  d_count : 0 <= num_items h <= MAX_ITEM_COUNT;
  d_lock : is_locked h = 0 \/ is_locked h = 1;
  d_items i : 0 <= i < num_items h -> exists it, its !! i = Some it /\ LocatorItem.wf it /\
    (LocatorItem.is_taken it = 0 \/ LocatorItem.is_taken it = 1)
}.

(** What a thread knows where it is. *)
Definition pc_ok (h : LocatorHeader) (p : pc) : Prop :=
  match p with
  | Scan _ i f => 0 <= i /\ f <= num_items h
  | Swap _ i f => 0 <= i < f /\ f <= num_items h
  | Allocate _ => num_items h < MAX_ITEM_COUNT
  | Store _ it => num_items h < MAX_ITEM_COUNT /\ LocatorItem.wf it /\ LocatorItem.is_taken it = 1
  | Count _ i => num_items h < MAX_ITEM_COUNT /\ i = num_items h
  | Unlock (Some (_, i)) | Hold _ i => 0 <= i < num_items h
  | _ => True
  end.

Record thread_ok (h : LocatorHeader) (its : slots) (p : pc) : Prop := {
  k_lock : critical p = true -> is_locked h = 1;
  k_pc : pc_ok h p;
  k_item i : owned p = Some i ->
    exists it, its !! i = Some it /\ LocatorItem.wf it /\ LocatorItem.is_taken it = 1
}.

(** Two different threads. *)
Record apart (p q : pc) : Prop := {
  a_lock : critical p = true -> critical q = true -> False;
  a_item i : owned p = Some i -> owned q = Some i -> False
}.

Lemma apart_sym p q : apart p q -> apart q p.
Proof. intros []. constructor; eauto. Qed.

Record good (s : state) : Prop := {
  g_data : data_ok (header s) (items s);
  g_thread t : thread_ok (header s) (items s) (threads s t);
  g_apart t u : t <> u -> apart (threads s t) (threads s u)
}.

Lemma not_full_room h : is_full h = false -> num_items h < MAX_ITEM_COUNT.
Proof. unfold is_full. rewrite Z.geb_leb. intros. bool_props. lia. Qed.

Lemma full_not_room h : is_full h = true -> MAX_ITEM_COUNT <= num_items h.
Proof. unfold is_full. rewrite Z.geb_leb. intros. bool_props. lia. Qed.

Lemma count_small h :
  0 <= num_items h < MAX_ITEM_COUNT -> add_u8 (num_items h) 1 = num_items h + 1.
Proof. pose proof MAX_ITEM_COUNT_range. intros. apply add_u8_small. lia. Qed.

(** Changing an item in place keeps the data and what other threads know, as
    long as the item stays taken for a thread that owns it. *)
Lemma data_update h its i it it' :
  data_ok h its -> its !! i = Some it -> LocatorItem.wf it' ->
  (LocatorItem.is_taken it' = 0 \/ LocatorItem.is_taken it' = 1) ->
  data_ok h (<[i := it']> its).
Proof.
  intros [? ? Hits] Hi Hwf Hflag. constructor; [done|done|]. intros j Hj.
  destruct (decide (i = j)) as [<-|]; [exists it'; by rewrite lookup_insert_eq|].
  rewrite lookup_insert_ne by done. by apply Hits.
Qed.

Lemma thread_update h its i it' q :
  thread_ok h its q ->
  (owned q = Some i -> LocatorItem.wf it' /\ LocatorItem.is_taken it' = 1) ->
  thread_ok h (<[i := it']> its) q.
Proof.
  intros [? ? Hown] Hnew. constructor; [done|done|]. intros j Hj.
  destruct (decide (i = j)) as [<-|].
  - exists it'. rewrite lookup_insert_eq. split; [done|]. by apply Hnew.
  - rewrite lookup_insert_ne by done. by apply Hown.
Qed.

(** The slots of a locked header only grow for the thread inside. *)
Lemma pc_ok_mono h h' p :
  num_items h <= num_items h' -> critical p = false -> pc_ok h p -> pc_ok h' p.
Proof. destruct p as [|?|?|?|?|?|?|?|?|[[]|]|?]; simpl; intros; try done; lia. Qed.

Lemma local_data h its p h' its' p' :
  local h its p h' its' p' -> data_ok h its -> thread_ok h its p -> data_ok h' its'.
Proof.
  intros Hl Hd Hk. destruct (Hd) as [Hnum Hlock Hits], (Hk) as [Hkl Hkp Hki].
  destruct Hl; simpl in *; try done.
  - destruct (Hits i) as (it' & Hit' & Hwf & ?); [lia|].
    eapply data_update; [done|done| |by right].
    assert (it' = it) as -> by congruence. by apply LocatorItem.set_is_taken_wf.
  - unfold LocatorHeader.try_lock. case_bool; [|done]. by constructor; [|right|].
  - constructor; [done|done|]. intros j Hj. rewrite lookup_insert_ne by lia. by apply Hits.
  - destruct Hkp as [? ->]. rewrite count_small by lia.
    destruct (Hki _ eq_refl) as (it & Hit & Hwf & Htk).
    constructor; simpl; [lia|done|]. intros j Hj.
    destruct (decide (j = num_items h)) as [->|]; [eauto|]. apply Hits. lia.
  - by constructor; [|left|].
  - destruct (Hki _ eq_refl) as (it' & Hit' & Hwf & Htk). assert (it' = it) as -> by congruence.
    eapply data_update; [done|done| |by right]. apply LocatorItem.set_position_wf; [done|].
    destruct Hwf. lia.
  - destruct (Hki _ eq_refl) as (it' & Hit' & Hwf & Htk). assert (it' = it) as -> by congruence.
    eapply data_update; [done|done| |by left]. by apply LocatorItem.set_is_taken_wf.
Qed.

Lemma local_thread h its p h' its' p' :
  local h its p h' its' p' -> data_ok h its -> thread_ok h its p -> thread_ok h' its' p'.
Proof.
  intros Hl Hd Hk. destruct (Hd) as [Hnum Hlock Hits], (Hk) as [Hkl Hkp Hki].
  destruct Hl; simpl in *; try (by constructor).
  - constructor; simpl; [done|lia|done].
  - constructor; simpl; [done|lia|done].
  - destruct (Hits i) as (it' & Hit' & Hwf & ?); [lia|].
    assert (it' = it) as -> by congruence.
    destruct (_ =? 0); constructor; simpl; try done; try lia.
    intros j [= <-]. rewrite lookup_insert_eq. eexists. split; [done|]. split; [|done].
    by apply LocatorItem.set_is_taken_wf.
  - by destruct (is_full h); constructor.
  - unfold LocatorHeader.try_lock. by case_bool; constructor.
  - destruct (is_full h) eqn:E; constructor; simpl; try done. by apply not_full_room.
  - constructor; simpl; [done| |done]. split; [done|]. split; [|done].
    by apply LocatorItem.set_is_taken_wf.
  - destruct Hkp as (? & ? & ?). constructor; simpl; [by intros; apply Hkl|done|].
    intros j [= <-]. rewrite lookup_insert_eq. eauto.
  - destruct Hkp as [? ->]. constructor; simpl; [by intros; apply Hkl| |done].
    rewrite count_small by lia. lia.
  - destruct r as [[rq i]|]; by constructor.
  - destruct (Hki _ eq_refl) as (it' & Hit' & Hwf & Htk). assert (it' = it) as -> by congruence.
    apply thread_update; [done|]. intros _. split; [|done].
    apply LocatorItem.set_position_wf; [done|]. destruct Hwf. lia.
Qed.

(** What another thread knows survives the step. *)
Lemma local_other h its p h' its' p' q :
  local h its p h' its' p' -> data_ok h its -> thread_ok h its p ->
  thread_ok h its q -> apart p q -> thread_ok h' its' q.
Proof.
  intros Hl Hd Hk Hq Hap. destruct (Hd) as [Hnum _ _], (Hk) as [Hkl Hkp Hki], (Hq) as [Hql Hqp Hqi].
  destruct (Hap) as [Hal Hai].
  destruct Hl; simpl in *; try done.
  - apply thread_update; [done|]. intros Hown. destruct (Hqi _ Hown) as (it' & Hit' & Hwf & _).
    assert (it' = it) as -> by congruence. split; [|done]. by apply LocatorItem.set_is_taken_wf.
  - unfold LocatorHeader.try_lock. case_bool; [|done]. by constructor.
  - apply thread_update; [done|]. intros Hown. exfalso.
    destruct q as [|?|?|?|?|?|?|?|?|[[]|]|?]; simpl in *; simplify_eq; eauto; lia.
  - destruct Hkp as [? ->]. constructor; simpl; [done| |done].
    apply (pc_ok_mono h); [|destruct (critical q); [by destruct Hal|done]|done].
    simpl. rewrite count_small by lia. lia.
  - constructor; simpl; [|done|done]. intros Hc. by destruct Hal.
  - apply thread_update; [done|]. intros Hown. by destruct (Hai i).
  - apply thread_update; [done|]. intros Hown. by destruct (Hai i).
Qed.

(** The step keeps the threads apart. *)
Lemma local_apart h its p h' its' p' q :
  local h its p h' its' p' -> data_ok h its -> thread_ok h its p ->
  thread_ok h its q -> apart p q -> apart p' q.
Proof.
  intros Hl Hd [Hkl Hkp Hki] [Hql Hqp Hqi] [Hal Hai].
  destruct Hl; simpl in *; try (by constructor).
  - destruct (Z.eqb_spec (LocatorItem.is_taken it) 0); constructor; simpl; try done.
    intros j [= <-] Hown. destruct (Hqi _ Hown) as (it' & Hit' & _ & ?). congruence.
  - by destruct (is_full h); constructor.
  - unfold LocatorHeader.try_lock. case_bool; constructor; simpl; try done.
    intros _ Hc. specialize (Hql Hc). lia.
  - destruct (is_full h); constructor; simpl; try done.
  - constructor; simpl; [done|]. intros j [= <-] Hown.
    destruct q as [|?|?|?|?|?|?|?|?|[[]|]|?]; simpl in *; simplify_eq; eauto; lia.
  - destruct r as [[rq i]|]; constructor; simpl; try done.
Qed.

Lemma locator_good_step s s' : good s -> step s s' -> good s'.
Proof.
  intros Hg Hs. revert Hg. destruct Hs as [s t h' its' p' Hl]. intros [Hd Hk Ha].
  constructor; simpl.
  - exact (local_data _ _ _ _ _ _ Hl Hd (Hk t)).
  - intros u. destruct (decide (t = u)) as [<-|Hne].
    + rewrite fn_lookup_insert. exact (local_thread _ _ _ _ _ _ Hl Hd (Hk t)).
    + rewrite fn_lookup_insert_ne by done.
      exact (local_other _ _ _ _ _ _ _ Hl Hd (Hk t) (Hk u) (Ha t u Hne)).
  - intros u v Huv. destruct (decide (t = u)) as [<-|Hu], (decide (t = v)) as [<-|Hv]; try done;
      rewrite ?fn_lookup_insert, ?fn_lookup_insert_ne by done; auto.
    + exact (local_apart _ _ _ _ _ _ _ Hl Hd (Hk t) (Hk v) (Ha t v Huv)).
    + apply apart_sym. exact (local_apart _ _ _ _ _ _ _ Hl Hd (Hk t) (Hk u) (Ha t u Hu)).
Qed.

(** A locator as [initialize] leaves it: no thread is at work. *)
Definition initial (s : state) : Prop :=
  data_ok (header s) (items s) /\ is_locked (header s) = 0 /\ forall t, threads s t = Idle.

Lemma locator_good_initial s : initial s -> good s.
Proof.
  intros (Hd & Hl & Hi). constructor; [done| |].
  - intros t. rewrite Hi. by constructor.
  - intros t u _. rewrite !Hi. by constructor.
Qed.

Lemma locator_good_steps s s' : initial s -> steps s s' -> good s'.
Proof. intros Hi. induction 1; [by apply locator_good_initial|]. eapply locator_good_step; eauto. Qed.

(** ** No lock is lost

    A taken lock has a thread inside, and a taken item a thread that holds it
    (or it was taken from the start). *)

Record accounted (s : state) : Prop := {
  ac_lock : is_locked (header s) = 1 -> exists t, critical (threads s t) = true;
  ac_item i it : 0 <= i < num_items (header s) -> items s !! i = Some it ->
    LocatorItem.is_taken it = 1 -> exists t, owned (threads s t) = Some i
}.

(** A thread other than [t] stays where it is. *)
Lemma others_keep (Pr : pc -> Prop) s t p' :
  (exists u, Pr (threads s u)) -> (Pr (threads s t) -> Pr p') ->
  exists u, Pr (<[t := p']> (threads s) u).
Proof.
  intros [u Hu] Hp. exists u. destruct (decide (t = u)) as [<-|].
  - rewrite fn_lookup_insert. auto.
  - by rewrite fn_lookup_insert_ne.
Qed.

Lemma this_one (Pr : pc -> Prop) s t p' : Pr p' -> exists u, Pr (<[t := p']> (threads s) u).
Proof. intros Hp. exists t. by rewrite fn_lookup_insert. Qed.

Lemma local_lock_kept h its p h' its' p' :
  local h its p h' its' p' -> is_locked h' = 1 ->
  critical p' = true \/ (is_locked h = 1 /\ critical p = false).
Proof.
  intros Hl. unfold LocatorHeader.try_lock in *.
  destruct Hl; simpl; auto; try (by case_match; simpl; auto).
  unfold LocatorHeader.try_lock. case_match; simpl; auto.
Qed.

Lemma local_item_kept h its p h' its' p' i it' :
  local h its p h' its' p' -> data_ok h its -> thread_ok h its p ->
  0 <= i < num_items h' -> its' !! i = Some it' -> LocatorItem.is_taken it' = 1 ->
  owned p' = Some i \/
  (0 <= i < num_items h /\ owned p <> Some i /\
   exists it, its !! i = Some it /\ LocatorItem.is_taken it = 1).
Proof.
  intros Hl Hd [Hkl Hkp Hki] Hi Hit Htk.
  destruct Hl; simpl in *; try (right; split; [done|]; split; [done|]; by eauto).
  - destruct (decide (i0 = i)) as [->|].
    + destruct (Z.eqb_spec (LocatorItem.is_taken it) 0); [by left|]. right.
      destruct Hd as [_ _ Hits]. destruct (Hits i) as (it2 & Hit2 & _ & ?); [lia|].
      split; [done|]. split; [done|]. exists it. split; [done|].
      assert (it2 = it) as -> by congruence. lia.
    + rewrite lookup_insert_ne in Hit by done. right. eauto.
  - unfold LocatorHeader.try_lock in Hi. right. split; [by case_bool|]. eauto.
  - right. rewrite lookup_insert_ne in Hit by lia. eauto.
  - destruct Hkp as [? ->]. destruct Hd as [? _ _]. rewrite count_small in Hi by lia.
    destruct (decide (i = num_items h)) as [->|]; [by left|]. right.
    split; [lia|]. split; [congruence|]. eauto.
  - destruct r as [[rq j]|]; simpl in *; [|by right; eauto].
    destruct (decide (j = i)) as [->|]; [by left|]. right.
    split; [done|]. split; [congruence|]. eauto.
  - destruct (decide (i0 = i)) as [->|]; [by left|].
    rewrite lookup_insert_ne in Hit by done. right.
    split; [done|]. split; [congruence|]. eauto.
  - destruct (decide (i0 = i)) as [->|].
    + rewrite lookup_insert_eq in Hit. injection Hit as <-. done.
    + rewrite lookup_insert_ne in Hit by done. right.
      split; [done|]. split; [congruence|]. eauto.
Qed.

Lemma accounted_step s s' : good s -> accounted s -> step s s' -> accounted s'.
Proof.
  intros Hg Ha Hs. revert Hg Ha. destruct Hs as [s t h' its' p' Hl].
  intros [Hd Hk _] [Hlock Hitem].
  constructor; simpl.
  - intros H1. destruct (local_lock_kept _ _ _ _ _ _ Hl H1) as [Hc|[Hold Hnc]].
    + by apply (this_one (fun p => critical p = true)).
    + apply (others_keep (fun p => critical p = true)); [by apply Hlock|congruence].
  - intros i it Hi Hit Htk.
    destruct (local_item_kept _ _ _ _ _ _ i it Hl Hd (Hk t) Hi Hit Htk) as
      [Ho|(Hi' & Hno & it0 & Hit0 & Htk0)].
    + by apply (this_one (fun p => owned p = Some i)).
    + apply (others_keep (fun p => owned p = Some i)); [eauto|done].
Qed.

Lemma accounted_steps s s' : initial s ->
  (forall i it, items s !! i = Some it -> LocatorItem.is_taken it = 0) ->
  steps s s' -> accounted s'.
Proof.
  intros Hi Hfree Hs.
  induction Hs as [s|s s2 s3 Hs IH H1].
  - destruct Hi as (_ & Hl & _). constructor; [congruence|]. intros i it _ Hit.
    rewrite (Hfree i it) by done. done.
  - eapply accounted_step; [by eapply locator_good_steps|by apply IH|done].
Qed.

Lemma locator_step_to s1 s2 t p h' its' p' :
  steps s1 s2 -> threads s2 t = p -> local (header s2) (items s2) p h' its' p' ->
  steps s1 {| header := h'; items := its'; threads := <[t := p']> (threads s2) |}.
Proof. intros Hs <- Hl. eapply steps_one; [exact Hs|]. by constructor. Qed.

End threads.
End HeaderThreads.
