(* ===== verification/MemoryThreads.v ===== *)
(** * Threads that write into their buffers

    The threads of HeaderThreads.v on any number of locators, with the memory
    behind the items: an allocation maps fresh memory, and an append stores its
    bytes one by one and then moves the position, while the other threads go
    on.  The locators are initialised at the start, and none is added: the
    threads that extend a chain are in ChainThreads.v.  Their buffers may
    overlap, as those that [initialize] puts into one large granule do.  Apart
    from the bytes where they do, no byte has two writers, and what was
    appended stays.  The page protection that an append changes around its stores is a trace in
    ItemOps.v and has no step here. *)

From stdpp Require Import functions.
From S2P Require Import Prelude Mathematics Items Headers World HeaderThreads.

(** The bytes of a store, one at a time. *)
Lemma read_bytes_intro data : forall a (m : gmap Z Z),
  (forall j, (j < length data)%nat -> m !! (a + Z.of_nat j) = data !! j) ->
  read_bytes a (length data) m = Some data.
Proof.
  Transparent read_bytes.
  induction data as [|d data IH]; intros a m H; [done|]. cbn [read_bytes length].
  pose proof (H 0%nat ltac:(simpl; lia)) as H0. rewrite Z.add_0_r in H0. rewrite H0. simpl.
  rewrite (IH (a + 1) m); [done|]. intros j Hj. specialize (H (S j)). simpl in H.
  rewrite <- H by lia. f_equal. lia.
  Opaque read_bytes.
Qed.

Module MemoryThreads.
Import LocatorHeader HeaderThreads.

(** An append under way: its bytes, and how many are stored. *)
Record append := { ap_data : list Z; ap_done : nat }.

Record state := {
  locators : Z -> HeaderThreads.state;
  mapped : Z -> Prop;
  bytes : gmap Z Z;
  appending : Z -> nat -> option append;
  log : list (Z * list Z)
}.

Section threads.
Context `{T : Target}.
#[local] Abbreviation slots := (gmap Z LocatorItem).

(** A step that neither allocates nor appends. *)
Definition quiet (p p' : pc) : Prop :=
  (forall rq it, p' <> Store rq it) /\ (forall rq i, p = Hold rq i -> p' = Idle).

Definition moved (l : HeaderThreads.state) (t : nat) (h' : LocatorHeader) (its' : slots) (p' : pc)
    : HeaderThreads.state :=
  {| header := h'; items := its'; threads := <[t := p']> (threads l) |}.
Definition set_locator (b : Z) (l : HeaderThreads.state) (s : state) : state :=
  {| locators := <[b := l]> (locators s); mapped := mapped s; bytes := bytes s;
     appending := appending s; log := log s |}.
Definition set_appending (b : Z) (t : nat) (a : option append) (s : state) : state :=
  {| locators := locators s; mapped := mapped s; bytes := bytes s;
     appending := <[b := <[t := a]> (appending s b)]> (appending s); log := log s |}.

(** Where the [k]th byte of an append to an item goes. *)
Definition target (it : LocatorItem) (k : nat) : Z :=
  LocatorItem.base_address it + LocatorItem.position it + Z.of_nat k.

(** A step of a thread at one locator, or of an append. *)
Inductive step : state -> state -> Prop :=
| m_quiet s b t h' its' p' :
    let l := locators s b in
    local (header l) (items l) (threads l t) h' its' p' -> quiet (threads l t) p' ->
    appending s b t = None ->
    step s (set_locator b (moved l t h' its' p') s)
| m_allocate s b t rq it :
    let l := locators s b in
    threads l t = Allocate rq ->
    LocatorItem.wf it -> suits rq it -> LocatorItem.is_taken it = 0 ->
    (forall x, LocatorItem.in_buffer it x -> ~ mapped s x) ->
    step s {| locators := <[b := moved l t (header l) (items l) (Store rq (LocatorItem.try_lock it).2)]>
                (locators s);
              mapped := fun x => mapped s x \/ LocatorItem.in_buffer it x;
              bytes := bytes s; appending := appending s; log := log s |}
| m_append s b t rq i it data :
    threads (locators s b) t = Hold rq i -> items (locators s b) !! i = Some it ->
    appending s b t = None ->
    LocatorItem.position it + Z.of_nat (length data) <= LocatorItem.size it ->
    step s (set_appending b t (Some {| ap_data := data; ap_done := 0 |}) s)
| m_store s b t rq i it a d :
    threads (locators s b) t = Hold rq i -> items (locators s b) !! i = Some it ->
    appending s b t = Some a -> ap_data a !! ap_done a = Some d ->
    step s (set_appending b t (Some {| ap_data := ap_data a; ap_done := S (ap_done a) |})
      {| locators := locators s; mapped := mapped s;
         bytes := <[target it (ap_done a) := d]> (bytes s);
         appending := appending s; log := log s |})
| m_advance s b t rq i it a :
    let l := locators s b in
    threads l t = Hold rq i -> items l !! i = Some it ->
    appending s b t = Some a -> ap_done a = length (ap_data a) ->
    step s (set_appending b t None
      {| locators := <[b := moved l t (header l)
           (<[i := LocatorItem.set_position
                (LocatorItem.position it + Z.of_nat (length (ap_data a))) it]> (items l))
           (Hold rq i)]> (locators s);
         mapped := mapped s; bytes := bytes s; appending := appending s;
         log := (target it 0, ap_data a) :: log s |}).

(** ** Buffers in use *)

(** A buffer belongs to a slot that is counted, or about to be, or to a thread
    about to store its new item. *)
Inductive place := Slot (i : Z) | New (t : nat).

#[export] Instance place_eq_dec : EqDecision place.
Proof. solve_decision. Defined.

Definition live (l : HeaderThreads.state) (pl : place) (it : LocatorItem) : Prop :=
  match pl with
  | Slot i => items l !! i = Some it /\
      (0 <= i < num_items (header l) \/ exists t rq, threads l t = Count rq i)
  | New t => exists rq, threads l t = Store rq it
  end.

(** The same buffer, filled as far. *)
Definition same (it it' : LocatorItem) : Prop :=
  LocatorItem.base_address it' = LocatorItem.base_address it /\
  LocatorItem.size it' = LocatorItem.size it /\
  LocatorItem.position it' = LocatorItem.position it.

Lemma same_refl it : same it it.
Proof. done. Qed.

Lemma same_in_buffer it it' x : same it it' -> LocatorItem.in_buffer it' x -> LocatorItem.in_buffer it x.
Proof. intros (Hb & Hs & _). unfold LocatorItem.in_buffer. by rewrite Hb, Hs. Qed.

(** Header and slots of a quiet step: where a slot comes from. *)
Lemma quiet_items h its p h' its' p' i it' :
  local h its p h' its' p' -> quiet p p' -> its' !! i = Some it' ->
  (exists it, its !! i = Some it /\ same it it') \/
  (exists rq, p = Store rq it' /\ p' = Count rq i /\ i = num_items h).
Proof.
  intros Hl [Hs Hh] Hi. destruct Hl; try (left; by exists it').
  - destruct (decide (i0 = i)) as [->|]; [|rewrite lookup_insert_ne in Hi by done; left; by exists it'].
    rewrite lookup_insert_eq in Hi. injection Hi as <-. left. by exists it.
  - destruct (decide (num_items h = i)) as [<-|];
      [|rewrite lookup_insert_ne in Hi by done; left; by exists it'].
    rewrite lookup_insert_eq in Hi. injection Hi as <-. right. by exists rq.
  - by specialize (Hh rq i0 eq_refl).
  - destruct (decide (i0 = i)) as [->|]; [|rewrite lookup_insert_ne in Hi by done; left; by exists it'].
    rewrite lookup_insert_eq in Hi. injection Hi as <-. left. by exists it.
Qed.

(** And where it goes. *)
Lemma quiet_items_kept h its p h' its' p' i it :
  local h its p h' its' p' -> quiet p p' -> its !! i = Some it ->
  (exists it', its' !! i = Some it' /\ same it it') \/ (i = num_items h /\ exists rq jt, p = Store rq jt).
Proof.
  intros Hl [Hs Hh] Hi. destruct Hl; try (left; by exists it).
  - left. destruct (decide (i0 = i)) as [->|]; [|rewrite lookup_insert_ne by done; by exists it].
    rewrite lookup_insert_eq. eexists. split; [done|]. by assert (it0 = it) as -> by congruence.
  - destruct (decide (num_items h = i)) as [<-|]; [right; eauto|].
    left. rewrite lookup_insert_ne by done. by exists it.
  - by specialize (Hh rq i0 eq_refl).
  - left. destruct (decide (i0 = i)) as [->|]; [|rewrite lookup_insert_ne by done; by exists it].
    rewrite lookup_insert_eq. eexists. split; [done|]. by assert (it0 = it) as -> by congruence.
Qed.

(** The count only moves in the step of a thread that has stored its item. *)
Lemma quiet_count h its p h' its' p' :
  local h its p h' its' p' -> 0 <= num_items h < MAX_ITEM_COUNT \/ (forall rq i, p <> Count rq i) ->
  num_items h' = num_items h \/
  (exists rq i, p = Count rq i /\ num_items h' = num_items h + 1).
Proof.
  intros Hl Hroom. destruct Hl; simpl; try by left.
  - left. unfold LocatorHeader.try_lock. by case_match.
  - destruct Hroom as [Hroom|Hno]; [|by destruct (Hno rq i)]. rewrite count_small by done. right. eauto.
Qed.

Lemma step_to_count h its p h' its' rq i :
  local h its p h' its' (Count rq i) ->
  exists it, p = Store rq it /\ i = num_items h /\ its' = <[i := it]> its.
Proof.
  intros Hl. inversion Hl; subst; try done; try (by case_match).
  - eauto.
  - by destruct r as [[]|].
Qed.

Lemma step_of_count h its rq i h' its' p' :
  local h its (Count rq i) h' its' p' -> thread_ok h its (Count rq i) -> data_ok h its ->
  num_items h' = num_items h + 1 /\ i = num_items h.
Proof.
  intros Hl [_ [Hroom ->] _] [[Hnum _] _ _]. inversion Hl; subst. simpl.
  by rewrite count_small by lia.
Qed.

Lemma room_of_thread h its p :
  data_ok h its -> thread_ok h its p ->
  0 <= num_items h < MAX_ITEM_COUNT \/ (forall rq i, p <> Count rq i).
Proof.
  intros [[Hnum _] _ _] [_ Hpc _]. destruct p; try (by right). left. simpl in Hpc. lia.
Qed.

Section quiet.
Context (l : HeaderThreads.state) (t : nat) (h' : LocatorHeader) (its' : slots) (p' : pc).
Context (Hgood : HeaderThreads.good l) (Hquiet : quiet (threads l t) p').
Context (Hlocal : local (header l) (items l) (threads l t) h' its' p').

Let l' := moved l t h' its' p'.

(** A buffer in use was in use, by the same slot or thread, or by the thread
    that has just stored it. *)
Lemma live_back pl it' :
  live l' pl it' ->
  (exists it, live l pl it /\ same it it') \/
  (pl = Slot (num_items (header l)) /\ live l (New t) it' /\ forall jt, ~ live l' (New t) jt).
Proof using Hgood Hquiet Hlocal.
  pose proof (g_data _ Hgood) as Hd. pose proof (g_thread _ Hgood t) as Hk.
  destruct pl as [i|u]; unfold live, l', moved; simpl.
  - intros [Hi Hcond].
    assert (Hcases : (exists rq, p' = Count rq i) \/
      (0 <= i < num_items h' \/ exists u rq, u <> t /\ threads l u = Count rq i)).
    { destruct Hcond as [?|(u & rq & Hu)]; [by right; left|].
      destruct (decide (t = u)) as [<-|]; [rewrite fn_lookup_insert in Hu; left; by exists rq|].
      rewrite fn_lookup_insert_ne in Hu by done. right. right. by exists u, rq. }
    destruct Hcases as [[rq ->]|Hold].
    + right. destruct (step_to_count _ _ _ _ _ _ _ Hlocal) as (jt & Hp & -> & ->).
      rewrite lookup_insert_eq in Hi. injection Hi as ->. split; [done|].
      split; [by exists rq|]. intros kt [rq' Hn]. by rewrite fn_lookup_insert in Hn.
    + destruct (quiet_items _ _ _ _ _ _ _ _ Hlocal Hquiet Hi) as [(it & Hit & Hs)|(rq & Hp & Hp' & ->)].
      * left. exists it. split; [|done]. split; [done|].
        destruct Hold as [Hrange|(u & rq & _ & Hu)]; [|by right; exists u, rq].
        destruct (quiet_count _ _ _ _ _ _ Hlocal (room_of_thread _ _ _ Hd Hk)) as
          [Heq|(rq & j & Hp & Heq)]; [left; lia|].
        destruct Hk as [_ Hpc _]. rewrite Hp in Hpc. destruct Hpc as [_ ->].
        destruct (decide (i = num_items (header l))) as [->|]; [right; by exists t, rq|left; lia].
      * right. split; [done|]. split; [by exists rq|].
        intros kt [rq' Hn]. by rewrite fn_lookup_insert, Hp' in Hn.
  - intros [rq Hn]. destruct (decide (t = u)) as [<-|].
    + rewrite fn_lookup_insert in Hn. by destruct Hquiet as [Hs _]; destruct (Hs rq it').
    + rewrite fn_lookup_insert_ne in Hn by done. left. exists it'. split; [by exists rq|done].
Qed.

(** A slot in use stays in use. *)
Lemma live_kept i it :
  live l (Slot i) it -> exists it', live l' (Slot i) it' /\ same it it'.
Proof using Hgood Hquiet Hlocal.
  pose proof (g_data _ Hgood) as Hd. pose proof (g_thread _ Hgood t) as Hk.
  intros [Hi Hcond]. unfold live, l', moved; simpl.
  destruct (quiet_items_kept _ _ _ _ _ _ _ _ Hlocal Hquiet Hi) as [(it' & Hit' & Hs)|(-> & rq & jt & Hp)].
  - exists it'. split; [|done]. split; [done|].
    destruct Hcond as [?|(u & rq & Hu)].
    + left. destruct (quiet_count _ _ _ _ _ _ Hlocal (room_of_thread _ _ _ Hd Hk)) as
        [Heq|(rq & j & Hp & Heq)]; lia.
    + destruct (decide (t = u)) as [<-|]; [|right; exists u, rq; by rewrite fn_lookup_insert_ne].
      left. destruct Hd as [[Hnum ?] ? ?].
      rewrite Hu in Hlocal, Hk. destruct (step_of_count _ _ _ _ _ _ _ Hlocal Hk (g_data _ Hgood)); lia.
  - exfalso. destruct Hcond as [?|(u & rq' & Hu)]; [lia|].
    destruct (decide (t = u)) as [<-|Hne]; [congruence|].
    apply (a_lock _ _ (g_apart _ Hgood t u Hne)); [by rewrite Hp|by rewrite Hu].
Qed.

(** Another thread still holds its item, filled as far. *)
Lemma hold_kept u rq i it :
  u <> t -> threads l u = Hold rq i -> items l !! i = Some it ->
  threads l' u = Hold rq i /\ exists it', items l' !! i = Some it' /\ same it it'.
Proof using Hgood Hquiet Hlocal.
  intros Hne Hu Hit. split; [unfold l', moved; simpl; by rewrite fn_lookup_insert_ne|].
  assert (Hlive : live l (Slot i) it).
  { split; [done|left]. pose proof (k_pc _ _ _ (g_thread _ Hgood u)) as Hpc. by rewrite Hu in Hpc. }
  destruct (live_kept i it Hlive) as (it' & [? _] & ?). by exists it'.
Qed.
End quiet.

(** ** The invariant: buffers in use meet in [shared] bytes only *)

Section overlaps.
Context (shared : Z -> Prop).

Record memory_ok (s : state) : Prop := {
  mo_good b : HeaderThreads.good (locators s b);
  mo_mapped b pl it x :
    live (locators s b) pl it -> LocatorItem.in_buffer it x -> mapped s x;
  mo_disjoint b pl it c ql jt x :
    live (locators s b) pl it -> live (locators s c) ql jt -> (b, pl) <> (c, ql) ->
    LocatorItem.in_buffer it x -> LocatorItem.in_buffer jt x -> shared x;
  mo_pending b t a : appending s b t = Some a -> exists rq i it,
    threads (locators s b) t = Hold rq i /\ items (locators s b) !! i = Some it /\
    LocatorItem.position it + Z.of_nat (length (ap_data a)) <= LocatorItem.size it /\
    (ap_done a <= length (ap_data a))%nat /\
    (forall k, (k < ap_done a)%nat ->
       shared (target it k) \/ bytes s !! target it k = ap_data a !! k);
  mo_log addr data : (addr, data) ∈ log s ->
    (exists b i it, live (locators s b) (Slot i) it /\ LocatorItem.base_address it <= addr /\
      addr + Z.of_nat (length data) <= LocatorItem.base_address it + LocatorItem.position it) /\
    (forall k, (k < length data)%nat ->
       shared (addr + Z.of_nat k) \/ bytes s !! (addr + Z.of_nat k) = data !! k)
}.

(** A thread that has an item has a buffer in use. *)
Lemma hold_live l t rq i it :
  HeaderThreads.good l -> threads l t = Hold rq i -> items l !! i = Some it ->
  live l (Slot i) it /\ LocatorItem.wf it.
Proof.
  intros Hg Ht Hit. destruct (g_thread _ Hg t) as [_ Hpc Hown]. rewrite Ht in Hpc, Hown.
  destruct (Hown i eq_refl) as (it' & Hit' & Hwf & _). assert (it' = it) as -> by congruence.
  split; [|done]. split; [done|by left].
Qed.

Lemma live_wf l i it : HeaderThreads.good l -> live l (Slot i) it -> LocatorItem.wf it.
Proof.
  intros Hg [Hit [Hi|(u & rq & Hu)]].
  - destruct (d_items _ _ (g_data _ Hg) i Hi) as (it' & Hit' & Hwf & _). congruence.
  - destruct (k_item _ _ _ (g_thread _ Hg u) i) as (it' & Hit' & Hwf & _); [by rewrite Hu|congruence].
Qed.

(** Two different holders have different items. *)
Lemma hold_apart s b t rq i c u rq' j :
  memory_ok s -> threads (locators s b) t = Hold rq i -> threads (locators s c) u = Hold rq' j ->
  (b, t) <> (c, u) -> (b, Slot i) <> (c, Slot j).
Proof.
  intros Hok Ht Hu Hne [= <- <-]. assert (Htu : t <> u) by congruence.
  apply (a_item _ _ (g_apart _ (mo_good _ Hok b) t u Htu) i); [by rewrite Ht|by rewrite Hu].
Qed.

(** Where an append stores is its own item's, and free. *)
Lemma pending_target s b t a k :
  memory_ok s -> appending s b t = Some a -> (k < length (ap_data a))%nat ->
  exists rq i it, threads (locators s b) t = Hold rq i /\ items (locators s b) !! i = Some it /\
    live (locators s b) (Slot i) it /\ LocatorItem.in_free_part it (target it k) /\
    LocatorItem.in_buffer it (target it k).
Proof.
  intros Hok Ha Hk. destruct (mo_pending _ Hok b t a Ha) as (rq & i & it & Ht & Hit & Hroom & _).
  destruct (hold_live _ _ _ _ _ (mo_good _ Hok b) Ht Hit) as [Hlive [_ _ Hpos _]].
  exists rq, i, it. unfold LocatorItem.in_free_part, LocatorItem.in_buffer, target.
  repeat (split; [done|]). lia.
Qed.

(** Where a buffer in use comes from. *)
Definition origin (s s' : state) (b : Z) (t : nat) (n : Z) : Prop :=
  forall c pl it', live (locators s' c) pl it' -> exists pl0 it,
    live (locators s c) pl0 it /\ (forall x, LocatorItem.in_buffer it' x -> LocatorItem.in_buffer it x) /\
    (pl0 = pl \/
     (c = b /\ pl0 = New t /\ pl = Slot n /\ forall jt, ~ live (locators s' c) (New t) jt)).

Lemma origin_disjoint s s' b t n c pl it c' ql jt x :
  memory_ok s -> origin s s' b t n ->
  live (locators s' c) pl it -> live (locators s' c') ql jt -> (c, pl) <> (c', ql) ->
  LocatorItem.in_buffer it x -> LocatorItem.in_buffer jt x -> shared x.
Proof.
  intros Hok Ho H1 H2 Hne Hx Hx'.
  destruct (Ho _ _ _ H1) as (pl0 & it0 & Hl1 & Hb1 & Hc1).
  destruct (Ho _ _ _ H2) as (ql0 & jt0 & Hl2 & Hb2 & Hc2).
  refine (mo_disjoint _ Hok c pl0 it0 c' ql0 jt0 x Hl1 Hl2 _ (Hb1 x Hx) (Hb2 x Hx')).
  intros [= <- <-]. destruct Hc1 as [?|(? & ? & ? & Hno1)], Hc2 as [?|(? & ? & ? & Hno2)];
    simplify_eq; [by apply (Hno2 it)|by apply (Hno1 jt)].
Qed.

Lemma origin_mapped s s' b t n c pl it x :
  memory_ok s -> origin s s' b t n -> (forall y, mapped s y -> mapped s' y) ->
  live (locators s' c) pl it -> LocatorItem.in_buffer it x -> mapped s' x.
Proof.
  intros Hok Ho Hm Hl Hx. destruct (Ho _ _ _ Hl) as (pl0 & it0 & Hl0 & Hb0 & _).
  apply Hm. by eapply (mo_mapped _ Hok); [|apply Hb0].
Qed.

(** What was written stays written. *)
Definition slots_kept (s s' : state) : Prop :=
  forall c i it, live (locators s c) (Slot i) it -> exists it', live (locators s' c) (Slot i) it' /\
    LocatorItem.base_address it' = LocatorItem.base_address it /\
    LocatorItem.position it <= LocatorItem.position it'.

Lemma kept_log s s' addr data :
  memory_ok s -> slots_kept s s' -> bytes s' = bytes s -> (addr, data) ∈ log s ->
  (exists b i it, live (locators s' b) (Slot i) it /\ LocatorItem.base_address it <= addr /\
    addr + Z.of_nat (length data) <= LocatorItem.base_address it + LocatorItem.position it) /\
  (forall k, (k < length data)%nat ->
     shared (addr + Z.of_nat k) \/ bytes s' !! (addr + Z.of_nat k) = data !! k).
Proof.
  intros Hok Hkept Hb Hin. destruct (mo_log _ Hok addr data Hin) as [(b & i & it & Hl & Hlo & Hhi) Hread].
  split; [|by rewrite Hb]. destruct (Hkept _ _ _ Hl) as (it' & Hl' & Hbase & Hpos).
  exists b, i, it'. split; [done|]. rewrite Hbase. lia.
Qed.

(** ** Every step keeps it *)

Section moving.
Context (s : state) (b : Z) (t : nat) (Hok : memory_ok s).
#[local] Abbreviation l := (locators s b).

Lemma moved_good h' its' p' c :
  local (header l) (items l) (threads l t) h' its' p' ->
  HeaderThreads.good (<[b := moved l t h' its' p']> (locators s) c).
Proof using Hok.
  intros Hl. destruct (decide (b = c)) as [<-|].
  - rewrite fn_lookup_insert. apply (locator_good_step l); [apply (mo_good _ Hok)|by constructor].
  - rewrite fn_lookup_insert_ne by done. apply (mo_good _ Hok).
Qed.

Lemma quiet_origin h' its' p' :
  local (header l) (items l) (threads l t) h' its' p' -> quiet (threads l t) p' ->
  origin s (set_locator b (moved l t h' its' p') s) b t (num_items (header l)).
Proof using Hok.
  intros Hl Hq c pl it' Hlive. simpl in *. destruct (decide (b = c)) as [<-|Hne].
  - rewrite fn_lookup_insert in Hlive |- *.
    destruct (live_back l t h' its' p' (mo_good _ Hok b) Hq Hl pl it' Hlive)
      as [(it & Hl0 & Hs)|(-> & Hl0 & Hno)].
    + exists pl, it. split; [done|]. split; [by intros; eapply same_in_buffer|by left].
    + exists (New t), it'. split; [done|]. split; [done|by right].
  - rewrite fn_lookup_insert_ne in Hlive by done. exists pl, it'. by split; [|split; [|left]].
Qed.

Lemma quiet_kept h' its' p' :
  local (header l) (items l) (threads l t) h' its' p' -> quiet (threads l t) p' ->
  slots_kept s (set_locator b (moved l t h' its' p') s).
Proof using Hok.
  intros Hl Hq c i it Hlive. simpl. destruct (decide (b = c)) as [<-|Hne].
  - rewrite fn_lookup_insert.
    destruct (live_kept l t h' its' p' (mo_good _ Hok b) Hq Hl i it Hlive) as (it' & Hl' & Hb & _ & Hp).
    exists it'. split; [done|]. split; [done|lia].
  - rewrite fn_lookup_insert_ne by done. by exists it.
Qed.

Lemma quiet_ok h' its' p' :
  local (header l) (items l) (threads l t) h' its' p' -> quiet (threads l t) p' ->
  appending s b t = None -> memory_ok (set_locator b (moved l t h' its' p') s).
Proof using Hok.
  intros Hl Hq Hnone. pose proof (quiet_origin _ _ _ Hl Hq) as Ho.
  pose proof (quiet_kept _ _ _ Hl Hq) as Hk. constructor.
  - intros c. by apply moved_good.
  - intros c pl it x. by eapply (origin_mapped s).
  - intros c pl it c' ql jt x. by apply (origin_disjoint s _ b t (num_items (header l))).
  - intros c u a Ha. simpl in *. destruct (mo_pending _ Hok c u a Ha) as (rq & i & it & Hu & Hit & Hrest).
    exists rq, i. destruct (decide (b = c)) as [<-|Hne].
    + rewrite fn_lookup_insert. assert (Hut : u <> t) by congruence.
      destruct (hold_kept l t h' its' p' (mo_good _ Hok b) Hq Hl u rq i it Hut Hu Hit)
        as (Hu' & it' & Hit' & Hb & Hs & Hp).
      exists it'. unfold target. rewrite Hb, Hs, Hp. exact (conj Hu' (conj Hit' Hrest)).
    + rewrite fn_lookup_insert_ne by done. by exists it.
  - intros addr data. by apply (kept_log s).
Qed.

(** [allocate]: the new buffer is fresh. *)
Lemma allocate_ok rq it :
  threads l t = Allocate rq -> LocatorItem.wf it -> suits rq it -> LocatorItem.is_taken it = 0 ->
  (forall x, LocatorItem.in_buffer it x -> ~ mapped s x) ->
  memory_ok {| locators := <[b := moved l t (header l) (items l) (Store rq (LocatorItem.try_lock it).2)]>
                 (locators s);
               mapped := fun x => mapped s x \/ LocatorItem.in_buffer it x;
               bytes := bytes s; appending := appending s; log := log s |}.
Proof using Hok.
  intros Ht Hwf Hsu Htk Hfresh. set (it0 := (LocatorItem.try_lock it).2). set (s' := Build_state _ _ _ _ _).
  assert (Hnew : forall u rq' jt, <[t := Store rq it0]> (threads l) u = Store rq' jt ->
    (u = t /\ jt = it0) \/ threads l u = Store rq' jt).
  { intros u rq' jt. destruct (decide (t = u)) as [<-|];
      rewrite ?fn_lookup_insert, ?fn_lookup_insert_ne by done; [by intros [= -> ->]; left|by right]. }
  assert (Hother : forall u, threads l u <> Allocate rq ->
    <[t := Store rq it0]> (threads l) u = threads l u).
  { intros u Hu. apply fn_lookup_insert_ne. congruence. }
  assert (Hback : forall c pl jt, live (locators s' c) pl jt ->
    live (locators s c) pl jt \/ (c = b /\ pl = New t /\ jt = it0)).
  { intros c pl jt. simpl. destruct (decide (b = c)) as [<-|];
      [rewrite fn_lookup_insert|rewrite fn_lookup_insert_ne by done; by left].
    destruct pl as [i|u]; simpl.
    - intros [Hi [?|(u & rq' & Hu)]]; left; (split; [done|]); [by left|]. right. exists u, rq'.
      destruct (decide (t = u)) as [<-|]; [by rewrite fn_lookup_insert in Hu|].
      by rewrite fn_lookup_insert_ne in Hu.
    - intros [rq' [[-> ->]|Hu]%Hnew]; [by right|left; by exists rq']. }
  assert (Hin : forall x, LocatorItem.in_buffer it0 x -> LocatorItem.in_buffer it x).
  { intros x. unfold it0, LocatorItem.try_lock. by rewrite Htk. }
  constructor.
  - intros c. apply moved_good. rewrite Ht. by constructor.
  - intros c pl jt x [Hl|(-> & -> & ->)]%Hback Hx; [left; by eapply (mo_mapped _ Hok)|right; auto].
  - intros c pl jt c' ql kt x [H1|(-> & -> & ->)]%Hback [H2|(-> & -> & ->)]%Hback Hne Hx Hx'.
    + by eapply (mo_disjoint _ Hok c pl jt c' ql kt x).
    + exfalso. apply (Hfresh x); [by apply Hin|]. by eapply (mo_mapped _ Hok).
    + exfalso. apply (Hfresh x); [by apply Hin|]. by eapply (mo_mapped _ Hok).
    + done.
  - intros c u a Ha. simpl in *. destruct (mo_pending _ Hok c u a Ha) as (rq' & i & jt & Hu & Hrest).
    exists rq', i, jt. destruct (decide (b = c)) as [<-|Hne].
    + rewrite fn_lookup_insert. simpl. rewrite Hother by congruence. done.
    + by rewrite fn_lookup_insert_ne.
  - intros addr data. apply (kept_log s s'); [done| |done]. intros c i jt Hlive. exists jt. simpl.
    destruct (decide (b = c)) as [<-|]; [|by rewrite fn_lookup_insert_ne].
    rewrite fn_lookup_insert. split; [|done]. destruct Hlive as [Hi Hc]. split; [done|].
    destruct Hc as [?|(u & rq' & Hu)]; [by left|right]. exists u, rq'. simpl. rewrite Hother; congruence.
Qed.

(** What is under way after a change of one thread's append. *)
Lemma set_appending_cases c u a a' (s0 : state) :
  appending s0 = appending s -> appending (set_appending b t a s0) c u = Some a' ->
  (c = b /\ u = t /\ a = Some a') \/ ((c, u) <> (b, t) /\ appending s c u = Some a').
Proof using.
  intros Heq. simpl. rewrite Heq. destruct (decide (b = c)) as [<-|].
  - rewrite fn_lookup_insert. destruct (decide (t = u)) as [<-|].
    + rewrite fn_lookup_insert. by left.
    + rewrite fn_lookup_insert_ne by done. right. split; [congruence|done].
  - rewrite fn_lookup_insert_ne by done. right. split; [congruence|done].
Qed.

(** The start of an append. *)
Lemma append_ok rq i it data :
  threads l t = Hold rq i -> items l !! i = Some it ->
  LocatorItem.position it + Z.of_nat (length data) <= LocatorItem.size it ->
  memory_ok (set_appending b t (Some {| ap_data := data; ap_done := 0 |}) s).
Proof using Hok.
  intros Ht Hit Hroom. destruct (Hok) as [Hg Hm Hd Hp Hlog]. constructor; [done|done|done| |done].
  intros c u a [(-> & -> & [= <-])|[_ Ha]]%set_appending_cases; [|by apply Hp|done].
  exists rq, i, it. simpl. repeat (split; [done||lia|]). lia.
Qed.

(** A byte of an append: nobody else's. *)
Lemma store_ok rq i it a d :
  threads l t = Hold rq i -> items l !! i = Some it ->
  appending s b t = Some a -> ap_data a !! ap_done a = Some d ->
  memory_ok (set_appending b t (Some {| ap_data := ap_data a; ap_done := S (ap_done a) |})
    {| locators := locators s; mapped := mapped s;
       bytes := <[target it (ap_done a) := d]> (bytes s);
       appending := appending s; log := log s |}).
Proof using Hok.
  intros Ht Hit Ha Hdata. set (s1 := Build_state _ _ (<[_ := _]> _) _ _).
  assert (Hlt : (ap_done a < length (ap_data a))%nat) by (by eapply lookup_lt_Some).
  destruct (pending_target s b t a _ Hok Ha Hlt) as (rq' & i' & it' & Ht' & Hit' & Hlive & Hfree & Hbuf).
  assert (i' = i /\ rq' = rq) as [-> ->] by (split; congruence).
  assert (it' = it) as -> by congruence.
  destruct (mo_pending _ Hok b t a Ha) as (rq0 & i0 & it0 & Ht0 & Hit0 & Hroom & _ & Hread).
  assert (i0 = i) as -> by congruence. assert (it0 = it) as -> by congruence.
  destruct (Hok) as [Hg Hm Hd Hp Hlog]. constructor; [done|done|done| |].
  - intros c u a' [(-> & -> & [= <-])|[Hne Ha']]%set_appending_cases; [..|done].
    + exists rq, i, it. simpl. repeat (split; [done||lia|]). intros k Hk.
      destruct (decide (k = ap_done a)) as [->|]; [right; by rewrite lookup_insert_eq|].
      rewrite lookup_insert_ne by (unfold target; lia). apply Hread. lia.
    + destruct (Hp c u a' Ha') as (rq1 & j & jt & Hu & Hjt & Hroom' & Hdone' & Hread').
      exists rq1, j, jt. simpl. repeat (split; [done|]). intros k Hk.
      destruct (decide (target it (ap_done a) = target jt k)) as [Heq|];
        [left|rewrite lookup_insert_ne by done; by apply Hread'].
      assert (Hk' : (k < length (ap_data a'))%nat) by lia.
      destruct (pending_target s c u a' k Hok Ha' Hk') as (rq2 & j2 & jt2 & Hu2 & Hjt2 & Hlive2 & _ & Hbuf2).
      assert (j2 = j) as -> by congruence. assert (jt2 = jt) as -> by congruence.
      apply (Hd c (Slot j) jt b (Slot i) it (target jt k) Hlive2 Hlive); [|done|by rewrite <- Heq].
      by apply (hold_apart s c u rq1 j b t rq i).
  - intros addr data Hin. destruct (Hlog addr data Hin) as [Hwhere Hlread]. split; [exact Hwhere|].
    intros k Hk. simpl. destruct (decide (target it (ap_done a) = addr + Z.of_nat k)) as [Heq|];
      [|rewrite lookup_insert_ne by done; by apply Hlread]. rewrite <- Heq. left.
    destruct Hwhere as (c & j & jt & Hlive2 & Hlo & Hhi). unfold LocatorItem.in_free_part in Hfree.
    destruct (decide ((c, Slot j) = (b, Slot i))) as [[= -> ->]|Hne].
    + destruct Hlive2 as [Hjt _]. assert (jt = it) as -> by congruence. lia.
    + refine (Hd c (Slot j) jt b (Slot i) it (target it (ap_done a)) Hlive2 Hlive _ _ Hbuf); [done|].
      destruct (live_wf _ _ _ (Hg c) Hlive2). unfold LocatorItem.in_buffer. lia.
Qed.

(** The end of an append: the position moves behind the bytes. *)
Section advance.
Context (rq : request) (i : Z) (it : LocatorItem) (a : append).
Context (Ht : threads l t = Hold rq i) (Hit : items l !! i = Some it).
Context (Ha : appending s b t = Some a) (Hdone : ap_done a = length (ap_data a)).

Let pos := LocatorItem.position it + Z.of_nat (length (ap_data a)).
Let l' := moved l t (header l) (<[i := LocatorItem.set_position pos it]> (items l)) (Hold rq i).
Let s' := set_appending b t None
  {| locators := <[b := l']> (locators s); mapped := mapped s; bytes := bytes s;
     appending := appending s; log := (target it 0, ap_data a) :: log s |}.

Lemma advance_threads u : threads l' u = threads l u.
Proof using Ht.
  simpl. destruct (decide (t = u)) as [<-|]; [by rewrite fn_lookup_insert|by apply fn_lookup_insert_ne].
Qed.

Lemma advance_live c pl it' :
  live (locators s' c) pl it' -> exists it0, live (locators s c) pl it0 /\
    LocatorItem.base_address it' = LocatorItem.base_address it0 /\
    LocatorItem.size it' = LocatorItem.size it0.
Proof using Ht Hit.
  simpl. destruct (decide (b = c)) as [<-|Hne];
    [rewrite fn_lookup_insert|rewrite fn_lookup_insert_ne by done; by exists it'].
  destruct pl as [j|u]; unfold live.
  - setoid_rewrite advance_threads. intros [Hj Hc]. simpl in Hj.
    destruct (decide (i = j)) as [<-|].
    + rewrite lookup_insert_eq in Hj. injection Hj as <-. by exists it.
    + rewrite lookup_insert_ne in Hj by done. by exists it'.
  - setoid_rewrite advance_threads. by exists it'.
Qed.

Lemma advance_kept : slots_kept s s'.
Proof using Ht Hit.
  intros c j jt Hlive. simpl. destruct (decide (b = c)) as [<-|Hne];
    [rewrite fn_lookup_insert|rewrite fn_lookup_insert_ne by done; by exists jt].
  unfold live. setoid_rewrite advance_threads. destruct Hlive as [Hj Hc]. simpl.
  destruct (decide (i = j)) as [<-|].
  - assert (jt = it) as -> by congruence. rewrite lookup_insert_eq. eexists. split; [done|].
    split; [done|]. simpl. clear Hdone. lia.
  - rewrite lookup_insert_ne by done. by exists jt.
Qed.

Lemma advance_ok : memory_ok s'.
Proof using Hok Ht Hit Ha Hdone.
  destruct (mo_pending _ Hok b t a Ha) as (rq0 & i0 & it0 & Ht0 & Hit0 & Hroom & _ & Hread).
  assert (i0 = i) as -> by congruence. assert (it0 = it) as -> by congruence.
  assert (Ho : origin s s' b t 0).
  { intros c pl it' Hl. destruct (advance_live c pl it' Hl) as (it0 & Hl0 & Hb & Hs).
    exists pl, it0. unfold LocatorItem.in_buffer. rewrite Hb, Hs. by split; [|split; [|left]]. }
  constructor.
  - intros c. apply moved_good. rewrite Ht. constructor; [done|]. unfold pos. lia.
  - intros c pl jt x. by eapply (origin_mapped s).
  - intros c pl jt c' ql kt x. by apply (origin_disjoint s _ b t 0).
  - intros c u a' [(-> & -> & ?)|[Hne Ha']]%set_appending_cases; [done| |done].
    destruct (mo_pending _ Hok c u a' Ha') as (rq1 & j & jt & Hu & Hjt & Hrest).
    exists rq1, j, jt. pose proof (hold_apart s c u rq1 j b t rq i Hok Hu Ht Hne) as Hij.
    simpl. destruct (decide (b = c)) as [<-|]; [|by rewrite fn_lookup_insert_ne].
    rewrite fn_lookup_insert, advance_threads. split; [done|]. split; [|exact Hrest].
    simpl. by rewrite lookup_insert_ne by congruence.
  - intros addr data. simpl. intros [[= -> ->]|Hin]%elem_of_cons.
    + split; [|intros k Hk; unfold target; rewrite Z.add_0_r; apply Hread; lia].
      destruct (hold_live _ _ _ _ _ (mo_good _ Hok b) Ht Hit) as [_ [_ _ [Hpos0 _] _]].
      exists b, i, (LocatorItem.set_position pos it). rewrite fn_lookup_insert. unfold target, pos. simpl.
      split; [|lia]. split; [simpl; by rewrite lookup_insert_eq|left].
      pose proof (k_pc _ _ _ (g_thread _ (mo_good _ Hok b) t)) as Hpc. by rewrite Ht in Hpc.
    + exact (kept_log s s' addr data Hok advance_kept eq_refl Hin).
Qed.
End advance.

End moving.

Lemma memory_ok_step s s' : memory_ok s -> step s s' -> memory_ok s'.
Proof.
  intros Hok Hs. destruct Hs.
  - by apply quiet_ok.
  - by apply allocate_ok.
  - by eapply append_ok.
  - by eapply store_ok.
  - by eapply advance_ok.
Qed.

(** The address a task is about to store to. *)
Definition storing (s : state) (b : Z) (t : nat) (x : Z) : Prop :=
  exists rq i it a d, threads (locators s b) t = Hold rq i /\ items (locators s b) !! i = Some it /\
    appending s b t = Some a /\ ap_data a !! ap_done a = Some d /\ x = target it (ap_done a).

Lemma storing_target s b t x :
  memory_ok s -> storing s b t x -> exists rq i it, threads (locators s b) t = Hold rq i /\
    live (locators s b) (Slot i) it /\ LocatorItem.in_free_part it x /\ LocatorItem.in_buffer it x.
Proof.
  intros Hok (rq & i & it & a & d & Ht & Hit & Ha & Hd & ->). apply lookup_lt_Some in Hd.
  destruct (pending_target s b t a _ Hok Ha Hd) as (rq' & i' & it' & Ht' & Hit' & Hlive & Hfree & Hbuf).
  assert (i' = i) as -> by congruence. assert (it' = it) as -> by congruence. by exists rq', i, it.
Qed.

Lemma storing_unique s b t c u x :
  memory_ok s -> storing s b t x -> storing s c u x -> (b, t) = (c, u) \/ shared x.
Proof.
  intros Hok H1 H2. destruct (decide ((b, t) = (c, u))) as [|Hne]; [by left|right].
  destruct (storing_target _ _ _ _ Hok H1) as (rq & i & it & Ht & Hl & _ & Hx).
  destruct (storing_target _ _ _ _ Hok H2) as (rq' & j & jt & Hu & Hl' & _ & Hx').
  refine (mo_disjoint _ Hok b (Slot i) it c (Slot j) jt x Hl Hl' _ Hx Hx').
  by apply (hold_apart s b t rq i c u rq' j).
Qed.

Lemma storing_fresh s b t x addr data :
  memory_ok s -> storing s b t x -> (addr, data) ∈ log s ->
  addr <= x < addr + Z.of_nat (length data) -> shared x.
Proof.
  intros Hok H1 Hin Hx. destruct (storing_target _ _ _ _ Hok H1) as (rq & i & it & Ht & Hl & Hfree & Hbuf).
  destruct (mo_log _ Hok addr data Hin) as [(c & j & jt & Hl' & Hlo & Hhi) _].
  unfold LocatorItem.in_free_part in Hfree.
  destruct (decide ((c, Slot j) = (b, Slot i))) as [[= -> ->]|Hne].
  - destruct Hl as [Hit _], Hl' as [Hjt _]. assert (jt = it) as -> by congruence. lia.
  - refine (mo_disjoint _ Hok c (Slot j) jt b (Slot i) it x Hl' Hl _ _ Hbuf); [done|].
    destruct (live_wf _ _ _ (mo_good _ Hok c) Hl'). unfold LocatorItem.in_buffer. lia.
Qed.

End overlaps.

Inductive steps : state -> state -> Prop :=
| steps_refl s : steps s s
| steps_one s1 s2 s3 : steps s1 s2 -> step s2 s3 -> steps s1 s3.

(** At the start no thread is at work, and the buffers of the items lie in
    mapped memory. *)
Definition counted (l : HeaderThreads.state) (i : Z) (it : LocatorItem) : Prop :=
  items l !! i = Some it /\ 0 <= i < num_items (header l).

Record initial (s : state) : Prop := {
  in_locators b : HeaderThreads.initial (locators s b);
  in_mapped b i it x : counted (locators s b) i it -> LocatorItem.in_buffer it x -> mapped s x;
  in_appending b t : appending s b t = None;
  in_log : log s = []
}.

(** The bytes that lie in the buffers of two items. *)
Definition overlap (s : state) (x : Z) : Prop :=
  exists b i it c j jt, (b, i) <> (c, j) /\
    counted (locators s b) i it /\ counted (locators s c) j jt /\
    LocatorItem.in_buffer it x /\ LocatorItem.in_buffer jt x.

Lemma initial_live s b pl it :
  initial s -> live (locators s b) pl it -> exists i, pl = Slot i /\ counted (locators s b) i it.
Proof.
  intros [Hl _ _ _]. destruct (Hl b) as (_ & _ & Hidle). destruct pl as [i|u].
  - intros [Hi [?|(u & rq & Hu)]]; [by exists i|]. by rewrite Hidle in Hu.
  - intros [rq Hu]. by rewrite Hidle in Hu.
Qed.

Lemma memory_ok_initial s : initial s -> memory_ok (overlap s) s.
Proof.
  intros Hi. constructor.
  - intros b. apply locator_good_initial, Hi.
  - intros b pl it x (i & -> & Hit)%(initial_live s b pl it Hi). by eapply (in_mapped _ Hi).
  - intros b pl it c ql jt x (i & -> & Hit)%(initial_live s b pl it Hi)
      (j & -> & Hjt)%(initial_live s c ql jt Hi) Hne Hx Hx'.
    exists b, i, it, c, j, jt. split; [congruence|done].
  - intros b t a. by rewrite (in_appending _ Hi).
  - intros addr data. rewrite (in_log _ Hi). by intros ?%elem_of_nil.
Qed.

Lemma memory_ok_steps s s' : initial s -> steps s s' -> memory_ok (overlap s) s'.
Proof. intros Hi. induction 1; [by apply memory_ok_initial|]. eapply memory_ok_step; eauto. Qed.

(** What was appended where no buffers overlap reads back. *)
Lemma log_reads_back shared s addr data :
  memory_ok shared s -> (addr, data) ∈ log s ->
  (forall x, addr <= x < addr + Z.of_nat (length data) -> ~ shared x) ->
  read_bytes addr (length data) (bytes s) = Some data.
Proof.
  intros Hok Hin Hapart. apply read_bytes_intro. intros k Hk.
  destruct (mo_log _ _ Hok addr data Hin) as [_ Hread].
  destruct (Hread k Hk) as [Hsh|]; [|done]. destruct (Hapart (addr + Z.of_nat k) ltac:(lia) Hsh).
Qed.

Lemma quiet_to s1 s2 b t h' its' p' :
  steps s1 s2 ->
  local (header (locators s2 b)) (items (locators s2 b)) (threads (locators s2 b) t) h' its' p' ->
  quiet (threads (locators s2 b) t) p' -> appending s2 b t = None ->
  steps s1 (set_locator b (moved (locators s2 b) t h' its' p') s2).
Proof. intros. eapply steps_one; [done|]. by apply m_quiet. Qed.

End threads.
End MemoryThreads.
