(* ===== verification/HeaderRefine.v ===== *)
(** * The sequential operations are runs of the steps of a thread

    HeaderOps.v runs [get_first_available_item_locked] and [try_allocate_item]
    from beginning to end; HeaderThreads.v has them as atomic steps.  Run on a
    chain that satisfies the invariant, the former is one schedule of the
    latter. *)

From S2P Require Import Prelude Mathematics SysInfo Settings Errors Items Headers World ItemOps.
From S2P Require Import Platform HeaderOps HeaderSpec HeaderWp HeaderThreads.
Import LocatorHeader HeaderThreads.

(** ** Steps of one thread *)

Section steps.
Context `{T : Target}.
#[local] Abbreviation slots := (gmap Z LocatorItem).

(** Thread [t] went from [s] to a state where it is at [p], alone. *)
Record alone (t : nat) (s : state) (h : LocatorHeader) (its : slots) (p : pc) (s' : state) : Prop := {
  al_steps : steps s s';
  al_header : header s' = h;
  al_items : items s' = its;
  al_pc : threads s' t = p;
  al_others u : u <> t -> threads s' u = threads s u
}.

Definition reaches (t : nat) (s : state) (h : LocatorHeader) (its : slots) (p : pc) : Prop :=
  exists s', alone t s h its p s'.

Lemma reaches_refl t s : reaches t s (header s) (items s) (threads s t).
Proof. exists s. constructor; try done. constructor. Qed.

Lemma reaches_step t s h its p h' its' p' :
  reaches t s h its p -> local h its p h' its' p' -> reaches t s h' its' p'.
Proof.
  intros (s' & [Hs <- <- <- Ho]) Hl. eexists. constructor.
  - eapply steps_one; [exact Hs|]. by constructor.
  - done.
  - done.
  - simpl. apply functions.fn_lookup_insert.
  - intros u Hu. simpl. rewrite functions.fn_lookup_insert_ne by done. by apply Ho.
Qed.

(** The thread passes an item that it cannot use or that is taken. *)
Definition passed (rq : request) (its : slots) (i : Z) : Prop :=
  exists it, its !! i = Some it /\ (usable rq it = true -> LocatorItem.is_taken it = 1).

Lemma reaches_pass t s h its rq i f :
  reaches t s h its (Scan rq i f) -> i < f -> passed rq its i ->
  reaches t s h its (Scan rq (i + 1) f).
Proof.
  intros Hr Hi (it & Hit & Htk). destruct (usable rq it) eqn:Hu.
  - specialize (Htk eq_refl). eapply reaches_step in Hr; [|by eapply l_usable].
    eapply reaches_step in Hr; [|by eapply l_swap].
    assert (Hsame : (LocatorItem.try_lock it).2 = it).
    { simpl. rewrite <- Htk. apply LocatorItem.set_is_taken_id. }
    rewrite Hsame, insert_id in Hr by done. unfold LocatorItem.try_lock in Hr. by rewrite Htk in Hr.
  - eapply reaches_step; [exact Hr|]. by eapply l_skip.
Qed.

Lemma reaches_scan t s h its rq f j :
  0 <= j <= f -> (forall i, 0 <= i < j -> passed rq its i) ->
  reaches t s h its (Scan rq 0 f) -> reaches t s h its (Scan rq j f).
Proof.
  intros [Hj Hf] Hpass Hr. rewrite <- (Z2Nat.id j) in * by done. clear Hj.
  induction (Z.to_nat j) as [|k IH]; [done|]. replace (Z.of_nat (S k)) with (Z.of_nat k + 1) in * by lia.
  apply reaches_pass; [|lia|apply Hpass; lia]. apply IH; [lia|]. intros i Hi. apply Hpass. lia.
Qed.

End steps.

(** ** One locator of a chain *)

Section refine.
Context `{T : Target} `{Q : SysQuery} {OS : Type} `{Sch : Scheduler OS} `{P : Platform OS}
  `{Mem : Memory OS} `{L : !PlatformLaws}.
Implicit Types w : World OS.
#[local] Abbreviation slots := (gmap Z LocatorItem).

(** The shared memory of the thread system is the locator at [b]. *)
Definition shows (b : Z) w (h : LocatorHeader) (its : slots) : Prop :=
  w_headers w !! b = Some h /\
  forall i, 0 <= i < MAX_ITEM_COUNT -> its !! i = w_items w !! get_item b i.

Lemma shows_item b w h its i it :
  shows b w h its ->
  shows b (set_items (<[get_item b i := it]> (w_items w)) w) h (<[i := it]> its).
Proof.
  intros [Hh Hi]. split; [done|]. intros j Hj. simpl. destruct (decide (i = j)) as [<-|Hne].
  - by rewrite !lookup_insert_eq.
  - rewrite !lookup_insert_ne; [by apply Hi| |done]. by intros ?%get_item_inj.
Qed.

Lemma shows_header b w h its h' :
  shows b w h its -> shows b (set_headers (<[b := h']> (w_headers w)) w) h' its.
Proof. intros [Hh Hi]. split; [apply lookup_insert_eq|done]. Qed.

Lemma shows_set_os b w h its os : shows b w h its -> shows b (set_os os w) h its.
Proof. done. Qed.

Context (a : Z) (l : list Z) (b : Z) (rq : request).

Lemma taken_passed w h its j :
  inv a l w -> b ∈ l -> shows b w h its -> j <= num_items h ->
  taken_before b j (rq_size rq) (rq_min rq) (rq_max rq) w ->
  forall i, 0 <= i < j -> passed rq its i.
Proof.
  intros Hi Hb [Hh Hits] Hj Htk i Hbnd.
  destruct (tb_item _ _ _ (inv_table _ _ _ _ _ Hi Hb Hh) i) as (it & Hit & Hwf & _); [lia|].
  pose proof (registered_bound a l w b h i Hi Hb Hh ltac:(lia)).
  exists it. rewrite Hits by done. split; [done|]. intros Hu.
  apply (Htk i it Hbnd Hit). by apply LocatorItem.can_use_provides.
Qed.

(** The scan: from the start of a request to the item it takes, or to the
    point where the code goes on to [try_allocate_item]. *)
Lemma scan_reaches w h its t s :
  inv a l w -> b ∈ l -> shows b w h its ->
  header s = h -> items s = its -> threads s t = Idle ->
  wp (HeaderPtr.get_first_available_item_locked b (rq_size rq) (rq_min rq) (rq_max rq))
    (fun r w' => exists its', shows b w' h its' /\ inv a l w' /\
       match r with
       | Some x => exists i, SafeLocatorItem.item x = get_item b i /\ reaches t s h its' (Hold rq i)
       | None => w' = w /\ reaches t s h its' (Check rq)
       end) w.
Proof.
  intros Hi Hb Hsh Hsh' Hsi Hst. pose proof (inv_table _ _ _ _ _ Hi Hb (proj1 Hsh)) as Ht.
  pose proof (reaches_refl t s) as Hr. rewrite Hsh', Hsi, Hst in Hr.
  eapply reaches_step in Hr; [|apply (l_start h its rq)].
  destruct (Ht) as [_ Hnum _].
  eapply wp_mono; [by apply scan_spec|]. intros [x|] w'.
  - intros (i & it & Hx & [Hbnd Hit Hfree Hprov Hfirst] & ->).
    exists (<[i := LocatorItem.set_is_taken 1 it]> its). split; [by apply shows_item|]. split.
    { eapply (took_item_inv a l (rq_size rq) (rq_min rq) (rq_max rq) w x); [done|].
      exists it. rewrite Hx. split; [by exists b, h, i; destruct Hsh|]. done. }
    exists i. split; [done|].
    eapply reaches_scan in Hr; [|split; [apply Hbnd|apply Z.lt_le_incl, Hbnd]
      |by eapply taken_passed; [..|apply Z.lt_le_incl, Hbnd|]].
    assert (Hits : its !! i = Some it) by (destruct Hsh as [_ ->]; [done|lia]).
    destruct (tb_item _ _ _ Ht i Hbnd) as (it' & Hit' & Hwf & _).
    assert (it' = it) as -> by congruence.
    eapply reaches_step in Hr; [|eapply l_usable; [apply Hbnd|exact Hits|]].
    2: { by apply LocatorItem.can_use_provides. }
    eapply reaches_step in Hr; [|by eapply l_swap].
    unfold LocatorItem.try_lock in Hr. by rewrite Hfree in Hr.
  - intros [-> Hnone]. exists its. split; [done|]. split; [done|]. split; [done|].
    eapply reaches_scan in Hr; [|split; [apply Hnum|reflexivity]|by eapply taken_passed].
    eapply reaches_step; [exact Hr|]. by apply l_scanned.
Qed.

(** Once it is inside the lock. *)
Lemma reaches_inside t s h its :
  is_full h = false -> is_locked h = 0 -> reaches t s h its (Check rq) ->
  reaches t s (set_is_locked 1 h) its (Allocate rq).
Proof.
  intros Hfull Hfree Hr. eapply reaches_step in Hr; [|apply l_check]. rewrite Hfull in Hr.
  eapply reaches_step in Hr; [|apply l_lock]. unfold LocatorHeader.try_lock in Hr.
  rewrite Hfree in Hr. simpl in Hr. eapply reaches_step in Hr; [|apply l_recheck].
  change (is_full (set_is_locked 1 h)) with (is_full h) in Hr. by rewrite Hfull in Hr.
Qed.

Lemma allocate_reaches `{HQ : !SysQueryOk} w h its t s :
  inv a l w -> b ∈ l -> shows b w h its ->
  0 <= rq_size rq -> rq_size rq + granularity <= u32_max ->
  is_usize (rq_min rq) -> is_usize (rq_max rq) ->
  reaches t s h its (Check rq) ->
  wp (HeaderPtr.try_allocate_item b (rq_size rq) (rq_min rq) (rq_max rq))
    (fun r w' => exists h' its', shows b w' h' its' /\
       match r with
       | Ok x => exists i, SafeLocatorItem.item x = get_item b i /\ reaches t s h' its' (Hold rq i)
       | Err _ => reaches t s h' its' Idle
       end) w.
Proof.
  intros Hi Hb Hsh Hn Hbig Hlo Hhi Hr. destruct (Hsh) as [Hh Hits].
  destruct (inv_header _ _ _ Hi b h Hb Hh) as [_ _ _ Hfree Hnum].
  eapply wp_mono; [by eapply try_allocate_item_spec|]. intros [x|[|]] w' H.
  - destruct H as (h0 & it & os' & Hh0 & Hfull & Hx & Hwf & Htk & _ & Hp & _ & _ & _ & ->).
    assert (h0 = h) as -> by congruence. rewrite Hx.
    exists (set_num_items (num_items h + 1) h), (<[num_items h := it]> its).
    assert (Hsh1 : shows b (set_items (<[get_item b (num_items h) := it]> (w_items w)) (set_os os' w))
      h (<[num_items h := it]> its)) by (by apply (shows_item b (set_os os' w))).
    split; [by eapply (shows_header _ _ h) in Hsh1|]. exists (num_items h). split; [done|].
    pose proof (reaches_inside t s h its Hfull Hfree Hr) as Hin.
    eapply reaches_step in Hin; [|apply (l_allocated _ _ rq (LocatorItem.set_is_taken 0 it)); [..|done]].
    2: { by apply LocatorItem.set_is_taken_wf. }
    2: { by apply LocatorItem.set_is_taken_provides. }
    replace (LocatorItem.try_lock (LocatorItem.set_is_taken 0 it)).2 with it in Hin
      by (simpl; destruct it; simpl in *; by subst).
    eapply reaches_step in Hin; [|apply l_store].
    eapply reaches_step in Hin; [|apply l_count].
    eapply reaches_step in Hin; [|apply l_unlock]. simpl in Hin.
    apply not_full_room in Hfull. rewrite count_small in Hin by lia.
    unfold LocatorHeader.unlock in Hin.
    replace (set_is_locked 0 _) with (set_num_items (num_items h + 1) h) in Hin
      by (destruct h; simpl in *; by subst). done.
  - destruct H as [-> (h0 & Hh0 & Hfull)]. assert (h0 = h) as -> by congruence.
    exists h, its. split; [done|]. eapply reaches_step in Hr; [|apply l_check].
    by rewrite Hfull in Hr.
  - destruct H as [[(h0 & Hh0 & Hfull) _] (os' & -> & _)]. assert (h0 = h) as -> by congruence.
    exists h, its. split; [done|].
    pose proof (reaches_inside t s h its Hfull Hfree Hr) as Hin.
    eapply reaches_step in Hin; [|apply l_no_memory].
    eapply reaches_step in Hin; [|apply l_unlock]. simpl in Hin.
    unfold LocatorHeader.unlock in Hin. by rewrite set_is_locked_again in Hin.
Qed.

(** What [get_buffer_recursive] does at one locator. *)
Definition take_item : M (World OS) (result SafeLocatorItem ItemAllocationError) :=
  r ← HeaderPtr.get_first_available_item_locked b (rq_size rq) (rq_min rq) (rq_max rq);
  match r with
  | Some x => mret (Ok x)
  | None => HeaderPtr.try_allocate_item b (rq_size rq) (rq_min rq) (rq_max rq)
  end.

Lemma take_item_reaches `{HQ : !SysQueryOk} w t s :
  inv a l w -> b ∈ l -> shows b w (header s) (items s) -> threads s t = Idle ->
  0 <= rq_size rq -> rq_size rq + granularity <= u32_max ->
  is_usize (rq_min rq) -> is_usize (rq_max rq) ->
  wp take_item (fun r w' => exists h' its', shows b w' h' its' /\
    match r with
    | Ok x => exists i, SafeLocatorItem.item x = get_item b i /\ reaches t s h' its' (Hold rq i)
    | Err _ => reaches t s h' its' Idle
    end) w.
Proof.
  intros Hi Hb Hsh Ht Hn Hbig Hlo Hhi. unfold take_item. wp_step.
  eapply wp_mono; [by eapply scan_reaches|]. intros [x|] w' (its' & Hsh' & Hi' & H).
  - wp_step. eauto.
  - destruct H as [-> Hr]. by eapply allocate_reaches.
Qed.

End refine.
