(* ===== verification/HeaderProgress.v ===== *)
(** * Progress of the threads that share a locator

    Infinite executions of the steps of HeaderThreads.v.  When no thread in the
    middle of an operation is left out for ever, the lock of the header is free
    again and again; a thread that is given the chance to take it when it is
    free returns from its operation. *)

From stdpp Require Import functions.
From S2P Require Import Prelude Mathematics Items Headers HeaderThreads.

Module HeaderProgress.
Import LocatorHeader HeaderThreads.

Section progress.
Context `{T : Target}.

(** A step of thread [t]. *)
Definition step_by (t : nat) (s s' : state) : Prop :=
  exists h' its' p', local (header s) (items s) (threads s t) h' its' p' /\
    s' = {| header := h'; items := its'; threads := <[t := p']> (threads s) |}.

(** At time [n] the thread [who n] takes a step, or nobody does. *)
Definition execution (run : nat -> state) (who : nat -> option nat) : Prop :=
  initial (run 0%nat) /\ forall n, match who n with
    | Some t => step_by t (run n) (run (S n))
    | None => run (S n) = run n
    end.

(** In the middle of [get_first_available_item_locked] or
    [try_allocate_item]. *)
Definition busy (p : pc) : bool := match p with Idle | Hold _ _ => false | _ => true end.
Definition spins (p : pc) : bool := match p with Spin _ => true | _ => false end.

(** Nobody is stopped in the middle of an operation. *)
Definition fair (run : nat -> state) (who : nat -> option nat) : Prop :=
  forall t n, busy (threads (run n) t) = true -> exists m, (n <= m)%nat /\ who m = Some t.

(** A thread that spins is scheduled at some time at which the lock is free. *)
Definition lucky (t : nat) (run : nat -> state) (who : nat -> option nat) : Prop :=
  forall n, spins (threads (run n) t) = true -> exists m, (n <= m)%nat /\ who m = Some t /\
    (spins (threads (run m) t) = true -> is_locked (header (run m)) = 0).

(** The steps that a thread still takes until it returns, but for the failed
    attempts at the lock. *)
Definition measure (p : pc) : Z :=
  match p with
  | Scan _ i f => 2 * Z.max 0 (f - i) + 11
  | Swap _ i f => 2 * Z.max 0 (f - i) + 10
  | Check _ => 9
  | Spin _ => 8
  | Recheck _ => 7
  | Allocate _ => 6
  | Store _ _ => 3
  | Count _ _ => 2
  | Unlock _ => 1
  | Idle | Hold _ _ => 0
  end.

Lemma measure_busy p : busy p = true <-> 0 < measure p.
Proof. destruct p; simpl; split; intros; try done; lia. Qed.

(** A thread in an operation gets closer to its end, or failed to get the
    lock. *)
Lemma local_measure h its p h' its' p' :
  local h its p h' its' p' -> busy p = true -> thread_ok h its p ->
  0 <= measure p' < measure p \/ (spins p = true /\ is_locked h <> 0 /\ p' = p).
Proof.
  intros Hl Hb [_ Hpc _]. destruct Hl; simpl in *; try done; try (left; lia).
  - left. destruct (_ =? 0); simpl; lia.
  - left. destruct (is_full h); simpl; lia.
  - unfold LocatorHeader.try_lock. destruct (Z.eqb_spec (is_locked h) 0); [left; simpl; lia|by right].
  - left. destruct (is_full h); simpl; lia.
  - left. destruct r as [[??]|]; simpl; lia.
Qed.

(** What a critical thread's step leaves: it is still critical, or the lock is
    free. *)
Lemma local_critical h its p h' its' p' :
  local h its p h' its' p' -> critical p = true ->
  (critical p' = true /\ measure p' < measure p /\ 0 <= measure p') \/ is_locked h' = 0.
Proof.
  intros Hl Hc. destruct Hl; simpl in *; try done; try (left; split; [done|lia]).
  - left. destruct (is_full h); split; simpl; try done; lia.
  - by right.
Qed.

Section run.
Context (run : nat -> state) (who : nat -> option nat).
Context (Hrun : execution run who) (Hfair : fair run who).

Lemma run_steps n : steps (run 0%nat) (run n).
Proof using Hrun.
  destruct Hrun as [_ H]. induction n as [|n IH]; [constructor|]. specialize (H n).
  destruct (who n) as [t|]; [|by rewrite H].
  destruct H as (h' & its' & p' & Hl & ->). eapply steps_one; [exact IH|]. by constructor.
Qed.

Lemma run_good n : good (run n).
Proof using Hrun. apply (locator_good_steps (run 0%nat)); [apply Hrun|apply run_steps]. Qed.

(** A thread moves by its own steps only. *)
Lemma run_other n t :
  who n <> Some t -> threads (run (S n)) t = threads (run n) t.
Proof using Hrun.
  intros Hne. destruct Hrun as [_ H]. specialize (H n). destruct (who n) as [u|]; [|by rewrite H].
  destruct H as (h' & its' & p' & _ & ->). simpl. apply fn_lookup_insert_ne. congruence.
Qed.

(** Until the next step of a thread. *)
Lemma run_until n t m :
  (n <= m)%nat -> who m = Some t ->
  exists k, (n <= k <= m)%nat /\ who k = Some t /\ threads (run k) t = threads (run n) t.
Proof using Hrun.
  intros Hle Hm. replace m with (n + (m - n))%nat in Hm by lia.
  assert (Hk : exists k, (n <= k <= n + (m - n))%nat /\ who k = Some t /\
    threads (run k) t = threads (run n) t).
  { generalize dependent (m - n)%nat. clear Hle m. intros d. revert n.
    induction d as [|d IH]; intros n Hd; [exists n; rewrite Nat.add_0_r in Hd; split; [lia|done]|].
    destruct (decide (who n = Some t)) as [|Hne]; [exists n; split; [lia|done]|].
    destruct (IH (S n)) as (k & Hk & Hw & Ht); [by replace (S n + d)%nat with (n + S d)%nat by lia|].
    exists k. split; [lia|]. split; [done|]. rewrite Ht. by apply run_other. }
  destruct Hk as (k & ? & ?). exists k. split; [lia|done].
Qed.

Lemma run_step n t :
  who n = Some t -> local (header (run n)) (items (run n)) (threads (run n) t)
    (header (run (S n))) (items (run (S n))) (threads (run (S n)) t).
Proof using Hrun.
  intros Hw. destruct Hrun as [_ H]. specialize (H n). rewrite Hw in H.
  destruct H as (h' & its' & p' & Hl & ->). simpl. by rewrite fn_lookup_insert.
Qed.

(** A locked header has a thread inside. *)
Lemma run_lock_held n : is_locked (header (run n)) <> 0 -> exists t, critical (threads (run n) t) = true.
Proof using Hrun.
  intros Hl. assert (Hone : is_locked (header (run n)) = 1).
  { destruct (g_data _ (run_good n)) as [_ [|] _]; [lia|done]. }
  revert Hone. clear Hl. induction n as [|n IH]; intros H1.
  { destruct (proj1 Hrun) as (_ & H0 & _). lia. }
  destruct (who n) as [t|] eqn:Hw.
  - destruct (local_lock_kept _ _ _ _ _ _ (run_step n t Hw) H1) as [Hc|[Hold Hnc]]; [eauto|].
    destruct (IH Hold) as [u Hu]. exists u. rewrite run_other; [done|]. congruence.
  - pose proof (proj2 Hrun n) as H. rewrite Hw in H. rewrite H in H1 |- *. auto.
Qed.

(** The thread inside leaves. *)
Lemma critical_ends t d : forall n, measure (threads (run n) t) <= Z.of_nat d ->
  critical (threads (run n) t) = true -> exists m, (n <= m)%nat /\ is_locked (header (run m)) = 0.
Proof using Hrun Hfair.
  induction d as [|d IH]; intros n Hd Hc.
  { exfalso. destruct (threads (run n) t); simpl in *; try done; lia. }
  destruct (Hfair t n) as (m & Hle & Hm); [by destruct (threads (run n) t)|].
  destruct (run_until n t m Hle Hm) as (k & Hk & Hw & Heq).
  pose proof (run_step k t Hw) as Hl. rewrite Heq in Hl.
  destruct (local_critical _ _ _ _ _ _ Hl Hc) as [(Hc' & Hlt & _)|Hfree].
  - destruct (IH (S k)) as (m' & ? & ?); [lia|done|]. exists m'. split; [lia|done].
  - exists (S k). split; [lia|done].
Qed.

Lemma lock_free_again n : exists m, (n <= m)%nat /\ is_locked (header (run m)) = 0.
Proof using Hrun Hfair.
  destruct (decide (is_locked (header (run n)) = 0)) as [|Hl]; [by exists n|].
  destruct (run_lock_held n Hl) as [t Ht].
  apply (critical_ends t (Z.to_nat (measure (threads (run n) t))) n); [|done]. lia.
Qed.

(** A thread in an operation stays where it is, or has got closer to its
    end. *)
Lemma run_closer n t m :
  busy (threads (run n) t) = true -> (n <= m)%nat ->
  threads (run m) t = threads (run n) t \/
  exists k, (n <= k)%nat /\ measure (threads (run k) t) < measure (threads (run n) t).
Proof using Hrun.
  intros Hb. induction 1 as [|m Hle IH]; [by left|]. destruct IH as [Heq|]; [|by right].
  destruct (decide (who m = Some t)) as [Hw|Hne]; [|left; by rewrite run_other].
  pose proof (run_step m t Hw) as Hl. rewrite Heq in Hl.
  destruct (local_measure _ _ _ _ _ _ Hl Hb) as [?|(_ & _ & ?)]; [|right; exists (S m); split; lia|by left].
  rewrite <- Heq. apply (g_thread _ (run_good m)).
Qed.

Lemma busy_closer t n :
  lucky t run who -> busy (threads (run n) t) = true ->
  exists k, (n <= k)%nat /\ measure (threads (run k) t) < measure (threads (run n) t).
Proof using Hrun Hfair.
  intros Hlucky Hb.
  assert (Hm : exists m, (n <= m)%nat /\ who m = Some t /\
    (threads (run m) t = threads (run n) t -> spins (threads (run m) t) = true ->
     is_locked (header (run m)) = 0)).
  { destruct (spins (threads (run n) t)) eqn:Hs.
    - destruct (Hlucky n Hs) as (m & ? & ? & ?). by exists m.
    - destruct (Hfair t n Hb) as (m & ? & ?). exists m. split; [done|]. split; [done|].
      intros ->. by rewrite Hs. }
  destruct Hm as (m & Hle & Hw & Hfree). destruct (run_closer n t m Hb Hle) as [Heq|]; [|done].
  pose proof (run_step m t Hw) as Hl.
  destruct (local_measure _ _ _ _ _ _ Hl) as [[_ ?]|(Hsp & Hlk & _)].
  - by rewrite Heq.
  - apply (g_thread _ (run_good m)).
  - exists (S m). split; [lia|]. by rewrite <- Heq.
  - by destruct Hlk; apply Hfree.
Qed.

(** A thread that is not kept from the lock returns. *)
Lemma operation_ends t n :
  lucky t run who -> exists m, (n <= m)%nat /\ busy (threads (run m) t) = false.
Proof using Hrun Hfair.
  intros Hlucky. remember (Z.to_nat (measure (threads (run n) t))) as d eqn:Hd.
  assert (Hle : measure (threads (run n) t) <= Z.of_nat d) by lia. clear Hd. revert n Hle.
  induction d as [|d IH]; intros n Hd;
    (destruct (busy (threads (run n) t)) eqn:Hb; [|by exists n]).
  - apply measure_busy in Hb. lia.
  - destruct (busy_closer t n Hlucky Hb) as (k & Hk & Hlt).
    destruct (IH k) as (m & ? & ?); [lia|]. exists m. split; [lia|done].
Qed.

End run.
End progress.
End HeaderProgress.
