(* ===== verification/ChainThreads.v ===== *)
(** * Threads that extend the chain, and threads that look for its start

    [get_next_locator] of locator_header.rs and [find] of
    locator_header_finder.rs, as atomic steps of any number of threads. *)

From stdpp Require Import functions.
From S2P Require Import Prelude Mathematics Items Headers.

(** ** [get_next_locator] *)

Module NextLocatorThreads.
Import LocatorHeader.

Inductive pc :=
| Start                       (* before the first [has_next_locator] *)
| Spin                        (* in [lock] *)
| Recheck                     (* behind [lock] *)
| Unlink                      (* before [unlock], the pointer was there *)
| Alloc                       (* before [alloc] *)
| Link (c : Z)                (* before [next_locator_ptr.value = addr] *)
| Initialize                  (* before [initialize] of the new locator *)
| Unlock                      (* before the last [unlock] *)
| Fail                        (* before [unlock], out of memory *)
| Load                        (* before the pointer is read for the result *)
| Done (r : option Z).        (* [Some] is [Ok] *)

Section threads.
Context `{T : Target}.

(** [made]: what [alloc] returned so far; [inited]: what was initialised. *)
Record state := {
  header : LocatorHeader;
  made : list Z;
  inited : list Z;
  threads : nat -> pc
}.

Inductive local (h : LocatorHeader) (m i : list Z) :
    pc -> LocatorHeader -> list Z -> list Z -> pc -> Prop :=
| l_first : has_next_locator h = true -> local h m i Start h m i Load
| l_none : has_next_locator h = false -> local h m i Start h m i Spin
| l_lock : local h m i Spin (LocatorHeader.try_lock h).2 m i
    (if (LocatorHeader.try_lock h).1 then Recheck else Spin)
| l_again : has_next_locator h = true -> local h m i Recheck h m i Unlink
| l_still_none : has_next_locator h = false -> local h m i Recheck h m i Alloc
| l_unlink : local h m i Unlink (LocatorHeader.unlock h) m i Load
| l_alloc c : c <> 0 -> c ∉ m -> local h m i Alloc h (c :: m) i (Link c)
| l_null : local h m i Alloc h m i Fail
| l_fail : local h m i Fail (LocatorHeader.unlock h) m i (Done None)
| l_link c : local h m i (Link c) (set_next_locator_ptr c h) m i Initialize
| l_init : local h m i Initialize h m (next_locator_ptr h :: i) Unlock
| l_unlock : local h m i Unlock (LocatorHeader.unlock h) m i Load
| l_load : local h m i Load h m i (Done (Some (next_locator_ptr h))).

Inductive step : state -> state -> Prop :=
| step_thread s t h' m' i' p' :
    local (header s) (made s) (inited s) (threads s t) h' m' i' p' ->
    step s {| header := h'; made := m'; inited := i'; threads := <[t := p']> (threads s) |}.

Inductive steps : state -> state -> Prop :=
| steps_refl s : steps s s
| steps_one s1 s2 s3 : steps s1 s2 -> step s2 s3 -> steps s1 s3.

Definition critical (p : pc) : bool :=
  match p with
  | Recheck | Unlink | Alloc | Link _ | Initialize | Unlock | Fail => true
  | _ => false
  end.

(** What a thread knows. *)
Definition knows (h : LocatorHeader) (m : list Z) (p : pc) : Prop :=
  (critical p = true -> is_locked h = 1) /\
  match p with
  | Alloc => next_locator_ptr h = 0 /\ m = []
  | Link c => next_locator_ptr h = 0 /\ m = [c] /\ c <> 0
  | Unlink | Initialize | Unlock | Load => next_locator_ptr h <> 0
  | Done (Some c) => c <> 0 /\ c = next_locator_ptr h
  | _ => True
  end.

(** At most one locator was made; once linked, it stays. *)
Definition shared (h : LocatorHeader) (m : list Z) : Prop :=
  (is_locked h = 0 \/ is_locked h = 1) /\
  (next_locator_ptr h <> 0 -> m = [next_locator_ptr h]) /\
  (m = [] \/ exists c, m = [c] /\ c <> 0).

Record good (s : state) : Prop := {
  g_shared : shared (header s) (made s);
  (** an unlinked locator belongs to the thread that links it *)
  g_unlinked : next_locator_ptr (header s) = 0 -> made s <> [] ->
    exists t c, threads s t = Link c;
  g_knows t : knows (header s) (made s) (threads s t);
  g_alone t u : critical (threads s t) = true -> critical (threads s u) = true -> t = u
}.

Lemma has_next_iff h : has_next_locator h = true <-> next_locator_ptr h <> 0.
Proof. unfold has_next_locator. rewrite negb_true_iff. apply Z.eqb_neq. Qed.

Lemma has_no_next_iff h : has_next_locator h = false <-> next_locator_ptr h = 0.
Proof. unfold has_next_locator. rewrite negb_false_iff. apply Z.eqb_eq. Qed.

Lemma local_shared h m i p h' m' i' p' :
  local h m i p h' m' i' p' -> shared h m -> knows h m p -> shared h' m'.
Proof.
  intros Hl (Hlk & Hm & Hone) [_ Hk]. destruct Hl; simpl in *; try done;
    try (split; [by left|done]).
  - unfold LocatorHeader.try_lock. destruct (is_locked h =? 0); [|done]. split; [by right|done].
  - destruct Hk as [Hz ->]. split; [done|]. split; [done|]. right. by exists c.
  - destruct Hk as (Hz & -> & Hc). split; [done|]. split; [done|]. right. by exists c.
Qed.

Lemma local_knows h m i p h' m' i' p' :
  local h m i p h' m' i' p' -> shared h m -> knows h m p ->
  (p = Recheck -> next_locator_ptr h = 0 -> m = []) -> knows h' m' p'.
Proof.
  intros Hl (Hlk & Hm & Hone) [Hc Hk] Hr. destruct Hl; simpl in *; try (by split); split; simpl; try done.
  - by apply has_next_iff in H.
  - unfold LocatorHeader.try_lock. by destruct (is_locked h =? 0).
  - unfold LocatorHeader.try_lock. by destruct (is_locked h =? 0).
  - by apply has_next_iff in H.
  - apply has_no_next_iff in H. auto.
  - destruct Hk as [? ->]. done.
  - by destruct Hk as (_ & _ & ?).
Qed.

Lemma local_others h m i p h' m' i' p' q :
  local h m i p h' m' i' p' -> knows h m p -> knows h m q ->
  (critical p = true -> critical q = true -> False) -> knows h' m' q.
Proof.
  intros Hl [Hc Hk] [Hcq Hkq] Hap. destruct Hl; simpl in *; try done;
    try (split; [intros Hq; by destruct Hap|done]).
  - unfold LocatorHeader.try_lock. destruct (is_locked h =? 0); [|done]. by split.
  - split; [done|]. destruct q; try done; by destruct Hap.
  - destruct Hk as (Hz & -> & Hc0). split; [done|].
    destruct q as [| | | | | | | | | |[?|]]; simpl in *; try done; try (by destruct Hap). lia.
Qed.

Lemma critical_step h m i p h' m' i' p' :
  local h m i p h' m' i' p' -> critical p' = true -> critical p = true \/ is_locked h = 0.
Proof.
  intros Hl. destruct Hl; simpl; auto. unfold LocatorHeader.try_lock.
  destruct (Z.eqb_spec (is_locked h) 0); simpl; [by right|done].
Qed.

Lemma local_unlinked h m i p h' m' i' p' :
  local h m i p h' m' i' p' -> knows h m p -> next_locator_ptr h' = 0 -> m' <> [] ->
  (exists c, p' = Link c) \/ (next_locator_ptr h = 0 /\ m <> [] /\ forall c, p <> Link c).
Proof.
  intros Hl [_ Hk] Hz Hm. destruct Hl; simpl in *; try by right.
  - right. split; [|done]. revert Hz. unfold LocatorHeader.try_lock. by destruct (_ =? 0).
  - left. by exists c.
  - by destruct Hk as (_ & _ & ?).
Qed.

Lemma next_good_step s s' : good s -> step s s' -> good s'.
Proof.
  intros Hg Hs. revert Hg. destruct Hs as [s t h' m' i' p' Hl]. intros [Hsh Hun Hk Ha].
  assert (Hap : forall u, u <> t -> critical (threads s t) = true ->
    critical (threads s u) = true -> False).
  { intros u Hne H1 H2. by apply Hne, Ha. }
  assert (Hnew : threads s t = Recheck -> next_locator_ptr (header s) = 0 -> made s = []).
  { intros Ht Hz. destruct (decide (made s = [])) as [|Hm]; [done|].
    destruct (Hun Hz Hm) as (u & c & Hu). exfalso.
    apply (Hap u); [congruence|by rewrite Ht|by rewrite Hu]. }
  constructor; simpl.
  - exact (local_shared _ _ _ _ _ _ _ _ Hl Hsh (Hk t)).
  - intros Hz Hm. destruct (local_unlinked _ _ _ _ _ _ _ _ Hl (Hk t) Hz Hm) as
      [[c ->]|(Hz' & Hm' & Hno)]; [exists t, c; by rewrite fn_lookup_insert|].
    destruct (Hun Hz' Hm') as (u & c & Hu). exists u, c.
    rewrite fn_lookup_insert_ne; [done|]. intros ->. by apply (Hno c).
  - intros u. destruct (decide (t = u)) as [<-|Hne].
    + rewrite fn_lookup_insert. exact (local_knows _ _ _ _ _ _ _ _ Hl Hsh (Hk t) Hnew).
    + rewrite fn_lookup_insert_ne by done.
      apply (local_others _ _ _ _ _ _ _ _ _ Hl (Hk t) (Hk u)). by apply Hap.
  - assert (Hone : forall u, u <> t -> critical p' = true -> critical (threads s u) = true -> False).
    { intros u Hne Hc Hcu. destruct (critical_step _ _ _ _ _ _ _ _ Hl Hc) as [Hct|Hfree].
      - by apply (Hap u).
      - destruct (Hk u) as [Hlk _]. specialize (Hlk Hcu). lia. }
    intros u v. destruct (decide (t = u)) as [<-|Hu], (decide (t = v)) as [<-|Hv];
      rewrite ?fn_lookup_insert, ?fn_lookup_insert_ne by done; try done; intros Hcu Hcv.
    + exfalso. by apply (Hone v).
    + exfalso. by apply (Hone u).
    + by apply Ha.
Qed.

(** The last locator of a chain, before anyone extends it. *)
Definition initial (s : state) : Prop :=
  is_locked (header s) = 0 /\ next_locator_ptr (header s) = 0 /\ made s = [] /\
  inited s = [] /\ forall t, threads s t = Start.

Lemma next_good_initial s : initial s -> good s.
Proof.
  intros (Hl & Hn & Hm & _ & Ht). constructor.
  - rewrite Hm. split; [by left|]. split; [done|by left].
  - by rewrite Hm.
  - intros t. by rewrite Ht.
  - intros t u. by rewrite Ht.
Qed.

Lemma next_good_steps s s' : initial s -> steps s s' -> good s'.
Proof. intros Hi. induction 1; [by apply next_good_initial|]. eapply next_good_step; eauto. Qed.

Lemma next_step_to s1 s2 t p h' m' i' p' :
  steps s1 s2 -> threads s2 t = p ->
  local (header s2) (made s2) (inited s2) p h' m' i' p' ->
  steps s1 {| header := h'; made := m'; inited := i'; threads := <[t := p']> (threads s2) |}.
Proof. intros Hs <- Hl. eapply steps_one; [exact Hs|]. by constructor. Qed.

End threads.
End NextLocatorThreads.

(** ** [find] *)

Module FindThreads.

(** The way of [init_locatorheader_memorymappedfiles_unsupported]; [GLOBAL_LOCK]
    is held from behind the first test to the end. *)
Inductive pc :=
| Start                       (* before the test of LOCATOR_HEADER_ADDRESS *)
| Wait                        (* before GLOBAL_LOCK.lock() *)
| Allocate                    (* behind it *)
| Publish (c : Z)             (* before LOCATOR_HEADER_ADDRESS = c *)
| Initialize                  (* before [initialize] *)
| Return                      (* before the address is read for the result *)
| Done (r : Z).

Record state := {
  global_lock : bool;
  locator_header_address : Z;
  made : list Z;
  threads : nat -> pc
}.

Inductive local (g : bool) (a : Z) (m : list Z) : pc -> bool -> Z -> list Z -> pc -> Prop :=
| l_cached : a <> 0 -> local g a m Start g a m (Done a)
| l_none : a = 0 -> local g a m Start g a m Wait
| l_lock : g = false -> local g a m Wait true a m Allocate
| l_alloc c : c <> 0 -> c ∉ m -> local g a m Allocate g a (c :: m) (Publish c)
| l_publish c : local g a m (Publish c) g c m Initialize
| l_init : local g a m Initialize g a m Return
| l_return : local g a m Return false a m (Done a).

Inductive step : state -> state -> Prop :=
| step_thread s t g' a' m' p' :
    local (global_lock s) (locator_header_address s) (made s) (threads s t) g' a' m' p' ->
    step s {| global_lock := g'; locator_header_address := a'; made := m';
              threads := <[t := p']> (threads s) |}.

Inductive steps : state -> state -> Prop :=
| steps_refl s : steps s s
| steps_one s1 s2 s3 : steps s1 s2 -> step s2 s3 -> steps s1 s3.

Definition start : state :=
  {| global_lock := false; locator_header_address := 0; made := []; threads := fun _ => Start |}.

Lemma find_step_to s1 s2 t p g' a' m' p' :
  steps s1 s2 -> threads s2 t = p ->
  local (global_lock s2) (locator_header_address s2) (made s2) p g' a' m' p' ->
  steps s1 {| global_lock := g'; locator_header_address := a'; made := m';
              threads := <[t := p']> (threads s2) |}.
Proof. intros Hs <- Hl. eapply steps_one; [exact Hs|]. by constructor. Qed.

End FindThreads.
