(* ===== verification/Toy.v ===== *)
(** * A small system

    A concrete operating system that satisfies the laws of every interface:
    a list of mapped ranges, and the unread part of the map file.  The
    witnesses of the theorems run the program on it. *)

From Stdlib Require Import Ascii String.
From S2P Require Import Prelude Mathematics SysInfo Settings Errors Text Items Headers World.
From S2P Require Import Platform Kernel32.
From S2P Require Import MapParser Posix PosixSpec MemoryMappedFiles Platform Finder MappedFile.
From S2P Require Import Buffers AllocLinux LinuxMaps ReleaseSpec Places Succeeds.
From S2P Require Import AllocWindows AllocOsx AllocMmapRs Allocate CExports CSpec.

Record system := { maps : list (Z * Z); unread : string }.

Definition limit : Z := 0x800000000000.
(** Below it the system maps nothing for a process. *)
Abbreviation lowest := 65536.

Definition in_map (x : Z) (r : Z * Z) : Prop := r.1 <= x < r.2.

(** The mapped ranges from [lo] on: in order, not empty, disjoint. *)
Fixpoint ranges (lo : Z) (l : list (Z * Z)) : Prop :=
  match l with
  | [] => lo <= limit
  | r :: l' => lo <= r.1 /\ r.1 < r.2 /\ ranges r.2 l'
  end.

#[export] Instance toy_memory : Memory system := {
  os_ok s := ranges lowest (maps s) /\ Z.of_nat (String.length (unread s)) <= 2 ^ 60;
  owned s x := 0 <= x < lowest \/ exists r, r ∈ maps s /\ in_map x r
}.

Lemma ranges_le l : forall lo, ranges lo l -> lo <= limit.
Proof.
  induction l as [|r l IH]; intros lo; simpl; [done|]. intros (? & ? & Hl). specialize (IH _ Hl). lia.
Qed.

Lemma ranges_mono lo lo' l : lo' <= lo -> ranges lo l -> ranges lo' l.
Proof. intros Hle. destruct l as [|r l]; simpl; [lia|]. intros (? & ? & ?). split; [lia|done]. Qed.

Lemma ranges_in l : forall lo r, ranges lo l -> r ∈ l -> lo <= r.1 < r.2 /\ r.2 <= limit.
Proof.
  induction l as [|r0 l IH]; intros lo r; [by intros _ ?%elem_of_nil|]. intros (? & ? & Hl).
  intros [->|Hr]%elem_of_cons.
  - pose proof (ranges_le _ _ Hl). lia.
  - specialize (IH _ _ Hl Hr). lia.
Qed.

(** The ranges before the [i]th end below [c]: no range has a byte from [c]
    to the start of the [i]th. *)
Lemma ranges_first l : forall lo c i r r',
  ranges lo l -> l !! i = Some r -> (forall j y, l !! j = Some y -> (j < i)%nat -> ~ c < y.2) ->
  r' ∈ l -> r'.2 <= c \/ r.1 <= r'.1.
Proof.
  induction l as [|r0 l IH]; intros lo c [|i] r r' Hl Hi Hb Hr'; try done.
  - injection Hi as <-. apply elem_of_cons in Hr' as [->|Hr']; [lia|].
    destruct Hl as (? & ? & Hl). destruct (ranges_in _ _ _ Hl Hr'). lia.
  - apply elem_of_cons in Hr' as [->|Hr'].
    + left. pose proof (Hb 0%nat r0 eq_refl ltac:(lia)). lia.
    + destruct Hl as (? & ? & Hl). eapply IH; [done|done| |done].
      intros j y Hj Hlt. apply (Hb (S j)); [done|lia].
Qed.

(** ** Mapping and unmapping *)

Definition free_at (addr len : Z) (s : system) : bool :=
  forallb (fun r => (r.2 <=? addr) || (addr + len <=? r.1)) (maps s).

Fixpoint insert_range (a b : Z) (l : list (Z * Z)) : list (Z * Z) :=
  match l with
  | [] => [(a, b)]
  | r :: l' => if b <=? r.1 then (a, b) :: l else r :: insert_range a b l'
  end.

Definition place (addr len : Z) (s : system) : option system :=
  if (0 <? len) && (lowest <=? addr) && (addr + len <=? limit) && free_at addr len s
  then Some {| maps := insert_range addr (addr + len) (maps s); unread := unread s |}
  else None.

(** What is left of a range, and of all. *)
Definition cut (addr len : Z) (r : Z * Z) : list (Z * Z) :=
  List.filter (fun r => r.1 <? r.2)
    [(r.1, Z.max r.1 (Z.min r.2 addr)); (Z.min r.2 (Z.max r.1 (addr + len)), r.2)].

Definition remove (addr len : Z) (s : system) : system :=
  if (0 <? addr) && (0 <=? len)
  then {| maps := flat_map (cut addr len) (maps s); unread := unread s |} else s.

Lemma free_at_spec addr len s lo : 0 < len -> ranges lo (maps s) ->
  free_at addr len s = true <-> forall x, addr <= x < addr + len -> ~ exists r, r ∈ maps s /\ in_map x r.
Proof.
  intros Hlen Hr. unfold free_at. rewrite forallb_forall. split.
  - intros Hall x Hx (r & Hin & Hm). unfold in_map in Hm. apply list_elem_of_In in Hin.
    specialize (Hall r Hin). rewrite orb_true_iff, !Z.leb_le in Hall. lia.
  - intros Hall r Hin%list_elem_of_In. destruct (ranges_in _ _ _ Hr Hin) as [? ?].
    rewrite orb_true_iff, !Z.leb_le. destruct (Z.le_gt_cases r.2 addr); [by left|].
    destruct (Z.le_gt_cases (addr + len) r.1); [by right|exfalso].
    apply (Hall (Z.max addr r.1)); [lia|]. exists r. split; [done|]. unfold in_map. lia.
Qed.

Lemma free_at_false addr len s :
  free_at addr len s = false -> exists r, r ∈ maps s /\ addr < r.2 /\ r.1 < addr + len.
Proof.
  unfold free_at. induction (maps s) as [|r l IH]; [done|]. cbn [forallb].
  rewrite andb_false_iff, orb_false_iff, !Z.leb_gt. intros [[? ?]|Hl].
  - exists r. split; [by left|done].
  - destruct (IH Hl) as (r' & ? & ?). exists r'. split; [by right|done].
Qed.

Lemma elem_of_insert_range a b l r : r ∈ insert_range a b l <-> r = (a, b) \/ r ∈ l.
Proof.
  induction l as [|r0 l IH]; simpl; [by rewrite list_elem_of_singleton, elem_of_nil; tauto|].
  destruct (b <=? r0.1); rewrite !elem_of_cons, ?IH; tauto.
Qed.

Lemma insert_ranges a b l : forall lo,
  ranges lo l -> lo <= a < b -> b <= limit ->
  (forall r, r ∈ l -> r.2 <= a \/ b <= r.1) -> ranges lo (insert_range a b l).
Proof.
  induction l as [|r l IH]; intros lo Hl Ha Hb Hfree; simpl; [simpl in *; lia|].
  destruct Hl as (? & ? & Hl). destruct (Z.leb_spec b r.1); simpl.
  { split; [lia|]. split; [lia|]. done. }
  split; [lia|]. split; [done|]. destruct (Hfree r); [by left| |lia].
  apply IH; [done|lia|done|]. intros r' Hr'. apply Hfree. by right.
Qed.

Lemma place_spec addr len s s' :
  os_ok s -> place addr len s = Some s' ->
  0 < len /\ lowest <= addr /\ addr + len <= limit /\ os_ok s' /\
  (forall x, addr <= x < addr + len -> ~ owned s x) /\
  (forall x, owned s' x <-> owned s x \/ addr <= x < addr + len).
Proof.
  intros [Hok Hun]. unfold place. destruct (_ && _) eqn:E; [|done]. intros [= <-].
  rewrite !andb_true_iff, Z.ltb_lt, !Z.leb_le in E. destruct E as [[[E1 E2] E3] E4].
  pose proof (proj1 (free_at_spec addr len s lowest E1 Hok) E4) as Hfree.
  split; [done|]. split; [done|]. split; [done|]. split; [|split].
  - split; [|done]. simpl. apply insert_ranges; [done|lia|done|].
    intros r Hr. unfold free_at in E4. rewrite forallb_forall in E4.
    apply list_elem_of_In in Hr. specialize (E4 r Hr). by rewrite orb_true_iff, !Z.leb_le in E4.
  - intros x Hx [Hlow|Hm]; [lia|]. by apply (Hfree x).
  - intros x. simpl. setoid_rewrite elem_of_insert_range. split.
    + intros [Hlow|(r & [->|Hr] & Hin)]; [by left; left|by right|left; right; eauto].
    + intros [[Hlow|(r & Hr & Hin)]|Hx]; [by left|right; eauto|].
      right. exists (addr, addr + len). split; [by left|done].
Qed.

(** A range that is free can be mapped. *)
Lemma place_free addr len s :
  os_ok s -> 0 < len -> lowest <= addr -> addr + len <= limit ->
  (forall x, addr <= x < addr + len -> ~ owned s x) -> exists s', place addr len s = Some s'.
Proof.
  intros [Hok _] Hlen Hlow Hlim Hfree. unfold place.
  assert (free_at addr len s = true) as ->.
  { eapply free_at_spec; [done|done|]. intros x Hx Hm. apply (Hfree x Hx). by right. }
  destruct (Z.ltb_spec 0 len), (Z.leb_spec lowest addr), (Z.leb_spec (addr + len) limit);
    try lia. by eexists.
Qed.

Lemma elem_of_cut addr len l r' :
  r' ∈ flat_map (cut addr len) l <-> exists r, r ∈ l /\ r'.1 < r'.2 /\
    (r' = (r.1, Z.max r.1 (Z.min r.2 addr)) \/ r' = (Z.min r.2 (Z.max r.1 (addr + len)), r.2)).
Proof.
  rewrite list_elem_of_In, in_flat_map. unfold cut. setoid_rewrite list_elem_of_In.
  setoid_rewrite filter_In. setoid_rewrite Z.ltb_lt. simpl.
  split; intros (r & Hr & H); exists r; (split; [done|]); intuition congruence.
Qed.

Lemma cut_ranges addr len l : 0 <= len -> forall lo,
  ranges lo l -> ranges lo (flat_map (cut addr len) l).
Proof.
  intros Hlen. induction l as [|r l IH]; intros lo; [done|]. intros (? & ? & Hl). specialize (IH _ Hl).
  cbn [flat_map]. unfold cut. simpl.
  destruct (Z.ltb_spec r.1 (Z.max r.1 (Z.min r.2 addr))),
    (Z.ltb_spec (Z.min r.2 (Z.max r.1 (addr + len))) r.2); simpl.
  - split; [lia|]. split; [lia|]. split; [lia|]. split; [lia|done].
  - split; [lia|]. split; [lia|]. eapply ranges_mono; [|exact IH]. lia.
  - split; [lia|]. split; [lia|done].
  - eapply ranges_mono; [|exact IH]. lia.
Qed.

Lemma remove_spec addr len s :
  os_ok s ->
  os_ok (remove addr len s) /\
  (forall x, owned (remove addr len s) x -> owned s x) /\
  (forall x, owned s x -> ~ (addr <= x < addr + len) -> owned (remove addr len s) x) /\
  (lowest <= addr -> forall x, owned (remove addr len s) x -> ~ (addr <= x < addr + len)).
Proof.
  intros [Hok Hun]. unfold remove. destruct (_ && _) eqn:E.
  2: { split; [done|]. split; [done|]. split; [done|]. intros Ha x Hx.
       rewrite andb_false_iff, Z.ltb_ge, Z.leb_gt in E. lia. }
  rewrite andb_true_iff, Z.ltb_lt, Z.leb_le in E. destruct E as [Ha Hl].
  split; [|split; [|split]].
  - split; [by apply cut_ranges|done].
  - intros x [Hlow|(r' & Hr' & Hin)]; [by left|]. apply elem_of_cut in Hr' as (r & Hr & _ & Hc).
    right. exists r. split; [done|]. unfold in_map in *. destruct (ranges_in _ _ _ Hok Hr) as [? ?].
    destruct Hc as [->| ->]; simpl in *; lia.
  - intros x [Hlow|(r & Hr & Hin)] Hx; [by left|]. right. unfold in_map in *.
    destruct (Z.lt_ge_cases x addr).
    + exists (r.1, Z.max r.1 (Z.min r.2 addr)). split; [|simpl; lia].
      apply elem_of_cut. exists r. simpl. split; [done|]. split; [lia|by left].
    + exists (Z.min r.2 (Z.max r.1 (addr + len)), r.2). split; [|simpl; lia].
      apply elem_of_cut. exists r. simpl. split; [done|]. split; [lia|by right].
  - intros Hlow x [Hx|(r' & Hr' & Hin)] Hin'; [lia|].
    apply elem_of_cut in Hr' as (r & Hr & _ & Hc). unfold in_map in *.
    destruct (ranges_in _ _ _ Hok Hr) as [? ?]. destruct Hc as [->| ->]; simpl in *; lia.
Qed.

(** ** The map file *)

Definition map_line (r : Z * Z) : maps_line :=
  {| ml_entry := MemoryMapEntry.new r.1 r.2; ml_digits := (12%nat, 12%nat); ml_rest := "r-xp" |}.
(** The lowest addresses show as mapped. *)
Definition map_lines (s : system) : list maps_line := map_line <$> (0, lowest) :: maps s.

Fixpoint split_at (n : nat) (t : string) : string * string :=
  match n, t with
  | S n', String c t' => let '(a, b) := split_at n' t' in (String c a, b)
  | _, _ => ("", t)
  end.

(** The end of the last range. *)
Definition top (s : system) : Z := foldr (fun r a => Z.max r.2 a) lowest (maps s).
Definition page (z : Z) : Z := (z + 4095) / 4096 * 4096.

(** ** The interfaces *)

Definition placing {A} (addr len : Z) (some : A) (none : A) (s : system) : A * system :=
  match place addr len s with Some s' => (some, s') | None => (none, s) end.

#[export] Instance toy_posix `{Target} : Posix system := {
  (* the files of the library do not exist until they are created *)
  posix_open path flags s :=
    match flags with
    | O_RDONLY => (3, {| maps := maps s; unread := render_file (map_lines s) |})
    | O_RDWR => (-1, s)
    | O_RDWR_CREAT => (4, s)
    end;
  posix_close fd s := (tt, s);
  posix_read fd n s :=
    let '(bytes, rest) := split_at (Z.to_nat (Z.min n 4096)) (unread s) in
    (Some bytes, {| maps := maps s; unread := rest |});
  posix_ftruncate fd len s := (tt, s);
  posix_mmap addr len flags fd off s :=
    let a := if addr =? 0 then page (top s) else addr in placing a len a MAP_FAILED s;
  posix_munmap addr len s :=
    if (addr mod 4096 =? 0) && (lowest <=? addr) then (0, remove addr len s) else (-1, s);
  posix_unlink path s := (tt, s);
  posix_stat path s := (None, s);
  posix_mkdir path s := (0, s);
  posix_opendir path s := (0, s);
  posix_readdir dir s := (None, s);
  posix_closedir dir s := (tt, s);
  posix_kill pid sig s := (0, s);
  posix_errno s := (0, s)
}.

(** A free page is the start of a region up to the next mapping. *)
Definition query (addr : Z) (s : system) : option MEMORY_BASIC_INFORMATION :=
  if (addr <? 0) || (limit <=? addr) then None else
  let base := addr - addr mod 4096 in
  let next := foldr (fun r a => if base <? r.1 then Z.min r.1 a else a) limit (maps s) in
  Some (if (lowest <=? base) && free_at base 4096 s
        then {| BaseAddress := base; RegionSize := Z.max 4096 (next - base); State := MEM_FREE |}
        else {| BaseAddress := base; RegionSize := 4096; State := 0 |}).

(** Gives back the mapping that starts at an address. *)
Definition release (addr : Z) (s : system) : Z * system :=
  match list_find (fun r => r.1 = addr) (maps s) with
  | Some (_, r) => (1, remove addr (r.2 - addr) s)
  | None => (0, s)
  end.
Definition mapping (s : system) (b n : Z) : Prop :=
  lowest <= b /\ exists i, list_find (fun r => r.1 = b) (maps s) = Some (i, (b, b + n)).
(** A system that places allocations [shift] bytes from where they are asked. *)
Definition memory_with (shift : Z) : WindowsMemory system := {|
  VirtualQuery addr n s := match query addr s with
    | Some info => ((n, info), s)
    | None => ((0, {| BaseAddress := 0; RegionSize := 0; State := 0 |}), s)
    end;
  VirtualAlloc addr len _ _ := placing (addr + shift) len (addr + shift) 0;
  VirtualFree addr len _ s := if len =? 0 then release addr s else (0, s)
|}.
#[export] Instance toy_windows_memory : WindowsMemory system := memory_with 0.
#[export] Instance toy_process : WindowsProcess system := {
  OpenProcess id s := (1, s);
  CloseHandle h s := (tt, s);
  IsWow64Process h s := ((1, 0), s)
}.

(** The lowest region, then the mappings. *)
#[export] Instance toy_mach : Mach system := {
  mach_vm_region addr s :=
    match list_find (fun r => addr < r.2) ((0, lowest) :: maps s) with
    | Some (_, r) => ((0, (r.1, r.2 - r.1)), s)
    | None => ((1, (0, 0)), s)
    end;
  mach_vm_allocate addr size := placing addr size (0, addr) (3, 0);
  mach_vm_protect addr size x s := (0, s);
  mach_vm_release addr size s := (0, remove addr size s)
}.
#[export] Instance toy_mmap_rs `{Target} `{SysQuery} : MmapRs system := {
  MemoryAreas_open s := (Some (Some <$> (ml_entry <$> map_lines s)), s);
  MmapOptions_new size := 0 <? size;
  map_exec_mut addr size := placing addr size (Some addr) None;
  drop_MmapMut addr size s := (tt, remove addr size s);
  get_allocation_granularity := 4096
}.
#[export] Instance toy_alloc : GlobalAlloc system := {
  global_alloc size align s := placing (page (top s)) size (page (top s)) 0 s
}.
#[export] Instance toy_strings : CStrings system := {
  into_raw text s := (1, s);
  drop_raw p s := (tt, s)
}.
#[export] Instance toy_tail : UnixMemoryMappedFile.StringTail system := { string_tail s _ := "" }.
#[export] Instance toy_files : WindowsFiles system := {
  OpenFileMappingA name s := (0, s);
  CreateFileMappingA size name s := (1, s);
  MapViewOfFile handle length s := placing (page (top s)) length (page (top s)) 0 s;
  UnmapViewOfFile addr s := (tt, (release addr s).2);
  MemoryMappedFiles.CloseHandle handle s := (tt, s)
}.
#[export] Instance toy_views : SharedViews system := { view_header _ _ := None }.
#[export] Instance toy_releases : PrivateAllocation.Releases system := {
  mach_vm_deallocate addr size s := (if lowest <=? addr then 0 else 4, remove addr size s);
  mmap_rs_unmap_existing addr size s := (lowest <=? addr, remove addr size s)
}.
(** Nobody else runs. *)
#[export] Instance toy_scheduler : Scheduler system := { sched_yield w := w }.
Definition toy_itoa : Itoa := {| itoa_format z := "1" |}.
Definition toy_string_alloc : StringAlloc :=
  {| string_capacity n := n; string_grow len cap add := len + add |}.
Definition toy_nanokit : Nanokit := {| concat_2 a b := a +:+ b |}.

(** ** Targets *)

Definition target_of (private : bool) (o : os) : Target :=
  {| ptr_width := W64; target_os := o; target_aarch64 := false; target_x86 := false;
     feature_all_private := private; feature_no_format := false |}.
Abbreviation target := (target_of true).

(** Apple silicon. *)
Definition apple : Target :=
  {| ptr_width := W64; target_os := MacOS; target_aarch64 := true; target_x86 := false;
     feature_all_private := false; feature_no_format := false |}.

Lemma toy_usize_max {p} o : @usize_max (target_of p o) = 18446744073709551615.
Proof. reflexivity. Qed.

Definition toy_query : SysQuery :=
  {| lpMaximumApplicationAddress := limit - 1; dwAllocationGranularity := 65536;
     dwPageSize := 4096; GetCurrentProcessId := 7; MmapOptions_page_size := 4096;
     MmapOptions_allocation_granularity := 4096; getpid := 7 |}.

Lemma toy_query_ok {p} o : SysQueryOk (T := target_of p o) (Q := toy_query).
Proof.
  constructor; simpl; repeat split; try lia; try done;
    try (by apply Z.mod_divide; [lia|]); by apply Z.divide_refl.
Qed.

(** ** The laws hold *)

Lemma split_at_spec n t a b : split_at n t = (a, b) ->
  t = a +:+ b /\ (String.length a <= n)%nat /\ ((0 < n)%nat -> a = "" -> t = "").
Proof.
  revert t a b. induction n as [|n IH]; intros [|c t] a b; simpl;
    try (intros [= <- <-]; (split; [done|]); (split; [simpl; lia|]); done || lia).
  destruct (split_at n t) as [a' b'] eqn:E. intros [= <- <-].
  destruct (IH _ _ _ E) as (-> & ? & _). split; [done|]. split; [simpl; lia|done].
Qed.

Lemma hex_digits_length n z : String.length (hex_digits n z) = n.
Proof. induction n as [|n IH]; [done|]. simpl. by rewrite IH. Qed.

(** Every line has 31 characters, and there are no more lines than pages. *)
Lemma ranges_length l : forall lo, ranges lo l -> Z.of_nat (length l) <= limit - lo.
Proof.
  induction l as [|r l IH]; intros lo; simpl; [lia|]. intros (? & ? & Hl). specialize (IH _ Hl). lia.
Qed.

Lemma render_line_length r : String.length (render_line (map_line r)) = 30%nat.
Proof.
  unfold render_line. rewrite string_length_app, hex_digits_length. cbn [String.length].
  rewrite string_length_app, hex_digits_length. done.
Qed.

Lemma render_map_length l :
  Z.of_nat (String.length (render_file (map_line <$> l))) = 31 * Z.of_nat (length l).
Proof.
  induction l as [|r l IH]; [done|]. rewrite fmap_cons. cbn [render_file].
  rewrite string_length_app, render_line_length. cbn [String.length length]. lia.
Qed.

Lemma map_text_length s : ranges lowest (maps s) ->
  Z.of_nat (String.length (render_file (map_lines s))) <= 2 ^ 60.
Proof.
  intros Hr%ranges_length. unfold map_lines. rewrite render_map_length.
  cbn [length]. unfold limit in Hr. lia.
Qed.

Lemma toy_grows s s' : os_ok s' -> (forall x, owned s x -> owned s' x) -> grows s s'.
Proof. by split. Qed.
Lemma toy_keeps (s : system) : os_ok s -> keeps s s.
Proof. by split. Qed.

(** The regions of the address space, from the bottom up. *)
Lemma regions_find addr s : os_ok s ->
  match list_find (fun r => addr < r.2) ((0, lowest) :: maps s) with
  | Some (_, r) => 0 <= r.1 < r.2 /\ addr < r.2 /\ r.2 <= limit /\
      (forall x, addr <= x < r.1 -> ~ owned s x) /\ (forall x, Z.max addr r.1 <= x < r.2 -> owned s x)
  | None => forall x, addr <= x -> ~ owned s x
  end.
Proof.
  intros [Hr _]. simpl. destruct (decide (addr < lowest)) as [Hlow|Hhigh]; simpl.
  { unfold limit. split; [lia|]. split; [lia|]. split; [lia|]. split; intros x Hx; [|left; lia].
    intros [?|(r & Hin & Hm)]; [lia|]. destruct (ranges_in _ _ _ Hr Hin). unfold in_map in Hm. lia. }
  destruct (list_find (fun r => addr < r.2) (maps s)) as [[i r]|] eqn:E; simpl.
  - apply list_find_Some in E as (Hi & Ha & Hbefore).
    assert (Hin : r ∈ maps s) by (by eapply list_elem_of_lookup_2).
    destruct (ranges_in _ _ _ Hr Hin) as [? ?]. split; [lia|]. split; [done|]. split; [done|]. split.
    + intros x Hx [?|(r' & Hr' & Hm)]; [lia|]. unfold in_map in Hm.
      assert (addr < r'.2) by lia. pose proof (ranges_first _ _ _ _ _ _ Hr Hi Hbefore Hr'). lia.
    + intros x Hx. right. exists r. split; [done|]. unfold in_map. lia.
  - apply list_find_None in E. rewrite list.Forall_forall in E.
    intros x Hx [?|(r' & Hr' & Hm)]; [lia|]. unfold in_map in Hm. specialize (E r' Hr'). lia.
Qed.

Lemma areas_of_lines s : omap id (Some <$> (ml_entry <$> map_lines s)) = ml_entry <$> map_lines s.
Proof. induction (ml_entry <$> map_lines s) as [|e l IH]; [done|]. csimpl. by f_equal. Qed.

Lemma ranges_ordered `{Target} l : limit <= usize_max -> forall lo, ranges lo l ->
  ordered lo (ml_entry <$> (map_line <$> l)).
Proof.
  intros Hu. induction l as [|r l IH]; intros lo; [done|]. csimpl. intros (? & ? & Hl).
  pose proof (ranges_le _ _ Hl). simpl. split; [lia|]. split; [lia|]. by apply IH.
Qed.

Lemma map_lines_exact {p o} s : os_ok s ->
  exact_map (T := target_of p o) s (ml_entry <$> map_lines s).
Proof.
  intros [Hr _]. unfold map_lines.
  assert (Hall : ranges 0 ((0, lowest) :: maps s)) by (simpl; split; [lia|split; [lia|done]]).
  assert (Hmem : forall e, e ∈ ml_entry <$> (map_line <$> (0, lowest) :: maps s) <->
    exists r, r ∈ (0, lowest) :: maps s /\ e = MemoryMapEntry.new r.1 r.2).
  { intros e. rewrite <- list_fmap_compose, list_elem_of_fmap. simpl.
    split; intros (r & ? & ?); exists r; done. }
  constructor.
  - apply (ranges_ordered (H := target_of p o)); [|done]. rewrite toy_usize_max. unfold limit. lia.
  - intros e (r & Hin & ->)%Hmem. simpl. destruct (ranges_in _ _ _ Hall Hin). lia.
  - intros x. setoid_rewrite Hmem. split.
    + intros (e & (r & Hin & ->) & Hm). unfold mapped in Hm. simpl in Hm.
      apply elem_of_cons in Hin as [->|Hin]; [by left|]. right. exists r. done.
    + intros [Hx|(r & Hin & Hm)].
      * eexists. split; [exists (0, lowest); split; [by left|done]|]. done.
      * eexists. split; [exists r; split; [by right|done]|]. done.
Qed.

Definition toy_posix_laws {p} o :
  PosixLaws (OS := system) (T := target_of p o) (Q := toy_query)
    (PX := toy_posix (H := target_of p o)) (I := toy_itoa).
Proof.
  refine {| px_readable _ := True; px_maps _ _ := True;
    px_left s fd := Z.of_nat (String.length (unread s)) |}.
  - done.
  - intros pid s [Hok Hun] _. simpl. split; [lia|]. split; [done|]. split; [|done].
    split; [done|]. by apply map_text_length.
  - intros s fd [_ Hun] _. rewrite toy_usize_max. lia.
  - intros fd n s [Hok Hun] _. simpl.
    destruct (split_at (Z.to_nat (Z.min n 4096)) (unread s)) as [bytes rest] eqn:E.
    destruct (split_at_spec _ _ _ _ E) as (Heq & Hlen & _). rewrite Heq, string_length_app in *.
    exists bytes. split; [done|]. simpl. split; [|split; [done|]].
    + intros Hne. destruct bytes; [done|]. simpl in *. lia.
    + split; [|done]. split; [done|]. simpl. lia.
  - intros fd s Hok. by apply toy_keeps.
  - intros addr len flags fd off s Hok Hlen. unfold posix_mmap, toy_posix, placing.
    set (a := if addr =? 0 then _ else _).
    destruct (place a len s) as [s'|] eqn:E; [|by split; [|left]].
    destruct (place_spec _ _ _ _ Hok E) as (? & ? & ? & Hok' & ? & Hown). split; [done|]. right.
    split; [lia|]. split; [lia|]. split; [done|].
    split; [rewrite toy_usize_max; unfold limit in *; lia|].
    split; [done|]. intros x Hx. by apply Hown.
  - intros addr len s Hok. unfold posix_munmap, toy_posix.
    destruct (Z.eqb_spec (addr mod 4096) 0), (Z.leb_spec lowest addr); simpl; try done.
    destruct (remove_spec addr len s Hok) as (? & ? & ? & Hout).
    split; [done|]. split; [done|]. split; [done|]. split; [done|]. intros _ x Hx Ho.
    by apply (Hout ltac:(done) x Ho).
Defined.

Definition toy_file_laws {p} o :
  PosixFileLaws (OS := system) (T := target_of p o) (PX := toy_posix (H := target_of p o)).
Proof.
  refine (@Build_PosixFileLaws (target_of p o) system _ (toy_posix (H := target_of p o))
    _ _ _ _ _ _ (fun _ _ => 0) _ _ _ _ _);
    try (intros; split; [by apply toy_keeps|done]); try (intros; by apply toy_keeps).
  - intros path [] s [Hok Hun]; (split; [|done]); try done. split; [done|]. by apply map_text_length.
  - intros s dir _. rewrite toy_usize_max. lia.
Defined.

Lemma remove_frees addr len (released : Prop) s :
  os_ok s -> (released -> lowest <= addr) -> frees addr len released s (remove addr len s).
Proof.
  intros Hok Hpos. destruct (remove_spec addr len s Hok) as (? & ? & ? & Hout).
  constructor; [done|done|done|]. intros Hr x Hx Ho. by apply (Hout (Hpos Hr) x Ho).
Qed.

(** The new mapping is the one that starts there. *)
Lemma place_mapping a len s s' :
  os_ok s -> place a len s = Some s' -> mapping s' a len.
Proof.
  intros [Hok _] E. unfold place in E. destruct (_ && _) eqn:E'; [|done]. injection E as <-.
  rewrite !andb_true_iff, Z.ltb_lt, !Z.leb_le in E'. destruct E' as [[[E1 E2] E3] E4].
  split; [done|]. simpl. unfold free_at in E4. rewrite forallb_forall in E4. clear E2 E3.
  revert Hok E4. generalize lowest. induction (maps s) as [|r l IH]; intros lo Hok E4; simpl.
  - exists 0%nat. by rewrite decide_True.
  - destruct Hok as (? & ? & Hl). destruct (Z.leb_spec (a + len) r.1).
    + exists 0%nat. simpl. by rewrite decide_True.
    + destruct (IH _ Hl) as (i & Hi); [intros r' Hr'; apply E4; by right|].
      exists (S i). simpl. assert (Hr := E4 r (or_introl eq_refl)).
      rewrite orb_true_iff, !Z.leb_le in Hr. rewrite decide_False by lia. by rewrite Hi.
Qed.

Lemma release_frees b n s :
  os_ok s -> mapping s b n -> frees b n True s (release b s).2.
Proof.
  intros Hok (Hb & i & Hi). unfold release. rewrite Hi. simpl.
  replace (b + n - b) with n by lia. by apply remove_frees.
Qed.

Definition toy_windows_memory_laws {p o} shift :
  WindowsMemoryLaws (OS := system) (T := target_of p o) (Q := toy_query)
    (WM := memory_with shift).
Proof.
  refine (@Build_WindowsMemoryLaws (target_of p o) toy_query system _ (memory_with shift)
    mapping _ _ _ _ _).
  - intros addr n s Hok. simpl. unfold query.
    rewrite orb_lazy_alt. destruct (Z.ltb_spec addr 0); [by split; [apply toy_keeps|]|].
    destruct (Z.leb_spec limit addr); [by split; [apply toy_keeps|]|]. simpl.
    split; [by apply toy_keeps|]. intros _.
    set (base := addr - addr mod 4096). set (next := foldr _ _ _).
    mod_bound addr 4096. pose proof (mod_multiple addr 4096 ltac:(lia)).
    assert (Hb : 0 <= base <= addr /\ addr < base + 4096 /\ base + 4096 <= limit).
    { unfold base, limit in *. assert (0 <= addr / 4096) by (apply Z.div_pos; lia). lia. }
    assert (Hnext : next <= limit).
    { unfold next. clear. induction (maps s) as [|r l IH]; simpl; [lia|]. case_match; lia. }
    unfold page_answer. destruct (_ && _); simpl; unfold limit in *; lia.
  - intros addr len s Hok. simpl. unfold placing.
    destruct (place (addr + shift) len s) as [s'|] eqn:E; [|by split; [|left]].
    destruct (place_spec _ _ _ _ Hok E) as (? & ? & ? & Hok' & ? & Hown). split; [done|]. right.
    split; [lia|]. split; [rewrite toy_usize_max; unfold limit in *; lia|].
    split; [done|]. split; [intros x Hx; by apply Hown|]. intros _.
    exact (place_mapping _ _ _ _ Hok E).
  - intros addr len s Hok Hlen. simpl. destruct (Z.eqb_spec len 0); [done|].
    split; [done|]. by apply toy_keeps.
  - intros b n s Hok Hm. simpl. by apply release_frees.
  - intros n s Hok. simpl. destruct (n =? 0); [|by apply toy_keeps]. unfold release.
    destruct (list_find _ (maps s)) as [[i r]|] eqn:E; [|by apply toy_keeps].
    apply list_find_Some in E as (Hi & Hz & _). apply list_elem_of_lookup_2 in Hi.
    destruct (ranges_in _ _ _ (proj1 Hok) Hi). lia.
Defined.

Lemma toy_windows_laws {p} shift :
  WindowsLaws (OS := system) (WM := memory_with shift)
    (WML := toy_windows_memory_laws (p := p) (o := Windows) shift).
Proof. constructor; intros; try (split; [|done]); by apply toy_keeps. Qed.

Lemma toy_mach_laws o : MachLaws (OS := system) (T := target o) (Q := toy_query).
Proof.
  constructor.
  - intros addr s Hok. pose proof (regions_find addr s Hok) as Hf. cbn [mach_vm_region toy_mach].
    destruct (list_find _ ((0, lowest) :: maps s)) as [[i r]|]; (split; [by apply toy_keeps|]);
      [|done]. intros _. destruct Hf as (? & ? & ? & _).
    rewrite toy_usize_max. unfold limit in *. lia.
  - intros addr size s Hok Hs _ _. unfold mach_vm_allocate, toy_mach, placing.
    destruct (place addr size s) as [s'|] eqn:E; [|by split; [|left]].
    destruct (place_spec _ _ _ _ Hok E) as (? & ? & ? & Hok' & ? & Hown). split; [done|]. right.
    split; [done|]. split; [done|]. split; [rewrite toy_usize_max; unfold limit in *; lia|].
    split; [done|]. intros x Hx. by apply Hown.
  - intros. by apply toy_keeps.
  - intros addr size s Hok. simpl. by destruct (remove_spec addr size s Hok) as (? & ? & ? & _).
  - intros s Hok. left. lia.
Qed.

Lemma toy_mmap_rs_laws o : MmapRsLaws (OS := system) (T := target o) (Q := toy_query)
  (MR := toy_mmap_rs (H := target o) (H0 := toy_query)).
Proof.
  constructor.
  - intros s Hok. split; [by apply toy_keeps|]. cbn [MemoryAreas_open toy_mmap_rs fst].
    rewrite areas_of_lines. destruct (map_lines_exact (p := true) (o := o) s Hok) as [? _ Hown]. split; [done|].
    intros x _. apply Hown.
  - intros addr size s Hok Hs _ Hfree. unfold map_exec_mut, toy_mmap_rs, placing.
    destruct (place addr size s) as [s'|] eqn:E; [|by split].
    destruct (place_spec _ _ _ _ Hok E) as (? & ? & ? & Hok' & ? & Hown).
    split; [done|]. split; [lia|]. split; [rewrite toy_usize_max; unfold limit in *; lia|]. done.
  - intros asked addr size s s1 Hok Hs. unfold map_exec_mut, toy_mmap_rs, placing.
    destruct (place asked size s) as [s'|] eqn:E; [|done]. intros [= <- <-].
    destruct (place_spec _ _ _ _ Hok E) as (? & ? & ? & Hok' & Hfree & Hown).
    cbn [drop_MmapMut toy_mmap_rs snd].
    destruct (remove_spec asked size s' Hok') as (? & Hless & Hrest & Hout).
    split; [done|]. intros x. split.
    + intros Hx. specialize (Hout ltac:(done) x Hx). apply Hless, Hown in Hx. tauto.
    + intros Hx. apply Hrest; [apply Hown; by left|]. intros Hin. by apply (Hfree x).
Qed.

Lemma toy_alloc_laws {p} o : GlobalAllocLaws (OS := system) (T := target_of p o).
Proof.
  constructor. intros size align s Hok Hs _. unfold global_alloc, toy_alloc, placing.
  destruct (place _ size s) as [s'|] eqn:E; [|by split; [|split]].
  destruct (place_spec _ _ _ _ Hok E) as (? & ? & ? & Hok' & Hf & Hown).
  split; [done|]. split; [intros x Hx; apply Hown; by left|]. intros _.
  split; [lia|]. split; [rewrite toy_usize_max; unfold limit in *; lia|].
  intros x Hx. split; [by apply Hf|]. apply Hown. by right.
Qed.

(** The same where every file exists already. *)
Definition existing_files : WindowsFiles system := {|
  OpenFileMappingA name s := (2, s);
  CreateFileMappingA size name s := (1, s);
  MapViewOfFile handle length s := placing (page (top s)) length (page (top s)) 0 s;
  UnmapViewOfFile addr s := (tt, (release addr s).2);
  MemoryMappedFiles.CloseHandle handle s := (tt, s)
|}.

Definition file_laws {p} o (WF : WindowsFiles system) :
  WF = toy_files \/ WF = existing_files ->
  WindowsFileLaws (OS := system) (T := target_of p o) (WF := WF).
Proof.
  intros Hwf. refine (@Build_WindowsFileLaws (target_of p o) system _ WF _ _ _ mapping _ _);
    try (by destruct Hwf as [->| ->]; intros; apply toy_keeps).
  - intros h len s Hok Hlen.
    assert (MapViewOfFile h len s = placing (page (top s)) len (page (top s)) 0 s) as ->
      by by destruct Hwf as [->| ->].
    unfold placing.
    destruct (place (page (top s)) len s) as [s'|] eqn:E; [|by split; [apply toy_grows|]].
    destruct (place_spec _ _ _ _ Hok E) as (? & ? & ? & Hok' & Hfree & Hown). split.
    { split; [done|]. intros x Hx. apply Hown. by left. }
    intros _. split; [lia|]. split; [rewrite toy_usize_max; unfold limit in *; lia|]. split.
    + exact (place_mapping _ _ _ _ Hok E).
    + intros x Hx. split; [by apply Hfree|]. apply Hown. by right.
  - intros a len s Hok Hm. assert ((UnmapViewOfFile a s).2 = (release a s).2) as ->
      by by destruct Hwf as [->| ->].
    destruct (release_frees a len s Hok Hm) as [? _ ? Hgone]. split; [done|]. split; [done|].
    by apply Hgone.
Defined.
Definition toy_windows_file_laws {p} o :
  WindowsFileLaws (OS := system) (T := target_of p o) (WF := toy_files) :=
  file_laws o toy_files (or_introl eq_refl).

Lemma toy_release_laws : ReleaseLaws (OS := system).
Proof.
  constructor; intros b n s Hok; (apply remove_frees; [done|]); simpl; by destruct (Z.leb_spec lowest b).
Qed.

Lemma toy_strings_laws : CStringsLaws (OS := system).
Proof. constructor; intros; [split; [simpl; lia|by split]|by apply toy_keeps]. Qed.

(** ** The system grants what is free *)

Lemma placing_free {A} addr len (some none : A) s :
  os_ok s -> 0 < len -> lowest <= addr -> addr + len <= limit ->
  (forall x, addr <= x < addr + len -> ~ owned s x) -> (placing addr len some none s).1 = some.
Proof.
  intros Hok Hlen Hlow Hlim Hfree. unfold placing.
  by destruct (place_free addr len s Hok Hlen Hlow Hlim Hfree) as [s' ->].
Qed.

Lemma toy_max {p} o : Cached.max_address (get_sys_info (T := target_of p o) (Q := toy_query)) <= limit.
Proof. by destruct o. Qed.

Lemma map_line_ok {p} o r : 0 <= r.1 < r.2 -> r.2 <= limit -> line_ok (T := target_of p o) (map_line r).
Proof.
  intros H1 H2. change limit with 140737488355328 in H2.
  change (16 ^ Z.of_nat 12) with 281474976710656. constructor; simpl; try done.
  - lia.
  - change (16 ^ Z.of_nat 12) with 281474976710656. lia.
  - change (16 ^ Z.of_nat 12) with 281474976710656. lia.
  - rewrite toy_usize_max. lia.
Qed.

Lemma toy_string_laws : StringAllocLaws (SA := toy_string_alloc).
Proof. constructor; simpl; intros; lia. Qed.

Definition toy_linux_laws {p} o :
  LinuxLaws (T := target_of p o) (Q := toy_query) (I := toy_itoa) (PL := toy_posix_laws o).
Proof.
  refine {| lx_text s fd := unread s; lx_roomy _ _ := True; lx_lowest := lowest |}; [done|..].
  - intros s Hok. split; [|done]. exists (map_lines s). split; [done|].
    set (s' := {| maps := maps s; unread := _ |}).
    assert (Hok' : os_ok s') by (split; [apply Hok|by apply map_text_length, Hok]).
    split; [|by apply (map_lines_exact (p := p) (o := o) s' Hok')].
    apply list.Forall_forall. intros l (r & -> & Hr)%list_elem_of_fmap.
    destruct Hok as [Hr' _]. apply elem_of_cons in Hr as [->|Hr]; [by apply map_line_ok|].
    destruct (ranges_in _ _ _ Hr' Hr). apply map_line_ok; [lia|done].
  - intros fd n bytes s s' Hok _ Hn. simpl.
    destruct (split_at (Z.to_nat (Z.min n 4096)) (unread s)) as [b rest] eqn:E. intros [= <- <-].
    destruct (split_at_spec _ _ _ _ E) as (Heq & Hlen & Hend). split; [done|].
    split; [apply Hend; lia|done].
  - done.
  - intros addr len s Hok _ Hlow _ Hlen Hmax Hfree. unfold posix_mmap, toy_posix.
    destruct (Z.eqb_spec addr 0); [lia|]. apply placing_free; try done.
    pose proof (toy_max (p := p) o). lia.
Defined.

(** It gives at most 4096 bytes at once. *)
Lemma toy_short_reads {p} o :
  short_reads (T := target_of p o) (Q := toy_query) (I := toy_itoa) (PL := toy_posix_laws o).
Proof.
  intros fd n bytes s s' Hok _ Hn. simpl.
  destruct (split_at (Z.to_nat (Z.min n 4096)) (unread s)) as [b rest] eqn:E. intros [= <- <-].
  destruct (split_at_spec _ _ _ _ E) as (_ & Hlen & _). unfold BUFFER_SIZE. lia.
Qed.

(** The next mapping behind an address, or the end. *)
Definition next_range (base : Z) (l : list (Z * Z)) : Z :=
  foldr (fun r a => if base <? r.1 then Z.min r.1 a else a) limit l.

Lemma next_range_spec base l :
  (forall r, r ∈ l -> base < r.1 -> next_range base l <= r.1) /\ next_range base l <= limit /\
  (base < limit -> base < next_range base l) /\
  (next_range base l < limit -> exists r, r ∈ l /\ r.1 = next_range base l).
Proof.
  induction l as [|r l (IH1 & IH2 & IH3 & IH4)]; cbn [next_range foldr].
  - split; [by intros r ?%elem_of_nil|]. split; [done|]. split; [done|]. lia.
  - fold (next_range base l). destruct (Z.ltb_spec base r.1).
    + split; [|split; [lia|split; [lia|]]].
      * intros r' [->|Hr']%elem_of_cons Hb; [lia|]. specialize (IH1 r' Hr' Hb). lia.
      * intros Hlt. destruct (Z.min_spec r.1 (next_range base l)) as [[? ->]|[? Hm]].
        -- exists r. split; [by left|done].
        -- rewrite Hm in *. destruct (IH4 Hlt) as (r' & ? & ?). exists r'. split; [by right|done].
    + split; [|split; [done|split; [done|]]].
      * intros r' [->|Hr']%elem_of_cons Hb; [lia|]. auto.
      * intros Hlt. destruct (IH4 Hlt) as (r' & ? & ?). exists r'. split; [by right|done].
Qed.

Definition toy_windows_grants {p} :
  WindowsGrants (T := target_of p Windows) (Q := toy_query) (OS := system).
Proof.
  refine (@Build_WindowsGrants (target_of p Windows) toy_query system _ _ _
    (fun _ _ => True) lowest _ _ _ _); [done|..].
  - intros addr s [Hr Hun] Ha. cbn [lpMaximumApplicationAddress toy_query] in Ha.
    cbn [VirtualQuery toy_windows_memory memory_with]. unfold query.
    destruct (Z.ltb_spec addr 0); [lia|]. destruct (Z.leb_spec limit addr); [lia|]. cbn [orb].
    set (base := addr - addr mod 4096). fold (next_range base (maps s)).
    mod_bound addr 4096. assert (Hal : (4096 | base)).
    { exists (addr / 4096). unfold base. pose proof (Z.div_mod addr 4096). lia. }
    assert (Hb : base + 4096 <= limit /\ 0 <= base).
    { destruct Hal as [q Hq]. unfold limit in *. lia. }
    destruct (next_range_spec base (maps s)) as (Hnext & Hle & Hlt & Hhit).
    destruct ((lowest <=? base) && free_at base 4096 s) eqn:E; cbn [BaseAddress RegionSize State Z.eqb].
    + bool_props. destruct E as [Hlow Hfree].
      pose proof (proj1 (free_at_spec base 4096 s lowest ltac:(lia) Hr) Hfree) as Hpage.
      assert (Hfar : base + 4096 <= next_range base (maps s)).
      { destruct (Z.le_gt_cases (base + 4096) (next_range base (maps s))); [done|exfalso].
        destruct Hhit as (r & Hin & Hr1); [lia|]. destruct (ranges_in _ _ _ Hr Hin).
        apply (Hpage r.1); [lia|]. exists r. split; [done|]. unfold in_map. lia. }
      rewrite Z.max_r by lia. replace (base + (next_range base (maps s) - base)) with
        (next_range base (maps s)) by lia.
      split; [done|]. split; [done|]. split; [done|]. split.
      * intros x Hx [?|(r & Hin & Hm)]; [lia|]. unfold in_map in Hm.
        destruct (Z.le_gt_cases r.1 base) as [Hl|Hg]; [|specialize (Hnext r Hin Hg); lia].
        apply (Hpage (Z.max base r.1)); [lia|]. exists r. split; [done|]. unfold in_map. lia.
      * cbn [lpMaximumApplicationAddress toy_query]. intros Hn. destruct Hhit as (r & Hin & Hr1); [lia|].
        destruct (ranges_in _ _ _ Hr Hin). right. exists r. split; [done|]. unfold in_map. lia.
    + split; [done|]. split; [done|]. split; [done|]. intros q Hq Hlow Hin.
      assert (q = base) as -> by (destruct Hal as [k1 Hk1], Hq as [k2 Hk2]; lia).
      rewrite (proj2 (Z.leb_le _ _) Hlow) in E. destruct (free_at_false _ _ _ E) as (r & Hr' & ? & ?).
      destruct (ranges_in _ _ _ Hr Hr'). exists (Z.max base r.1). split; [lia|].
      right. exists r. split; [done|]. unfold in_map. lia.
  - intros addr len s Hok _ Hlow _ Hlen Hmax Hfree. cbn [VirtualAlloc toy_windows_memory memory_with].
    rewrite Z.add_0_r. apply placing_free; try done. cbn [lpMaximumApplicationAddress toy_query] in Hmax. lia.
  - intros s _. by split.
Defined.

Definition toy_mach_grants o :
  MachGrants (T := target o) (Q := toy_query) (OS := system) (MA := toy_mach).
Proof.
  refine (@Build_MachGrants (target o) toy_query system _ _ (fun _ _ => True) _ _ _).
  - intros addr s Hok Ha. pose proof (regions_find addr s Hok) as Hf. cbn [mach_vm_region toy_mach].
    destruct (list_find _ ((0, lowest) :: maps s)) as [[i r]|]; (split; [done|]).
    + right. destruct Hf as (_ & _ & _ & Hfree & Hown). split; [done|]. split; [done|].
      intros x Hx. apply Hown. lia.
    + left. split; [done|]. intros x Hx. apply Hf. lia.
  - intros addr size s Hok _ Hpos _ Hsz Hmax Hfree. cbn [mach_vm_allocate toy_mach].
    assert (Hlow : lowest <= addr).
    { destruct (Z.le_gt_cases lowest addr); [done|exfalso]. apply (Hfree addr); [lia|]. left. lia. }
    rewrite (placing_free addr size (0, addr) (3, 0) s Hok Hsz Hlow); [done| |done].
    pose proof (toy_max (p := true) o). lia.
  - done.
Defined.
