(* ===== verification/ToyChain.v ===== *)
(** * A small chain of locators

    One locator on the system of Toy.v, with no item and with one: the worlds
    on which the witnesses run the operations. *)

From S2P Require Import Prelude Mathematics SysInfo Settings Errors Text Items Headers World.
From S2P Require Import Platform Kernel32.
From S2P Require Import ItemOps MapParser Posix PosixSpec MemoryMappedFiles Platform HeaderOps HeaderSpec.
From S2P Require Import HeaderWp HeaderInit HeaderNext Finder MappedFile Buffers AllocLinux.
From S2P Require Import AllocWindows AllocOsx AllocMmapRs Allocate BuffersSpec ReleaseSpec FinderSpec.
From S2P Require Import ErrorTexts CExports CSpec Toy.
Import LocatorHeader.

#[export] Instance linux : Target := target Linux.
#[export] Instance toy_sys_query : SysQuery := toy_query.
#[export] Instance toy_sys_query_ok : SysQueryOk := toy_query_ok Linux.
#[export] Existing Instances toy_itoa toy_string_alloc toy_nanokit.
#[export] Existing Instances toy_strings_laws toy_release_laws.

Lemma toy_paths_ok : paths_ok.
Proof. by intros z. Qed.

#[export] Instance toy_posix_ok : PosixLaws := toy_posix_laws Linux.
#[export] Instance toy_alloc_ok : GlobalAllocLaws := toy_alloc_laws Linux.
#[export] Instance toy_laws : PlatformLaws := linux_platform_laws eq_refl toy_paths_ok.

#[export] Instance toy_plain : PlainErrors (OS := system).
Proof. constructor. intros s e os os' _. apply target_plain. Qed.
#[export] Instance toy_windows_memory_ok : WindowsMemoryLaws :=
  toy_windows_memory_laws (o := Linux) 0.
#[export] Instance toy_tracks : TracksAllocations.
Proof. by apply unix_tracks_allocations. Qed.

Lemma toy_fits : granule_fits.
Proof. intros _. by vm_compute. Qed.

(** Nothing is mapped. *)
Definition empty_world : World system :=
  mkWorld {| maps := []; unread := "" |} ∅ ∅ ∅ [] 0 None.

Lemma empty_ok : os_ok (w_os empty_world).
Proof. by split. Qed.

Lemma empty_unstarted : unstarted empty_world.
Proof. split; [apply empty_ok|done]. Qed.

(** One locator at 65536. *)
Definition first_address : Z := 65536.
Definition first_os : system := {| maps := [(65536, 69632)]; unread := "" |}.
Definition first_header : LocatorHeader := initialized first_address 0 LocatorHeader.new.
Definition first_world : World system :=
  set_locator_header_address first_address
    (with_block (<[first_address := first_header]> ∅) ∅ first_os empty_world).

Lemma first_fresh :
  fresh_block first_address (<[first_address := first_header]> ∅) ∅ first_os empty_world.
Proof.
  assert (Hg : granularity = 4096) by done.
  assert (Hp : place 65536 4096 (w_os empty_world) = Some first_os) by done.
  destruct (place_spec _ _ _ _ empty_ok Hp) as (? & ? & ? & Hok & Hfree & Hown).
  constructor; rewrite ?Hg.
  - done.
  - by vm_compute.
  - intros x Hx. split; [by apply Hfree|]. apply Hown. by right.
  - done.
  - intros x Hx. apply Hown. by left.
  - by apply row_one.
  - apply preallocated_nil.
Qed.

Lemma first_ready : ready first_address [first_address] first_world.
Proof.
  split; [|done].
  pose proof (sound_fresh toy_fits [] first_address _ _ first_os empty_world
    (sound_nil _ empty_ok) first_fresh) as Hs.
  apply sound_inv.
  - destruct Hs. constructor; assumption.
  - eapply chain_last; [apply lookup_insert_eq|done].
  - apply NoDup_singleton.
Qed.

(** The same with one buffer of 4096 bytes at 131072, taken or free. *)
Definition one_item (taken : Z) : LocatorItem :=
  {| LocatorItem.base_address := 131072; LocatorItem.size := 4096; LocatorItem.position := 16;
     LocatorItem.is_taken := taken |}.
Definition second_os : system :=
  {| maps := [(65536, 69632); (131072, 135168)]; unread := "" |}.
Definition item_world (taken : Z) : World system :=
  set_headers (<[first_address := set_num_items 1 first_header]> (w_headers first_world))
    (set_items (<[get_item first_address 0 := one_item taken]> (w_items first_world))
      (set_os second_os first_world)).

Lemma item_ready taken : taken = 0 \/ taken = 1 ->
  ready first_address [first_address] (item_world taken).
Proof.
  intros Htk. split; [|done].
  assert (Hp : place 131072 4096 first_os = Some second_os) by done.
  assert (Hok : os_ok first_os).
  { apply (inv_os first_address [first_address] first_world), first_ready. }
  destruct (place_spec _ _ _ _ Hok Hp) as (? & ? & ? & Hok2 & Hfree & Hown).
  apply (inv_push_item first_address [first_address] first_world first_address first_header).
  - apply first_ready.
  - by apply list_elem_of_singleton.
  - apply lookup_insert_eq.
  - done.
  - constructor; simpl; [lia|done|lia|]. by vm_compute.
  - done.
  - done.
  - intros x Hx. apply Hown. by left.
  - intros x Hx. unfold LocatorItem.in_buffer in Hx. simpl in Hx.
    split; [apply Hfree; lia|]. apply Hown. right. lia.
Qed.

Lemma item_registered taken :
  registered (w_headers (item_world taken)) [first_address] (get_item first_address 0).
Proof.
  exists first_address, (set_num_items 1 first_header), 0.
  split; [by apply list_elem_of_singleton|]. split; [apply lookup_insert_eq|]. split; [|done].
  simpl. lia.
Qed.

Lemma item_lookup taken :
  w_items (item_world taken) !! get_item first_address 0 = Some (one_item taken).
Proof. apply lookup_insert_eq. Qed.

(** A search for 100 bytes below 2 GiB. *)
Definition search : BufferSearchSettings :=
  {| BufferSearchSettings.min_address := 65536; BufferSearchSettings.max_address := 0x7FFFFFFF;
     BufferSearchSettings.size := 100 |}.
Lemma search_wf : BufferSearchSettings.wf search.
Proof. constructor; by vm_compute. Qed.

Definition request : BufferAllocatorSettings :=
  {| BufferAllocatorSettings.min_address := 65536; BufferAllocatorSettings.max_address := 0x7FFFFFFF;
     BufferAllocatorSettings.size := 4096; BufferAllocatorSettings.target_process_id := 7;
     BufferAllocatorSettings.retry_count := 2; BufferAllocatorSettings.brute_force := true |}.
Lemma request_wf (T : Target) : ptr_width = W64 -> BufferAllocatorSettings.wf request.
Proof.
  intros Hw. constructor; simpl; unfold is_usize, usize_max, usize_modulus; rewrite ?Hw; by vm_compute.
Qed.

(** The same process on Windows, with shared locators: the granularity is
    64 KiB. *)
Definition shared : Target := target_of false Windows.
Definition shared_laws : PlatformLaws (T := shared) (P := target_platform (T := shared)) :=
  windows_platform_laws (T := shared) (WL := toy_windows_laws 0) (GL := toy_alloc_laws Windows)
    (HQ := toy_query_ok Windows) eq_refl.
Definition shared_file_laws : MappedFileLaws (T := shared) (PX := toy_posix (H := shared)) :=
  windows_mapped_files (T := shared) (HQ := toy_query_ok Windows)
    (WL := toy_windows_file_laws Windows) eq_refl.

Lemma shared_fits : granule_fits (T := shared).
Proof. intros _. by vm_compute. Qed.

(** No file exists yet, and one can be made. *)
Lemma empty_published : published (T := shared) empty_world.
Proof. intros m os' E. vm_compute in E. by injection E as <- <-. Qed.
Lemma empty_mappable : mappable (T := shared) empty_world.
Proof. intros m os' E _. vm_compute in E. by injection E as <- <-. Qed.

(** Two copies of the library in one process: the first has found its locator
    and searched, the second finds the file of the first. *)
Definition first_copy : World system :=
  match Buffers.get_buffer (T := shared) (P := target_platform (T := shared)) search empty_world with
  | Done _ w => w
  | _ => empty_world
  end.
Definition first_copy_address : Z := w_locator_header_address first_copy.
Definition existing_file_laws :
    MappedFileLaws (T := shared) (PX := toy_posix (H := shared)) (WF := existing_files) :=
  windows_mapped_files (T := shared) (HQ := toy_query_ok Windows) (WF := existing_files)
    (WL := file_laws Windows existing_files (or_intror eq_refl)) eq_refl.
Definition existing_views : SharedViews system :=
  {| view_header _ _ := w_headers first_copy !! first_copy_address |}.

Lemma first_copy_ready : exists l, ready (T := shared) first_copy_address l first_copy.
Proof.
  pose proof (get_buffer_shared_spec (T := shared) (P := target_platform (T := shared))
    (L := shared_laws) (HQ := toy_query_ok Windows) (ML := shared_file_laws) empty_world search
    shared_fits empty_unstarted) as H.
  specialize (H ltac:(done) eq_refl empty_published empty_mappable
    ltac:(constructor; by vm_compute) ltac:(by vm_compute)).
  unfold first_copy_address, first_copy. unfold wp_unless in H.
  destruct (Buffers.get_buffer (T := shared) search empty_world) eqn:E; try (by vm_compute in E).
  destruct H as (_ & b & l & w1 & Hf & Hs).
  destruct (searched_ready (T := shared) _ _ _ _ _ _ (proj1 Hf) Hs) as (l' & [Hi Ha] & _).
  exists l'. by split; [rewrite Ha|].
Qed.

Lemma first_copy_coherent :
  coherent (T := shared) (WF := existing_files) (SV := existing_views) first_copy_address first_copy.
Proof. intros m os' E. vm_compute in E. by injection E as <- <-. Qed.
Lemma first_copy_mappable : mappable (T := shared) (WF := existing_files) first_copy.
Proof. intros m os' E _. vm_compute in E. by injection E as <- <-. Qed.

(** The program runs: a search on the empty locator allocates a buffer. *)
Example search_runs :
  (match Buffers.get_buffer search first_world with
   | Done (Ok s) w => (SafeLocatorItem.item s, w_items w !! SafeLocatorItem.item s)
   | _ => (0, None)
   end) = (get_item 65536 0, Some {| LocatorItem.base_address := 69632; LocatorItem.size := 4096;
     LocatorItem.position := 0; LocatorItem.is_taken := 1 |}).
Proof. vm_compute. reflexivity. Qed.
