(* ===== verification/Conformance.v ===== *)
(** * The unit tests of the crate, run on the model

    Each definition is one test function of a [mod tests] of the crate: the
    same arrangement, calls and assertions, in terms of the definitions of the
    model.  An assertion that does not hold panics; the examples evaluate every
    test to its end.  The tests that need a system run on the one of Toy.v.
    The tests that look at the statics of the test build or open a file twice
    are in FileTests.v. *)

From Stdlib Require Import Ascii String.
From S2P Require Import Prelude Mathematics Ranges SysInfo Settings Errors Placement Items Headers.
From S2P Require Import World ItemOps MapParser Posix MemoryMappedFiles Platform Kernel32 HeaderOps.
From S2P Require Import Finder Buffers AllocWindows AllocOsx AllocMmapRs Allocate CExports.
From S2P Require Import CSpec Toy ToyChain.

(** ** Assertions *)

Section assertions.
Context {S : Type}.

Definition assert (b : bool) : M S unit := if b then mret tt else panic "assertion failed".
Definition assert_eq (a b : Z) : M S unit := assert (a =? b).
Definition assert_ne (a b : Z) : M S unit := assert (negb (a =? b)).

Definition unwrap {A E} (r : result A E) : M S A :=
  match r with Ok a => mret a | Err _ => panic "called `Result::unwrap()` on an `Err` value" end.
Definition unwrap_option {A} (r : option A) : M S A :=
  match r with Some a => mret a | None => panic "called `Option::unwrap()` on a `None` value" end.
(** [l[i]] *)
Definition index {A} (l : list A) (i : nat) : M S A :=
  match l !! i with Some a => mret a | None => panic "index out of bounds" end.

Definition is_ok {A E} (r : result A E) : bool := match r with Ok _ => true | Err _ => false end.

(** The test ends without a panic. *)
Definition passes {A} (s : S) (m : M S A) : bool := match m s with Done _ _ => true | _ => false end.
End assertions.

(** ** utilities/address_range.rs *)

Module AddressRangeTests.
Import AddressRange.
Section tests.
Context {S : Type}.

Definition contains_should_be_true_when_other_range_is_inside : M S unit :=
  let range := new 100 200 in
  let other_range := new 120 180 in
  assert (contains range other_range).
Definition contains_should_be_false_when_other_range_is_not_inside : M S unit :=
  let range := new 100 200 in
  let other_range := new 80 220 in
  assert (negb (contains range other_range)).
Definition overlaps_should_be_true_when_other_range_overlaps : M S unit :=
  let range := new 100 200 in
  let other_range := new 150 220 in
  assert (overlaps range other_range).
Definition overlaps_should_be_false_when_other_range_does_not_overlap : M S unit :=
  let range := new 100 200 in
  let other_range := new 300 400 in
  assert (negb (overlaps range other_range)).
Definition overlaps_should_be_true_when_ranges_are_same : M S unit :=
  let range := new 100 200 in
  let other_range := new 100 200 in
  assert (overlaps range other_range).
Definition overlaps_should_be_true_when_one_range_is_fully_inside_other : M S unit :=
  let range := new 100 200 in
  let other_range := new 120 180 in
  assert (overlaps range other_range).
Definition overlaps_should_be_true_when_ranges_are_adjacent : M S unit :=
  let range := new 100 200 in
  let other_range := new 200 300 in
  assert (overlaps range other_range).
Definition overlaps_should_be_true_when_other_range_starts_inside_range : M S unit :=
  let range := new 100 200 in
  let other_range := new 150 250 in
  assert (overlaps range other_range).
Definition overlaps_should_be_true_when_other_range_ends_inside_range : M S unit :=
  let range := new 100 200 in
  let other_range := new 50 150 in
  assert (overlaps range other_range).

Definition all : list (M S unit) :=
  [contains_should_be_true_when_other_range_is_inside;
   contains_should_be_false_when_other_range_is_not_inside;
   overlaps_should_be_true_when_other_range_overlaps;
   overlaps_should_be_false_when_other_range_does_not_overlap;
   overlaps_should_be_true_when_ranges_are_same;
   overlaps_should_be_true_when_one_range_is_fully_inside_other;
   overlaps_should_be_true_when_ranges_are_adjacent;
   overlaps_should_be_true_when_other_range_starts_inside_range;
   overlaps_should_be_true_when_other_range_ends_inside_range].
End tests.

Example address_range_tests_pass : forallb (passes tt) all = true.
Proof. reflexivity. Qed.
End AddressRangeTests.

(** ** internal/buffer_allocator.rs *)

Module PlacementTests.
Section tests.
Context `{T : Target} {S : Type}.

Definition ALLOCATION_GRANULARITY : Z := 65536.

Definition page_does_not_overlap_with_min_max : M S unit :=
  let min_ptr := 100000 in
  let max_ptr := 200000 in
  let page_size := 50000 in
  let buf_size := 30000 in
  let page_start := max_ptr + 1 in
  let page_end := page_start + page_size in
  assert_eq 0 (Z.of_nat (List.length (get_possible_buffer_addresses min_ptr max_ptr page_start
    page_end buf_size ALLOCATION_GRANULARITY results_buffer))).

Definition buffer_size_greater_than_page : M S unit :=
  let min_ptr := 100000 in
  let max_ptr := 200000 in
  let page_size := 30000 in
  let buf_size := 50000 in
  let page_start := min_ptr in
  let page_end := page_start + page_size in
  assert_eq 0 (Z.of_nat (List.length (get_possible_buffer_addresses min_ptr max_ptr page_start
    page_end buf_size ALLOCATION_GRANULARITY results_buffer))).

Definition round_up_from_ptr_min : M S unit :=
  let min_ptr := 100000 in
  let max_ptr := 200000 in
  let page_size := 200000 in
  let buf_size := 30000 in
  let page_start := min_ptr - 50000 in
  let page_end := page_start + page_size in
  result ← index (get_possible_buffer_addresses min_ptr max_ptr page_start page_end buf_size
    ALLOCATION_GRANULARITY results_buffer) 0;
  assert (result >? 0).

Definition round_up_from_page_min : M S unit :=
  let min_ptr := 1 in
  let max_ptr := 200000 in
  let page_size := 100000 in
  let buf_size := 30000 in
  let page_start := min_ptr + 5000 in
  let page_end := page_start + page_size in
  result ← index (get_possible_buffer_addresses min_ptr max_ptr page_start page_end buf_size
    ALLOCATION_GRANULARITY results_buffer) 0;
  assert_eq result (round_up page_start ALLOCATION_GRANULARITY).

Definition round_down_from_ptr_max : M S unit :=
  let min_ptr := 10000 in
  let max_ptr := 200000 in
  let page_size := 1000000 in
  let buf_size := 30000 in
  let max_ptr := max_ptr - 5000 in
  let page_start := 80000 in
  let page_end := page_start + page_size in
  result ← index (get_possible_buffer_addresses min_ptr max_ptr page_start page_end buf_size
    ALLOCATION_GRANULARITY results_buffer) 0;
  assert_eq result (round_down (max_ptr - buf_size) ALLOCATION_GRANULARITY).

Definition round_down_from_page_max : M S unit :=
  let min_ptr := 1 in
  let max_ptr := 200000 in
  let page_size := 120000 in
  let buf_size := 30000 in
  let page_start := min_ptr in
  let page_end := page_start + page_size - 5000 in
  result ← index (get_possible_buffer_addresses min_ptr max_ptr page_start page_end buf_size
    ALLOCATION_GRANULARITY results_buffer) 0;
  assert_eq result (round_down (page_end - buf_size) ALLOCATION_GRANULARITY).

Definition all : list (M S unit) :=
  [page_does_not_overlap_with_min_max; buffer_size_greater_than_page; round_up_from_ptr_min;
   round_up_from_page_min; round_down_from_ptr_max; round_down_from_page_max].
End tests.

Example placement_tests_pass : forallb (passes tt) (all (T := target Linux)) = true.
Proof. vm_compute. reflexivity. Qed.
End PlacementTests.

(** ** utilities/map_parser_utilities.rs and linux_map_parser.rs *)

Module MapParserTests.
Import MemoryMapEntry.
Section tests.
Context `{T : Target} `{Q : SysQuery} {S : Type}.

Definition get_free_regions_with_no_gap : M S unit :=
  let regions := [new 0 10; new 10 20; new 20 usize_max] in
  let free_regions := get_free_regions regions in
  assert_eq (Z.of_nat (List.length free_regions)) 0.

Definition get_free_regions_single_gap : M S unit :=
  let regions := [new 0 10; new 10 20; new 30 usize_max] in
  let free_regions := get_free_regions regions in
  assert_eq (Z.of_nat (List.length free_regions)) 1 ;;
  r ← index free_regions 0;
  assert_eq (start_address r) 20 ;;
  assert_eq (end_address r) 29.

Definition get_free_regions_multiple_gaps : M S unit :=
  let regions := [new 0 10; new 20 30; new 40 usize_max] in
  let free_regions := get_free_regions regions in
  assert_eq (Z.of_nat (List.length free_regions)) 2 ;;
  r ← index free_regions 0;
  assert_eq (start_address r) 10 ;;
  assert_eq (end_address r) 19 ;;
  r ← index free_regions 1;
  assert_eq (start_address r) 30 ;;
  assert_eq (end_address r) 39.

Definition parse_memory_map_entry_valid_line : M S unit :=
  let line := "7f9c89991000-7f9c89993000 r--p 00000000 08:01 3932177                    /path/to/file"%string in
  result ← unwrap_option (parse_memory_map_entry line);
  assert_eq (start_address result) 0x7f9c89991000 ;;
  assert_eq (end_address result) 0x7f9c89993000.

Definition parse_memory_map_entry_valid_line_32 : M S unit :=
  let line := "9c89900-9c89c00 r--p 00000000 08:01 3932177                    /path/to/file"%string in
  result ← unwrap_option (parse_memory_map_entry line);
  assert_eq (start_address result) 0x9c89900 ;;
  assert_eq (end_address result) 0x9c89c00.

(** [should_panic] *)
Definition parse_memory_map_entry_invalid_line : M S unit :=
  _ ← unwrap_option (parse_memory_map_entry "Invalid line");
  mret tt.

Definition parse_memory_map_valid_lines : M S unit :=
  let lines :=
    ["7f9c89991000-7f9c89993000 r--p 00000000 08:01 3932177                    /path/to/file"%string;
     "7f9c89994000-7f9c89995000 r--p 00000000 08:01 3932178                    /path/to/file"%string] in
  let result := parse_memory_map_from_lines lines in
  assert_eq (Z.of_nat (List.length result)) 2 ;;
  r ← index result 0;
  assert_eq (start_address r) 0x7f9c89991000 ;;
  assert_eq (end_address r) 0x7f9c89993000 ;;
  r ← index result 1;
  assert_eq (start_address r) 0x7f9c89994000 ;;
  assert_eq (end_address r) 0x7f9c89995000.

Definition parse_memory_map_valid_lines_32 : M S unit :=
  let lines :=
    ["9c89900-9c89C00 r--p 00000000 08:01 3932177                    /path/to/file"%string;
     "9c89C00-9c89E00 r--p 00000000 08:01 3932178                    /path/to/file"%string] in
  let result := parse_memory_map_from_lines lines in
  assert_eq (Z.of_nat (List.length result)) 2 ;;
  r ← index result 0;
  assert_eq (start_address r) 0x9c89900 ;;
  assert_eq (end_address r) 0x9c89C00 ;;
  r ← index result 1;
  assert_eq (start_address r) 0x9c89C00 ;;
  assert_eq (end_address r) 0x9c89E00.

Definition all : list (M S unit) :=
  [get_free_regions_with_no_gap; get_free_regions_single_gap; get_free_regions_multiple_gaps;
   parse_memory_map_entry_valid_line_32; parse_memory_map_valid_lines_32].
(** [cfg(target_pointer_width = "64")] *)
Definition all_64 : list (M S unit) :=
  [parse_memory_map_entry_valid_line; parse_memory_map_valid_lines].
End tests.

(** A 32-bit Linux. *)
Definition small : Target :=
  {| ptr_width := W32; target_os := Linux; target_aarch64 := false; target_x86 := true;
     feature_all_private := true; feature_no_format := false |}.

Example map_parser_tests_pass :
  forallb (passes tt) (all (T := target Linux) ++ all_64 (T := target Linux)
    ++ all (T := small)) = true.
Proof. vm_compute. reflexivity. Qed.

Example invalid_line_panics :
  passes tt (parse_memory_map_entry_invalid_line (T := target Linux)) = false.
Proof. vm_compute. reflexivity. Qed.
End MapParserTests.

(** ** structs/params *)

Module BufferAllocatorSettingsTests.
Import BufferAllocatorSettings.
Section tests.
Context `{T : Target} `{Q : SysQuery} {S : Type}.

Definition test_default_settings : M S unit :=
  let settings := new in
  assert_eq (min_address settings) 0 ;;
  assert_eq (max_address settings) (Cached.max_address get_sys_info) ;;
  assert_eq (size settings) 4096 ;;
  assert_eq (target_process_id settings) (Cached.this_process_id get_sys_info) ;;
  assert_eq (retry_count settings) 8 ;;
  assert (brute_force settings).

Definition test_from_proximity : M S unit :=
  let proximity := 1000 in
  let target := 2000 in
  let size_ := 3000 in
  let settings := from_proximity proximity target size_ in
  assert_eq (max_address settings) (add_with_overflow_cap target proximity) ;;
  assert_eq (min_address settings) (subtract_with_underflow_cap target proximity) ;;
  assert_eq (size settings) (as_u32 size_) ;;
  assert_eq (target_process_id settings) (Cached.this_process_id get_sys_info) ;;
  assert_eq (retry_count settings) 8 ;;
  assert (brute_force settings).

Definition test_sanitize : M S unit :=
  let settings := set_size 1 (set_min_address 0 new) in
  let settings := sanitize settings in
  (if cfg_windows
   then assert_eq (min_address settings) (wrap_usize (Cached.allocation_granularity get_sys_info))
   else assert_eq (min_address settings) 0) ;;
  assert_eq (size settings)
    (as_u32 (round_up (Z.max 1 1) (wrap_usize (Cached.allocation_granularity get_sys_info)))).

Definition all : list (M S unit) := [test_default_settings; test_from_proximity; test_sanitize].
End tests.

Example allocator_settings_tests_pass :
  forallb (passes tt) (all (T := target Linux) ++ all (T := target Windows) ++ all (T := apple)) = true.
Proof. vm_compute. reflexivity. Qed.
End BufferAllocatorSettingsTests.

Module BufferSearchSettingsTests.
Import BufferSearchSettings.
Section tests.
Context `{T : Target} `{Q : SysQuery} {S : Type}.

Definition test_default_settings : M S unit :=
  let settings := new in
  assert_eq (min_address settings) 0 ;;
  assert_eq (max_address settings) (Cached.max_address get_sys_info) ;;
  assert_eq (size settings) 4096.

Definition test_from_proximity : M S unit :=
  let proximity := 1000 in
  let target := 2000 in
  let size_ := 3000 in
  let settings := from_proximity proximity target size_ in
  assert_eq (max_address settings) (add_with_overflow_cap target proximity) ;;
  assert_eq (min_address settings) (subtract_with_underflow_cap target proximity) ;;
  assert_eq (size settings) (as_u32 size_).

Definition all : list (M S unit) := [test_default_settings; test_from_proximity].
End tests.

Example search_settings_tests_pass :
  forallb (passes tt) (all (T := target Linux) ++ all (T := target Windows)) = true.
Proof. vm_compute. reflexivity. Qed.
End BufferSearchSettingsTests.

(** ** structs/internal *)

(** [offset_of!]: the fields of a [repr(C)] structure without padding lie one
    behind the other. *)
Fixpoint offset_of (fields : list (string * Z)) (field : string) : Z :=
  match fields with
  | [] => 0
  | (name, size) :: fields' =>
      if String.eqb name field then 0 else size + offset_of fields' field
  end.

(** Where the tests put their local variables and arrays. *)
Definition local_address : Z := 4096.
Definition array_address : Z := 8192.

Module LocatorItemTests.
Import LocatorItem.
Section tests.
Context `{T : Target} {OS : Type} `{Sch : Scheduler OS}.

Definition item_fields : list (string * Z) :=
  [("base_address"%string, size_of_usize); ("size"%string, 4); ("position"%string, 4);
   ("is_taken"%string, 4)].

Definition is_correct_size : M (World OS) unit :=
  assert_eq 0 (offset_of item_fields "base_address") ;;
  assert_eq size_of_usize (offset_of item_fields "size") ;;
  assert_eq (size_of_usize + 4) (offset_of item_fields "position") ;;
  assert_eq (size_of_usize + 8) (offset_of item_fields "is_taken") ;;
  let struct_size := if size_of_usize =? 4 then 16 else 20 in
  let size := size_of_LocatorItem in
  assert_eq size struct_size.

Definition try_lock_should_lock_item_when_lock_is_available : M (World OS) unit :=
  let item := new 0 0 in
  let '(result, item) := try_lock item in
  assert result ;;
  assert (taken item).

Definition try_lock_should_not_lock_item_when_lock_is_already_acquired : M (World OS) unit :=
  let item := new 0 0 in
  let '(_, item) := try_lock item in
  let '(result, item) := try_lock item in
  assert (negb result) ;;
  assert (taken item).

Definition lock_should_acquire_lock_when_lock_is_available : M (World OS) unit :=
  let item := local_address in
  store_item item (new 0 0) ;;
  ItemPtr.lock item ;;
  it ← load_item item;
  assert (taken it).

Definition unlock_should_release_lock_when_item_is_locked : M (World OS) unit :=
  let item := local_address in
  store_item item (new 0 0) ;;
  ItemPtr.lock item ;;
  ItemPtr.unlock item ;;
  it ← load_item item;
  assert (negb (taken it)).

Definition min_address_should_return_base_address_when_called : M (World OS) unit :=
  let base_address := 10 in
  let size := 20 in
  let item := new base_address size in
  let result := min_address item in
  assert_eq result base_address.

Definition max_address_should_return_sum_of_base_address_and_size_when_called : M (World OS) unit :=
  let base_address := 10 in
  let size := 20 in
  let item := new base_address size in
  let result := max_address item in
  assert_eq result (base_address + size).

(** One case of the table. *)
Definition can_use_case (case : Z * Z * Z * Z * bool) : bool :=
  let '(position, base_address, max_address, size, expected) := case in
  let locator_item := {| base_address := base_address; position := as_u32 position;
    LocatorItem.size := as_u32 (max_address - base_address); is_taken := 0 |} in
  let result := can_use locator_item size base_address max_address in
  Bool.eqb result expected.
Definition can_use_should_return_expected_result : M (World OS) unit :=
  let test_cases :=
    [(50, 100, 200, 50, true); (50, 100, 200, 80, false); (50, 100, 200, 300, false);
     (0, 100, 150, 0, true)] in
  assert (forallb can_use_case test_cases).

Definition append_bytes_should_append_data_to_buffer : M (World OS) unit :=
  let base_address := array_address in
  let size := 20 in
  let data := [1; 2; 3; 4] in
  let item := local_address in
  store_item item (new base_address size) ;;
  result ← ItemPtr.append_bytes item data;
  assert_eq result base_address ;;
  it ← load_item item;
  assert_eq (position it) (Z.of_nat (List.length data)).

Definition append_copy_should_append_data_to_buffer : M (World OS) unit :=
  let base_address := array_address in
  let size := 20 in
  let data := [42; 0; 0; 0] in (* 42u32 *)
  let item := local_address in
  store_item item (new base_address size) ;;
  result ← ItemPtr.append_copy item data;
  assert_eq result base_address ;;
  it ← load_item item;
  assert_eq (position it) 4.

Definition all : list (M (World OS) unit) :=
  [is_correct_size; try_lock_should_lock_item_when_lock_is_available;
   try_lock_should_not_lock_item_when_lock_is_already_acquired;
   lock_should_acquire_lock_when_lock_is_available; unlock_should_release_lock_when_item_is_locked;
   min_address_should_return_base_address_when_called;
   max_address_should_return_sum_of_base_address_and_size_when_called;
   can_use_should_return_expected_result; append_bytes_should_append_data_to_buffer;
   append_copy_should_append_data_to_buffer].
End tests.

Example locator_item_tests_pass :
  forallb (passes empty_world) (all (T := target Linux) ++ all (T := MapParserTests.small)
    ++ all (T := apple)) = true.
Proof. vm_compute. reflexivity. Qed.
End LocatorItemTests.

Module LocatorHeaderTests.
Import LocatorHeader.
Section tests.
Context `{T : Target} `{Q : SysQuery} {OS : Type} `{Sch : Scheduler OS} `{P : Platform OS}.

Definition header_fields : list (string * Z) :=
  [("this_address"%string, size_of_usize); ("next_locator_ptr"%string, size_of_usize);
   ("is_locked"%string, 4); ("flags"%string, 1); ("num_items"%string, 1); ("padding"%string, 2)].
(** the macro [expected_offset] *)
Definition expected_offset (true_value false_value : Z) : Z :=
  if size_of_usize =? 8 then true_value else false_value.

Definition is_correct_size : M (World OS) unit :=
  let expected := if size_of_usize =? 4 then 16 else 24 in
  assert_eq size_of_LocatorHeader expected ;;
  assert_eq (expected_offset 0 0) (offset_of header_fields "this_address") ;;
  assert_eq (expected_offset 8 4) (offset_of header_fields "next_locator_ptr") ;;
  assert_eq (expected_offset 16 8) (offset_of header_fields "is_locked") ;;
  assert_eq (expected_offset 20 12) (offset_of header_fields "flags") ;;
  assert_eq (expected_offset 21 13) (offset_of header_fields "num_items").

Definition has_correct_max_item_count : M (World OS) unit :=
  let expected := if size_of_usize =? 4 then 255 else 203 in
  assert_eq MAX_ITEM_COUNT expected.

Definition try_lock_should_lock_header_when_lock_is_available : M (World OS) unit :=
  let header := new in
  let '(result, header) := try_lock header in
  assert result ;;
  assert_eq 1 (is_locked header).

Definition try_lock_should_not_lock_header_when_lock_is_already_acquired : M (World OS) unit :=
  let header := new in
  let '(_, header) := try_lock header in
  let '(result, header) := try_lock header in
  assert (negb result) ;;
  assert_eq 1 (is_locked header).

Definition lock_should_acquire_lock_when_lock_is_available : M (World OS) unit :=
  let header := local_address in
  store_header header new ;;
  HeaderPtr.lock header ;;
  h ← load_header header;
  assert_eq 1 (is_locked h).

Definition unlock_should_release_lock_when_header_is_locked : M (World OS) unit :=
  let header := local_address in
  store_header header new ;;
  HeaderPtr.lock header ;;
  HeaderPtr.unlock header ;;
  h ← load_header header;
  assert_eq 0 (is_locked h).

(** [unlock] of a build with debug assertions. *)
Definition unlock_debug (self : LocatorHeader) : M (World OS) LocatorHeader :=
  let original := is_locked self in
  let self := set_is_locked 0 self in
  if original =? 0 then panic "Attempted to unlock a LocatorHeader that wasn't locked"
  else mret self.

(** [should_panic] *)
Definition unlock_should_throw_exception_when_header_is_not_locked : M (World OS) unit :=
  let header := new in
  _ ← unlock_debug header;
  mret tt.

(** The body of the loop, with the header it goes on with. *)
Fixpoint version_loop (values : list Z) (header : LocatorHeader) : M (World OS) LocatorHeader :=
  match values with
  | [] => mret header
  | value :: values =>
      let header := set_version value header in
      assert_eq (version header) value ;;
      version_loop values header
  end.
Definition version_should_be_3_bits : M (World OS) unit :=
  header ← version_loop [0; 1; 2; 3; 4; 5; 6; 7] new;
  let header := set_version 8 header in
  assert_eq (version header) 0.

(** The locator on the stack of three of the tests: zeroed bytes, in which two
    items are set up. *)
Definition two_items (header position : Z) : M (World OS) unit :=
  store_header header {| this_address := header; next_locator_ptr := 0; is_locked := 0;
    flags := 0; num_items := 2; padding := (0, 0) |} ;;
  store_item (get_first_item header) {| LocatorItem.base_address := 100; LocatorItem.size := 50;
    LocatorItem.position := position; LocatorItem.is_taken := 0 |} ;;
  store_item (get_item header 1) {| LocatorItem.base_address := 200; LocatorItem.size := 50;
    LocatorItem.position := position; LocatorItem.is_taken := 0 |}.

Definition get_first_available_item_locked_should_return_expected_result : M (World OS) unit :=
  let header := local_address in
  two_items header 25 ;;
  result ← HeaderPtr.get_first_available_item_locked header 25 100 300;
  result ← unwrap_option result;
  let locator_item := SafeLocatorItem.item result in
  it ← load_item locator_item;
  assert_eq (LocatorItem.base_address it) 100 ;;
  assert (LocatorItem.taken it) ;;
  SafeLocatorItem.drop result.

Definition get_first_available_item_locked_should_return_null_if_no_available_item_because_size_is_insufficient
    : M (World OS) unit :=
  let header := local_address in
  two_items header 30 ;;
  result ← HeaderPtr.get_first_available_item_locked header 25 100 300;
  assert (bool_decide (SafeLocatorItem.item <$> result = None)).

Definition get_first_available_item_locked_should_return_null_if_no_available_item_because_no_buffer_fits_range
    : M (World OS) unit :=
  let header := local_address in
  two_items header 0 ;;
  result ← HeaderPtr.get_first_available_item_locked header 25 0 100;
  assert (bool_decide (SafeLocatorItem.item <$> result = None)).

(** [alloc(Layout::from_size_align(LENGTH, align_of::<LocatorHeader>()))] and
    [header.initialize(LENGTH)] *)
Definition new_header : M (World OS) Z :=
  ptr ← lift_os (call (heap_alloc LENGTH 1));
  HeaderPtr.initialize ptr LENGTH ;;
  mret ptr.

Definition try_allocate_item_should_allocate_item_when_header_is_not_full_and_within_address_limits
    : M (World OS) unit :=
  header ← new_header;
  let size := 100 in
  let min_address := Cached.max_address get_sys_info / 2 in
  let max_address := Cached.max_address get_sys_info in
  h ← load_header header;
  let item_count := num_items h in
  result ← HeaderPtr.try_allocate_item header size min_address max_address;
  h ← load_header header;
  assert_eq (item_count + 1) (num_items h) ;;
  item ← unwrap result;
  it ← load_item (SafeLocatorItem.item item);
  let address := LocatorItem.base_address it in
  assert (address >=? min_address) ;;
  assert (address <=? max_address) ;;
  SafeLocatorItem.drop item.

Definition try_allocate_item_should_not_allocate_item_when_header_is_full : M (World OS) unit :=
  header ← new_header;
  h ← load_header header;
  store_header header (set_num_items (as_u8 MAX_ITEM_COUNT) h) ;;
  let size := 100 in
  let min_address := Cached.max_address get_sys_info / 2 in
  let max_address := Cached.max_address get_sys_info in
  h ← load_header header;
  let item_count := num_items h in
  result ← HeaderPtr.try_allocate_item header size min_address max_address;
  h ← load_header header;
  assert_eq item_count (num_items h) ;;
  assert (negb (is_ok result)).

Definition try_allocate_item_should_not_allocate_item_when_outside_address_limits
    : M (World OS) unit :=
  header ← new_header;
  let size := 100 in
  let min_address := 0 in
  let max_address := 10 in
  result ← HeaderPtr.try_allocate_item header size min_address max_address;
  assert (negb (is_ok result)).

Definition get_next_locator_should_allocate_when_newly_created : M (World OS) unit :=
  header ← new_header;
  h ← load_header header;
  store_header header (set_num_items (as_u8 MAX_ITEM_COUNT) h) ;;
  next ← HeaderPtr.get_next_locator header;
  next ← unwrap next;
  next_cached ← HeaderPtr.get_next_locator header;
  next_cached ← unwrap next_cached;
  assert_eq next next_cached ;;
  assert_ne next 0.

Definition all : list (M (World OS) unit) :=
  [is_correct_size; has_correct_max_item_count;
   try_lock_should_lock_header_when_lock_is_available;
   try_lock_should_not_lock_header_when_lock_is_already_acquired;
   lock_should_acquire_lock_when_lock_is_available;
   unlock_should_release_lock_when_header_is_locked; version_should_be_3_bits;
   get_first_available_item_locked_should_return_expected_result;
   get_first_available_item_locked_should_return_null_if_no_available_item_because_size_is_insufficient;
   get_first_available_item_locked_should_return_null_if_no_available_item_because_no_buffer_fits_range;
   try_allocate_item_should_allocate_item_when_header_is_not_full_and_within_address_limits;
   try_allocate_item_should_not_allocate_item_when_header_is_full;
   try_allocate_item_should_not_allocate_item_when_outside_address_limits;
   get_next_locator_should_allocate_when_newly_created].
End tests.

Example locator_header_tests_pass : forallb (passes empty_world)
  (all (T := target Linux) ++ all (T := shared) (P := target_platform (T := shared))) = true.
Proof. vm_compute. reflexivity. Qed.

Example unlock_of_unlocked_header_panics :
  unlock_should_throw_exception_when_header_is_not_locked empty_world
  = Panic "Attempted to unlock a LocatorHeader that wasn't locked".
Proof. reflexivity. Qed.
End LocatorHeaderTests.

(** ** Allocating *)

Module AllocateTests.
Import BufferAllocatorSettings.
Section tests.
Context `{T : Target} `{Q : SysQuery} {OS : Type} `{P : Platform OS} `{PX : Posix OS}
  `{WM : WindowsMemory OS}.

Definition free_windows (item : LocatorItem) : M OS unit :=
  success ← call (virtual_free (Kernel32 := LocalKernel32) (LocatorItem.base_address item) 0);
  assert success.
Definition free_libc (item : LocatorItem) : M OS unit :=
  call (posix_munmap (LocatorItem.base_address item) (LocatorItem.size item)) ;;
  mret tt.
Definition free (item : LocatorItem) : M OS unit :=
  if cfg_windows then free_windows item else free_libc item.

Definition can_allocate_in_2gib : M OS unit :=
  let settings :=
    {| min_address := 0; max_address := 2147483647; size := 4096;
       target_process_id := Cached.this_process_id get_sys_info;
       retry_count := 8; brute_force := false |} in
  '(settings, item) ← allocate settings;
  item ← unwrap item;
  let base_addr := LocatorItem.base_address item in
  assert_ne base_addr 0 ;;
  assert (LocatorItem.size item >=? size settings) ;;
  free item.

Definition can_allocate_up_to_max_address : M OS unit :=
  let settings :=
    {| min_address := Cached.max_address get_sys_info / 2;
       max_address := Cached.max_address get_sys_info; size := 4096;
       target_process_id := Cached.this_process_id get_sys_info;
       retry_count := 8; brute_force := false |} in
  '(settings, item) ← allocate settings;
  item ← unwrap item;
  let base_addr := LocatorItem.base_address item in
  assert_ne base_addr 0 ;;
  assert (LocatorItem.size item >=? size settings) ;;
  free item.

(** Of structs/private_allocation.rs. *)
Definition test_private_allocation `{R : PrivateAllocation.Releases OS} : M OS unit :=
  let settings :=
    set_max_address (Cached.max_address get_sys_info)
      (set_min_address (Cached.max_address get_sys_info / 2) new) in
  '(_, alloc) ← allocate settings;
  alloc ← unwrap alloc;
  (if LocatorItem.base_address alloc =? 0
   then panic "called `Option::unwrap()` on a `None` value" else mret tt) ;;
  let result := PrivateAllocation.new (LocatorItem.base_address alloc) (LocatorItem.size alloc)
    (Cached.this_process_id get_sys_info) in
  assert_ne (PrivateAllocation.base_address result) 0 ;;
  assert (PrivateAllocation.size result >=? 4096) ;;
  PrivateAllocation.drop result.

Definition all `{R : PrivateAllocation.Releases OS} : list (M OS unit) :=
  [can_allocate_in_2gib; can_allocate_up_to_max_address; test_private_allocation].
End tests.

Example allocate_tests_pass : forallb (passes (w_os empty_world))
  (all (T := target Linux) ++ all (T := shared) (P := target_platform (T := shared))) = true.
Proof. vm_compute. reflexivity. Qed.
End AllocateTests.

(** ** buffers.rs *)

Module BuffersTests.
Section tests.
Context `{T : Target} `{Q : SysQuery} {OS : Type} `{Sch : Scheduler OS} `{P : Platform OS}.
Context `{PX : Posix OS} `{ST : UnixMemoryMappedFile.StringTail OS} `{WF : WindowsFiles OS}
  `{SV : SharedViews OS} `{I : Itoa} `{WM : WindowsMemory OS} `{R : PrivateAllocation.Releases OS}.

Definition allocate_private_memory_in_2gib : M (World OS) unit :=
  let settings := BufferAllocatorSettings.set_max_address 2147483647
    (BufferAllocatorSettings.set_min_address 0 BufferAllocatorSettings.new) in
  '(settings, result) ← lift_os (Buffers.allocate_private_memory settings);
  assert (is_ok result) ;;
  item ← unwrap result;
  assert (PrivateAllocation.size item >=? BufferAllocatorSettings.size settings) ;;
  lift_os (PrivateAllocation.drop item).

Definition allocate_private_memory_up_to_max_address : M (World OS) unit :=
  let settings := BufferAllocatorSettings.set_max_address (Cached.max_address get_sys_info)
    (BufferAllocatorSettings.set_min_address (Cached.max_address get_sys_info / 2)
      BufferAllocatorSettings.new) in
  '(settings, result) ← lift_os (Buffers.allocate_private_memory settings);
  assert (is_ok result) ;;
  item ← unwrap result;
  assert (PrivateAllocation.size item >=? BufferAllocatorSettings.size settings) ;;
  lift_os (PrivateAllocation.drop item).

(** The settings of most tests. *)
Definition upper_half : BufferSearchSettings :=
  {| BufferSearchSettings.min_address := Cached.max_address get_sys_info / 2;
     BufferSearchSettings.max_address := Cached.max_address get_sys_info;
     BufferSearchSettings.size := 4096 |}.

Definition get_buffer_baseline : M (World OS) unit :=
  let settings := upper_half in
  item ← Buffers.get_buffer settings;
  item ← unwrap item;
  let data := replicate 4096 0 in
  SafeLocatorItem.append_bytes item data ;;
  SafeLocatorItem.drop item.

Definition test_append_unaligned : M (World OS) unit :=
  let settings := upper_half in
  item ← Buffers.get_buffer settings;
  item ← unwrap item;
  let data := [0xAA; 0xBB; 0xCC; 0xDD] in
  it ← load_item (SafeLocatorItem.item item);
  let buffer_ptr := LocatorItem.base_address it in
  modify (fun w => set_bytes (write_bytes buffer_ptr [0xFF] (w_bytes w)) w) ;;
  SafeLocatorItem.append_bytes item data ;;
  SafeLocatorItem.append_code item data ;;
  SafeLocatorItem.drop item.

Definition get_buffer_aligned_test (alignment : Z) : M (World OS) unit :=
  let settings := upper_half in
  item ← Buffers.get_buffer_aligned settings alignment;
  match item with
  | Ok item =>
      it ← load_item (SafeLocatorItem.item item);
      assert_eq (LocatorItem.base_address it mod alignment) 0 ;;
      SafeLocatorItem.drop item
  | Err err => panic "internal error: entered unreachable code"
  end.

(** [LocatorHeaderFinder::reset], of the test build. *)
Definition reset : M (World OS) unit :=
  modify (set_locator_header_address 0) ;;
  if feature_all_private then mret tt else
  w ← get_state;
  let old := w_mmf w in
  modify (set_mmf None) ;;
  match old with Some old => lift_os (LocatorHeaderFinder.drop_mmf old) | None => mret tt end.

Definition get_buffer_with_proximity : M (World OS) unit :=
  let SIZE := 4096 in
  let base_address := Cached.max_address get_sys_info - 2147483647 in
  reset ;;
  item ← Buffers.get_buffer (BufferSearchSettings.from_proximity 2147483647 base_address SIZE);
  assert (is_ok item) ;;
  item ← unwrap item;
  it ← load_item (SafeLocatorItem.item item);
  assert (LocatorItem.size it >=? SIZE) ;;
  let offset := Z.abs (LocatorItem.base_address it - base_address) in
  assert (offset <? 2147483647) ;;
  SafeLocatorItem.drop item.

Definition all : list (M (World OS) unit) :=
  [allocate_private_memory_in_2gib; allocate_private_memory_up_to_max_address;
   get_buffer_baseline; test_append_unaligned; get_buffer_aligned_test 64;
   get_buffer_aligned_test 128; get_buffer_aligned_test 256; get_buffer_with_proximity].

(** The tests of one process run one after the other. *)
Fixpoint in_sequence (tests : list (M (World OS) unit)) : M (World OS) unit :=
  match tests with [] => mret tt | test :: tests => test ;; in_sequence tests end.
End tests.

(** Each in a process of its own, and all in one process. *)
Example buffers_tests_pass : forallb (passes empty_world) (all (T := target Linux)) = true.
Proof. vm_compute. reflexivity. Qed.
Example buffers_tests_pass_in_sequence :
  passes empty_world (in_sequence (all (T := target Linux))) = true.
Proof. vm_compute. reflexivity. Qed.
Example buffers_tests_pass_on_windows :
  passes empty_world (in_sequence (all (T := shared) (P := target_platform (T := shared)))) = true.
Proof. vm_compute. reflexivity. Qed.
End BuffersTests.

(** *** Running the bytes of a buffer *)

Module ExecutionTests.
Section tests.
Context `{T : Target} `{Q : SysQuery} {OS : Type} `{Sch : Scheduler OS} `{P : Platform OS}.
Context `{PX : Posix OS} `{ST : UnixMemoryMappedFile.StringTail OS} `{WF : WindowsFiles OS}
  `{SV : SharedViews OS} `{I : Itoa}.

(** What a function without arguments at an address returns: the result of
    the machine code there, [None] when it faults. *)
Class Processor := { call_function (address : Z) (bytes : gmap Z Z) : option Z }.
Context `{Pr : Processor}.

(** Both tests are this one, with the code of their processor. *)
Definition append_and_run (code : list Z) : M (World OS) unit :=
  item ← Buffers.get_buffer BuffersTests.upper_half;
  item ← unwrap item;
  it ← load_item (SafeLocatorItem.item item);
  let code_ptr := LocatorItem.base_address it in
  SafeLocatorItem.append_code item code ;;
  w ← get_state;
  match call_function code_ptr (w_bytes w) with
  | None => fault
  | Some result => assert_eq result 0x1234567812345678
  end ;;
  SafeLocatorItem.drop item.

Definition memory_is_executable_x64 : M (World OS) unit :=
  append_and_run [0x48; 0xB8; 0x78; 0x56; 0x34; 0x12; 0x78; 0x56; 0x34; 0x12; 0xC3].

Definition memory_is_executable_aarch64 : M (World OS) unit :=
  append_and_run
    [0x00; 0xCF; 0x8A; 0xD2; 0x80; 0x46; 0xA2; 0xF2; 0x00; 0xCF; 0xCA; 0xF2;
     0x80; 0x46; 0xE2; 0xF2; 0xC0; 0x03; 0x5F; 0xD6].
End tests.

(** [n] bytes, the least first. *)
Fixpoint little_endian (address : Z) (n : nat) (bytes : gmap Z Z) : option Z :=
  match n with
  | O => Some 0
  | Datatypes.S n =>
      b ← bytes !! address;
      rest ← little_endian (address + 1) n bytes;
      Some (b + 256 * rest)
  end.

(** [mov rax, imm64] and [ret] of x86-64. *)
Fixpoint run_x64 (fuel : nat) (rip rax : Z) (bytes : gmap Z Z) : option Z :=
  match fuel with
  | O => None
  | Datatypes.S fuel =>
      opcode ← bytes !! rip;
      if opcode =? 0xC3 then Some rax else
      prefixed ← little_endian rip 2 bytes;
      if prefixed =? 0xB848 then
        imm ← little_endian (rip + 2) 8 bytes;
        run_x64 fuel (rip + 10) imm bytes
      else None
  end.

(** [movz x0], [movk x0] and [ret] of AArch64. *)
Fixpoint run_aarch64 (fuel : nat) (pc x0 : Z) (bytes : gmap Z Z) : option Z :=
  match fuel with
  | O => None
  | Datatypes.S fuel =>
      op ← little_endian pc 4 bytes;
      if op =? 0xD65F03C0 then Some x0 else
      if negb (Z.land op 31 =? 0) then None else
      let imm := Z.land (Z.shiftr op 5) 65535 in
      let shift := 16 * Z.land (Z.shiftr op 21) 3 in
      let kind := Z.shiftr op 23 in
      if kind =? 0x1A5 then run_aarch64 fuel (pc + 4) (Z.shiftl imm shift) bytes
      else if kind =? 0x1E5 then
        run_aarch64 fuel (pc + 4)
          (Z.lor (Z.ldiff x0 (Z.shiftl 65535 shift)) (Z.shiftl imm shift)) bytes
      else None
  end.

Definition x64 : Processor := {| call_function address := run_x64 8 address 0 |}.
Definition aarch64 : Processor := {| call_function address := run_aarch64 8 address 0 |}.

Example execution_tests_pass : forallb (passes empty_world)
  [memory_is_executable_x64 (T := target Linux) (Pr := x64);
   memory_is_executable_x64 (T := shared) (P := target_platform (T := shared)) (Pr := x64);
   memory_is_executable_aarch64 (T := apple) (P := target_platform (T := apple)) (Pr := aarch64)]
  = true.
Proof. vm_compute. reflexivity. Qed.
End ExecutionTests.

(** ** c/buffers_c_buffers.rs *)

Module ExportsTests.
Import BuffersTests.
Section tests.
Context `{T : Target} `{Q : SysQuery} {OS : Type} `{Sch : Scheduler OS} `{P : Platform OS}.
Context `{PX : Posix OS} `{ST : UnixMemoryMappedFile.StringTail OS} `{WF : WindowsFiles OS}
  `{SV : SharedViews OS} `{I : Itoa} `{WM : WindowsMemory OS} `{R : PrivateAllocation.Releases OS}
  `{N : Nanokit} `{CS : CStrings OS}.

Definition c_allocate_private_memory_in_2gib : M (World OS) unit :=
  let settings := BufferAllocatorSettings.set_max_address 2147483647
    (BufferAllocatorSettings.set_min_address 0 BufferAllocatorSettings.new) in
  '(settings, result) ← buffers_allocate_private_memory settings;
  assert (ar_is_ok result) ;;
  assert (PrivateAllocation.size (ar_ok result) >=? BufferAllocatorSettings.size settings) ;;
  free_allocation_result result.

Definition c_allocate_private_memory_up_to_max_address : M (World OS) unit :=
  let settings := BufferAllocatorSettings.set_max_address (Cached.max_address get_sys_info)
    (BufferAllocatorSettings.set_min_address (Cached.max_address get_sys_info / 2)
      BufferAllocatorSettings.new) in
  '(settings, result) ← buffers_allocate_private_memory settings;
  assert (ar_is_ok result) ;;
  assert (PrivateAllocation.size (ar_ok result) >=? BufferAllocatorSettings.size settings) ;;
  free_allocation_result result.

Definition c_get_buffer_baseline : M (World OS) unit :=
  let settings := upper_half in
  result ← buffers_get_buffer settings;
  assert (gr_is_ok result) ;;
  let data := array_address in
  modify (fun w => set_bytes (write_bytes data (replicate 4096 0) (w_bytes w)) w) ;;
  locatoritem_append_bytes (gr_ok result) data 4096 ;;
  free_get_buffer_result result.

Definition c_get_buffer_aligned_test (alignment : Z) : M (World OS) unit :=
  let settings := upper_half in
  result ← buffers_get_buffer_aligned settings alignment;
  if gr_is_ok result then
    address ← locatoritem_min_address (gr_ok result);
    assert_eq (address mod alignment) 0 ;;
    free_get_buffer_result result
  else panic "internal error: entered unreachable code".

Definition c_get_buffer_with_proximity : M (World OS) unit :=
  let SIZE := 4096 in
  let base_address := Cached.max_address get_sys_info - 2147483647 in
  reset ;;
  let settings := buffersearchsettings_from_proximity 2147483647 base_address SIZE in
  result ← buffers_get_buffer settings;
  assert (gr_is_ok result) ;;
  bytes_left ← locatoritem_bytes_left (gr_ok result);
  assert (bytes_left >=? SIZE) ;;
  address ← locatoritem_min_address (gr_ok result);
  let offset := Z.abs (address - base_address) in
  assert (offset <? 2147483647) ;;
  free_get_buffer_result result.

Definition c_all : list (M (World OS) unit) :=
  [c_allocate_private_memory_in_2gib; c_allocate_private_memory_up_to_max_address;
   c_get_buffer_baseline; c_get_buffer_aligned_test 64; c_get_buffer_aligned_test 128;
   c_get_buffer_aligned_test 256; c_get_buffer_with_proximity].
End tests.

Example exports_tests_pass : forallb (passes empty_world) (c_all (T := target Linux)) = true /\
  passes empty_world (in_sequence (c_all (T := shared) (P := target_platform (T := shared)))) = true.
Proof. split; vm_compute; reflexivity. Qed.
End ExportsTests.

(** ** internal/locator_header_finder.rs and memory_mapped_file_*.rs *)

Module FinderTests.
Section tests.
Context `{T : Target} `{Q : SysQuery} {OS : Type} `{Sch : Scheduler OS} `{P : Platform OS}.
Context `{PX : Posix OS} `{ST : UnixMemoryMappedFile.StringTail OS} `{WF : WindowsFiles OS}
  `{SV : SharedViews OS} `{I : Itoa}.

(** The nearest integer to [n / m], halves away from zero: [f64::round] of a
    quotient of small positive numbers. *)
Definition round_quotient (n m : Z) : Z := (2 * n + m) / (2 * m).

(** The loop over the items [from], [from + 1], ... of the header. *)
Fixpoint check_items (header from : Z) (n : nat) : M (World OS) unit :=
  match n with
  | O => mret tt
  | Datatypes.S n =>
      it ← load_item (LocatorHeader.get_item header from);
      assert_eq (LocatorItem.position it) 0 ;;
      assert_ne 0 (LocatorItem.base_address it) ;;
      assert (LocatorItem.size it >? 0) ;;
      check_items header (from + 1) n
  end.

Definition find_should_initialize_correctly_when_created : M (World OS) unit :=
  BuffersTests.reset ;;
  address ← LocatorHeaderFinder.find;
  assert_ne address 0 ;;
  header ← load_header address;
  let expected_num_items :=
    as_u8 (round_quotient
      (Cached.allocation_granularity get_sys_info - LocatorHeader.size_of_LocatorHeader)
      LocatorHeader.LENGTH_OF_PREALLOCATED_CHUNKS) in
  assert_eq (LocatorHeader.num_items header) expected_num_items ;;
  check_items address 0 (Z.to_nat (LocatorHeader.num_items header)).

(** Of memory_mapped_file_unix.rs. *)
Definition test_memory_mapped_file_data : M (World OS) unit :=
  let file_name := ("/test_memory_mapped_file_data PID "
    +:+ itoa_format (Cached.this_process_id get_sys_info))%string in
  let file_length := wrap_usize (Cached.allocation_granularity get_sys_info) in
  mmf ← lift_os (UnixMemoryMappedFile.new file_name file_length);
  let data_ptr := MemoryMappedFile.u_data mmf in
  assert_ne data_ptr 0 ;;
  modify (fun w => set_bytes (<[data_ptr := 123]> (w_bytes w)) w) ;;
  w ← get_state;
  value ← unwrap_option (w_bytes w !! data_ptr);
  assert_eq value 123 ;;
  lift_os (UnixMemoryMappedFile.drop mmf).

(** Of memory_mapped_file_windows.rs. *)
Definition test_windows_memory_mapped_file_data : M (World OS) unit :=
  let file_name := ("/Reloaded.Memory.Buffers.MemoryBuffer.Test, PID "
    +:+ itoa_format (Cached.this_process_id get_sys_info))%string in
  let file_length := wrap_usize (Cached.allocation_granularity get_sys_info) in
  mmf ← lift_os (WindowsMemoryMappedFile.new file_name file_length);
  let data_ptr := MemoryMappedFile.w_data mmf in
  assert_ne data_ptr 0 ;;
  modify (fun w => set_bytes (<[data_ptr := 123]> (w_bytes w)) w) ;;
  w ← get_state;
  value ← unwrap_option (w_bytes w !! data_ptr);
  assert_eq value 123 ;;
  lift_os (WindowsMemoryMappedFile.drop mmf).
End tests.

Example finder_tests_pass : forallb (passes empty_world)
  [find_should_initialize_correctly_when_created (T := target Linux);
   find_should_initialize_correctly_when_created (T := target_of false Linux)
     (P := target_platform (T := target_of false Linux));
   find_should_initialize_correctly_when_created (T := shared) (P := target_platform (T := shared));
   test_memory_mapped_file_data (T := target Linux);
   test_windows_memory_mapped_file_data (T := shared)] = true.
Proof. vm_compute. reflexivity. Qed.

(** Apple silicon, with its pages of 16 KiB: the locator has no items, and the
    test expects one. *)
Definition apple_query : SysQuery :=
  {| lpMaximumApplicationAddress := limit - 1; dwAllocationGranularity := 65536;
     dwPageSize := 4096; GetCurrentProcessId := 7; MmapOptions_page_size := 16384;
     MmapOptions_allocation_granularity := 16384; getpid := 7 |}.

Example finder_test_expects_items_on_apple_silicon :
  match LocatorHeaderFinder.find (T := apple) (Q := apple_query)
    (P := target_platform (T := apple) (Q := apple_query)) empty_world with
  | Done address w =>
      LocatorHeader.num_items <$> w_headers w !! address = Some 0 /\
      as_u8 (round_quotient (Cached.allocation_granularity (get_sys_info (T := apple) (Q := apple_query))
        - LocatorHeader.size_of_LocatorHeader (T := apple))
        LocatorHeader.LENGTH_OF_PREALLOCATED_CHUNKS) = 1
  | _ => False
  end.
Proof. vm_compute. split; reflexivity. Qed.
End FinderTests.
