(* ===== verification/FileTests.v ===== *)
(** * The unit tests that open a file twice or look at LAST_FIND_REASON

    [find] of the test build records how it found the locator; without the
    record it is [find] ([find_erases]).  The tests run on the system of Toy.v
    with the names of the files that exist. *)

From Stdlib Require Import Ascii String.
From S2P Require Import Prelude SysInfo Settings Items Headers World MapParser Posix.
From S2P Require Import MemoryMappedFiles Platform Kernel32 HeaderOps Finder Allocate Toy ToyChain.
From S2P Require Import Conformance.

(** ** The test build of [find] *)

Inductive FindReason := Cached | PreviouslyExisted | Created.

#[export] Instance FindReason_eq_dec : EqDecision FindReason.
Proof. solve_decision. Defined.

Module TestBuild.
Import LocatorHeaderFinder.
Section build.
Context `{T : Target} `{Q : SysQuery} {OS : Type} `{Sch : Scheduler OS} `{P : Platform OS}
  `{PX : Posix OS} `{ST : UnixMemoryMappedFile.StringTail OS} `{WF : WindowsFiles OS}
  `{SV : SharedViews OS} `{I : Itoa}.

(** The memory of the process, with the static [LAST_FIND_REASON]. *)
Definition statics : Type := World OS * FindReason.

Definition in_world {A} (m : M (World OS) A) : M statics A := fun s =>
  match m s.1 with
  | Done a w => Done a (w, s.2)
  | Panic msg => Panic msg
  | Fault => Fault
  | OutOfFuel => OutOfFuel
  end.

Definition set_last_find_reason (reason : FindReason) : M statics unit :=
  modify (fun s => (s.1, reason)).
Definition last_find_reason : M statics FindReason := s ← get_state; mret s.2.

Definition init_locatorheader_standard : M statics Z :=
  mmf ← in_world (lift_os open_or_create_memory_mapped_file);
  if MemoryMappedFile.already_existed mmf then
    s ← get_state;
    match view_header (MemoryMappedFile.data mmf) (w_os s.1) with
    | None => fault
    | Some header =>
        in_world (modify (set_locator_header_address (LocatorHeader.this_address header))) ;;
        set_last_find_reason PreviouslyExisted ;;
        s ← get_state;
        let r := w_locator_header_address s.1 in
        in_world (lift_os (drop_mmf mmf)) ;;
        mret r
    end
  else
    (if cfg_unix then in_world (lift_os cleanup) else mret tt) ;;
    in_world (modify (set_locator_header_address (MemoryMappedFile.data mmf))) ;;
    s ← get_state;
    in_world (HeaderPtr.initialize (w_locator_header_address s.1) (MemoryMappedFile.length mmf)) ;;
    s ← get_state;
    let old := w_mmf s.1 in
    in_world (modify (set_mmf (Some mmf))) ;;
    match old with Some old => in_world (lift_os (drop_mmf old)) | None => mret tt end ;;
    set_last_find_reason Created ;;
    s ← get_state;
    mret (w_locator_header_address s.1).

Definition init_locatorheader_memorymappedfiles_unsupported : M statics Z :=
  let sys_info := get_sys_info in
  let settings :=
    {| BufferAllocatorSettings.min_address := 0;
       BufferAllocatorSettings.max_address := Cached.max_address sys_info;
       BufferAllocatorSettings.size := as_u32 (Cached.allocation_granularity sys_info);
       BufferAllocatorSettings.target_process_id := Cached.this_process_id sys_info;
       BufferAllocatorSettings.retry_count := 8;
       BufferAllocatorSettings.brute_force := true |} in
  '(_, r) ← in_world (lift_os (allocate settings));
  match r with
  | Err _ => panic "called `Result::unwrap()` on an `Err` value: BufferAllocationError"
  | Ok allocation =>
      in_world (modify (set_locator_header_address (LocatorItem.base_address allocation))) ;;
      s ← get_state;
      in_world (HeaderPtr.initialize (w_locator_header_address s.1) (LocatorItem.size allocation)) ;;
      set_last_find_reason Created ;;
      s ← get_state;
      mret (w_locator_header_address s.1)
  end.

Definition find : M statics Z :=
  set_last_find_reason Cached ;;
  s ← get_state;
  if negb (w_locator_header_address s.1 =? 0) then mret (w_locator_header_address s.1)
  else if bool_decide (target_os = Android) || feature_all_private
  then init_locatorheader_memorymappedfiles_unsupported
  else init_locatorheader_standard.

(** *** Without the record *)

Definition erase {A} (o : outcome statics A) : outcome (World OS) A :=
  match o with
  | Done a s => Done a s.1
  | Panic msg => Panic msg
  | Fault => Fault
  | OutOfFuel => OutOfFuel
  end.

Definition erases {A} (m : M statics A) (n : M (World OS) A) : Prop :=
  forall s, erase (m s) = n s.1.

Lemma erases_in_world {A} (m : M (World OS) A) : erases (in_world m) m.
Proof. intros s. unfold in_world. by destruct (m s.1). Qed.

Lemma erases_bind {A B} (m : M statics A) n (f : A -> M statics B) g :
  erases m n -> (forall a, erases (f a) (g a)) -> erases (m ≫= f) (n ≫= g).
Proof.
  intros Hm Hf s. specialize (Hm s). unfold mbind, M_bind in *. rewrite <- Hm.
  destruct (m s); simpl; [apply Hf|done..].
Qed.

Lemma erases_state {B} (f : statics -> M statics B) (g : World OS -> M (World OS) B) :
  (forall s, erases (f s) (g s.1)) -> erases (get_state ≫= f) (get_state ≫= g).
Proof. intros Hf s. apply Hf. Qed.

(** Recording the reason is not seen. *)
Lemma erases_reason {B} reason (m : M statics B) n :
  erases m n -> erases (set_last_find_reason reason ;; m) n.
Proof. intros Hm s. apply (Hm (s.1, reason)). Qed.

Lemma erases_ret {A} (a : A) : erases (mret a) (mret a).
Proof. by intros s. Qed.
Lemma erases_panic {A} msg : erases (A := A) (panic msg) (panic msg).
Proof. by intros s. Qed.
Lemma erases_fault {A} : erases (A := A) fault fault.
Proof. by intros s. Qed.

End build.
End TestBuild.

(** One constructor of a program at a time. *)
Ltac erasure_step := lazymatch goal with
  | |- TestBuild.erases (TestBuild.set_last_find_reason _ ≫= _) _ => apply TestBuild.erases_reason
  | |- TestBuild.erases (get_state ≫= _) _ => apply TestBuild.erases_state; intros ?; cbv zeta
  | |- TestBuild.erases (_ ≫= _) _ => apply TestBuild.erases_bind; [|intros ?; cbv zeta]
  | |- TestBuild.erases (TestBuild.in_world _) _ => apply TestBuild.erases_in_world
  | |- TestBuild.erases (mret _) _ => apply TestBuild.erases_ret
  | |- TestBuild.erases (panic _) _ => apply TestBuild.erases_panic
  | |- TestBuild.erases fault _ => apply TestBuild.erases_fault
  | |- TestBuild.erases (match ?x with _ => _ end) _ => destruct x
  end.
Ltac erasure := repeat erasure_step.

Section erasure.
Context `{T : Target} `{Q : SysQuery} {OS : Type} `{Sch : Scheduler OS} `{P : Platform OS}
  `{PX : Posix OS} `{ST : UnixMemoryMappedFile.StringTail OS} `{WF : WindowsFiles OS}
  `{SV : SharedViews OS} `{I : Itoa}.

Lemma find_erases : TestBuild.erases TestBuild.find LocatorHeaderFinder.find.
Proof.
  unfold TestBuild.find, LocatorHeaderFinder.find, LocatorHeaderFinder.init_locatorheader,
    TestBuild.init_locatorheader_standard, LocatorHeaderFinder.init_locatorheader_standard,
    TestBuild.init_locatorheader_memorymappedfiles_unsupported,
    LocatorHeaderFinder.init_locatorheader_memorymappedfiles_unsupported.
  erasure.
Qed.
End erasure.

(** ** The tests *)

Section tests.
Context `{T : Target} `{Q : SysQuery} {OS : Type} `{Sch : Scheduler OS} `{P : Platform OS}
  `{PX : Posix OS} `{ST : UnixMemoryMappedFile.StringTail OS} `{WF : WindowsFiles OS}
  `{SV : SharedViews OS} `{I : Itoa}.
Import TestBuild.

Definition assert_reason (reason expected : FindReason) : M (statics (OS := OS)) unit :=
  assert (bool_decide (reason = expected)).

Definition find_should_return_address_when_previously_exists : M (statics (OS := OS)) unit :=
  in_world BuffersTests.reset ;;
  map ← in_world (lift_os LocatorHeaderFinder.open_or_create_memory_mapped_file);
  _ ← find;
  reason ← last_find_reason;
  assert_reason reason PreviouslyExisted ;;
  in_world (lift_os (LocatorHeaderFinder.drop_mmf map)).

Definition find_should_return_address_when_created : M (statics (OS := OS)) unit :=
  in_world BuffersTests.reset ;;
  address ← find;
  assert_ne address 0 ;;
  reason ← last_find_reason;
  assert_reason reason Created.

Definition find_should_return_cached_address_when_called_twice : M (statics (OS := OS)) unit :=
  in_world BuffersTests.reset ;;
  first_address ← find;
  first_reason ← last_find_reason;
  second_address ← find;
  second_reason ← last_find_reason;
  assert_ne first_address 0 ;;
  assert_reason first_reason Created ;;
  assert_ne second_address 0 ;;
  assert_reason second_reason Cached ;;
  assert_eq first_address second_address.

(** Of memory_mapped_file_unix.rs. *)
Definition test_memory_mapped_file_creation : M OS unit :=
  let file_name := ("/Reloaded.Memory.Buffers.MemoryBuffer.Test, PID "
    +:+ itoa_format (Cached.this_process_id get_sys_info))%string in
  let file_length := wrap_usize (Cached.allocation_granularity get_sys_info) in
  mmf ← UnixMemoryMappedFile.new file_name file_length;
  assert (negb (MemoryMappedFile.u_already_existed mmf)) ;;
  assert_eq (MemoryMappedFile.u_length mmf) file_length ;;
  mmf_existing ← UnixMemoryMappedFile.new file_name file_length;
  assert (MemoryMappedFile.u_already_existed mmf_existing) ;;
  UnixMemoryMappedFile.drop mmf_existing ;;
  UnixMemoryMappedFile.drop mmf.

(** Of memory_mapped_file_windows.rs. *)
Definition test_windows_memory_mapped_file_creation : M OS unit :=
  let file_name := ("/Reloaded.Memory.Buffers.MemoryBuffer.Test, PID "
    +:+ itoa_format (Cached.this_process_id get_sys_info))%string in
  let file_length := wrap_usize (Cached.allocation_granularity get_sys_info) in
  mmf ← WindowsMemoryMappedFile.new file_name file_length;
  assert (Bool.eqb (MemoryMappedFile.w_already_existed mmf) false) ;;
  assert_eq (MemoryMappedFile.w_length mmf) file_length ;;
  mmf_existing ← WindowsMemoryMappedFile.new file_name file_length;
  assert (Bool.eqb (MemoryMappedFile.w_already_existed mmf_existing) true) ;;
  WindowsMemoryMappedFile.drop mmf_existing ;;
  WindowsMemoryMappedFile.drop mmf.
End tests.

(** ** A system with files *)

(** The system of Toy.v, the paths of the files, and the open file mappings
    by handle: a mapping exists until its last handle is closed. *)
Record filed := { f_system : system; f_paths : list string; f_handles : list (Z * string) }.

Definition on_system {A} (f : system -> A * system) (s : filed) : A * filed :=
  let '(a, os) := f (f_system s) in
  (a, {| f_system := os; f_paths := f_paths s; f_handles := f_handles s |}).
Definition set_paths (paths : list string) (s : filed) : filed :=
  {| f_system := f_system s; f_paths := paths; f_handles := f_handles s |}.
Definition set_handles (handles : list (Z * string)) (s : filed) : filed :=
  {| f_system := f_system s; f_paths := f_paths s; f_handles := handles |}.

Definition next_handle (s : filed) : Z := foldr (fun h a => Z.max (h.1 + 1) a) 1 (f_handles s).

Section instances.
Context `{T : Target} `{Q : SysQuery}.

#[export] Instance filed_posix : Posix filed := {
  posix_open path flags s :=
    match flags with
    | O_RDONLY => on_system (posix_open path flags) s
    | O_RDWR => (if decide (path ∈ f_paths s) then 4 else -1, s)
    | O_RDWR_CREAT => (4, set_paths (path :: f_paths s) s)
    end;
  posix_close fd := on_system (posix_close fd);
  posix_read fd n := on_system (posix_read fd n);
  posix_ftruncate fd len := on_system (posix_ftruncate fd len);
  posix_mmap addr len flags fd off := on_system (posix_mmap addr len flags fd off);
  posix_munmap addr len := on_system (posix_munmap addr len);
  posix_unlink path s := (tt, set_paths (filter (fun p => p <> path) (f_paths s)) s);
  posix_stat path := on_system (posix_stat path);
  posix_mkdir path := on_system (posix_mkdir path);
  posix_opendir path := on_system (posix_opendir path);
  posix_readdir dir := on_system (posix_readdir dir);
  posix_closedir dir := on_system (posix_closedir dir);
  posix_kill pid sig := on_system (posix_kill pid sig);
  posix_errno := on_system posix_errno
}.

#[export] Instance filed_windows : WindowsFiles filed := {
  OpenFileMappingA name s :=
    if decide (name ∈ (f_handles s).*2) then
      let h := next_handle s in (h, set_handles ((h, name) :: f_handles s) s)
    else (0, s);
  CreateFileMappingA size name s :=
    let h := next_handle s in (h, set_handles ((h, name) :: f_handles s) s);
  MapViewOfFile handle length := on_system (MapViewOfFile handle length);
  UnmapViewOfFile addr := on_system (UnmapViewOfFile addr);
  MemoryMappedFiles.CloseHandle handle s :=
    (tt, set_handles (filter (fun h => h.1 <> handle) (f_handles s)) s)
}.

(** The tests write nothing to the file they open first. *)
#[export] Instance filed_views : SharedViews filed := {
  view_header _ _ := Some {| LocatorHeader.this_address := 0; LocatorHeader.next_locator_ptr := 0;
    LocatorHeader.is_locked := 0; LocatorHeader.flags := 0; LocatorHeader.num_items := 0;
    LocatorHeader.padding := (0, 0) |}
}.
#[export] Instance filed_tail : UnixMemoryMappedFile.StringTail filed := { string_tail s _ := "" }.
#[export] Instance filed_scheduler : Scheduler filed := { sched_yield w := w }.

#[export] Instance filed_platform : Platform filed := {
  allocate_platform settings s :=
    match allocate_platform settings (f_system s) with
    | Done r os => Done r {| f_system := os; f_paths := f_paths s; f_handles := f_handles s |}
    | Panic msg => Panic msg
    | Fault => Fault
    | OutOfFuel => OutOfFuel
    end;
  heap_alloc size align := on_system (heap_alloc size align)
}.
End instances.

Definition no_files : filed :=
  {| f_system := {| maps := []; unread := "" |}; f_paths := []; f_handles := [] |}.
Definition test_start : World filed * FindReason :=
  (mkWorld no_files ∅ ∅ ∅ [] 0 None, Cached).

Example find_reason_tests_pass : forallb (passes test_start)
  [find_should_return_address_when_previously_exists (T := shared);
   find_should_return_address_when_previously_exists (T := target_of false Linux);
   find_should_return_address_when_previously_exists (T := apple);
   find_should_return_address_when_created (T := target Linux);
   find_should_return_address_when_created (T := shared);
   find_should_return_address_when_created (T := target_of false Linux);
   find_should_return_cached_address_when_called_twice (T := target Linux);
   find_should_return_cached_address_when_called_twice (T := shared);
   find_should_return_cached_address_when_called_twice (T := target_of false Linux)] = true.
Proof. vm_compute. reflexivity. Qed.

Example file_creation_tests_pass :
  forallb (passes no_files)
    [test_memory_mapped_file_creation (T := target Linux); test_memory_mapped_file_creation (T := apple);
     test_windows_memory_mapped_file_creation (T := shared)] = true.
Proof. vm_compute. reflexivity. Qed.
