(* ===== verification/BufferTheorems.v ===== *)
(** * Theorems on locators and buffers

    Searching for a buffer, writing to it and giving it back, each on a chain
    of locators that satisfies the invariant; with runs on the chain of
    ToyChain.v. *)

From S2P Require Import Prelude Mathematics SysInfo Settings Errors Text Items Headers World.
From S2P Require Import Platform Kernel32.
From S2P Require Import ItemOps MapParser Posix MemoryMappedFiles Platform HeaderOps HeaderSpec.
From S2P Require Import PosixSpec HeaderWp HeaderInit HeaderNext Finder MappedFile Buffers.
From S2P Require Import BuffersSpec ReleaseSpec ItemSpec FinderSpec FirstFit.
From S2P Require Import AllocLinux AllocWindows AllocOsx AllocMmapRs Allocate CExports CSpec Toy ToyChain.
Import LocatorHeader.

Section search.
Context `{T : Target} `{Q : SysQuery} {OS : Type} `{Sch : Scheduler OS} `{P : Platform OS}
  `{Mem : Memory OS} `{L : !PlatformLaws} `{HQ : !SysQueryOk}.
Context `{PX : Posix OS} `{ST : UnixMemoryMappedFile.StringTail OS} `{WF : WindowsFiles OS}
  `{SV : SharedViews OS} `{I : Itoa}.
Implicit Types w : World OS.

(** C1: [Buffers::get_buffer] ends with a result.  On success the item is
    locked for the caller, lies between the bounds with the room asked for, was
    free before or is in memory that nobody owned, and shares no byte with the
    buffer of any other item (but for the buffers [initialize] put into one
    locator, on a granularity above 20 KiB); all other items and all bytes are
    as before.  On
    failure no existing item changed and the error carries the settings.  Either way
    the process stays ready for the next call. *)
Theorem get_buffer_correct a l w settings :
  granule_fits -> ready a l w -> BufferSearchSettings.wf settings ->
  BufferSearchSettings.size settings + granularity <= u32_max ->
  wp (Buffers.get_buffer settings) (fun r w' => exists l', ready a l' w' /\
    match r with
    | Ok s => acquired l (BufferSearchSettings.size settings)
          (BufferSearchSettings.min_address settings) (BufferSearchSettings.max_address settings)
          w s l' w' /\
        (forall p it jt x, p <> SafeLocatorItem.item s -> registered (w_headers w') l' p ->
           w_items w' !! SafeLocatorItem.item s = Some it -> w_items w' !! p = Some jt ->
           ~ same_chunk l' it jt ->
           LocatorItem.in_buffer it x -> ~ LocatorItem.in_buffer jt x)
    | Err e => evolves l w l' w' /\ BufferSearchError.settings e = settings
    end) w.
Proof.
  intros Hfits Hr Hwf Hbig. eapply wp_mono; [by eapply get_buffer_spec|].
  intros r w' (l' & Hi & Hs). exists l'. split.
  - split; [done|]. destruct Hr as [_ Ha]. destruct r as [s|e].
    + by rewrite (aq_static _ _ _ _ _ _ _ _ Hs).
    + destruct Hs as [Hev _]. by rewrite (ev_static _ _ _ _ Hev).
  - destruct r as [s|e]; [|by destruct Hs as (? & ? & _)]. split; [done|].
    intros p it jt x Hne Hp Hit Hjt Hc.
    apply (inv_disjoint _ _ _ Hi (SafeLocatorItem.item s) p it jt x); try done.
    apply (aq_registered _ _ _ _ _ _ _ _ Hs).
Qed.

(** C33: the first search of a process that keeps its buffers private creates
    the first chain and searches it: the locators of one granule (one of them,
    but on Apple silicon, where [initialize] makes one per 4096 bytes) in
    memory that nobody owned.  The only other outcome is a panic, and it
    happens exactly when the platform has no granule for them: [unwrap] of the
    error of [allocate]. *)
Theorem get_buffer_first_call w settings :
  granule_fits -> unstarted w -> target_os = Android \/ feature_all_private = true ->
  BufferSearchSettings.wf settings ->
  BufferSearchSettings.size settings + granularity <= u32_max ->
  wp_unless (no_first_granule w) (Buffers.get_buffer settings) (fun r w' => exists a w1 l',
    freshly_ready a w w1 /\ ready a l' w' /\
    searched a (first_locators a) settings w1 r w') w.
Proof.
  intros. eapply wp_unless_mono; [by apply get_buffer_first_spec|].
  intros r w' (a & w1 & Hr & Hs). destruct (searched_ready _ _ _ _ _ _ (proj1 Hr) Hs) as (l' & ? & _).
  by exists a, w1, l'.
Qed.

(** C34: the first search of a process that shares its locators maps the file
    of the process.  When another copy of the library in the process made the
    file, the search runs on the chain of that copy, as it is, and the file is
    dropped again: when the unmapping succeeds nothing of the mapping is left.
    Else the file's memory, which nobody owned, becomes the first chain, and
    the file stays open.  The only other outcome is a panic, and it happens exactly
    when the file cannot be opened, created or mapped ([no_file]); on Windows
    the file must be mappable, which the code does not test. *)
Theorem get_buffer_first_shared_call `{ML : !MappedFileLaws} w settings :
  granule_fits -> unstarted w -> target_os <> Android -> feature_all_private = false ->
  published w -> mappable w -> BufferSearchSettings.wf settings ->
  BufferSearchSettings.size settings + granularity <= u32_max ->
  wp_unless (no_file w) (Buffers.get_buffer settings) (fun r w' => exists a l w1 l',
    found a l w w1 /\ ready a l' w' /\ searched a l settings w1 r w') w.
Proof.
  intros. eapply wp_unless_mono; [by apply get_buffer_shared_spec|].
  intros r w' (a & l & w1 & Hf & Hs). assert (Hr : ready a l w1) by apply Hf.
  destruct (searched_ready _ _ _ _ _ _ Hr Hs) as (l' & ? & _). by exists a, l, w1, l'.
Qed.

(** C35: two copies of the library in one process share their buffers: a second
    copy, with statics of its own, finds the file that the first keeps open and
    searches the chain of the first copy.  It never gets a buffer that the
    first copy holds, and leaves those buffers as they are; what it gets is
    registered on the common chain, taken, and suits; and the chain stays sound
    for both.  The only other outcome is a panic, and it happens exactly when
    the file cannot be opened or mapped. *)
Theorem second_copy_shares `{ML : !MappedFileLaws} a l w settings :
  granule_fits -> ready a l w -> target_os <> Android -> feature_all_private = false ->
  coherent a w -> mappable w -> BufferSearchSettings.wf settings ->
  BufferSearchSettings.size settings + granularity <= u32_max ->
  wp_unless (no_file w) (Buffers.get_buffer settings) (fun r w' => exists l',
    ready a l' w' /\ (exists k, l' = l ++ k) /\
    (forall p it, held l w p it ->
       held l' w' p it /\ forall s, r = Ok s -> SafeLocatorItem.item s <> p) /\
    (forall s, r = Ok s -> exists it, held l' w' (SafeLocatorItem.item s) it /\
       LocatorItem.provides it (BufferSearchSettings.size settings)
         (BufferSearchSettings.min_address settings) (BufferSearchSettings.max_address settings)))
    (second_copy w).
Proof.
  intros Hfits [Hi Ha] ? ? ? ? ? ?.
  eapply wp_unless_mono; [by apply (second_copy_spec a l)|].
  intros r w' (w1 & Hr & Hhs & Hits & _ & Hs).
  destruct (searched_ready _ _ _ _ _ _ Hr Hs) as (l' & Hr' & Hk).
  destruct (searched_held _ _ _ _ _ _ Hs) as (l2 & Hi2 & Hold & Hnew).
  assert (l2 = l') as -> by apply (chain_unique _ _ _ _ (inv_chain _ _ _ Hi2) (inv_chain _ _ _ (proj1 Hr'))).
  exists l'. split; [done|]. split; [done|]. split; [|done].
  intros p it Hheld. apply Hold. unfold held in *. by rewrite Hhs, Hits.
Qed.

(** C19: [Buffers::get_buffer_aligned] ends; on success the next free byte of
    the item is aligned, with the size asked for left behind it between the
    bounds, and the other items are as before. *)
Theorem get_buffer_aligned_correct a l w settings alignment :
  granule_fits -> ready a l w -> BufferSearchSettings.wf settings -> is_u32 alignment ->
  BufferSearchSettings.size settings + alignment + granularity <= u32_max ->
  wp (Buffers.get_buffer_aligned settings alignment) (fun r w' =>
    exists l', ready a l' w' /\ (exists k, l' = l ++ k) /\ w_bytes w' = w_bytes w /\
    match r with
    | Ok s => registered (w_headers w') l' (SafeLocatorItem.item s) /\
        (exists it, w_items w' !! SafeLocatorItem.item s = Some it /\
           aligned_item settings alignment it) /\
        (forall p, registered (w_headers w) l p -> p <> SafeLocatorItem.item s ->
           w_items w' !! p = w_items w !! p)
    | Err e => evolves l w l' w' /\ search_error_text (BufferSearchError.text e)
    end) w.
Proof. apply get_buffer_aligned_spec. Qed.

(** C2: [Buffers::get_buffer] is a first-fit search: on a chain whose locators
    fill up in order it hands out the first registered buffer, in the order of
    the chain, that is free and suits, and changes nothing but its flag: no
    memory is asked for, no locator is added.  Only when there is none the
    buffer is a new one.  The locators still fill up in order afterwards. *)
Theorem get_buffer_first_fit a l w settings :
  granule_fits -> ready a l w -> packed (w_headers w) l -> BufferSearchSettings.wf settings ->
  BufferSearchSettings.size settings + granularity <= u32_max ->
  wp (Buffers.get_buffer settings) (fun r w' =>
    (exists l', ready a l' w' /\ packed (w_headers w') l') /\
    match first_fit (BufferSearchSettings.size settings)
      (BufferSearchSettings.min_address settings) (BufferSearchSettings.max_address settings) w l with
    | Some p => r = Ok {| SafeLocatorItem.item := p |} /\
        exists it, w_items w !! p = Some it /\
        w' = set_items (<[p := LocatorItem.set_is_taken 1 it]> (w_items w)) w
    | None => forall s, r = Ok s -> ~ registered (w_headers w) l (SafeLocatorItem.item s)
    end) w.
Proof.
  intros Hfits Hr Hp Hwf Hbig. eapply wp_mono; [by apply get_buffer_fits|].
  intros r w' [Hs Hf]. split.
  - destruct (searched_ready _ _ _ _ _ _ Hr Hs) as (l' & Hr' & _). exists l'. split; [done|].
    eapply fitted_packed; [done|done|apply Hr|apply Hr'].
  - unfold fitted in Hf. destruct (first_fit _ _ _ w l) eqn:E; [done|]. intros s ->.
    destruct Hs as (l' & _ & Haq). eapply not_found_new; [apply Hr|done|done].
Qed.

(** [Buffers::allocate_private_memory] gives memory that nobody owned,
    inside the bounds, of at least the size asked for and a whole number of
    granules; the settings come back sanitized. *)
Theorem allocate_private_memory_correct os settings :
  os_ok os -> BufferAllocatorSettings.wf settings ->
  BufferAllocatorSettings.size settings + granularity <= u32_max ->
  reachable (BufferAllocatorSettings.target_process_id settings) ->
  wp (Buffers.allocate_private_memory settings) (fun r os' =>
    grows os os' /\ r.1 = BufferAllocatorSettings.sanitize settings /\
    match r.2 with
    | Ok alloc => let base := PrivateAllocation.base_address alloc in
        let n := PrivateAllocation.size alloc in
        PrivateAllocation.this_process_id alloc = BufferAllocatorSettings.target_process_id settings /\
        0 < base /\ BufferAllocatorSettings.min_address settings <= base /\
        base + n <= BufferAllocatorSettings.max_address settings /\
        BufferAllocatorSettings.size settings <= n /\ 0 < n /\ (granularity | n) /\
        (forall x, base <= x < base + n -> ~ owned os x /\ owned os' x)
    | Err _ => True
    end) os.
Proof. apply allocate_private_memory_spec. Qed.

(** C29: private memory that is allocated and dropped: every byte that was
    owned before is owned after, and if the system says that it released the
    memory, none of its bytes is.  The drop panics exactly when the unmapping
    fails on a target of mmap-rs ([drop_panics]). *)
Theorem private_memory_lifecycle `{PL : !PosixLaws} `{R : PrivateAllocation.Releases OS}
    `{WM : WindowsMemory OS} `{WML : !WindowsMemoryLaws} `{RL : !ReleaseLaws}
    `{TA : !TracksAllocations} os settings :
  os_ok os -> BufferAllocatorSettings.wf settings ->
  BufferAllocatorSettings.size settings + granularity <= u32_max ->
  reachable (BufferAllocatorSettings.target_process_id settings) ->
  BufferAllocatorSettings.target_process_id settings = Cached.this_process_id get_sys_info ->
  wp (Buffers.allocate_private_memory settings) (fun r os1 => match r.2 with
    | Ok alloc => wp_unless (drop_panics alloc os1) (PrivateAllocation.drop alloc)
        (fun _ os2 => grows os os2 /\
        (release_succeeds alloc os1 -> forall x,
         PrivateAllocation.base_address alloc <= x
           < PrivateAllocation.base_address alloc + PrivateAllocation.size alloc ->
         ~ owned os2 x)) os1
    | Err _ => True
    end) os.
Proof. apply lifecycle_spec. Qed.

(** C10: an append to an item with room returns the address behind the old
    position, the bytes read back there, the position moves past them, no byte
    of another buffer of the chain changes (but for the buffers [initialize]
    put into one locator), and the invariant is kept. *)
Theorem append_bytes_isolated a l w p it data :
  inv a l w -> registered (w_headers w) l p -> has_room p it data w ->
  wp (ItemPtr.append_bytes p data) (fun addr w' =>
    addr = LocatorItem.base_address it + LocatorItem.position it /\
    read_bytes addr (length data) (w_bytes w') = Some data /\
    w_items w' = <[p := LocatorItem.set_position
      (LocatorItem.position it + Z.of_nat (length data)) it]> (w_items w) /\
    (forall q jt x, q <> p -> registered (w_headers w) l q -> w_items w !! q = Some jt ->
      ~ same_chunk l it jt -> LocatorItem.in_buffer jt x -> w_bytes w' !! x = w_bytes w !! x) /\
    inv a l w') w.
Proof.
  intros Hi Hp Hroom. eapply wp_mono; [by apply append_bytes_spec|]. intros addr w' Happ.
  split; [apply (ap_address _ _ _ _ _ _ _ Happ)|].
  split; [by eapply appended_reads|].
  split; [apply (ap_items _ _ _ _ _ _ _ Happ)|]. split.
  - intros q jt x Hne Hq Hj Hc Hx. by eapply (appended_other a l _ p).
  - by eapply appended_inv.
Qed.

(** C37: [append_code] also flushes exactly the bytes written, behind the
    write, where the target needs a flush. *)
Theorem append_code_flushes p it data w :
  has_room p it data w ->
  wp (ItemPtr.append_code p data) (fun addr w' =>
    addr = LocatorItem.base_address it + LocatorItem.position it /\
    w_bytes w' = write_bytes addr data (w_bytes w) /\
    exists before, w_trace w' = before ++ flush_events addr (Z.of_nat (length data)) /\
      EvWrite addr (Z.of_nat (length data)) ∈ before) w.
Proof.
  intros Hroom. eapply wp_mono; [by apply append_code_spec|].
  intros addr w' [Ha _ Hb _ _ Ht _]. split; [done|]. split; [done|].
  eexists. rewrite Ht, !app_assoc. split; [done|]. solve_in.
Qed.

(** Giving an item back frees it, changes nothing else and keeps the
    invariant; a search of its locator for a request that the item suits then
    finds an item. *)
Theorem drop_frees a l w s it :
  inv a l w -> registered (w_headers w) l (SafeLocatorItem.item s) ->
  w_items w !! SafeLocatorItem.item s = Some it ->
  wp (SafeLocatorItem.drop s) (fun _ w' =>
    inv a l w' /\
    w' = set_items (<[SafeLocatorItem.item s := LocatorItem.set_is_taken 0 it]> (w_items w)) w /\
    (forall b h i n lo hi, b ∈ l -> w_headers w !! b = Some h -> 0 <= i < num_items h ->
       SafeLocatorItem.item s = get_item b i -> LocatorItem.provides it n lo hi ->
       wp (HeaderPtr.get_first_available_item_locked b n lo hi)
         (fun r w2 => exists s2, r = Some s2 /\ took_item l n lo hi w' s2 w2) w')) w.
Proof.
  intros Hi Hreg Hit. destruct (inv_item _ _ _ Hi _ Hreg) as (it' & Hit' & Hwf & _).
  assert (it' = it) as -> by congruence.
  eapply wp_item_method; [done|]. simpl. unfold LocatorItem.unlock.
  assert (Hinv : inv a l (set_items (<[SafeLocatorItem.item s := LocatorItem.set_is_taken 0 it]>
    (w_items w)) w)).
  { eapply inv_update_item; try done; [by apply LocatorItem.set_is_taken_wf|by left]. }
  split; [done|]. split; [done|]. intros b h i n lo hi Hb Hh Hn Hs [? ? ?].
  eapply wp_mono; [by eapply get_first_available_item_locked_spec|]. intros [s2|] w2 H; [eauto|].
  destruct H as [_ H]. specialize (H h i (LocatorItem.set_is_taken 0 it)). simpl in H.
  rewrite Hs, lookup_insert_eq in H. assert (0 = 1); [|done]. apply H; try done.
Qed.

(** C14: the scan of one locator locks the first free item that suits the
    request, and nothing else changes; it finds none only when every suitable
    item is taken. *)
Theorem get_first_available_item_locked_correct a l w b n lo hi :
  inv a l w -> b ∈ l ->
  wp (HeaderPtr.get_first_available_item_locked b n lo hi) (fun r w' =>
    inv a l w' /\
    match r with
    | Some s => exists h i it, w_headers w !! b = Some h /\
        SafeLocatorItem.item s = get_item b i /\ first_free b h n lo hi i it w /\
        w' = set_items (<[get_item b i := LocatorItem.set_is_taken 1 it]> (w_items w)) w
    | None => w' = w /\ none_available b n lo hi w
    end) w.
Proof.
  intros Hi Hb. destruct (chain_lookup _ _ _ b (inv_chain _ _ _ Hi) Hb) as [h Hh].
  eapply wp_mono; [by eapply scan_spec, inv_table|]. intros [s|] w'.
  - intros (i & it & Hs & Hff & ->). split; [|by exists h, i, it].
    eapply (took_item_inv a l n lo hi w s); [done|]. destruct Hff. exists it. rewrite Hs.
    split; [by exists b, h, i|]. done.
  - intros [-> Hnone]. split; [done|]. split; [done|]. intros h' i it Hh' Hin Hit.
    assert (h' = h) as -> by congruence. by apply (Hnone i it).
Qed.

(** C20: [try_allocate_item]: a new locked item in fresh memory behind the
    others, or the one error that applies; the lock is free again and the
    chain sound in every case. *)
Theorem try_allocate_item_correct a l w b n lo hi :
  inv a l w -> b ∈ l -> 0 <= n -> n + granularity <= u32_max -> is_usize lo -> is_usize hi ->
  wp (HeaderPtr.try_allocate_item b n lo hi) (fun r w' =>
    inv a l w' /\
    match r with
    | Ok s => allocated_item b n lo hi w s w'
    | Err ItemAllocationError.NoSpaceInHeader =>
        w' = w /\ exists h, w_headers w !! b = Some h /\ is_full h = true
    | Err ItemAllocationError.CannotAllocateMemory =>
        (exists h, w_headers w !! b = Some h /\ is_full h = false) /\
        w_headers w' = w_headers w /\ w_items w' = w_items w
    end) w.
Proof.
  intros Hi Hb Hn Hbig Hlo Hhi. eapply wp_mono; [by eapply try_allocate_item_spec|].
  intros [s|[|]] w' H.
  - split; [by eapply allocated_item_inv|done].
  - by destruct H as [-> ?].
  - destruct H as [[Hh _] (os' & -> & ? & ?)]. split; [by apply set_os_inv|done].
Qed.

(** C21: [get_next_locator] returns the successor, or appends the locators of a
    fresh granule, the first of which has room, to the chain, or reports that
    memory is out and leaves the chain as it was.  The locators that were
    there use as many slots as before. *)
Theorem get_next_locator_correct a pre b suf w :
  granule_fits -> inv a (pre ++ b :: suf) w ->
  wp (HeaderPtr.get_next_locator b) (next_locator_outcome a pre b suf w) w.
Proof. apply get_next_locator_spec. Qed.

(** C36: [initialize] on [len] bytes writes ceil((len - 4096) / 16384) free
    items behind one locator or, on Apple silicon, [len / 4096] locators that
    are linked in order, and touches no other slot and no other header. *)
Theorem initialize_correct c len w :
  0 < c -> LENGTH <= len <= u32_max ->
  (cfg_macos_aarch64 = false -> len <= LENGTH + 255 * LENGTH_OF_PREALLOCATED_CHUNKS) ->
  wp (HeaderPtr.initialize c len) (fun _ w' => exists hs' its',
    row c (block_count len) (item_count len) (w_headers w) hs' /\
    preallocated c (len - LENGTH) (item_count len) (w_items w) its' /\
    w' = set_headers hs' (set_items its' w)) w.
Proof. apply initialize_block_spec. Qed.

Context `{WM : WindowsMemory OS} `{R : PrivateAllocation.Releases OS} `{N : Nanokit} `{CS : CStrings OS}
  `{CL : !CStringsLaws}.

(** C38: the C function [buffers_get_buffer] ends with exactly one of its two
    pointers set: the item that the Rust function returns, or the text of its
    error as a new C string; it never panics on a NUL in the text.
    [free_get_buffer_result] then resets the flag of that item, or drops that C
    string, changes nothing else, and keeps the chain. *)
Theorem c_get_buffer_correct a l w settings :
  granule_fits -> concat_ok -> ready a l w -> BufferSearchSettings.wf settings ->
  BufferSearchSettings.size settings + granularity <= u32_max ->
  wp (buffers_get_buffer settings) (fun g w' => c_result a l settings w g w' /\
    wp (free_get_buffer_result g) (fun _ w2 => given_back a g w' w2) w') w.
Proof.
  intros. eapply wp_mono; [by eapply buffers_get_buffer_spec|]. intros g w' Hg.
  split; [done|]. by eapply free_get_buffer_result_spec, c_result_returned.
Qed.

(** The C function [buffers_get_buffer_aligned] ends with exactly one of
    its two pointers set: an item of the chain whose next free byte is aligned,
    with the size asked for left behind it, or the text of the error as a new C
    string; [free_get_buffer_result] then resets the flag of that item, or
    drops that C string, changes nothing else, and keeps the chain. *)
Theorem c_get_buffer_aligned_correct a l w settings alignment :
  granule_fits -> concat_ok -> ready a l w -> BufferSearchSettings.wf settings -> is_u32 alignment ->
  BufferSearchSettings.size settings + alignment + granularity <= u32_max ->
  wp (buffers_get_buffer_aligned settings alignment) (fun g w' =>
    c_aligned_result a l settings alignment w g w' /\
    wp (free_get_buffer_result g) (fun _ w2 => given_back a g w' w2) w') w.
Proof.
  intros. eapply wp_mono; [by apply buffers_get_buffer_aligned_spec|]. intros g w' [Hg Hret].
  split; [done|]. by apply free_get_buffer_result_spec.
Qed.

(** C39: the C function [buffers_allocate_private_memory] ends with what the
    Rust function returns: an allocation in memory that nobody owned, inside
    the bounds and of at least the size asked for, or the empty allocation and
    the text of the error as a new C string; it never panics on a NUL in the
    text.  [free_allocation_result] then releases that memory, or drops that C
    string and after it the empty allocation, and keeps what was owned before;
    on Windows, Linux and macOS it never panics, on the targets of mmap-rs
    exactly when the unmapping of the allocation fails, as that of 0 bytes
    does, see [c_free_error_panics]. *)
Theorem c_private_memory_correct `{PL : !PosixLaws} `{WML : !WindowsMemoryLaws} `{RL : !ReleaseLaws}
    `{TA : !TracksAllocations} `{PE : !PlainErrors} settings w :
  concat_ok -> os_ok (w_os w) -> private_request settings ->
  wp (buffers_allocate_private_memory settings) (fun r w' =>
    r.1 = BufferAllocatorSettings.sanitize settings /\ c_allocation settings w r.2 w' /\
    wp_unless (release_panics r.2 w') (free_allocation_result r.2) (fun _ w2 =>
      released r.2 w' w2 /\ grows (w_os w) (w_os w2)) w') w.
Proof.
  intros Hc Hok Hreq. eapply wp_mono; [by apply buffers_allocate_private_memory_spec|].
  intros r w' (? & Ha & Hd). split; [done|]. split; [done|]. by eapply free_allocation_result_spec.
Qed.

End search.

(** C32: [overwrite_allocated_code] copies the bytes, with write access only
    during the copy and the cache flushed for exactly the target range; bytes
    outside of it stay. *)
Theorem overwrite_allocated_code_correct `{T : Target} {OS : Type} source target size data
    (w : World OS) :
  0 <= target -> 0 <= size -> target + size <= usize_max ->
  read_bytes source (Z.to_nat size) (w_bytes w) = Some data ->
  wp (Buffers.overwrite_allocated_code source target size) (fun _ w' =>
    read_bytes target (Z.to_nat size) (w_bytes w') = Some data /\
    (forall x, ~ (target <= x < target + size) -> w_bytes w' !! x = w_bytes w !! x) /\
    w_trace w' = w_trace w ++ protect_events target size false ++ [EvWrite target size]
      ++ protect_events target size true ++ flush_events target size) w.
Proof.
  intros Ht Hs Hend Hread. pose proof (read_bytes_length _ _ _ _ Hread) as Hlen.
  eapply wp_mono; [by eapply overwrite_spec|]. intros [] w' ->. simpl. split; [|split; [|done]].
  - rewrite <- Hlen. apply read_write_bytes.
  - intros x Hx. apply write_bytes_outside. lia.
Qed.

(** ** Runs *)

Definition toy_s : SafeLocatorItem := {| SafeLocatorItem.item := get_item first_address 0 |}.

Lemma room_16 : has_room (get_item first_address 0) (one_item 1) [1; 2; 3] (item_world 1).
Proof.
  split; [apply item_lookup|]. split; [|by vm_compute].
  constructor; simpl; [lia|done|lia|]. by vm_compute.
Qed.

Lemma get_buffer_correct_witness :
  wp (Buffers.get_buffer search) (fun r w' => exists l', ready first_address l' w' /\
    match r with
    | Ok s => acquired [first_address] 100 65536 0x7FFFFFFF first_world s l' w' /\
        (forall p it jt x, p <> SafeLocatorItem.item s -> registered (w_headers w') l' p ->
           w_items w' !! SafeLocatorItem.item s = Some it -> w_items w' !! p = Some jt ->
           ~ same_chunk l' it jt ->
           LocatorItem.in_buffer it x -> ~ LocatorItem.in_buffer jt x)
    | Err e => evolves [first_address] first_world l' w' /\ BufferSearchError.settings e = search
    end) first_world.
Proof.
  apply (get_buffer_correct first_address [first_address] first_world search);
    [apply toy_fits|apply first_ready|apply search_wf|by vm_compute].
Defined.

Lemma get_buffer_first_fit_witness :
  wp (Buffers.get_buffer search) (fun r w' =>
    (exists l', ready first_address l' w' /\ packed (w_headers w') l') /\
    match first_fit 100 65536 0x7FFFFFFF first_world [first_address] with
    | Some p => r = Ok {| SafeLocatorItem.item := p |} /\
        exists it, w_items first_world !! p = Some it /\
        w' = set_items (<[p := LocatorItem.set_is_taken 1 it]> (w_items first_world)) first_world
    | None => forall s, r = Ok s ->
        ~ registered (w_headers first_world) [first_address] (SafeLocatorItem.item s)
    end) first_world.
Proof.
  apply (get_buffer_first_fit first_address [first_address] first_world search);
    [apply toy_fits|apply first_ready| |apply search_wf|by vm_compute].
  repeat constructor.
Defined.

Lemma get_buffer_first_call_witness :
  wp_unless (no_first_granule empty_world) (Buffers.get_buffer search) (fun r w' => exists a w1 l',
    freshly_ready a empty_world w1 /\ ready a l' w' /\
    searched a (first_locators a) search w1 r w')
    empty_world.
Proof.
  apply (get_buffer_first_call empty_world search);
    [apply toy_fits|apply empty_unstarted|by right|apply search_wf|by vm_compute].
Defined.

Lemma get_buffer_first_shared_call_witness :
  wp_unless (no_file (T := shared) empty_world)
    (Buffers.get_buffer (T := shared) (P := target_platform (T := shared)) search)
    (fun r w' => exists a l w1 l', found (T := shared) a l empty_world w1 /\ ready (T := shared) a l' w' /\
       searched (T := shared) a l search w1 r w')
    empty_world.
Proof.
  apply (get_buffer_first_shared_call (T := shared) (P := target_platform (T := shared))
    (L := shared_laws) (HQ := toy_query_ok Windows) (ML := shared_file_laws) empty_world search);
    [apply shared_fits|apply empty_unstarted|done|done|apply empty_published|apply empty_mappable
    |constructor; by vm_compute|by vm_compute].
Defined.

Lemma second_copy_shares_witness :
  exists l, wp_unless (no_file (T := shared) (WF := existing_files) first_copy)
      (Buffers.get_buffer (T := shared) (P := target_platform (T := shared))
      (WF := existing_files) (SV := existing_views) search)
    (fun r w' => exists l', ready (T := shared) first_copy_address l' w' /\ (exists k, l' = l ++ k) /\
       (forall p it, held (T := shared) l first_copy p it ->
          held (T := shared) l' w' p it /\ forall s, r = Ok s -> SafeLocatorItem.item s <> p) /\
       (forall s, r = Ok s -> exists it, held (T := shared) l' w' (SafeLocatorItem.item s) it /\
          LocatorItem.provides it 100 65536 0x7FFFFFFF))
    (second_copy first_copy).
Proof.
  destruct first_copy_ready as [l Hr]. exists l.
  apply (second_copy_shares (T := shared) (P := target_platform (T := shared))
    (L := shared_laws) (HQ := toy_query_ok Windows) (WF := existing_files) (SV := existing_views)
    (ML := existing_file_laws) first_copy_address l first_copy search);
    [apply shared_fits|exact Hr|done|done|exact first_copy_coherent|exact first_copy_mappable
    |constructor; by vm_compute|by vm_compute].
Defined.

Lemma get_buffer_aligned_correct_witness :
  wp (Buffers.get_buffer_aligned search 64) (fun r w' =>
    exists l', ready first_address l' w' /\ (exists k, l' = [first_address] ++ k) /\
    w_bytes w' = w_bytes (item_world 0) /\
    match r with
    | Ok s => registered (w_headers w') l' (SafeLocatorItem.item s) /\
        (exists it, w_items w' !! SafeLocatorItem.item s = Some it /\ aligned_item search 64 it) /\
        (forall p, registered (w_headers (item_world 0)) [first_address] p ->
           p <> SafeLocatorItem.item s -> w_items w' !! p = w_items (item_world 0) !! p)
    | Err e => evolves [first_address] (item_world 0) l' w' /\
        search_error_text (BufferSearchError.text e)
    end) (item_world 0).
Proof.
  apply (get_buffer_aligned_correct first_address [first_address] (item_world 0) search 64);
    [apply toy_fits|apply item_ready; by left|apply search_wf|by vm_compute|by vm_compute].
Defined.

Lemma allocate_private_memory_correct_witness :
  wp (Buffers.allocate_private_memory request) (fun r os' =>
    grows first_os os' /\ r.1 = BufferAllocatorSettings.sanitize request /\
    match r.2 with
    | Ok alloc => let base := PrivateAllocation.base_address alloc in
        let n := PrivateAllocation.size alloc in
        PrivateAllocation.this_process_id alloc = 7 /\
        0 < base /\ 65536 <= base /\ base + n <= 0x7FFFFFFF /\ 4096 <= n /\ 0 < n /\ (granularity | n) /\
        (forall x, base <= x < base + n -> ~ owned first_os x /\ owned os' x)
    | Err _ => True
    end) first_os.
Proof.
  apply (allocate_private_memory_correct first_os request);
    [apply (inv_os _ _ _ (proj1 first_ready))|by apply request_wf|by vm_compute|done].
Defined.

(** On Windows, with its granularity. *)
Lemma private_memory_lifecycle_witness :
  wp (Buffers.allocate_private_memory (T := shared) (Q := toy_query)
        (P := target_platform (T := shared)) request) (fun r os1 => match r.2 with
    | Ok alloc => wp_unless (drop_panics (T := shared) alloc os1) (PrivateAllocation.drop (T := shared) alloc)
        (fun _ os2 => grows first_os os2 /\
        (release_succeeds (T := shared) alloc os1 -> forall x,
         PrivateAllocation.base_address alloc <= x
           < PrivateAllocation.base_address alloc + PrivateAllocation.size alloc ->
         ~ owned os2 x)) os1
    | Err _ => True
    end) first_os.
Proof.
  apply (private_memory_lifecycle (T := shared) (P := target_platform (T := shared))
    (L := shared_laws) (HQ := toy_query_ok Windows) (PL := toy_posix_laws Windows)
    (WML := toy_windows_memory_laws (o := Windows) 0) (RL := toy_release_laws)
    (TA := windows_tracks_allocations (T := shared) (WL := toy_windows_laws 0)
      (HQ := toy_query_ok Windows) eq_refl) first_os request);
    [apply (inv_os _ _ _ (proj1 first_ready))|by apply request_wf|by vm_compute|done|done].
Defined.

Lemma append_bytes_isolated_witness :
  wp (ItemPtr.append_bytes (get_item first_address 0) [1; 2; 3]) (fun addr w' =>
    addr = 131072 + 16 /\ read_bytes addr 3 (w_bytes w') = Some [1; 2; 3] /\
    w_items w' = <[get_item first_address 0 := LocatorItem.set_position (16 + 3) (one_item 1)]>
      (w_items (item_world 1)) /\
    (forall q jt x, q <> get_item first_address 0 ->
      registered (w_headers (item_world 1)) [first_address] q ->
      w_items (item_world 1) !! q = Some jt -> ~ same_chunk [first_address] (one_item 1) jt ->
      LocatorItem.in_buffer jt x -> w_bytes w' !! x = w_bytes (item_world 1) !! x) /\
    inv first_address [first_address] w') (item_world 1).
Proof.
  apply (append_bytes_isolated first_address [first_address] (item_world 1)
    (get_item first_address 0) (one_item 1) [1; 2; 3]);
    [apply item_ready; by right|apply item_registered|apply room_16].
Defined.

Lemma append_code_flushes_witness :
  wp (ItemPtr.append_code (get_item first_address 0) [1; 2; 3]) (fun addr w' =>
    addr = 131072 + 16 /\ w_bytes w' = write_bytes addr [1; 2; 3] (w_bytes (item_world 1)) /\
    exists before, w_trace w' = before ++ flush_events addr 3 /\ EvWrite addr 3 ∈ before)
    (item_world 1).
Proof.
  apply (append_code_flushes (get_item first_address 0) (one_item 1) [1; 2; 3] (item_world 1)).
  apply room_16.
Defined.

Lemma drop_frees_witness :
  wp (SafeLocatorItem.drop toy_s) (fun _ w' =>
    wp (HeaderPtr.get_first_available_item_locked first_address 100 65536 0x7FFFFFFF)
      (fun r w2 => exists s2, r = Some s2 /\
        took_item [first_address] 100 65536 0x7FFFFFFF w' s2 w2) w') (item_world 1).
Proof.
  eapply wp_mono.
  - apply (drop_frees first_address [first_address] (item_world 1) toy_s (one_item 1));
      [apply item_ready; by right|apply item_registered|apply item_lookup].
  - intros [] w' (_ & _ & H). apply (H first_address (set_num_items 1 first_header) 0).
    + by apply list_elem_of_singleton.
    + apply lookup_insert_eq.
    + by vm_compute.
    + done.
    + constructor; by vm_compute.
Defined.

Lemma get_first_available_item_locked_correct_witness :
  wp (HeaderPtr.get_first_available_item_locked first_address 100 65536 0x7FFFFFFF) (fun r w' =>
    inv first_address [first_address] w' /\
    match r with
    | Some s => exists h i it, w_headers (item_world 0) !! first_address = Some h /\
        SafeLocatorItem.item s = get_item first_address i /\
        first_free first_address h 100 65536 0x7FFFFFFF i it (item_world 0) /\
        w' = set_items (<[get_item first_address i := LocatorItem.set_is_taken 1 it]>
               (w_items (item_world 0))) (item_world 0)
    | None => w' = item_world 0 /\ none_available first_address 100 65536 0x7FFFFFFF (item_world 0)
    end) (item_world 0).
Proof.
  apply (get_first_available_item_locked_correct first_address [first_address] (item_world 0)
    first_address); [apply item_ready; by left|by apply list_elem_of_singleton].
Defined.

Lemma try_allocate_item_correct_witness :
  wp (HeaderPtr.try_allocate_item first_address 100 65536 0x7FFFFFFF) (fun r w' =>
    inv first_address [first_address] w' /\
    match r with
    | Ok s => allocated_item first_address 100 65536 0x7FFFFFFF first_world s w'
    | Err ItemAllocationError.NoSpaceInHeader => w' = first_world /\
        exists h, w_headers first_world !! first_address = Some h /\ is_full h = true
    | Err ItemAllocationError.CannotAllocateMemory =>
        (exists h, w_headers first_world !! first_address = Some h /\ is_full h = false) /\
        w_headers w' = w_headers first_world /\ w_items w' = w_items first_world
    end) first_world.
Proof.
  apply (try_allocate_item_correct first_address [first_address] first_world first_address);
    [apply first_ready|by apply list_elem_of_singleton|lia|by vm_compute|by vm_compute|by vm_compute].
Defined.

Lemma get_next_locator_correct_witness :
  wp (HeaderPtr.get_next_locator first_address)
    (next_locator_outcome first_address [] first_address [] first_world) first_world.
Proof.
  apply (get_next_locator_correct first_address [] first_address [] first_world);
    [apply toy_fits|apply first_ready].
Defined.

(** Four locators in 16 KiB, as on Apple silicon. *)
Lemma initialize_correct_witness :
  wp (HeaderPtr.initialize (T := apple) 65536 16384) (fun _ w' => exists hs' its',
    row 65536 4 0 ∅ hs' /\ preallocated (T := apple) 65536 12288 0 ∅ its' /\
    w' = set_headers hs' (set_items its' empty_world)) empty_world.
Proof.
  apply (initialize_correct (T := apple) 65536 16384 empty_world); [done|by vm_compute|done].
Defined.

Lemma c_get_buffer_correct_witness :
  wp (buffers_get_buffer search) (fun g w' =>
    c_result first_address [first_address] search first_world g w' /\
    wp (free_get_buffer_result g) (fun _ w2 => given_back first_address g w' w2) w') first_world.
Proof.
  apply (c_get_buffer_correct first_address [first_address] first_world search);
    [apply toy_fits|done|apply first_ready|apply search_wf|by vm_compute].
Defined.

Lemma c_get_buffer_aligned_correct_witness :
  wp (buffers_get_buffer_aligned search 64) (fun g w' =>
    c_aligned_result first_address [first_address] search 64 first_world g w' /\
    wp (free_get_buffer_result g) (fun _ w2 => given_back first_address g w' w2) w') first_world.
Proof.
  apply (c_get_buffer_aligned_correct first_address [first_address] first_world search 64);
    [apply toy_fits|done|apply first_ready|apply search_wf|by vm_compute|by vm_compute].
Defined.

Lemma c_private_memory_correct_witness :
  wp (buffers_allocate_private_memory request) (fun r w' =>
    r.1 = BufferAllocatorSettings.sanitize request /\ c_allocation request first_world r.2 w' /\
    wp_unless (release_panics r.2 w') (free_allocation_result r.2) (fun _ w2 =>
      released r.2 w' w2 /\ grows (w_os first_world) (w_os w2)) w') first_world.
Proof.
  apply (c_private_memory_correct request first_world);
    [done|apply (inv_os _ _ _ (proj1 first_ready))|].
  split; [by apply request_wf|by split; vm_compute].
Defined.

(** Two bytes at 4096, copied to 8192. *)
Definition code_world : World system :=
  set_bytes (<[4096 := 7]> (<[4097 := 9]> ∅)) empty_world.

Lemma overwrite_allocated_code_correct_witness :
  wp (Buffers.overwrite_allocated_code 4096 8192 2) (fun _ w' =>
    read_bytes 8192 2 (w_bytes w') = Some [7; 9] /\
    (forall x, ~ (8192 <= x < 8192 + 2) -> w_bytes w' !! x = w_bytes code_world !! x) /\
    w_trace w' = [] ++ protect_events 8192 2 false ++ [EvWrite 8192 2]
      ++ protect_events 8192 2 true ++ flush_events 8192 2) code_world.
Proof.
  apply (overwrite_allocated_code_correct 4096 8192 2 [7; 9] code_world);
    [lia|lia|by vm_compute|by vm_compute].
Defined.
