(* ===== verification/SessionTheorems.v ===== *)
(** * Theorems on sessions

    Any number of searches, appends and drops, in any order, from a process
    that is ready: what the client holds is its own, private memory included,
    what it wrote stays, and no call fails to end. *)

From S2P Require Import Prelude Mathematics SysInfo Settings Errors Items Headers World ItemOps.
From S2P Require Import Platform HeaderOps HeaderSpec HeaderWp HeaderInit HeaderNext.
From S2P Require Import MapParser Posix PosixSpec MemoryMappedFiles Finder Buffers BuffersSpec ItemSpec.
From S2P Require Import Kernel32 ReleaseSpec Sessions FirstFit Pool Thrift PrivateSessions.
From S2P Require Import AllocLinux AllocWindows AllocOsx AllocMmapRs Allocate Toy ToyChain.
Import LocatorHeader.

Section sessions.
Context `{T : Target} `{Q : SysQuery} {OS : Type} `{Sch : Scheduler OS} `{P : Platform OS}
  `{PX : Posix OS} `{ST : UnixMemoryMappedFile.StringTail OS} `{WF : WindowsFiles OS}
  `{SV : SharedViews OS} `{I : Itoa}.
Context `{Mem : Memory OS} `{L : !PlatformLaws} `{HQ : !SysQueryOk}.
Implicit Types w : World OS.

(** C4: in every session that starts on a ready process, on every target
    and granularity ([granule_fits]: up to 2 MiB): the items the client holds are distinct, registered and locked
    for it; two of them share a byte only when both are buffers that
    [initialize] put at the start of one locator ([same_chunk]: a granularity
    above 20 KiB, not Apple silicon); and everything the client ever appended,
    also to items it gave back, lies in the used part of an item and still
    reads back, unless something appended later, to another such buffer of the
    same locator, went over it.  Without such granules there is no exception:
    what is held is disjoint and all that was appended reads back. *)
Theorem session_sound a l w s :
  granule_fits -> ready a l w -> rtc step (Session w [] []) s ->
  exists l', ready a l' (s_world s) /\ NoDup (s_held s) /\
  (forall p, p ∈ s_held s -> registered (w_headers (s_world s)) l' p /\
     exists it, w_items (s_world s) !! p = Some it /\
       LocatorItem.wf it /\ LocatorItem.is_taken it = 1) /\
  (forall p q it jt x, p ∈ s_held s -> q ∈ s_held s -> p <> q ->
     w_items (s_world s) !! p = Some it -> w_items (s_world s) !! q = Some jt ->
     ~ same_chunk l' it jt -> LocatorItem.in_buffer it x -> ~ LocatorItem.in_buffer jt x) /\
  logged l' (s_world s) (s_log s) /\
  (one_chunk -> (forall it jt, ~ same_chunk l' it jt) /\
     forall addr data, (addr, data) ∈ s_log s ->
       read_bytes addr (length data) (w_bytes (s_world s)) = Some data).
Proof.
  intros Hfits Hr Hsteps. destruct (session_reachable a l w s) as [l' Hso]; [done..|].
  pose proof (so_ready _ _ _ Hso) as Hr'. destruct (Hr') as [Hi _].
  exists l'. split; [done|]. split; [apply (so_nodup _ _ _ Hso)|]. split; [|split; [|split]].
  - intros p Hp. destruct (so_held _ _ _ Hso p Hp) as (Hreg & it & Hit & Htk). split; [done|].
    destruct (inv_item _ _ _ Hi p Hreg) as (it' & Hit' & Hwf & _).
    assert (it' = it) as -> by congruence. eauto.
  - intros p q it jt x Hp Hq Hne Hit Hjt. apply (inv_disjoint _ _ _ Hi p q it jt x); try done.
    + by apply (so_held _ _ _ Hso).
    + by apply (so_held _ _ _ Hso).
  - apply (so_log _ _ _ Hso).
  - intros Hone. split; [intros it jt; by apply one_chunk_spec|]. intros addr data Hin.
    eapply logged_one_chunk; [done|apply (so_log _ _ _ Hso)|done].
Qed.

(** C11: in every session that starts on a ready process, on every target and
    granularity ([granule_fits]: up to 2 MiB), every call the client may make next ends with a value: no
    search runs on, no append with room or drop touches memory that is not
    there, nothing panics. *)
Theorem session_calls_end a l w s :
  granule_fits -> ready a l w -> rtc step (Session w [] []) s ->
  (forall settings, request_ok settings 0 ->
     exists r w', Buffers.get_buffer settings (s_world s) = Done r w') /\
  (forall settings alignment, request_ok settings alignment ->
     exists r w', Buffers.get_buffer_aligned settings alignment (s_world s) = Done r w') /\
  (forall p data, may_append p data s -> let item := {| SafeLocatorItem.item := p |} in
     (exists addr w', SafeLocatorItem.append_bytes item data (s_world s) = Done addr w') /\
     (exists addr w', SafeLocatorItem.append_code item data (s_world s) = Done addr w')) /\
  (forall p, p ∈ s_held s ->
     exists w', SafeLocatorItem.drop {| SafeLocatorItem.item := p |} (s_world s) = Done tt w').
Proof.
  intros Hfits Hr Hsteps. destruct (session_reachable a l w s) as [l' Hso]; [done..|].
  pose proof (so_ready _ _ _ Hso) as Hr'. split; [|split; [|split]].
  - intros settings (Hwf & _ & Hbig). eapply wp_ends, get_buffer_spec; [done|done|done|lia].
  - intros settings alignment (Hwf & Hal & Hbig). by eapply wp_ends, get_buffer_aligned_run.
  - intros p data Hmay. destruct (may_append_room _ _ _ _ _ Hso Hmay) as (_ & it & Hroom & _).
    split; [by eapply wp_ends, append_bytes_spec|by eapply wp_ends, append_code_spec].
  - intros p Hp. destruct (so_held _ _ _ Hso p Hp) as (_ & it & Hit & _).
    destruct (wp_ends (SafeLocatorItem.drop {| SafeLocatorItem.item := p |}) (fun _ _ => True)
      (s_world s)) as ([] & w' & E); [by eapply wp_item_method|eauto].
Qed.

(** C5: the library is a pool of buffers: whatever locators, locks, memory maps
    and system calls do underneath, every session on a chain whose locators
    fill up in order ([packed]) is a run of the reference of Pool.v, a list of
    buffers that grows at its end and hands out the first that suits, or new
    ones that touch no old one.  New ones do not touch each other either, but
    for twins, buffers that start at the same byte, which a pool has only when
    a locator has several preallocated buffers ([~ one_chunk]).  The buffers of
    the chain, the bytes, what the client holds and what it wrote are those of
    the pool at the end, whatever the client called; and the run is sound: its
    buffers are apart but for twins, what is held is distinct and taken, and
    what was written reads back unless a later write to a twin went over it. *)
Theorem session_refines_pool a l w s :
  granule_fits -> ready a l w -> packed (w_headers w) l -> rtc step (Session w [] []) s ->
  exists bs l' S, represents l w bs /\
    rtc (Pool.step (~ one_chunk)) (Pool.Build_pool bs (w_bytes w) [] []) S /\
    ready a l' (s_world s) /\ represents l' (s_world s) (Pool.buffers S) /\
    Pool.memory S = w_bytes (s_world s) /\ Pool.written S = s_log s /\
    Forall2 (slot_at l' (s_world s)) (s_held s) (Pool.held S) /\ Pool.sound (~ one_chunk) S.
Proof.
  intros Hfits Hr Hp Hsteps. assert (Hi : inv a l w) by apply Hr.
  destruct (shown_all a l w (slots (w_headers w) l) Hi) as [bs Hrep].
  { intros p. by apply (slots_registered a). }
  destruct (session_simulated a l w s bs Hfits Hr Hp Hrep Hsteps) as (l' & S & Hrun & Hsim).
  exists bs, l', S. destruct Hsim as [Hso ? ? ? ? ?].
  do 2 (split; [done|]). split; [apply (so_ready _ _ _ Hso)|]. do 4 (split; [done|]).
  apply (Pool.sound_steps _ (Pool.Build_pool bs (w_bytes w) [] [])); [|done].
  constructor; simpl; [by apply (represents_apart a l w)| |apply NoDup_nil_2|..].
  - intros i b Hb. by eapply represents_used.
  - by intros i ?%elem_of_nil.
  - by intros [|] ? ? ? ?.
Qed.

(** C13: a session on a chain whose locators fill up in order ([packed]) never
    has more locators than it needs: beyond those it began with, or those of
    one granule if these are more, each locator is paid for by a full table of
    buffers; and a search adds locators, those of one granule, only when the
    table of every locator is full. *)
Theorem session_thrifty a l w s :
  granule_fits -> ready a l w -> packed (w_headers w) l -> rtc step (Session w [] []) s ->
  exists l', ready a l' (s_world s) /\
    MAX_ITEM_COUNT * (Z.of_nat (length l') - Z.max (block_count granularity) (Z.of_nat (length l)))
      <= Z.of_nat (length (slots (w_headers (s_world s)) l')) /\
    (forall settings r w', request_ok settings 0 ->
       Buffers.get_buffer settings (s_world s) = Done r w' ->
       exists k, ready a (l' ++ k) w' /\
         (k = [] \/ Z.of_nat (length k) = block_count granularity /\ forall b, b ∈ l' ->
            exists h, w_headers (s_world s) !! b = Some h /\ is_full h = true)).
Proof.
  intros Hfits Hr Hp Hsteps. set (n := Z.max _ _).
  destruct (session_orderly n a l w s Hfits ltac:(lia) Hr Hp) as (l' & Hso & Hp' & Ht); [|done|].
  { pose proof MAX_ITEM_COUNT_range. unfold thrifty. nia. }
  pose proof (so_ready _ _ _ Hso) as Hr'. exists l'. split; [done|]. split; [done|].
  intros settings r w' (Hwf & _ & Hbig) E.
  destruct (get_buffer_thrifty n a l' (s_world s) settings r w' Hfits ltac:(lia) Hr' Hp' Ht Hwf
    ltac:(lia) E) as (l2 & Hr2 & _ & [->|[Hfull [c ->]]] & _).
  - exists []. rewrite app_nil_r. split; [done|by left].
  - exists (block_locators c granularity). split; [done|right]. split; [by apply granule_locators|].
    intros b Hb. destruct (chain_lookup _ _ _ b (inv_chain _ _ _ (proj1 Hr')) Hb) as [h Hh].
    exists h. split; [done|]. rewrite (is_full_count _ _ _ Hh). apply bool_decide_eq_true.
    unfold full in Hfull. rewrite list.Forall_forall in Hfull. by apply Hfull.
Qed.

(** Buffers are used again before new memory is: in every state of a
    session that starts on a chain whose locators fill up in order, they still
    do, and a search that some free buffer satisfies gets the first such
    buffer in the order of the chain; nothing but the flag of that buffer
    changes, so no memory is mapped for it. *)
Theorem session_first_fit a l w s :
  granule_fits -> ready a l w -> packed (w_headers w) l -> rtc step (Session w [] []) s ->
  exists l', ready a l' (s_world s) /\ packed (w_headers (s_world s)) l' /\
  forall settings p, request_ok settings 0 ->
    first_fit (BufferSearchSettings.size settings) (BufferSearchSettings.min_address settings)
      (BufferSearchSettings.max_address settings) (s_world s) l' = Some p ->
    (p ∉ s_held s) /\ exists it, w_items (s_world s) !! p = Some it /\
      Buffers.get_buffer settings (s_world s) = Done (Ok {| SafeLocatorItem.item := p |})
        (set_items (<[p := LocatorItem.set_is_taken 1 it]> (w_items (s_world s))) (s_world s)).
Proof.
  intros Hfits Hr Hp Hsteps.
  destruct (session_packed a l w s Hfits Hr Hp Hsteps) as (l' & Hso & Hp').
  pose proof (so_ready _ _ _ Hso) as Hr'. exists l'. split; [done|]. split; [done|].
  intros settings p (Hwf & _ & Hbig) Hff.
  assert (Hfit : wp (Buffers.get_buffer settings) (fitted a l' (s_world s) settings) (s_world s)).
  { eapply wp_mono; [apply (get_buffer_fits a l'); try done; lia|]. by intros r w' [_ ?]. }
  destruct (wp_done _ _ _ Hfit) as (r & w' & E & Hf). unfold fitted in Hf. rewrite Hff in Hf.
  destruct Hf as (-> & it & Hit & ->). split; [|by exists it].
  intros Hin. destruct (so_held _ _ _ Hso p Hin) as (_ & jt & Hj & Htk).
  apply first_fit_available in Hff as (kt & Hk & Hz & _). congruence.
Qed.

(** C12: private memory and buffers do not meet, on any target and granularity.
    A client allocates, writes and gives back private memory between the calls of
    a session, in any order.  Then what it appended to buffers is still there,
    as in [session_sound]; every byte of its private memory is mapped, in one
    allocation, in no locator of the chain (header and table of items) and in no
    registered buffer, held or not; the next call of the session neither unmaps
    nor changes it nor takes it for a locator or a buffer; and a search still
    ends. *)
Theorem private_memory_isolated `{WM : WindowsMemory OS} `{R : PrivateAllocation.Releases OS}
    `{PL : !PosixLaws} `{WML : !WindowsMemoryLaws} `{RL : !ReleaseLaws} a l w c :
  granule_fits -> ready a l w -> rtc client_step (Client (Session w [] []) []) c ->
  let s := c_session c in let w' := s_world s in
  exists l', ready a l' w' /\ logged l' w' (s_log s) /\
  (forall p x, p ∈ c_private c -> in_allocation p x ->
    owned (w_os w') x /\
    (forall q, q ∈ c_private c -> q <> p -> ~ in_allocation q x) /\
    (forall b, b ∈ l' -> ~ in_block b x) /\
    (forall i it, registered (w_headers w') l' i -> w_items w' !! i = Some it ->
       ~ LocatorItem.in_buffer it x) /\
    (forall s', step s s' -> exists l2, ready a l2 (s_world s') /\
       owned (w_os (s_world s')) x /\ w_bytes (s_world s') !! x = w_bytes w' !! x /\
       ~ used l2 (s_world s') x)) /\
  (forall settings, request_ok settings 0 -> exists r w2, Buffers.get_buffer settings w' = Done r w2).
Proof.
  intros Hfits Hr Hsteps s w'.
  destruct (client_reachable a l w c Hfits Hr Hsteps) as (l' & Hso & Hpo).
  exists l'. split; [apply (so_ready _ _ _ Hso)|]. split; [apply (so_log _ _ _ Hso)|]. split.
  - intros p x Hp Hx. pose proof (po_owned _ _ _ Hpo p x Hp Hx) as Ho.
    pose proof (po_apart _ _ _ Hpo p x Hp Hx) as Hnu. split; [done|]. split; [|split; [|split]].
    + intros q Hq Hne. by apply (po_disjoint _ _ _ Hpo p q x).
    + intros b Hb Hin. apply Hnu. left. by exists b.
    + intros i it Hi Hit Hb. apply Hnu. right. by exists i, it.
    + intros s' Hs. destruct (step_confined a l' s s' Hfits Hso Hs) as (l2 & Hso' & [Hown Hu Hb]).
      exists l2. split; [apply (so_ready _ _ _ Hso')|]. split; [by apply Hown|]. split; [by apply Hb|].
      by intros [?|?]%Hu.
  - intros settings (Hwf & _ & Hbig). eapply wp_ends, (get_buffer_spec a l'); try done; [|lia].
    apply (so_ready _ _ _ Hso).
Qed.

End sessions.

(** ** Runs *)

Definition after {A} (m : M (World system) A) (w : World system) : World system :=
  match m w with Done _ w' => w' | _ => w end.

(** A search, an append of three bytes, a drop, and another search. *)
Definition first_item : Z := get_item first_address 0.
Definition session_1 : World system := after (Buffers.get_buffer search) first_world.
Definition session_2 : World system :=
  after (SafeLocatorItem.append_bytes {| SafeLocatorItem.item := first_item |} [1; 2; 3]) session_1.
Definition session_3 : World system :=
  after (SafeLocatorItem.drop {| SafeLocatorItem.item := first_item |}) session_2.
Definition session_4 : World system := after (Buffers.get_buffer search) session_3.
Definition first_append : Z := 69632.

(** The session after the drop, and at its end. *)
Definition dropped : session system := Session session_3 [] [(first_append, [1; 2; 3])].
Definition final : session system := Session session_4 [first_item] [(first_append, [1; 2; 3])].

Lemma search_request : request_ok search 0.
Proof. split; [apply search_wf|]. split; by vm_compute. Qed.

Lemma dropped_runs : rtc step (Session first_world [] []) dropped.
Proof.
  eapply rtc_l.
  { apply (step_get search first_world [] [] {| SafeLocatorItem.item := first_item |} session_1);
      [apply search_request|by vm_compute]. }
  eapply rtc_l.
  { apply (step_append first_item [1; 2; 3] session_1 [first_item] [] first_append session_2);
      [|by vm_compute]. split; [by left|]. eexists. split; [by vm_compute|by vm_compute]. }
  eapply rtc_l; [|reflexivity].
  apply (step_drop first_item session_2 [first_item] [] _ session_3); [done|by vm_compute].
Qed.

Lemma session_runs : rtc step (Session first_world [] []) final.
Proof.
  eapply rtc_r; [apply dropped_runs|].
  apply (step_get search session_3 [] _ {| SafeLocatorItem.item := first_item |} session_4);
    [apply search_request|by vm_compute].
Qed.

Lemma session_sound_witness :
  exists l', ready first_address l' (s_world final) /\ NoDup (s_held final) /\
  (forall p, p ∈ s_held final -> registered (w_headers (s_world final)) l' p /\
     exists it, w_items (s_world final) !! p = Some it /\
       LocatorItem.wf it /\ LocatorItem.is_taken it = 1) /\
  (forall p q it jt x, p ∈ s_held final -> q ∈ s_held final -> p <> q ->
     w_items (s_world final) !! p = Some it -> w_items (s_world final) !! q = Some jt ->
     ~ same_chunk l' it jt -> LocatorItem.in_buffer it x -> ~ LocatorItem.in_buffer jt x) /\
  logged l' (s_world final) (s_log final) /\
  (one_chunk -> (forall it jt, ~ same_chunk l' it jt) /\
     forall addr data, (addr, data) ∈ s_log final ->
       read_bytes addr (length data) (w_bytes (s_world final)) = Some data).
Proof.
  apply (session_sound first_address [first_address] first_world final);
    [apply toy_fits|apply first_ready|apply session_runs].
Defined.

Lemma final_may_append : may_append first_item [4] final.
Proof.
  split; [by left|]. exists (LocatorItem.set_position 3 (LocatorItem.set_is_taken 1
    (LocatorItem.new first_append 4096))). split; by vm_compute.
Qed.

Lemma session_calls_end_witness :
  exists addr w', SafeLocatorItem.append_code {| SafeLocatorItem.item := first_item |} [4]
    (s_world final) = Done addr w'.
Proof.
  apply (session_calls_end first_address [first_address] first_world final);
    [apply toy_fits|apply first_ready|apply session_runs|apply final_may_append].
Defined.

(** The buffer that was given back is the next one handed out. *)
Example dropped_first_fit :
  first_fit 100 65536 0x7FFFFFFF session_3 [first_address] = Some first_item.
Proof. by vm_compute. Qed.

Lemma session_first_fit_witness :
  exists l', ready first_address l' (s_world dropped) /\ packed (w_headers (s_world dropped)) l' /\
  forall settings p, request_ok settings 0 ->
    first_fit (BufferSearchSettings.size settings) (BufferSearchSettings.min_address settings)
      (BufferSearchSettings.max_address settings) (s_world dropped) l' = Some p ->
    (p ∉ s_held dropped) /\ exists it, w_items (s_world dropped) !! p = Some it /\
      Buffers.get_buffer settings (s_world dropped) = Done (Ok {| SafeLocatorItem.item := p |})
        (set_items (<[p := LocatorItem.set_is_taken 1 it]> (w_items (s_world dropped)))
          (s_world dropped)).
Proof.
  apply (session_first_fit first_address [first_address] first_world dropped);
    [apply toy_fits|apply first_ready|repeat constructor|apply dropped_runs].
Defined.

Lemma session_refines_pool_witness :
  exists bs l' S, represents [first_address] first_world bs /\
    rtc (Pool.step (~ one_chunk)) (Pool.Build_pool bs (w_bytes first_world) [] []) S /\
    ready first_address l' (s_world final) /\ represents l' (s_world final) (Pool.buffers S) /\
    Pool.memory S = w_bytes (s_world final) /\ Pool.written S = s_log final /\
    Forall2 (slot_at l' (s_world final)) (s_held final) (Pool.held S) /\ Pool.sound (~ one_chunk) S.
Proof.
  apply (session_refines_pool first_address [first_address] first_world final);
    [apply toy_fits|apply first_ready|repeat constructor|apply session_runs].
Defined.

Lemma session_thrifty_witness :
  exists l', ready first_address l' (s_world final) /\
    MAX_ITEM_COUNT * (Z.of_nat (length l') - Z.max (block_count granularity) (Z.of_nat 1))
      <= Z.of_nat (length (slots (w_headers (s_world final)) l')) /\
    (forall settings r w', request_ok settings 0 ->
       Buffers.get_buffer settings (s_world final) = Done r w' ->
       exists k, ready first_address (l' ++ k) w' /\
         (k = [] \/ Z.of_nat (length k) = block_count granularity /\ forall b, b ∈ l' ->
            exists h, w_headers (s_world final) !! b = Some h /\ is_full h = true)).
Proof.
  apply (session_thrifty first_address [first_address] first_world final);
    [apply toy_fits|apply first_ready|repeat constructor|apply session_runs].
Defined.

(** Private memory, then a search in the memory that is left, a write into the
    private memory, and an append. *)
Definition private_os : system := {| maps := [(65536, 69632); (69632, 73728)]; unread := "" |}.
Definition private_alloc : PrivateAllocation :=
  {| PrivateAllocation.base_address := 69632; PrivateAllocation.size := 4096;
     PrivateAllocation.this_process_id := 7 |}.
Definition private_1 : World system := set_os private_os first_world.
Definition private_2 : World system := after (Buffers.get_buffer search) private_1.
Definition private_3 : World system :=
  set_bytes (write_bytes 69632 [7; 7] (w_bytes private_2)) private_2.
Definition private_4 : World system :=
  after (SafeLocatorItem.append_bytes {| SafeLocatorItem.item := first_item |} [1; 2; 3]) private_3.
Definition private_final : client system :=
  Client (Session private_4 [first_item] [(73728, [1; 2; 3])]) [private_alloc].

Lemma private_runs : rtc client_step (Client (Session first_world [] []) []) private_final.
Proof.
  eapply rtc_l.
  { apply (client_allocate request first_world [] [] []
      (BufferAllocatorSettings.sanitize request) private_alloc private_os); [|by vm_compute].
    split; [by apply request_wf|by split; vm_compute]. }
  eapply rtc_l.
  { apply client_call, (step_get search private_1 [] [] {| SafeLocatorItem.item := first_item |} private_2);
      [apply search_request|by vm_compute]. }
  eapply rtc_l.
  { by apply (client_write private_alloc 69632 [7; 7] private_2 [first_item] [] [private_alloc]);
      [left|..]. }
  eapply rtc_l; [|reflexivity].
  apply client_call, (step_append first_item [1; 2; 3] private_3 [first_item] [] 73728 private_4);
    [|by vm_compute].
  split; [by left|].
  exists (LocatorItem.set_is_taken 1 (LocatorItem.new 73728 4096)). split; by vm_compute.
Qed.

Lemma private_memory_isolated_witness :
  let s := c_session private_final in let w' := s_world s in
  exists l', ready first_address l' w' /\ logged l' w' (s_log s) /\
  (forall p x, p ∈ c_private private_final -> in_allocation p x ->
    owned (w_os w') x /\
    (forall q, q ∈ c_private private_final -> q <> p -> ~ in_allocation q x) /\
    (forall b, b ∈ l' -> ~ in_block b x) /\
    (forall i it, registered (w_headers w') l' i -> w_items w' !! i = Some it ->
       ~ LocatorItem.in_buffer it x) /\
    (forall s', step s s' -> exists l2, ready first_address l2 (s_world s') /\
       owned (w_os (s_world s')) x /\ w_bytes (s_world s') !! x = w_bytes w' !! x /\
       ~ used l2 (s_world s') x)) /\
  (forall settings, request_ok settings 0 -> exists r w2, Buffers.get_buffer settings w' = Done r w2).
Proof.
  apply (private_memory_isolated (RL := toy_release_laws)
    first_address [first_address] first_world private_final);
    [apply toy_fits|apply first_ready|apply private_runs].
Defined.
