(* ===== verification/PlatformTheorems.v ===== *)
(** * Theorems on where memory comes from

    The four allocators meet the contract of the platform; the placement of a
    buffer in a page range is sound and complete; the free regions are the
    complement of the mapped ones. *)

From Stdlib Require Import Ascii String.
From S2P Require Import Prelude Mathematics Ranges SysInfo Settings Errors Placement Items Text.
From S2P Require Import Platform Kernel32.
From S2P Require Import Headers World MapParser Posix Platform PosixSpec AllocLinux AllocWindows AllocOsx.
From S2P Require Import AllocMmapRs Allocate HeaderSpec HeaderNext BuffersSpec Toy ToyChain.

(** ** The allocators *)

Section linux.
Context `{T : Target} `{Q : SysQuery} {OS : Type} `{Mem : Memory OS} `{PX : Posix OS} `{I : Itoa}
  `{SA : StringAlloc} `{PL : !PosixLaws} `{HQ : !SysQueryOk}.

(** C16: [allocate_linux] ends.  On success the item lies between the bounds of
    the settings, is free and unused, in memory nobody owned before; on
    failure the error carries the settings.  No mapping that existed is lost. *)
Theorem allocate_linux_correct s os :
  paths_ok -> os_ok os -> BufferAllocatorSettings.wf s ->
  px_readable (as_i32 (BufferAllocatorSettings.target_process_id s)) ->
  wp (allocate_linux s) (fun r os' => match r with
    | Ok it => got s os it os'
    | Err e => grows os os' /\ BufferAllocationError.settings e = s
    end) os.
Proof. apply allocate_linux_spec. Qed.

End linux.

Section windows.
Context `{T : Target} `{Q : SysQuery} {OS : Type} `{Mem : Memory OS} `{WM : WindowsMemory OS}
  `{WP : WindowsProcess OS} `{WML : !WindowsMemoryLaws} `{WL : !WindowsLaws} `{HQ : !SysQueryOk}.

(** C27: the same for [allocate_windows], with its brute-force loop; the loops
    over the address space end before an address wraps around. *)
Theorem allocate_windows_correct s os :
  cfg_windows = true -> os_ok os -> BufferAllocatorSettings.wf s ->
  0 < BufferAllocatorSettings.size s ->
  wp (allocate_windows s) (fun r os' => match r with
    | Ok it => got s os it os'
    | Err e => grows os os' /\ BufferAllocationError.settings e = s
    end) os.
Proof.
  intros Hwin Hok Hwf Hsz. eapply wp_mono; [by apply allocate_windows_spec|].
  by intros [it|e] os' H; [apply H|].
Qed.

End windows.

Section osx.
Context `{T : Target} `{Q : SysQuery} {OS : Type} `{Mem : Memory OS} `{MA : Mach OS}
  `{ML : !MachLaws} `{HQ : !SysQueryOk}.

(** C28: the same for [allocate_osx]. *)
Theorem allocate_osx_correct s os :
  cfg_windows = false -> os_ok os -> BufferAllocatorSettings.wf s ->
  0 < BufferAllocatorSettings.size s ->
  wp (allocate_osx s) (fun r os' => match r with
    | Ok it => got s os it os'
    | Err e => grows os os' /\ BufferAllocationError.settings e = s
    end) os.
Proof. apply allocate_osx_spec. Qed.

End osx.

Section mmap_rs.
Context `{T : Target} `{Q : SysQuery} {OS : Type} `{Mem : Memory OS} `{MR : MmapRs OS}
  `{ML : !MmapRsLaws} `{HQ : !SysQueryOk}.

(** The same for [allocate_mmap_rs], whatever value the method that the crate
    does not define would give for the granularity. *)
Theorem allocate_mmap_rs_correct s os :
  cfg_windows = false -> Cached.max_address get_sys_info < usize_max ->
  os_ok os -> BufferAllocatorSettings.wf s -> 0 < BufferAllocatorSettings.size s ->
  (granularity | BufferAllocatorSettings.size s) ->
  wp (allocate_mmap_rs s) (fun r os' => match r with
    | Ok it => got s os it os'
    | Err e => grows os os' /\ BufferAllocationError.settings e = s
    end) os.
Proof. apply allocate_mmap_rs_spec. Qed.

End mmap_rs.

(** ** Placement *)

Section placement.
Context `{T : Target}.

(** C25: every address returned is aligned, and the buffer there lies in the
    page range and between the bounds, unless both ranges reach the last
    address and the buffer would run past it. *)
Theorem get_possible_buffer_addresses_sound lo hi ps pe size g a :
  is_usize lo -> is_usize hi -> is_usize ps -> is_usize pe -> is_usize size ->
  0 < g <= usize_max -> ps <= pe ->
  (pe < usize_max \/ hi < usize_max \/ a + size <= usize_max) ->
  a ∈ get_possible_buffer_addresses lo hi ps pe size g results_buffer ->
  fits lo hi ps pe size a /\ (g | a).
Proof. rewrite get_possible_placements by done. apply placements_sound. Qed.

(** C24: when a buffer fits at any aligned address, the lowest such address is
    among those returned. *)
Theorem get_possible_buffer_addresses_complete lo hi ps pe size g a :
  is_usize lo -> is_usize hi -> is_usize ps -> is_usize pe -> is_usize size ->
  0 < g <= usize_max ->
  fits lo hi ps pe size a -> (g | a) ->
  round_up (Z.max ps lo) g ∈ get_possible_buffer_addresses lo hi ps pe size g results_buffer /\
  round_up (Z.max ps lo) g <= a.
Proof.
  intros Hlo Hhi Hps Hpe Hsize Hg Hfit Hdiv. rewrite get_possible_placements by done.
  split; [by eapply placements_complete|]. destruct Hfit. unfold is_usize in *.
  apply round_up_least; unfold is_usize; try done; lia.
Qed.

(** When a multiple of [m] from [n] on is an address, [round_up] gives the
    least; [round_down] gives the greatest multiple up to [n]. *)
Theorem rounding_correct n m a :
  is_usize n -> 0 < m <= usize_max -> is_usize a -> (m | a) -> n <= a ->
  (n <= round_up n m <= a /\ (m | round_up n m)) /\
  ((m | round_down n m) /\ round_down n m <= n /\ n < round_down n m + m).
Proof.
  intros Hn Hm Ha Hdiv Hle. split; [by apply round_up_least|]. apply round_down_multiple; [done|lia].
Qed.

End placement.

(** ** Settings and the map of the process *)

Section maps.
Context `{T : Target} `{Q : SysQuery} `{HQ : !SysQueryOk}.

(** [sanitize] turns a size whose granule count is representable into the
    least positive whole number of granules that covers it, and only raises
    the minimum address. *)
Theorem sanitize_correct s :
  BufferAllocatorSettings.wf s -> BufferAllocatorSettings.size s + granularity <= u32_max ->
  let s' := BufferAllocatorSettings.sanitize s in
  (BufferAllocatorSettings.size s <= BufferAllocatorSettings.size s' /\
   BufferAllocatorSettings.size s' < Z.max (BufferAllocatorSettings.size s) 1 + granularity) /\
  (granularity | BufferAllocatorSettings.size s') /\ 0 < BufferAllocatorSettings.size s' /\
  BufferAllocatorSettings.min_address s <= BufferAllocatorSettings.min_address s' /\
  BufferAllocatorSettings.max_address s' = BufferAllocatorSettings.max_address s.
Proof.
  intros Hwf Hbig s'.
  destruct (BufferAllocatorSettings.sanitize_size_covers s Hwf Hbig) as (? & ? & ?).
  split; [done|]. split; [done|]. split; [done|]. split.
  - unfold s'. rewrite BufferAllocatorSettings.sanitize_min. destruct cfg_windows; lia.
  - apply BufferAllocatorSettings.sanitize_max.
Qed.


(** Whatever the map file holds, every free region computed from it is an
    interval of addresses. *)
Theorem free_regions_of_any_text lines :
  Forall region_ok (get_free_regions (parse_memory_map_from_lines lines)).
Proof. apply get_free_regions_ok, parse_lines_range. Qed.

(** C26: the parser reads back every region of a map file as the kernel writes
    it, in order. *)
Theorem parse_memory_map_roundtrip ls :
  Forall line_ok ls ->
  parse_memory_map_from_lines (split_on "010" (render_file ls)) = ml_entry <$> ls.
Proof. apply parse_render_file. Qed.

End maps.

(** ** Items *)

Section items.
Context `{T : Target}.

(** [can_use] holds exactly for an item with the room asked for, whose
    free part starts at or above the minimum and which ends at or below the
    maximum. *)
Theorem can_use_correct it n lo hi :
  LocatorItem.wf it ->
  LocatorItem.can_use it n lo hi = true <->
  n <= LocatorItem.size it - LocatorItem.position it /\
  lo <= LocatorItem.base_address it + LocatorItem.position it /\
  LocatorItem.base_address it + LocatorItem.size it <= hi.
Proof.
  intros Hwf. rewrite LocatorItem.can_use_provides by done.
  split; [by intros []|]. intros (? & ? & ?). by constructor.
Qed.

(** The slots of a locator are inside its 4096 bytes, behind the header,
    and do not overlap. *)
Theorem item_table_fits self i j :
  0 <= i < LocatorHeader.MAX_ITEM_COUNT -> i < j ->
  self + LocatorHeader.size_of_LocatorHeader <= LocatorHeader.get_item self i /\
  LocatorHeader.get_item self i + LocatorItem.size_of_LocatorItem <= self + LocatorHeader.LENGTH /\
  LocatorHeader.get_item self i + LocatorItem.size_of_LocatorItem <= LocatorHeader.get_item self j.
Proof.
  intros Hi Hj. destruct (LocatorHeader.get_item_inside self i Hi).
  split; [done|]. split; [done|]. by apply LocatorHeader.get_item_step.
Qed.

(** The version occupies the low three bits of the flags and nothing
    else: it reads back, and the other bits stay. *)
Theorem version_roundtrip v h :
  0 <= v < 8 ->
  LocatorHeader.version (LocatorHeader.set_version v h) = v /\
  Z.land (LocatorHeader.flags (LocatorHeader.set_version v h)) 0xF8
    = Z.land (LocatorHeader.flags h) 0xF8.
Proof.
  intros Hv. rewrite LocatorHeader.version_set_version. split.
  - change 7 with (Z.ones 3). rewrite Z.land_ones by lia. by apply Z.mod_small.
  - unfold LocatorHeader.set_version. simpl.
    rewrite Z.land_lor_distr_l, <- !Z.land_assoc. change (Z.land 7 248) with 0.
    change (Z.land 248 248) with 248. by rewrite Z.land_0_r, Z.lor_0_r.
Qed.

End items.

(** ** Runs *)

Lemma second_ok : os_ok second_os.
Proof. apply (inv_os _ _ _ (proj1 (item_ready 0 (or_introl eq_refl)))). Qed.

Lemma allocate_linux_correct_witness :
  wp (allocate_linux request) (fun r os' => match r with
    | Ok it => got request second_os it os'
    | Err e => grows second_os os' /\ BufferAllocationError.settings e = request
    end) second_os.
Proof.
  apply (allocate_linux_correct request second_os);
    [apply toy_paths_ok|apply second_ok|by apply request_wf|done].
Defined.

Lemma allocate_windows_correct_witness :
  wp (allocate_windows (T := target Windows) (Q := toy_query) request) (fun r os' => match r with
    | Ok it => got request second_os it os'
    | Err e => grows second_os os' /\ BufferAllocationError.settings e = request
    end) second_os.
Proof.
  apply (allocate_windows_correct (T := target Windows) (Q := toy_query)
    (WL := toy_windows_laws 0) (HQ := toy_query_ok Windows) request second_os);
    [done|apply second_ok|by apply request_wf|done].
Defined.

Lemma allocate_osx_correct_witness :
  wp (allocate_osx (T := target MacOS) (Q := toy_query) request) (fun r os' => match r with
    | Ok it => got request second_os it os'
    | Err e => grows second_os os' /\ BufferAllocationError.settings e = request
    end) second_os.
Proof.
  apply (allocate_osx_correct (T := target MacOS) (Q := toy_query)
    (ML := toy_mach_laws MacOS) (HQ := toy_query_ok MacOS) request second_os);
    [done|apply second_ok|by apply request_wf|done].
Defined.

Lemma allocate_mmap_rs_correct_witness :
  wp (allocate_mmap_rs (T := target OtherUnix) (Q := toy_query)
    (MR := toy_mmap_rs (H := target OtherUnix) (H0 := toy_query)) request)
    (fun r os' => match r with
    | Ok it => got request second_os it os'
    | Err e => grows second_os os' /\ BufferAllocationError.settings e = request
    end) second_os.
Proof.
  apply (allocate_mmap_rs_correct (T := target OtherUnix) (Q := toy_query)
    (MR := toy_mmap_rs (H := target OtherUnix) (H0 := toy_query))
    (ML := toy_mmap_rs_laws OtherUnix) (HQ := toy_query_ok OtherUnix) request second_os);
    [done|done|apply second_ok|by apply request_wf|done|exists 1; done].
Defined.

(** The three other allocators find memory too. *)
Example allocators_run :
  (match allocate_windows (T := target Windows) (Q := toy_query) request second_os with
   | Done (Ok it) _ => LocatorItem.base_address it | _ => 0 end,
   match allocate_osx (T := target MacOS) (Q := toy_query) request second_os with
   | Done (Ok it) _ => LocatorItem.base_address it | _ => 0 end,
   match allocate_mmap_rs (T := target OtherUnix) (Q := toy_query)
     (MR := toy_mmap_rs (H := target OtherUnix) (H0 := toy_query)) request second_os with
   | Done (Ok it) _ => LocatorItem.base_address it | _ => 0 end)
  = (196608, 69632, 69632).
Proof. vm_compute. reflexivity. Qed.

Lemma get_possible_buffer_addresses_sound_witness :
  fits 0 65536 8192 16384 4096 12288 /\ (4096 | 12288).
Proof.
  apply (get_possible_buffer_addresses_sound 0 65536 8192 16384 4096 4096 12288);
    try (by vm_compute).
  - left. by vm_compute.
  - apply list_elem_of_In. vm_compute. tauto.
Defined.

Lemma get_possible_buffer_addresses_complete_witness :
  round_up (Z.max 8192 100) 4096
    ∈ get_possible_buffer_addresses 100 65536 8192 16384 4096 4096 results_buffer /\
  round_up (Z.max 8192 100) 4096 <= 12288.
Proof.
  apply (get_possible_buffer_addresses_complete 100 65536 8192 16384 4096 4096 12288);
    try (by vm_compute); first [by exists 3 | constructor; lia].
Defined.

Lemma rounding_correct_witness :
  (100 <= round_up 100 64 <= 128 /\ (64 | round_up 100 64)) /\
  ((64 | round_down 100 64) /\ round_down 100 64 <= 100 /\ 100 < round_down 100 64 + 64).
Proof. apply (rounding_correct 100 64 128); try (by vm_compute). by exists 2. Defined.

Lemma sanitize_correct_witness :
  let s' := BufferAllocatorSettings.sanitize request in
  (4096 <= BufferAllocatorSettings.size s' /\ BufferAllocatorSettings.size s' < Z.max 4096 1 + granularity) /\
  (granularity | BufferAllocatorSettings.size s') /\ 0 < BufferAllocatorSettings.size s' /\
  65536 <= BufferAllocatorSettings.min_address s' /\
  BufferAllocatorSettings.max_address s' = 0x7FFFFFFF.
Proof. apply (sanitize_correct request); [by apply request_wf|by vm_compute]. Defined.



Lemma free_regions_of_any_text_witness :
  Forall region_ok (get_free_regions (parse_memory_map_from_lines
    ["00001000-00002000 r-xp 00000000 00:00 0"; "no map line"; "00004000-00003000 rw-p"])).
Proof. apply (free_regions_of_any_text (HQ := toy_sys_query_ok)). Defined.

Definition a_line : maps_line :=
  {| ml_entry := MemoryMapEntry.new 4096 8192; ml_digits := (8%nat, 8%nat);
     ml_rest := "r-xp 00000000 00:00 0" |}.

Lemma parse_memory_map_roundtrip_witness :
  parse_memory_map_from_lines (split_on "010" (render_file [a_line; a_line])) =
  [MemoryMapEntry.new 4096 8192; MemoryMapEntry.new 4096 8192].
Proof.
  apply (parse_memory_map_roundtrip [a_line; a_line]).
  assert (line_ok a_line).
  { constructor; simpl; try lia; try (by vm_compute); repeat split; try lia; by vm_compute. }
  by repeat constructor.
Defined.

Lemma can_use_correct_witness :
  LocatorItem.can_use (one_item 0) 100 65536 0x7FFFFFFF = true <->
  100 <= 4096 - 16 /\ 65536 <= 131072 + 16 /\ 131072 + 4096 <= 0x7FFFFFFF.
Proof.
  apply (can_use_correct (one_item 0)). constructor; simpl; [lia|done|lia|]. by vm_compute.
Defined.

Lemma item_table_fits_witness :
  65536 + LocatorHeader.size_of_LocatorHeader <= LocatorHeader.get_item 65536 3 /\
  LocatorHeader.get_item 65536 3 + LocatorItem.size_of_LocatorItem <= 65536 + LocatorHeader.LENGTH /\
  LocatorHeader.get_item 65536 3 + LocatorItem.size_of_LocatorItem <= LocatorHeader.get_item 65536 4.
Proof. apply (item_table_fits 65536 3 4); [by vm_compute|lia]. Defined.

Lemma version_roundtrip_witness :
  LocatorHeader.version (LocatorHeader.set_version 5 first_header) = 5 /\
  Z.land (LocatorHeader.flags (LocatorHeader.set_version 5 first_header)) 0xF8
    = Z.land (LocatorHeader.flags first_header) 0xF8.
Proof. apply (version_roundtrip 5 first_header). lia. Defined.
