(* ===== verification/SuccessTheorems.v ===== *)
(** * Theorems on success

    When an operation must not fail: an allocation for which there is a place,
    on every platform, and a search that some locator has room for. *)

From Stdlib Require Import Ascii String.
From S2P Require Import Prelude Mathematics SysInfo Settings Errors Placement Items Headers World.
From S2P Require Import Text MapParser Posix PosixSpec Platform Places Kernel32 ItemOps.
From S2P Require Import HeaderOps HeaderSpec HeaderWp HeaderInit HeaderNext MemoryMappedFiles Finder.
From S2P Require Import AllocLinux LinuxMaps AllocWindows AllocOsx AllocMmapRs Allocate Succeeds.
From S2P Require Import Buffers BuffersSpec FirstFit Toy ToyChain.
Import LocatorHeader.

(** ** Linux *)

Section linux.
Context `{T : Target} `{Q : SysQuery} {OS : Type} `{Mem : Memory OS} `{PX : Posix OS} `{I : Itoa}
  `{SA : StringAlloc} `{PL : !PosixLaws} `{SL : !StringAllocLaws} `{LL : !LinuxLaws}
  `{HQ : !SysQueryOk}.

(** C18: [get_free_regions_from_process_id], from the text of the map file of
    the process to the regions, is exact: below the last address a byte is in
    one of the regions exactly when it is not mapped.  The condition is
    [map_readable]: either no read of the file gives 128 KiB at once, and then
    the file is read to its end however the kernel cuts it up, or the file is
    shorter than that.  A read that fills the string would be taken for the end
    of the file, see [map_file_cut]. *)
Theorem linux_free_regions_exact os x :
  paths_ok -> os_ok os -> map_readable os -> 0 <= x < Cached.max_address get_sys_info ->
  wp (get_free_regions_from_process_id (as_i32 (Cached.this_process_id get_sys_info)))
    (fun regions os' => keeps os os' /\
      ((exists e, e ∈ regions /\ in_entry e x) <-> ~ owned os x)) os.
Proof.
  intros Hpaths Hok Hwhole Hx. eapply wp_mono; [by apply get_free_regions_from_process_id_exact|].
  intros regions os' (l & -> & Hex & Hk & _). split; [done|].
  rewrite free_regions_complement by (apply Hex || done).
  by rewrite (em_owned _ _ Hex), (proj2 Hk).
Qed.


End linux.

(** ** The other systems *)

Section windows.
Context `{T : Target} `{Q : SysQuery} {OS : Type} `{Mem : Memory OS} `{WM : WindowsMemory OS}
  `{WP : WindowsProcess OS} `{WML : !WindowsMemoryLaws} `{WL : !WindowsLaws} `{HQ : !SysQueryOk}
  `{WG : !WindowsGrants}.

(** C30: an allocation on Windows for which there is a place succeeds: the loop
    over the pages, which advances by the size of the region from wherever it
    is in a page, never passes the place. *)
Theorem allocate_windows_finds_place s os :
  cfg_windows = true -> os_ok os -> BufferAllocatorSettings.wf s -> sanitized s ->
  BufferAllocatorSettings.target_process_id s = Cached.this_process_id get_sys_info ->
  windows_obtainable os s ->
  wp (allocate_windows s) (fun r _ => exists it, r = Ok it) os.
Proof. apply allocate_windows_succeeds. Qed.

End windows.

Section osx.
Context `{T : Target} `{Q : SysQuery} {OS : Type} `{Mem : Memory OS} `{MA : Mach OS}
  `{ML : !MachLaws} `{HQ : !SysQueryOk} `{MG : !MachGrants}.

(** C31: an allocation on macOS for which there is a place succeeds: the free
    range in front of each region is tried, and the one behind the last. *)
Theorem allocate_osx_finds_place s os :
  cfg_windows = false -> os_ok os -> BufferAllocatorSettings.wf s -> sanitized s ->
  osx_obtainable os s ->
  wp (allocate_osx s) (fun r _ => exists it, r = Ok it) os.
Proof. apply allocate_osx_succeeds. Qed.

End osx.

(** ** Searches *)

Section search.
Context `{T : Target} `{Q : SysQuery} {OS : Type} `{Sch : Scheduler OS} `{P : Platform OS}
  `{Mem : Memory OS} `{L : !PlatformLaws} `{HQ : !SysQueryOk} `{PS : !PlatformSucceeds}.
Context `{PX : Posix OS} `{ST : UnixMemoryMappedFile.StringTail OS} `{WF : WindowsFiles OS}
  `{SV : SharedViews OS} `{I : Itoa}.
Implicit Types w : World OS.

(** C3: a search succeeds when some locator of the chain has a slot left and
    the platform can serve the request; the item is the caller's. *)
Theorem get_buffer_succeeds a l w settings :
  granule_fits -> ready a l w -> packed (w_headers w) l -> BufferSearchSettings.wf settings ->
  BufferSearchSettings.size settings + granularity <= u32_max ->
  (exists b, b ∈ l /\ count (w_headers w) b < MAX_ITEM_COUNT) ->
  obtainable (w_os w) (BufferAllocatorSettings.sanitize
    (item_request (BufferSearchSettings.size settings) (BufferSearchSettings.min_address settings)
      (BufferSearchSettings.max_address settings))) ->
  wp (Buffers.get_buffer settings) (fun r w' => exists s l', r = Ok s /\ ready a l' w' /\
    acquired l (BufferSearchSettings.size settings) (BufferSearchSettings.min_address settings)
      (BufferSearchSettings.max_address settings) w s l' w') w.
Proof.
  intros Hfits Hr Hp Hwf Hbig (b & Hb & Hroom) Hob. eapply wp_mono; [by apply get_buffer_fits|].
  intros r w' [Hs Hf]. destruct (searched_ready _ _ _ _ _ _ Hr Hs) as (l2 & Hr2 & _).
  destruct Hs as (l' & Hi & Hs). pose proof (chain_unique _ _ _ _ (inv_chain _ _ _ (proj1 Hr2))
    (inv_chain _ _ _ Hi)) as ->.
  destruct r as [s|e]; [by exists s, l'|exfalso]. unfold fitted in Hf.
  destruct (first_fit _ _ _ w l); [by destruct Hf|]. destruct Hf as [_ [Hfull|Href]].
  - unfold full in Hfull. rewrite list.Forall_forall in Hfull. specialize (Hfull b Hb). lia.
  - destruct Href as (s & e' & os' & E), Hwf as [? ? [? _]].
    pose proof (allocate_succeeds (item_request (BufferSearchSettings.size settings)
      (BufferSearchSettings.min_address settings) (BufferSearchSettings.max_address settings))
      (w_os w) (inv_os _ _ _ (proj1 Hr))) as Hok.
    unfold wp in Hok. rewrite E in Hok. destruct Hok as (it & [=]); try done.
    by apply item_request_wf.
Qed.

End search.

(** ** Runs *)

Lemma second_os_ok : os_ok second_os.
Proof. apply (inv_os _ _ _ (proj1 (item_ready 0 (or_introl eq_refl)))). Qed.

Lemma second_free x : 69632 <= x < 131072 \/ 135168 <= x -> ~ owned second_os x.
Proof.
  intros Hx [?|(r & Hr & Hm)]; [lia|]. unfold in_map in Hm. simpl in Hr.
  apply elem_of_cons in Hr as [->|Hr]; [simpl in Hm; lia|].
  apply list_elem_of_singleton in Hr as ->. simpl in Hm. lia.
Qed.

#[export] Existing Instance toy_string_laws.
#[export] Instance toy_linux_ok : LinuxLaws := toy_linux_laws Linux.

Lemma linux_free_regions_exact_witness :
  wp (get_free_regions_from_process_id (as_i32 (Cached.this_process_id get_sys_info)))
    (fun regions os' => keeps second_os os' /\
      ((exists e, e ∈ regions /\ in_entry e 100000) <-> ~ owned second_os 100000)) second_os.
Proof.
  apply (linux_free_regions_exact second_os 100000);
    [apply toy_paths_ok|apply second_os_ok|left; apply toy_short_reads|by vm_compute].
Defined.




(** A granule on Windows. *)
Definition large_request : BufferAllocatorSettings := BufferAllocatorSettings.set_size 65536 request.
Lemma large_request_wf : BufferAllocatorSettings.wf (T := target Windows) large_request.
Proof. constructor; by vm_compute. Qed.

Lemma large_obtainable :
  windows_obtainable (T := target Windows) (Q := toy_query) (WG := toy_windows_grants)
    second_os large_request.
Proof.
  constructor; [by vm_compute|by vm_compute|done|done|].
  exists 196608. constructor.
  - exists 3. done.
  - by vm_compute.
  - by vm_compute.
  - intros x Hx. apply second_free. simpl in Hx. lia.
Qed.

Lemma allocate_windows_finds_place_witness :
  wp (allocate_windows (T := target Windows) (Q := toy_query) large_request)
    (fun r _ => exists it, r = Ok it) second_os.
Proof.
  apply (allocate_windows_finds_place (T := target Windows) (Q := toy_query)
    (WL := toy_windows_laws 0) (HQ := toy_query_ok Windows) (WG := toy_windows_grants)
    large_request second_os);
    [done|apply second_os_ok|apply large_request_wf|split; [done|by exists 1]|done
    |apply large_obtainable].
Defined.

Lemma osx_has_place :
  osx_obtainable (T := target MacOS) (Q := toy_query) (MG := toy_mach_grants MacOS) second_os request.
Proof.
  constructor; [by vm_compute|by vm_compute|done|done|].
  exists 69632. constructor.
  - exists 17. done.
  - by vm_compute.
  - by vm_compute.
  - intros x Hx. apply second_free. simpl in Hx. lia.
Qed.

Lemma allocate_osx_finds_place_witness :
  wp (allocate_osx (T := target MacOS) (Q := toy_query) request)
    (fun r _ => exists it, r = Ok it) second_os.
Proof.
  apply (allocate_osx_finds_place (T := target MacOS) (Q := toy_query)
    (ML := toy_mach_laws MacOS) (HQ := toy_query_ok MacOS) (MG := toy_mach_grants MacOS)
    request second_os);
    [done|apply second_os_ok|by apply request_wf|split; [done|by exists 1]|apply osx_has_place].
Defined.

#[export] Instance toy_linux_succeeds : PlatformSucceeds := linux_succeeds eq_refl toy_paths_ok.

Lemma search_obtainable : linux_obtainable (w_os (item_world 1))
  (BufferAllocatorSettings.sanitize (item_request 100 65536 0x7FFFFFFF)).
Proof.
  assert (E : BufferAllocatorSettings.size
    (BufferAllocatorSettings.sanitize (item_request 100 65536 0x7FFFFFFF)) = 4096) by by vm_compute.
  change (w_os (item_world 1)) with second_os.
  split; [left; apply toy_short_reads|].
  constructor; [by vm_compute|by vm_compute|by vm_compute|by vm_compute|done|].
  exists 69632. rewrite E. split; [|apply second_free; lia]. constructor.
  - exists 17. done.
  - by vm_compute.
  - by vm_compute.
  - intros x. rewrite E. intros Hx. apply second_free. lia.
Qed.

(** The locator at 65536 with its one item taken. *)
Lemma get_buffer_succeeds_witness :
  wp (Buffers.get_buffer search) (fun r w' => exists s l', r = Ok s /\ ready first_address l' w' /\
    acquired [first_address] 100 65536 0x7FFFFFFF (item_world 1) s l' w') (item_world 1).
Proof.
  apply (get_buffer_succeeds first_address [first_address] (item_world 1) search);
    [apply toy_fits|apply item_ready; by right|repeat constructor|apply search_wf|by vm_compute| |].
  - exists first_address. split; [by left|by vm_compute].
  - apply search_obtainable.
Defined.
