(* ===== verification/ThreadTheorems.v ===== *)
(** * Theorems on threads

    What the locks of a locator guarantee whatever the order in which the
    threads run, that what they append stays, that the threads get on, that the sequential operations are
    one of these orders, and three orders in which a guard is not enough. *)

From stdpp Require Import functions.
From S2P Require Import Prelude Mathematics SysInfo Settings Errors Items Headers World ItemOps.
From S2P Require Import Platform HeaderOps HeaderSpec HeaderWp BuffersSpec HeaderThreads MemoryThreads.
From S2P Require Import HeaderRefine HeaderProgress ChainThreads Toy ToyChain.

Section header.
Import LocatorHeader HeaderThreads.
Context `{T : Target}.

(** C6: at any time, two threads do not have the same item, two threads are
    not inside the header's lock, the number of items stays within the table,
    and the item a thread has is registered, well-formed and taken. *)
Theorem items_exclusive s s' :
  initial s -> steps s s' ->
  (forall t u i, t <> u -> owned (threads s' t) = Some i -> owned (threads s' u) = Some i -> False) /\
  (forall t u, t <> u -> critical (threads s' t) = true -> critical (threads s' u) = true -> False) /\
  0 <= num_items (header s') <= MAX_ITEM_COUNT /\
  (forall t rq i, threads s' t = Hold rq i -> 0 <= i < num_items (header s') /\
     exists it, items s' !! i = Some it /\ LocatorItem.wf it /\ LocatorItem.is_taken it = 1).
Proof.
  intros Hi Hs. destruct (locator_good_steps s s' Hi Hs) as [[Hn _ _] Hk Ha].
  split; [intros t u i Hne; by apply (a_item _ _ (Ha t u Hne))|].
  split; [intros t u Hne; by apply (a_lock _ _ (Ha t u Hne))|].
  split; [done|]. intros t rq i Ht. destruct (Hk t) as [_ Hpc Hit]. rewrite Ht in Hpc, Hit.
  split; [done|]. by apply Hit.
Qed.

(** C22: no lock is lost: a locked header has a thread inside, and a taken item
    a thread that has it. *)
Theorem locks_accounted s s' :
  initial s -> (forall i it, items s !! i = Some it -> LocatorItem.is_taken it = 0) ->
  steps s s' ->
  (is_locked (header s') = 1 -> exists t, critical (threads s' t) = true) /\
  (forall i it, 0 <= i < num_items (header s') -> items s' !! i = Some it ->
     LocatorItem.is_taken it = 1 -> exists t, owned (threads s' t) = Some i).
Proof. intros Hi Hf Hs. by destruct (accounted_steps s s' Hi Hf Hs). Qed.

Import HeaderProgress.

(** C8: in every execution that leaves no thread behind in the middle of an
    operation, the lock of the header is free again and again; and a thread
    that spins and is scheduled at some time at which the lock is free returns
    from its operation. *)
Theorem locator_progress run who :
  execution run who -> fair run who ->
  (forall n, exists m, (n <= m)%nat /\ is_locked (header (run m)) = 0) /\
  (forall t n, lucky t run who -> exists m, (n <= m)%nat /\ busy (threads (run m) t) = false).
Proof.
  intros Hrun Hfair. split; intros; [by eapply lock_free_again|by eapply operation_ends].
Qed.

End header.

Section waiting.
Import LocatorHeader.
Context `{T : Target} {OS : Type} `{Sch : Scheduler OS}.
Implicit Types w : World OS.

(** C15: the blocking locks end: when the others free the flag by the time of
    the [n]th [sched_yield] and not before, [lock] of a header and [lock] of an
    item yield [n] times, take the flag, and change nothing else. *)
Theorem locks_wait a n w :
  Z.of_nat n < 2 ^ Z.of_nat loop_depth ->
  (forall h,
     (forall i, (i < n)%nat -> exists g, w_headers (yielded i w) !! a = Some g /\ is_locked g <> 0) ->
     w_headers (yielded n w) !! a = Some h -> is_locked h = 0 ->
     wp (HeaderPtr.lock a) (fun _ w' =>
       w' = set_headers (<[a := set_is_locked 1 h]> (w_headers (yielded n w))) (yielded n w)) w) /\
  (forall it,
     (forall i, (i < n)%nat -> exists jt, w_items (yielded i w) !! a = Some jt /\
        LocatorItem.is_taken jt = 1) ->
     w_items (yielded n w) !! a = Some it -> LocatorItem.is_taken it = 0 ->
     wp (ItemPtr.lock a) (fun _ w' =>
       w' = set_items (<[a := LocatorItem.set_is_taken 1 it]> (w_items (yielded n w)))
              (yielded n w)) w).
Proof. intros Hn. split; intros; [by apply header_lock_spec|by apply item_lock_spec]. Qed.

End waiting.

Section sequential.
Import LocatorHeader HeaderThreads.
Context `{T : Target} `{Q : SysQuery} {OS : Type} `{Sch : Scheduler OS} `{P : Platform OS}
  `{Mem : Memory OS} `{L : !PlatformLaws} `{HQ : !SysQueryOk}.

(** C9: what [get_buffer_recursive] does at one locator of a chain, run from
    beginning to end, is a run of the atomic steps of one thread, whatever
    the other threads do before and after: the thread ends with the item
    returned, or without one. *)
Theorem sequential_refines_steps a l b rq (w : World OS) t s :
  inv a l w -> b ∈ l -> shows b w (header s) (items s) -> threads s t = Idle ->
  0 <= rq_size rq -> rq_size rq + granularity <= u32_max ->
  is_usize (rq_min rq) -> is_usize (rq_max rq) ->
  wp (take_item b rq) (fun r w' => exists h' its', shows b w' h' its' /\
    match r with
    | Ok x => exists i, SafeLocatorItem.item x = get_item b i /\ reaches t s h' its' (Hold rq i)
    | Err _ => reaches t s h' its' Idle
    end) w.
Proof. intros. by eapply take_item_reaches. Qed.

End sequential.

Section next.
Import LocatorHeader NextLocatorThreads.
Context `{T : Target}.

(** C23: however many threads extend the chain at one locator, at most one
    locator is allocated, and every thread that succeeds returns it. *)
Theorem next_locator_unique s s' t c :
  initial s -> steps s s' -> threads s' t = Done (Some c) ->
  made s' = [c] /\ next_locator_ptr (header s') = c /\
  (forall u c', threads s' u = Done (Some c') -> c' = c).
Proof.
  intros Hi Hs Ht. destruct (next_good_steps s s' Hi Hs) as [(_ & Hm & _) _ Hk _].
  destruct (Hk t) as [_ Hkt]. rewrite Ht in Hkt. simpl in Hkt. destruct Hkt as [Hc ->].
  split; [by apply Hm|]. split; [done|]. intros u c' Hu.
  destruct (Hk u) as [_ Hku]. rewrite Hu in Hku. by destruct Hku.
Qed.

End next.

Section memory.
Import MemoryThreads.
Context `{T : Target}.

(** C7: threads that write into their buffers do not disturb each other: in
    every state that any number of threads reach on a fixed set of initialised
    locators, while they allocate and append byte by byte in any order,
    everything appended so far reads back, unless it went to bytes that lie in
    the buffers of two items at the start ([initialize] makes such buffers in a
    granule of more than 20 KiB); two threads are about to store to the same
    address only at such a byte; and a thread that is about to store does so in
    mapped memory, in the free part of its own item, and over something
    appended only at such a byte.  Locators that are added to the chain
    meanwhile are not part of these steps. *)
Theorem concurrent_appends_stay s s' :
  initial s -> steps s s' ->
  (forall addr data, (addr, data) ∈ log s' ->
     (forall x, addr <= x < addr + Z.of_nat (length data) -> ~ overlap s x) ->
     read_bytes addr (length data) (bytes s') = Some data) /\
  (forall b t c u x, storing s' b t x -> storing s' c u x -> (b, t) = (c, u) \/ overlap s x) /\
  (forall b t x, storing s' b t x -> mapped s' x /\
     (exists i it, live (locators s' b) (Slot i) it /\ LocatorItem.in_free_part it x) /\
     forall addr data, (addr, data) ∈ log s' -> addr <= x < addr + Z.of_nat (length data) ->
       overlap s x).
Proof.
  intros Hi Hs. pose proof (memory_ok_steps s s' Hi Hs) as Hok. split; [|split].
  - intros addr data Hin. by apply log_reads_back.
  - intros b t c u x. by apply storing_unique.
  - intros b t x Hst. destruct (storing_target _ _ _ _ _ Hok Hst) as (rq & i & it & _ & Hl & Hf & Hx).
    split; [by eapply (mo_mapped _ _ Hok)|]. split; [by exists i, it|].
    intros addr data Hin Hr. exact (storing_fresh _ s' b t x addr data Hok Hst Hin Hr).
Qed.

End memory.

(** ** Orders in which a guard is not enough *)

Section stale.
Import LocatorHeader HeaderThreads.

Definition full_request : request := {| rq_size := 4080; rq_min := 0; rq_max := 0x7FFFFFFF |}.
Definition one_slot : state :=
  {| header := set_num_items 1 first_header; items := {[ 0 := one_item 0 ]};
     threads := fun _ => Idle |}.

Lemma one_slot_initial : initial one_slot.
Proof.
  split; [|done]. constructor; simpl; [by vm_compute|by left|]. intros i Hi.
  assert (i = 0) as -> by lia. exists (one_item 0). split; [done|].
  split; [|by left]. constructor; simpl; [lia|done|lia|]. by vm_compute.
Qed.

(** The item as the other thread leaves it: used up. *)
Definition used_up (taken : Z) : LocatorItem := LocatorItem.set_position 4096 (one_item taken).

(** [can_use] is not repeated behind [try_lock]: a thread can end with an
    item that has not the room it asked for, because another thread used and
    released the item between its two steps. *)
Theorem stale_can_use :
  exists s t rq i it, initial one_slot /\ steps one_slot s /\ threads s t = Hold rq i /\
    items s !! i = Some it /\ ~ suits rq it.
Proof.
  pose proof (steps_refl one_slot) as H.
  set (its0 := items one_slot).
  set (its1 := <[0 := one_item 1]> its0). set (its2 := <[0 := used_up 1]> its1).
  set (its3 := <[0 := used_up 0]> its2).
  pose proof (locator_step_to _ _ 0 _ _ _ _ H eq_refl (l_start _ its0 full_request)) as H1.
  pose proof (locator_step_to _ _ 0 _ _ _ _ H1 eq_refl
    (l_usable _ its0 full_request 0 1 (one_item 0) eq_refl eq_refl eq_refl)) as H2.
  pose proof (locator_step_to _ _ 1 _ _ _ _ H2 eq_refl (l_start _ its0 full_request)) as H3.
  pose proof (locator_step_to _ _ 1 _ _ _ _ H3 eq_refl
    (l_usable _ its0 full_request 0 1 (one_item 0) eq_refl eq_refl eq_refl)) as H4.
  pose proof (locator_step_to _ _ 1 _ _ _ _ H4 eq_refl
    (l_swap _ its0 full_request 0 1 (one_item 0) eq_refl)) as H5.
  assert (Hpos : 16 <= 4096 <= 4096) by lia.
  pose proof (locator_step_to _ _ 1 _ _ _ _ H5 eq_refl
    (l_append _ its1 full_request 0 (one_item 1) 4096 eq_refl Hpos)) as H6.
  pose proof (locator_step_to _ _ 1 _ _ _ _ H6 eq_refl
    (l_release _ its2 full_request 0 (used_up 1) eq_refl)) as H7.
  pose proof (locator_step_to _ _ 0 _ _ _ _ H7 eq_refl
    (l_swap _ its3 full_request 0 1 (used_up 0) eq_refl)) as H8.
  eexists _, 0%nat, full_request, 0, (used_up 1). split; [apply one_slot_initial|].
  split; [exact H8|]. split; [reflexivity|]. split; [reflexivity|].
  intros [Hroom _ _]. by vm_compute in Hroom.
Qed.

End stale.

Section early.
Import LocatorHeader NextLocatorThreads.

Definition last_locator : state :=
  {| header := first_header; made := []; inited := []; threads := fun _ => Start |}.

(** The pointer to a new locator is stored before the locator is
    initialised, and the first test of [get_next_locator] takes no lock: a
    thread can return a locator whose memory holds no header yet. *)
Theorem uninitialised_locator_returned :
  exists s t c, initial last_locator /\ steps last_locator s /\
    threads s t = Done (Some c) /\ c ∉ inited s.
Proof.
  pose proof (steps_refl last_locator) as H.
  eapply (next_step_to _ _ 0) in H; [|reflexivity|by apply l_none].
  eapply (next_step_to _ _ 0) in H; [|reflexivity|apply l_lock].
  eapply (next_step_to _ _ 0) in H; [|reflexivity|by apply l_still_none].
  eapply (next_step_to _ _ 0) in H; [|reflexivity|apply (l_alloc _ _ _ 135168); [done|by apply not_elem_of_nil]].
  eapply (next_step_to _ _ 0) in H; [|reflexivity|apply l_link].
  eapply (next_step_to _ _ 1) in H; [|reflexivity|by apply l_first].
  eapply (next_step_to _ _ 1) in H; [|reflexivity|apply l_load].
  eexists _, 1%nat, 135168. split; [done|]. split; [exact H|]. split; [reflexivity|].
  apply not_elem_of_nil.
Qed.

End early.

Section twice.
Import FindThreads.

(** [find] does not test the address again behind the lock: two threads
    that start together each create a first locator, and use different ones. *)
Theorem two_first_locators :
  exists s a b, steps start s /\ threads s 0%nat = Done a /\ threads s 1%nat = Done b /\
    a <> b /\ made s = [b; a].
Proof.
  pose proof (steps_refl start) as H.
  pose proof (find_step_to _ _ 0 _ _ _ _ _ H eq_refl (l_none false 0 [] eq_refl)) as H1.
  pose proof (find_step_to _ _ 1 _ _ _ _ _ H1 eq_refl (l_none false 0 [] eq_refl)) as H2.
  pose proof (find_step_to _ _ 0 _ _ _ _ _ H2 eq_refl (l_lock false 0 [] eq_refl)) as H3.
  assert (Ha : 65536 <> 0 /\ 65536 ∉ @nil Z) by (split; [done|apply not_elem_of_nil]).
  pose proof (find_step_to _ _ 0 _ _ _ _ _ H3 eq_refl (l_alloc true 0 [] 65536 (proj1 Ha) (proj2 Ha))) as H4.
  pose proof (find_step_to _ _ 0 _ _ _ _ _ H4 eq_refl (l_publish true 0 [65536] 65536)) as H5.
  pose proof (find_step_to _ _ 0 _ _ _ _ _ H5 eq_refl (l_init true 65536 [65536])) as H6.
  pose proof (find_step_to _ _ 0 _ _ _ _ _ H6 eq_refl (l_return true 65536 [65536])) as H7.
  pose proof (find_step_to _ _ 1 _ _ _ _ _ H7 eq_refl (l_lock false 65536 [65536] eq_refl)) as H8.
  assert (Hb : 131072 <> 0 /\ 131072 ∉ [65536]) by (split; [done|by intros ?%list_elem_of_singleton]).
  pose proof (find_step_to _ _ 1 _ _ _ _ _ H8 eq_refl
    (l_alloc true 65536 [65536] 131072 (proj1 Hb) (proj2 Hb))) as H9.
  pose proof (find_step_to _ _ 1 _ _ _ _ _ H9 eq_refl (l_publish true 65536 [131072; 65536] 131072)) as H10.
  pose proof (find_step_to _ _ 1 _ _ _ _ _ H10 eq_refl (l_init true 131072 [131072; 65536])) as H11.
  pose proof (find_step_to _ _ 1 _ _ _ _ _ H11 eq_refl (l_return true 131072 [131072; 65536])) as H12.
  eexists _, 65536, 131072. split; [exact H12|]. done.
Qed.

End twice.

(** ** Runs *)

(** A thread takes the item of the slot. *)
Lemma holding_run :
  exists s, HeaderThreads.steps one_slot s /\
    HeaderThreads.threads s 0%nat = HeaderThreads.Hold full_request 0 /\
    HeaderThreads.items s !! 0 = Some (one_item 1) /\
    LocatorHeader.num_items (HeaderThreads.header s) = 1.
Proof.
  pose proof (HeaderThreads.steps_refl one_slot) as H. set (its0 := HeaderThreads.items one_slot).
  pose proof (HeaderThreads.locator_step_to _ _ 0 _ _ _ _ H eq_refl
    (HeaderThreads.l_start _ its0 full_request)) as H1.
  pose proof (HeaderThreads.locator_step_to _ _ 0 _ _ _ _ H1 eq_refl
    (HeaderThreads.l_usable _ its0 full_request 0 1 (one_item 0) eq_refl eq_refl eq_refl)) as H2.
  pose proof (HeaderThreads.locator_step_to _ _ 0 _ _ _ _ H2 eq_refl
    (HeaderThreads.l_swap _ its0 full_request 0 1 (one_item 0) eq_refl)) as H3.
  eexists. split; [exact H3|]. done.
Qed.

Lemma items_exclusive_witness :
  exists s, HeaderThreads.threads s 0%nat = HeaderThreads.Hold full_request 0 /\
    (forall u, u <> 0%nat -> HeaderThreads.owned (HeaderThreads.threads s u) <> Some 0) /\
    exists it, HeaderThreads.items s !! 0 = Some it /\ LocatorItem.is_taken it = 1.
Proof.
  destruct holding_run as (s & Hs & Ht & _). exists s. split; [exact Ht|].
  destruct (items_exclusive one_slot s one_slot_initial Hs) as (Hown & _ & _ & Hhold).
  destruct (Hhold 0%nat full_request 0 Ht) as (_ & it & Hit & _ & Htaken). split.
  - intros u Hne Hu. apply (Hown u 0%nat 0 Hne Hu). rewrite Ht. reflexivity.
  - exists it. split; assumption.
Defined.

(** The same thread, and then nobody. *)
Definition holding (n : nat) : HeaderThreads.state :=
  let its0 := HeaderThreads.items one_slot in
  let h := HeaderThreads.header one_slot in
  match n with
  | 0%nat => one_slot
  | 1%nat => {| HeaderThreads.header := h; HeaderThreads.items := its0;
      HeaderThreads.threads := <[0%nat := HeaderThreads.Scan full_request 0 1]> (fun _ => HeaderThreads.Idle) |}
  | 2%nat => {| HeaderThreads.header := h; HeaderThreads.items := its0;
      HeaderThreads.threads := <[0%nat := HeaderThreads.Swap full_request 0 1]>
        (<[0%nat := HeaderThreads.Scan full_request 0 1]> (fun _ => HeaderThreads.Idle)) |}
  | _ => {| HeaderThreads.header := h; HeaderThreads.items := <[0 := one_item 1]> its0;
      HeaderThreads.threads := <[0%nat := HeaderThreads.Hold full_request 0]>
        (<[0%nat := HeaderThreads.Swap full_request 0 1]>
          (<[0%nat := HeaderThreads.Scan full_request 0 1]> (fun _ => HeaderThreads.Idle))) |}
  end.
Definition who (n : nat) : option nat := if (n <? 3)%nat then Some 0%nat else None.

Lemma holding_execution : HeaderProgress.execution holding who.
Proof.
  split; [apply one_slot_initial|]. set (h := HeaderThreads.header one_slot).
  set (its := HeaderThreads.items one_slot). intros [|[|[|n]]]; [..|done];
    eexists _, _, _; (split; [|reflexivity]).
  - exact (HeaderThreads.l_start h its full_request).
  - exact (HeaderThreads.l_usable h its full_request 0 1 (one_item 0) eq_refl eq_refl eq_refl).
  - exact (HeaderThreads.l_swap h its full_request 0 1 (one_item 0) eq_refl).
Qed.

Lemma holding_other n t : t <> 0%nat -> HeaderThreads.threads (holding n) t = HeaderThreads.Idle.
Proof. intros Ht. destruct n as [|[|[|n]]]; simpl; by rewrite ?fn_lookup_insert_ne. Qed.

Lemma holding_fair : HeaderProgress.fair holding who.
Proof.
  intros t n Hb. destruct (decide (t = 0%nat)) as [->|Ht]; [|by rewrite holding_other in Hb].
  destruct n as [|[|[|n]]]; [done|exists 1%nat; split; [lia|done]|exists 2%nat; split; [lia|done]|done].
Qed.

Lemma holding_lucky t : HeaderProgress.lucky t holding who.
Proof.
  intros n Hs. destruct (decide (t = 0%nat)) as [->|Ht]; [|by rewrite holding_other in Hs].
  by destruct n as [|[|[|n]]].
Qed.

Lemma locator_progress_witness :
  (forall n, exists m, (n <= m)%nat /\
     LocatorHeader.is_locked (HeaderThreads.header (holding m)) = 0) /\
  (exists m, (1 <= m)%nat /\ HeaderProgress.busy (HeaderThreads.threads (holding m) 0%nat) = false).
Proof.
  destruct (locator_progress holding who holding_execution holding_fair) as [Hfree Hend].
  split; [exact Hfree|exact (Hend 0%nat 1%nat (holding_lucky 0%nat))].
Defined.

Section writing.
Import MemoryThreads.

(** One locator has an item, the others have none; a task appends two bytes
    to the item. *)
Definition no_slots : HeaderThreads.state :=
  {| HeaderThreads.header := first_header; HeaderThreads.items := ∅;
     HeaderThreads.threads := fun _ => HeaderThreads.Idle |}.
Definition writing_start : state :=
  {| locators := fun b => if b =? 0 then one_slot else no_slots;
     mapped := LocatorItem.in_buffer (one_item 0); bytes := ∅;
     appending := fun _ _ => None; log := [] |}.

Lemma writing_counted b i it :
  counted (locators writing_start b) i it -> b = 0 /\ i = 0 /\ it = one_item 0.
Proof.
  intros [Hi Hn]. simpl in Hi, Hn. destruct (Z.eqb_spec b 0) as [->|]; simpl in Hi, Hn; [|lia].
  by apply lookup_singleton_Some in Hi as [<- <-].
Qed.

Lemma writing_initial : initial writing_start.
Proof.
  constructor; [|by intros b i it x (_ & _ & ->)%writing_counted|done..].
  intros b. simpl. destruct (b =? 0); [exact one_slot_initial|].
  split; [|done]. constructor; simpl; [by vm_compute|by left|]. intros i Hi. lia.
Qed.

Lemma writing_apart x : ~ overlap writing_start x.
Proof.
  intros (b & i & it & c & j & jt & Hne & (-> & -> & _)%writing_counted
    & (-> & -> & _)%writing_counted & _). done.
Qed.

Lemma writing_run :
  exists s, steps writing_start s /\ (131072 + 16, [7; 9]) ∈ log s.
Proof.
  pose proof (steps_refl writing_start) as H. set (its0 := HeaderThreads.items one_slot).
  assert (Hq : forall p p', (forall rq i, p <> HeaderThreads.Hold rq i) ->
    (forall rq it, p' <> HeaderThreads.Store rq it) -> quiet p p').
  { intros p p' H1 H2. split; [exact H2|]. intros rq i Hp. destruct (H1 rq i Hp). }
  pose proof (quiet_to _ _ 0 0 _ _ _ H (HeaderThreads.l_start _ its0 full_request)
    ltac:(by apply Hq) eq_refl) as H1.
  pose proof (quiet_to _ _ 0 0 _ _ _ H1
    (HeaderThreads.l_usable _ its0 full_request 0 1 (one_item 0) eq_refl eq_refl eq_refl)
    ltac:(by apply Hq) eq_refl) as H2.
  pose proof (quiet_to _ _ 0 0 _ _ _ H2
    (HeaderThreads.l_swap _ its0 full_request 0 1 (one_item 0) eq_refl) ltac:(by apply Hq) eq_refl) as H3.
  eapply steps_one in H3; [|apply (m_append _ 0 0 full_request 0 (one_item 1) [7; 9]);
    [reflexivity|reflexivity|reflexivity|by vm_compute]].
  eapply steps_one in H3; [|by eapply (m_store _ 0 0 full_request 0 (one_item 1))].
  eapply steps_one in H3; [|by eapply (m_store _ 0 0 full_request 0 (one_item 1))].
  eapply steps_one in H3; [|by eapply (m_advance _ 0 0 full_request 0 (one_item 1))].
  eexists. split; [exact H3|]. by left.
Qed.

Lemma concurrent_appends_stay_witness :
  exists s, steps writing_start s /\ read_bytes (131072 + 16) 2 (bytes s) = Some [7; 9].
Proof.
  destruct writing_run as (s & Hs & Hin). exists s. split; [exact Hs|].
  destruct (concurrent_appends_stay writing_start s writing_initial Hs) as [H _].
  exact (H (131072 + 16) [7; 9] Hin (fun x _ => writing_apart x)).
Defined.

End writing.

Lemma one_slot_shows :
  shows first_address (item_world 0) (HeaderThreads.header one_slot) (HeaderThreads.items one_slot).
Proof.
  split; [apply lookup_insert_eq|]. intros i Hi. simpl. destruct (decide (i = 0)) as [->|Hne].
  - rewrite lookup_singleton_eq. by rewrite lookup_insert_eq.
  - rewrite lookup_singleton_ne by done. rewrite lookup_insert_ne; [done|].
    by intros ?%LocatorHeader.get_item_inj.
Qed.

Lemma sequential_refines_steps_witness :
  wp (take_item first_address full_request) (fun r w' => exists h' its',
    shows first_address w' h' its' /\
    match r with
    | Ok x => exists i, SafeLocatorItem.item x = LocatorHeader.get_item first_address i /\
        reaches 0 one_slot h' its' (HeaderThreads.Hold full_request i)
    | Err _ => reaches 0 one_slot h' its' HeaderThreads.Idle
    end) (item_world 0).
Proof.
  apply (sequential_refines_steps first_address [first_address] first_address full_request
    (item_world 0) 0%nat one_slot);
    [apply item_ready; by left|by apply list_elem_of_singleton|exact one_slot_shows|reflexivity
    |by vm_compute|by vm_compute|by vm_compute|by vm_compute].
Defined.

Lemma locks_accounted_witness :
  exists s, HeaderThreads.items s !! 0 = Some (one_item 1) /\
    exists t, HeaderThreads.owned (HeaderThreads.threads s t) = Some 0.
Proof.
  destruct holding_run as (s & Hs & Ht & Hit & Hn). exists s. split; [exact Hit|].
  assert (Hfree : forall i it, HeaderThreads.items one_slot !! i = Some it ->
    LocatorItem.is_taken it = 0).
  { intros i it. simpl. rewrite lookup_singleton_Some. intros [_ <-]. reflexivity. }
  destruct (locks_accounted one_slot s one_slot_initial Hfree Hs) as [_ H].
  apply (H 0 (one_item 1)); [rewrite Hn; lia|exact Hit|reflexivity].
Defined.

(** Another thread that gives the header back when this one yields. *)
Definition releasing : Scheduler system :=
  {| sched_yield w := set_headers (<[first_address := first_header]> (w_headers w)) w |}.
Definition locked_world : World system :=
  set_headers (<[first_address := LocatorHeader.set_is_locked 1 first_header]> (w_headers first_world))
    first_world.

Lemma locks_wait_witness :
  wp (HeaderPtr.lock (Sch := releasing) first_address) (fun _ w' =>
    w' = set_headers (<[first_address := LocatorHeader.set_is_locked 1 first_header]>
      (w_headers (yielded (Sch := releasing) 1 locked_world)))
      (yielded (Sch := releasing) 1 locked_world)) locked_world.
Proof.
  assert (Hn : Z.of_nat 1 < 2 ^ Z.of_nat loop_depth) by (by vm_compute).
  destruct (locks_wait (Sch := releasing) first_address 1 locked_world Hn) as [H _].
  apply (H first_header); [|by vm_compute|reflexivity].
  intros [|i] Hi; [|lia]. exists (LocatorHeader.set_is_locked 1 first_header).
  split; [by vm_compute|done].
Defined.

Section run.
Import LocatorHeader NextLocatorThreads.

(** A thread that extends the chain alone. *)
Lemma extension_run :
  initial last_locator /\ exists s, steps last_locator s /\ threads s 0%nat = Done (Some 135168).
Proof.
  split; [done|]. pose proof (steps_refl last_locator) as H.
  set (h0 := first_header). set (h1 := set_is_locked 1 h0).
  set (h2 := set_next_locator_ptr 135168 h1).
  pose proof (next_step_to _ _ 0 _ _ _ _ _ H eq_refl (l_none h0 [] [] eq_refl)) as H1.
  pose proof (next_step_to _ _ 0 _ _ _ _ _ H1 eq_refl (l_lock h0 [] [])) as H2.
  pose proof (next_step_to _ _ 0 _ _ _ _ _ H2 eq_refl (l_still_none h1 [] [] eq_refl)) as H3.
  assert (Ha : 135168 <> 0 /\ 135168 ∉ @nil Z) by (split; [done|apply not_elem_of_nil]).
  pose proof (next_step_to _ _ 0 _ _ _ _ _ H3 eq_refl
    (l_alloc h1 [] [] 135168 (proj1 Ha) (proj2 Ha))) as H4.
  pose proof (next_step_to _ _ 0 _ _ _ _ _ H4 eq_refl (l_link h1 [135168] [] 135168)) as H5.
  pose proof (next_step_to _ _ 0 _ _ _ _ _ H5 eq_refl (l_init h2 [135168] [])) as H6.
  pose proof (next_step_to _ _ 0 _ _ _ _ _ H6 eq_refl (l_unlock h2 [135168] [135168])) as H7.
  pose proof (next_step_to _ _ 0 _ _ _ _ _ H7 eq_refl
    (l_load (LocatorHeader.unlock h2) [135168] [135168])) as H8.
  eexists. split; [exact H8|]. reflexivity.
Qed.

Lemma next_locator_unique_witness :
  exists s, made s = [135168] /\ next_locator_ptr (header s) = 135168.
Proof.
  destruct extension_run as (Hi & s & Hs & Ht). exists s.
  destruct (next_locator_unique last_locator s 0%nat 135168 Hi Hs Ht) as (? & ? & _).
  split; assumption.
Defined.

End run.
