(* ===== verification/FindingTheorems.v ===== *)
(** * Theorems on what the code does besides what it means to

    Each states, for every input of the kind, a behaviour that a comment, the
    documentation or the C# implementation contradicts. *)

From Stdlib Require Import Ascii String.
From S2P Require Import Prelude Mathematics SysInfo Settings Errors Text Items Headers World.
From S2P Require Import Platform Kernel32.
From S2P Require Import ItemOps MapParser Posix MemoryMappedFiles Platform HeaderOps HeaderSpec.
From S2P Require Import HeaderWp HeaderInit HeaderNext Finder Buffers AllocWindows BuffersSpec ItemSpec.
From S2P Require Import CExports CSpec Toy ToyChain.
Import LocatorHeader.

Section headers.
Context `{T : Target} {OS : Type}.
Implicit Types w : World OS.

(** With more than 20 KiB per locator (Windows: 64 KiB), the preallocated
    items are not the disjoint chunks of the space behind the header: they all
    start at the same byte, and two searches of a fresh locator, with no item
    given back between them, return two different items that share bytes. *)
Theorem preallocated_buffers_overlap c len n lo hi w :
  cfg_macos_aarch64 = false -> 0 < c -> c + len <= usize_max ->
  LENGTH + LENGTH_OF_PREALLOCATED_CHUNKS < len
    <= LENGTH + MAX_ITEM_COUNT * LENGTH_OF_PREALLOCATED_CHUNKS ->
  n <= Z.min LENGTH_OF_PREALLOCATED_CHUNKS (len - LENGTH - LENGTH_OF_PREALLOCATED_CHUNKS) ->
  lo <= c + LENGTH -> c + LENGTH + LENGTH_OF_PREALLOCATED_CHUNKS <= hi ->
  wp (HeaderPtr.initialize c len ;;
      r1 ← HeaderPtr.get_first_available_item_locked c n lo hi;
      r2 ← HeaderPtr.get_first_available_item_locked c n lo hi;
      mret (r1, r2))
    (fun '(r1, r2) w' => exists s1 s2 it1 it2, r1 = Some s1 /\ r2 = Some s2 /\
       SafeLocatorItem.item s1 <> SafeLocatorItem.item s2 /\
       w_items w' !! SafeLocatorItem.item s1 = Some it1 /\
       w_items w' !! SafeLocatorItem.item s2 = Some it2 /\
       LocatorItem.in_buffer it1 (c + LENGTH) /\ LocatorItem.in_buffer it2 (c + LENGTH)) w.
Proof.
  intros Hmac Hc Hend Hlen Hn Hlo Hhi. pose proof MAX_ITEM_COUNT_range as Hmax.
  unfold LENGTH_OF_PREALLOCATED_CHUNKS in *.
  assert (HL : LENGTH = 4096) by done.
  wp_step. eapply wp_mono; [apply initialize_spec; [done|lia|]|].
  { unfold LENGTH_OF_PREALLOCATED_CHUNKS. lia. }
  intros [] w1 (its' & [Hin _] & ->). set (k := prealloc_count (len - LENGTH)) in *.
  destruct (prealloc_count_bounds (len - LENGTH)) as [_ Hk]; [lia|]. fold k in Hk.
  set (h := initialized c k _). set (w1 := set_headers _ _).
  assert (Hitem : forall i, 0 <= i < k -> LocatorItem.wf (prealloc_item c (len - LENGTH) i)).
  { intros i Hi. apply LocatorItem.new_item_wf; unfold is_u32, u32_max, u32_modulus,
      LENGTH_OF_PREALLOCATED_CHUNKS; lia. }
  assert (Hsuit : forall i, 0 <= i < 2 -> LocatorItem.provides (prealloc_item c (len - LENGTH) i) n lo hi
    /\ LocatorItem.in_buffer (prealloc_item c (len - LENGTH) i) (c + LENGTH)).
  { intros i Hi. unfold LocatorItem.in_buffer, prealloc_item, LENGTH_OF_PREALLOCATED_CHUNKS. simpl.
    split; [constructor; simpl; lia|lia]. }
  destruct (Hsuit 0) as [Hp0 Hb0]; [lia|]. destruct (Hsuit 1) as [Hp1 Hb1]; [lia|].
  assert (Ht1 : table_ok c h w1).
  { constructor; [apply lookup_insert_eq|simpl; lia|]. intros i Hi.
    exists (prealloc_item c (len - LENGTH) i). split; [by apply Hin|].
    split; [by apply Hitem|by left]. }
  set (i1 := prealloc_item c (len - LENGTH) 1). set (i0 := prealloc_item c (len - LENGTH) 0).
  assert (H0 : its' !! get_item c 0 = Some i0) by (apply Hin; lia).
  assert (H1 : its' !! get_item c 1 = Some i1) by (apply Hin; lia).
  assert (Hne : get_item c 0 <> get_item c 1) by (by intros ?%get_item_inj).
  wp_step. eapply wp_mono; [eapply scan_takes; [exact Ht1|]|].
  { apply (Build_first_free _ _ _ _ _ 0 i0); [simpl; lia|done|done|done|]. intros j jt. lia. }
  intros r1 w2 [-> ->]. wp_step.
  eapply wp_mono; [eapply scan_takes; [eapply (table_take _ _ _ 0 i0); [exact Ht1|done|apply Hitem; lia]|]|].
  { apply (Build_first_free _ _ _ _ _ 1 i1); [simpl; lia| |done|done|].
    - simpl. by rewrite lookup_insert_ne.
    - intros j jt Hj. assert (j = 0) as -> by lia. simpl. rewrite lookup_insert_eq.
      by intros [= <-]. }
  intros r2 w3 [-> ->]. wp_step. eexists _, _, (LocatorItem.set_is_taken 1 i0), _.
  split; [done|]. split; [done|]. split; [done|]. simpl.
  split; [rewrite lookup_insert_ne by done; apply lookup_insert_eq|].
  split; [apply lookup_insert_eq|]. done.
Qed.

(** [SafeLocatorItem::append_copy] writes the bytes of the reference it
    is given, not those of the value behind it, and takes their number from
    the pointer width. *)
Theorem append_copy_writes_pointer s p it (data : Z) w :
  SafeLocatorItem.item s = p ->
  has_room p it (SafeLocatorItem.pointer_bytes data) w ->
  wp (SafeLocatorItem.append_copy s data) (fun addr w' =>
    read_bytes addr (Z.to_nat size_of_usize) (w_bytes w')
      = Some (SafeLocatorItem.pointer_bytes data)) w.
Proof.
  intros <- Hroom. eapply wp_mono; [by apply append_copy_spec|]. intros addr w' Happ.
  replace (Z.to_nat size_of_usize) with (length (SafeLocatorItem.pointer_bytes data)).
  - by eapply appended_reads.
  - unfold SafeLocatorItem.pointer_bytes, size_of_usize. by destruct ptr_width.
Qed.

(** On Apple silicon the appends make the first bytes of the buffer
    writable, not those they write: behind the first [length data] bytes the
    two ranges are disjoint. *)
Theorem append_unprotects_elsewhere p it data w :
  cfg_macos_aarch64 = true -> has_room p it data w ->
  Z.of_nat (length data) <= LocatorItem.position it ->
  wp (ItemPtr.append_bytes p data) (fun addr w' => exists rest,
    w_trace w' = w_trace w ++ EvProtect (LocatorItem.base_address it) (Z.of_nat (length data)) false
      :: EvWrite addr (Z.of_nat (length data)) :: rest /\
    (forall x, addr <= x < addr + Z.of_nat (length data) ->
      ~ (LocatorItem.base_address it <= x
         < LocatorItem.base_address it + Z.of_nat (length data)))) w.
Proof.
  intros Hmac Hroom Hpos. eapply wp_mono; [by apply append_bytes_spec|].
  intros addr w' [-> _ _ _ _ Ht]. eexists. split.
  - rewrite Ht. unfold protect_events. rewrite Hmac. reflexivity.
  - intros x Hx. lia.
Qed.

(** The C function [overwrite_allocated_code] flushes a range whose length
    is computed from [source]: unless source and target are the same address,
    it is not the range written. *)
Theorem c_overwrite_flushes_elsewhere source target size data w :
  target_x86 = false -> cfg_windows = true ->
  0 <= size -> is_usize source -> is_usize target -> source + size <= usize_max ->
  source <> target -> read_bytes source (Z.to_nat size) (w_bytes w) = Some data ->
  wp (CExports.overwrite_allocated_code source target size) (fun _ w' => exists n,
    list.last (w_trace w') = Some (EvFlush target n) /\ n <> size) w.
Proof.
  intros Hx Hw Hs [Hs0 Hs1] [Ht0 Ht1] Hend Hne Hread.
  eapply wp_mono; [by eapply c_overwrite_flush|].
  intros [] w' Hlast. eexists. split; [exact Hlast|].
  rewrite add_usize_small by lia. unfold sub_usize, wrap_usize, usize_max in *.
  intros Heq. apply Hne. pose proof usize_modulus_pos as Hm.
  assert (Hm0 : usize_modulus <> 0) by lia.
  pose proof (Z.div_mod (source + size - target) usize_modulus Hm0) as Hdm.
  rewrite Heq in Hdm. revert Hdm. generalize ((source + size - target) / usize_modulus) as k.
  intros k Hdm. assert (k = 0) as ->; [|lia]. nia.
Qed.

End headers.

Section windows.
Context `{T : Target} `{Q : SysQuery} {OS : Type} `{Mem : !Memory OS} `{K : !Kernel32 OS}
  `{KL : !Kernel32Laws}.

(** Memory that Windows gave at another address than the one asked for is
    not given back: the call that frees it passes a size with MEM_RELEASE and
    is refused. *)
Theorem misplaced_memory_leaks s addr a os os1 :
  os_ok os -> 0 < BufferAllocatorSettings.size s ->
  virtual_alloc addr (BufferAllocatorSettings.size s) os = (a, os1) ->
  a <> 0 -> a <> addr ->
  wp (AllocWindows.try_address s addr) (fun r os' => r = None /\
    forall x, a <= x < a + BufferAllocatorSettings.size s -> ~ owned os x /\ owned os' x) os.
Proof. apply try_address_leak. Qed.

End windows.

Section sizes.
Context `{T : Target} `{Q : SysQuery} `{HQ : !SysQueryOk}.

(** A size within one granule of 4 GiB is sanitized to 0. *)
Theorem sanitize_large_size s :
  BufferAllocatorSettings.wf s -> (granularity | u32_modulus) ->
  u32_modulus - granularity < BufferAllocatorSettings.size s ->
  BufferAllocatorSettings.size (BufferAllocatorSettings.sanitize s) = 0.
Proof.
  intros [_ _ [Hs0 Hs1]] [q Hq] Hbig. pose proof granularity_range as Hg.
  rewrite BufferAllocatorSettings.sanitize_size. unfold u32_max, u32_modulus in *.
  rewrite Z.max_l by lia. set (n := BufferAllocatorSettings.size s) in *.
  assert (Hr : n mod granularity = n - (q - 1) * granularity).
  { symmetry. apply (Z.mod_unique _ _ (q - 1)); lia. }
  assert (Hu : n <= usize_max /\ granularity <= usize_max /\ 4294967295 <= usize_max).
  { pose proof (u32_le_usize 4294967295) as H. unfold is_u32, is_usize, u32_max, u32_modulus in H. lia. }
  rewrite round_up_wrapped by (unfold is_usize; lia).
  destruct (Z.eqb_spec (n mod granularity) 0); [lia|].
  replace (n + granularity - n mod granularity) with 4294967296 by lia.
  unfold wrap_usize, as_u32, u32_modulus.
  destruct usize_modulus_cases as [-> | ->]; reflexivity.
Qed.

End sizes.

Section errors.
Context `{T : Target} `{Q : SysQuery} {OS : Type} `{PX : Posix OS} `{WM : WindowsMemory OS}
  `{R : PrivateAllocation.Releases OS} `{CS : CStrings OS}.

(** The empty allocation inside an error result is dropped with the result.
    Where the drop goes through mmap-rs, which maps no range of 0 bytes,
    [free_allocation_result] panics on every error. *)
Theorem c_free_error_panics res (w : World OS) :
  target_os = Android \/ target_os = OtherUnix ->
  (forall os, (PrivateAllocation.mmap_rs_unmap_existing 0 0 os).1 = false) ->
  ar_is_ok res = false -> ar_ok res = PrivateAllocation.null ->
  exists msg, free_allocation_result res w = Panic msg.
Proof.
  intros Htarget Hzero Hok Hnull. unfold free_allocation_result, free_string.
  rewrite Hok, Hnull. unfold PrivateAllocation.drop, PrivateAllocation.drop_mmap_rs.
  assert (Hdrop : forall w, exists msg,
    lift_os (ok ← call (PrivateAllocation.mmap_rs_unmap_existing 0 0);
      if (ok : bool) then mret tt else panic "called `Result::unwrap()` on an `Err` value") w
    = Panic msg).
  { intros w1. unfold lift_os, mbind, M_bind, call. specialize (Hzero (w_os w1)).
    destruct (PrivateAllocation.mmap_rs_unmap_existing 0 0 (w_os w1)) as [ok os'].
    simpl in Hzero. rewrite Hzero. by eexists. }
  unfold mbind at 1, M_bind at 1. destruct (_ =? 0); simpl.
  - destruct Htarget as [-> | ->]; apply Hdrop.
  - unfold lift_os at 1, call at 1. destruct (drop_raw _ _) as [u os'].
    destruct Htarget as [-> | ->]; apply Hdrop.
Qed.

End errors.

Section maps.
Context {OS : Type} `{PX : Posix OS} `{SA : StringAlloc}.

(** When the first read of a map file fills the string, the next one asks for 0
    bytes, and its empty answer is taken for the end of the file: the rest of
    the file is not read, however long it is. *)
Theorem map_file_cut path fd bytes os os1 os2 os3 :
  has_nul path = false -> string_capacity BUFFER_SIZE = BUFFER_SIZE ->
  posix_open path O_RDONLY os = (fd, os1) -> 0 <= fd ->
  posix_read fd BUFFER_SIZE os1 = (Some bytes, os2) ->
  Z.of_nat (String.length bytes) = BUFFER_SIZE ->
  posix_read fd 0 os2 = (Some ""%string, os3) ->
  wp (read_to_string path) (fun content os' => content = bytes /\ os' = (posix_close fd os3).2) os.
Proof.
  intros Hnul Hcap Hopen Hfd Hread Hlen Hempty. unfold read_to_string, CString_new. rewrite Hnul.
  wp_step. wp_step. wp_step. apply wp_call. rewrite Hopen. cbn [fst snd].
  destruct (Z.ltb_spec fd 0); [lia|]. wp_step. rewrite Hcap.
  apply (wp_loop _ (fun m (x : string * Z) os' => let (content, capacity) := x in
    capacity = BUFFER_SIZE /\ (m = 1 /\ content = ""%string /\ os' = os1 \/
      m = 0 /\ content = bytes /\ os' = os2))) with (n := 1); [|by split; [|left]|done].
  intros m [content capacity] os' (-> & [(-> & -> & ->)|(-> & -> & ->)]) _; wp_step; apply wp_call.
  - change (BUFFER_SIZE - Z.of_nat (String.length "")) with BUFFER_SIZE. rewrite Hread.
    cbn [fst snd]. destruct bytes as [|c bytes]; [done|]. wp_step. exists 0. split; [lia|].
    split; [done|]. right. by rewrite append_nil.
  - replace (BUFFER_SIZE - Z.of_nat (String.length bytes)) with 0 by lia. rewrite Hempty.
    cbn [fst snd]. wp_step. wp_step. apply wp_call. by wp_step.
Qed.

End maps.

(** ** Runs *)

(** 64 KiB, as on Windows. *)
Lemma preallocated_buffers_overlap_witness :
  wp (HeaderPtr.initialize 65536 65536 ;;
      r1 ← HeaderPtr.get_first_available_item_locked 65536 4096 65536 0x7FFFFFFF;
      r2 ← HeaderPtr.get_first_available_item_locked 65536 4096 65536 0x7FFFFFFF;
      mret (r1, r2))
    (fun '(r1, r2) w' => exists s1 s2 it1 it2, r1 = Some s1 /\ r2 = Some s2 /\
       SafeLocatorItem.item s1 <> SafeLocatorItem.item s2 /\
       w_items w' !! SafeLocatorItem.item s1 = Some it1 /\
       w_items w' !! SafeLocatorItem.item s2 = Some it2 /\
       LocatorItem.in_buffer it1 (65536 + LENGTH) /\ LocatorItem.in_buffer it2 (65536 + LENGTH))
    empty_world.
Proof.
  apply (preallocated_buffers_overlap 65536 65536 4096 65536 0x7FFFFFFF empty_world);
    first [done|by vm_compute].
Defined.

Lemma append_copy_writes_pointer_witness :
  SafeLocatorItem.pointer_bytes 0x1234 = [0x34; 0x12; 0; 0; 0; 0; 0; 0] /\
  wp (SafeLocatorItem.append_copy {| SafeLocatorItem.item := get_item first_address 0 |} 0x1234)
    (fun addr w' => read_bytes addr (Z.to_nat size_of_usize) (w_bytes w')
      = Some (SafeLocatorItem.pointer_bytes 0x1234))
    (item_world 1).
Proof.
  split; [by vm_compute|].
  apply (append_copy_writes_pointer {| SafeLocatorItem.item := get_item first_address 0 |}
    (get_item first_address 0) (one_item 1) 0x1234 (item_world 1)); [done|].
  split; [apply item_lookup|]. split; [|by vm_compute].
  constructor; simpl; [lia|done|lia|]. by vm_compute.
Defined.

Definition apple : Target :=
  {| ptr_width := W64; target_os := MacOS; target_aarch64 := true; target_x86 := false;
     feature_all_private := true; feature_no_format := false |}.

Lemma append_unprotects_elsewhere_witness :
  wp (ItemPtr.append_bytes (T := apple) (get_item first_address 0) [1; 2; 3]) (fun addr w' =>
    exists rest,
    w_trace w' = [] ++ EvProtect 131072 3 false :: EvWrite addr 3 :: rest /\
    (forall x, addr <= x < addr + 3 -> ~ (131072 <= x < 131072 + 3))) (item_world 1).
Proof.
  apply (append_unprotects_elsewhere (T := apple) (get_item first_address 0) (one_item 1) [1; 2; 3]
    (item_world 1)); [done| |by vm_compute].
  split; [apply item_lookup|]. split; [|by vm_compute].
  constructor; simpl; [lia|done|lia|]. by vm_compute.
Defined.

Lemma c_overwrite_flushes_elsewhere_witness :
  wp (CExports.overwrite_allocated_code (T := target Windows) 4096 8192 2) (fun _ w' =>
    exists n, list.last (w_trace w') = Some (EvFlush 8192 n) /\ n <> 2)
    (set_bytes (<[4096 := 7]> (<[4097 := 9]> ∅)) empty_world).
Proof.
  apply (c_overwrite_flushes_elsewhere (T := target Windows) 4096 8192 2 [7; 9]);
    (done || by vm_compute).
Defined.

Lemma misplaced_memory_leaks_witness :
  wp (AllocWindows.try_address (K := LocalKernel32 (T := target Windows) (H := memory_with 65536))
    request 131072) (fun r os' => r = None /\
    forall x, 196608 <= x < 196608 + 4096 -> ~ owned first_os x /\ owned os' x) first_os.
Proof.
  apply (misplaced_memory_leaks (T := target Windows) (Q := toy_query)
    (K := LocalKernel32 (T := target Windows) (H := memory_with 65536))
    (KL := local_kernel32_laws (WML := toy_windows_memory_laws (p := true) (o := Windows) 65536))
    request 131072 196608 first_os
    {| maps := maps first_os ++ [(196608, 200704)]; unread := "" |});
    [apply (inv_os _ _ _ (proj1 first_ready))|done|by vm_compute|done|done].
Defined.

Definition huge_request : BufferAllocatorSettings :=
  BufferAllocatorSettings.set_size 4294967295 request.

Lemma sanitize_large_size_witness :
  BufferAllocatorSettings.size (BufferAllocatorSettings.sanitize huge_request) = 0.
Proof.
  apply (sanitize_large_size huge_request); [|by exists 1048576|by vm_compute].
  constructor; by vm_compute.
Defined.

(** No range of 0 bytes is mapped. *)
Definition refusing : PrivateAllocation.Releases system := {|
  PrivateAllocation.mach_vm_deallocate := PrivateAllocation.mach_vm_deallocate;
  PrivateAllocation.mmap_rs_unmap_existing addr size s := (negb (size =? 0), remove addr size s)
|}.

Lemma c_free_error_panics_witness :
  exists msg, free_allocation_result (T := target Android) (R := refusing)
    {| ar_is_ok := false; ar_ok := PrivateAllocation.null; ar_err := 1 |} empty_world = Panic msg.
Proof.
  by apply (c_free_error_panics (T := target Android) (R := refusing)); [left|..].
Defined.

(** A file of 131073 bytes, of which a read gives as many as it is asked for:
    the last one is never read. *)
Fixpoint repeated (n : nat) : string :=
  match n with O => ""%string | S n => String "a" (repeated n) end.

Lemma repeated_length n : String.length (repeated n) = n.
Proof. induction n as [|n IH]; [done|]. simpl. by rewrite IH. Qed.

(** The state is how many bytes are left. *)
Definition long_reads : Posix Z := {|
  posix_open path flags s := (3, 131073);
  posix_close fd s := (tt, s);
  posix_read fd n s := (Some (repeated (Z.to_nat (Z.min n s))), s - Z.min n s);
  posix_ftruncate fd len s := (tt, s);
  posix_mmap addr len flags fd off s := (0, s);
  posix_munmap addr len s := (0, s);
  posix_unlink path s := (tt, s);
  posix_stat path s := (None, s);
  posix_mkdir path s := (0, s);
  posix_opendir path s := (0, s);
  posix_readdir dir s := (None, s);
  posix_closedir dir s := (tt, s);
  posix_kill pid sig s := (0, s);
  posix_errno s := (0, s)
|}.

Lemma map_file_cut_witness :
  wp (read_to_string (PX := long_reads) (SA := toy_string_alloc) "/proc/1/maps")
    (fun content os' => content = repeated (Z.to_nat BUFFER_SIZE) /\ os' = 1) 0.
Proof.
  apply (map_file_cut (PX := long_reads) (SA := toy_string_alloc) "/proc/1/maps" 3
    (repeated (Z.to_nat BUFFER_SIZE)) 0 131073 1 1); [done|done|done|lia|done| |done].
  by rewrite repeated_length.
Defined.
